(* ===== verification/_CoqProject ===== *)
-Q . S2P
Prelude.v
CString.v
CFloat.v
Clock.v
Tokenizer.v
Allocator.v
AllocLayout.v
AllocFit.v
AllocSafe.v
AllocFree.v
AllocDemo.v
AllocSpec.v
AllocProgs.v
AllocReport.v
History.v
ShellTokenizer.v
Jobs.v
JobsInterrupt.v
JobSlots.v
Pipeline.v
Shell.v
ShellSession.v
Scheduler.v
SchedSelect.v
SchedRun.v
SchedSpec.v
SchedChoice.v
SchedIdle.v
SchedGap.v
SchedReport.v
SchedClock.v
SpecFile.v
SchedMain.v
Timestamp.v
WebServer.v
Inspector.v
InspectorSpec.v
InspectorFloat.v
InspectorMain.v
Labs.v
LabTiming.v
LabNet.v
