(* ===== verification/Prelude.v ===== *)
(** A model of the cs326 operating-systems projects, with the theorems that
    make them correct.

    THE PROGRAM.  The repository holds four C projects and a set of labs that
    share almost no code: a memory allocator (Project3), a shell with history,
    pipelines and background jobs (Project2, and its pipeline code again in
    LabWork/Lab9), a user-level process scheduler (LabWork/Lab7), a web server
    (Project4), a /proc inspector (Project1) and small exercises.  What they do
    share is one string tokenizer, next_token, copied into five files.

    FILES, and the code they model (under src/).
    - Prelude: results of C code as values, machine integers, generic lemmas on
      lists, and the tactics.  CString: character arrays, C strings and the
      library functions on them, decimal printing and reading.  CFloat: float and
      double arithmetic with bounds on its errors.
    - Tokenizer (Project4/next_token.c): next_token over an array, the
      splitting it computes, and the class Tokenizer through which clients use
      it.
    - Allocator (Project3/allocator.c): the block list, malloc, free, calloc,
      realloc, reuse with its three policies, the state dump.  AllocLayout says
      what a well-formed heap is (layout: the list of blocks as a list of
      regions, each cut into blocks); AllocFit proves the policies through the
      class FitPolicy; AllocSafe and AllocFree prove that malloc and free keep
      the layout; AllocDemo is a concrete heap; AllocSpec states the abstract
      allocator and the theorems; AllocReport the dump and the policies;
      AllocProgs the test programs (Project3/tests/progs) as clients.
    - History (Project2/history.c), ShellTokenizer (Project2/tokenizer.c and
      tokenizer in shell.c), Jobs, Pipeline and Shell (Project2/shell.c): the
      ring of past commands; words with quotes; the table of background jobs
      and its SIGCHLD handler; the parse of a line into commands and their
      execution with the descriptors of each process; one iteration of main.
      JobsInterrupt: entries of jobs that the handler interrupts.  JobSlots:
      the table whatever waitpid reports to the handler.  ShellSession: the loop
      of main, over lines and runs of the handler.
      Pipeline also holds leetify (LabWork/Lab9/leetify.c).
    - Clock (LabWork/Lab7/workload.c, and the same function in
      Project2/timer.c): the clock of the scheduler in floating point.
      Scheduler (LabWork/Lab7/scheduler.c and scheduler.h): PCBs,
      algorithms, context switches, the progress line, the summary. SchedSelect:
      the class Selector, what main needs of an algorithm, and its instances.
      SchedRun: the invariant and measure of a run. SchedSpec, SchedChoice,
      SchedReport: the theorems. SchedIdle, SchedGap: runs whose arrivals leave
      gaps. SchedClock: the times of a run. SpecFile (file_format.c): process
      specification files. SchedMain: main, from the file to the summary.
    - WebServer (Project4/www.c): lines of a request, the response, one
      connection, main.  Timestamp: the date in a response, from the clock.
    - Inspector (Project1/inspector.c): the options, the search for a word in a
      file, the system, hardware and task sections, the task list, and their
      order in main.  InspectorSpec, InspectorFloat: the theorems about words and
      sections, and about the percentages.  InspectorMain: whole runs.
    - Labs: the sum and the counts of LabWork/Lab3, the preloaded open of
      LabWork/Lab6 (rick-ropen.c, open-log.c), the permission check of
      LabWork/Lab10.  LabTiming: the calibration of the scheduler's workload
      (LabWork/Lab7/workload.c) and the counter with signal handlers
      (LabWork/Lab8/signal.c).  LabNet: the client and server of
      LabWork/Lab11.

    FLOATING POINT.  A float or double is a value of SpecFloat, the executable
    specification of IEEE 754 in the Standard Library, and an operation of C its
    correctly rounded operation.  A theorem about a result bounds it: between E A B f
    says that f lies between A and B, in units of 2^E.

    HOW STATE AND EFFECTS ARE MODELLED.  A C function is a Rocq function of the
    same name from the state it reads to the state it leaves and its result,
    in the monad outcome: Ok, Undef with the kind of undefined behaviour, or
    OutOfFuel when a loop is cut off.  A theorem that a function returns Ok
    therefore says that it ends and stays within its memory.  Memory is modelled
    where the code depends on it: the allocator's headers at their addresses
    and the bytes of payloads; the arrays next_token writes into; the
    descriptor tables that pipes and dup2 build.  What the kernel decides is an
    argument (the address of a mapping, whether a system call succeeds, the
    child waitpid reports, a clock reading, whether the alarm went off, what rand
    draws), so the theorems hold for every behaviour of it.  The hypotheses on
    such arguments are documented behaviour: mmap returns page-aligned addresses
    apart from the mappings it is given (class MmapSpec), shown possible by the
    bump allocator of AllocDemo; the draws of rand sooner or later hit each
    process (hits), shown possible by hits_seq.

    FUEL.  Loops over the block list get one more step than there are headers,
    tokenizing loops one more than characters, read_spec and the server's
    header loop one more than characters left; the theorems show that this is
    enough.  Loops that may never end (the workload calibration, the reads of
    LabNet) take their fuel as an argument, and the theorems say for which
    inputs some fuel is enough and for which none is.  The draws of insanity are
    a list as long as one likes, which the hypothesis hits asks to be long
    enough.  The scheduler has no fuel: a run is driven by a list of inputs, one
    per step, and SchedSpec gives the number of steps after which every process
    has ended.

    GROUPS OF THEOREMS.
    - Allocator: every sequence of calls refines an abstract allocator over
      live payloads; payloads are aligned, disjoint and mapped; malloc, calloc
      and free on every branch; which block each policy returns; the dump; what
      a size near the largest one and two unserialised calls do; that the test
      programs get what they test for, and the one that cannot (realloc).
    - Shell: a whole session starts the processes of its pipelines with the
      right descriptors, history shows the lines, and num_jobs the running
      jobs but for those that a report of 0 to the handler takes off its list
      (as after a foreground command that ends meanwhile); which stages of a pipeline run, and with which descriptors,
      when system calls fail; the parser splits a line into its stages; the job table is
      the list of running jobs as long as there are fewer than ten, wherever
      the SIGCHLD handler interrupts an entry, but for one place; history
      numbering; what !!, !n and !prefix do, and where they overrun.
    - Scheduler: when the arrivals leave no gap (as in all four specification
      files of the repository) every process completes, whatever the alarms,
      under any algorithm that picks a waiting process; up to the first gap
      exactly one runs; which process each algorithm picks, and when it keeps
      the current one; fairness of round robin; with any arrivals,
      a run completes or gets stuck, in a way that depends on the algorithm,
      when nothing waits; the specification file parser and its round trip; any
      file is read to its end, what is read is well typed, and main runs it to
      completion and prints a summary whose times are exact to a hundredth of a
      second.
    - Tokenizer and web server: the tokens of a string; one response for each
      well-formed request and none for the others, with the file and the date;
      that the date keeps the calendar, second by second.
    - Inspector: the word found, or the NULL dereferenced; the uptime printed
      against the seconds it stands for; the range of the percentages and their
      bars; the whole output of main, up to the first file it cannot open or
      the first undefined behaviour.
    - Labs: the counts of a text against a reference definition; when the
      calibration ends, and that its result fits its type; which client
      reaches the server, that any line typed there is undefined behaviour (and
      what it would send but for one uninitialised pointer), that the server
      prints the messages that arrive, and that it then reads for ever.

    NOT MODELLED. The mutex of the allocator is never taken by the
    code. Terminal input, the system calls themselves and messages to stderr are
    left out, as are the scheduler's messages about switches.
    LabWork/Lab6/hidden.c does not compile and ghost.c only kills processes.
    The theorems on runs of the scheduler stop short of the quantum counter
    wrapping around, after 2^32 switches. *)
From Stdlib Require Import ZArith Lia.
From stdpp Require Import prelude gmap strings numbers list.

(** * Undefined behaviour as values

    A C function either returns, or performs an access whose behaviour the
    language leaves undefined; a loop that is cut off by its fuel is kept
    apart from both, so that termination is a theorem. *)
Inductive ub :=
  | NullDeref      (* dereference of NULL *)
  | OutOfBounds    (* access outside an object *)
  | Unmapped       (* access to an address no live object owns *)
  | Uninitialised  (* use of an indeterminate value *)
  | BadFree        (* free of a pointer malloc did not return *)
  | IntOverflow    (* overflow of a signed integer *)
  | AssertFailure. (* an assertion that does not hold: the program aborts *)

Inductive outcome (A : Type) :=
  | Ok (a : A)
  | Undef (why : ub)
  | OutOfFuel.
Arguments Ok {A} _.
Arguments Undef {A} _.
Arguments OutOfFuel {A}.

#[export] Instance ub_eq_dec : EqDecision ub.
Proof. solve_decision. Defined.
#[export] Instance outcome_eq_dec `{EqDecision A} : EqDecision (outcome A).
Proof. solve_decision. Defined.

#[export] Instance outcome_ret : MRet outcome := fun _ a => Ok a.
#[export] Instance outcome_bind : MBind outcome := fun _ _ f m =>
  match m with Ok a => f a | Undef w => Undef w | OutOfFuel => OutOfFuel end.
#[export] Instance outcome_fmap : FMap outcome := fun _ _ f m =>
  match m with Ok a => Ok (f a) | Undef w => Undef w | OutOfFuel => OutOfFuel end.

(** An option read as an access that must succeed. *)
Definition require {A} (why : ub) (o : option A) : outcome A :=
  match o with Some a => Ok a | None => Undef why end.

Lemma bind_Ok {A B} (f : A → outcome B) m b :
  (m ≫= f) = Ok b ↔ ∃ a, m = Ok a ∧ f a = Ok b.
Proof. destruct m; simpl; split; [eauto|by intros (?&[= ->]&?)|done|by intros (?&?&?)|done|by intros (?&?&?)]. Qed.

Lemma fmap_Ok {A B} (f : A → B) (m : outcome A) b :
  f <$> m = Ok b ↔ ∃ a, m = Ok a ∧ b = f a.
Proof. destruct m; simpl; split; naive_solver. Qed.

Lemma require_Ok {A} why (o : option A) a : require why o = Ok a ↔ o = Some a.
Proof. destruct o; simpl; naive_solver. Qed.

Lemma bind_assoc {A B C} (m : outcome A) (f : A → outcome B) (g : B → outcome C) :
  ((m ≫= f) ≫= g) = (m ≫= (λ a, f a ≫= g)).
Proof. by destruct m. Qed.

(** Reading the result of a closed computation. *)
Definition is_ok {A} (m : outcome A) : bool := match m with Ok _ => true | _ => false end.
Definition get {A} (d : A) (m : outcome A) : A := match m with Ok a => a | _ => d end.
Definition returns {A} (p : Z) (m : outcome (A * Z)) : bool :=
  match m with Ok (_, q) => Z.eqb q p | _ => false end.

Lemma is_ok_get {A} (d : A) m : is_ok m = true → m = Ok (get d m).
Proof. by destruct m. Qed.
Lemma returns_get {A} (d : A * Z) m p : returns p m = true → m = Ok ((get d m).1, p).
Proof. destruct m as [[a q]| |]; [|done..]. by intros ->%Z.eqb_eq. Qed.

(** Inverts every successful bind of the context. *)
Ltac inv_ok :=
  repeat match goal with
  | H : Ok _ = Ok _ |- _ => injection H as H; subst
  | H : Undef _ = Ok _ |- _ => discriminate H
  | H : OutOfFuel = Ok _ |- _ => discriminate H
  | H : mbind _ _ = Ok _ |- _ => apply bind_Ok in H as (? & ? & ?)
  | H : fmap _ _ = Ok _ |- _ => apply fmap_Ok in H as (? & ? & ?)
  | H : require _ _ = Ok _ |- _ => apply require_Ok in H
  | p : (_ * _)%type |- _ => destruct p
  end; simplify_eq/=.

(** Splits on the outermost conditional of the goal or of a hypothesis. *)
Ltac case_code :=
  match goal with
  | |- context [decide ?P] => destruct (decide P)
  | H : context [decide ?P] |- _ => destruct (decide P)
  end.

(** Decides a closed proposition by evaluation. *)
Ltac decide_now := apply (bool_decide_eq_true_1 _); vm_compute; reflexivity.

(** * Machine integers

    [unsigned int] and [size_t] values are integers reduced modulo their
    width; a conversion to [int] is the two's complement one. *)
Module CInt.
Definition INT_MAX : Z := 2147483647.
Definition INT_MIN : Z := -2147483648.
Definition UINT_MAX : Z := 4294967295.
Definition wrap32 (z : Z) : Z := z `mod` 4294967296.
Definition wrap64 (z : Z) : Z := z `mod` 18446744073709551616.
Definition to_int (z : Z) : Z :=
  let u := wrap32 z in if decide (u ≤ INT_MAX)%Z then u else (u - 4294967296)%Z.
(** The result of a signed [int] operation. *)
Definition int_result (z : Z) : outcome Z :=
  if decide (INT_MIN ≤ z ≤ INT_MAX)%Z then Ok z else Undef IntOverflow.

Lemma wrap32_small z : (0 ≤ z ≤ UINT_MAX)%Z → wrap32 z = z.
Proof. intros. apply Z.mod_small. unfold UINT_MAX in *. lia. Qed.
Lemma wrap64_small z : (0 ≤ z < 18446744073709551616)%Z → wrap64 z = z.
Proof. apply Z.mod_small. Qed.
Lemma wrap64_range z : (0 ≤ wrap64 z < 18446744073709551616)%Z.
Proof. apply Z.mod_pos_bound. lia. Qed.
Lemma wrap32_range z : (0 ≤ wrap32 z ≤ UINT_MAX)%Z.
Proof. pose proof (Z.mod_pos_bound z 4294967296). unfold wrap32, UINT_MAX. lia. Qed.
Lemma to_int_small z : (0 ≤ z ≤ INT_MAX)%Z → to_int z = z.
Proof.
  intros H. unfold to_int. rewrite wrap32_small by (unfold UINT_MAX, INT_MAX in *; lia).
  rewrite decide_True by lia. done.
Qed.
Lemma int_result_ok z : (INT_MIN ≤ z ≤ INT_MAX)%Z → int_result z = Ok z.
Proof. intros. unfold int_result. by rewrite decide_True. Qed.
End CInt.

(** * Lists *)
Section lists.
Context {A : Type}.
Implicit Types (l k : list A).

Lemma drop_app_exact l k n : n = length l → drop n (l ++ k) = k.
Proof. intros ->. by rewrite drop_app_length. Qed.

Lemma take_app_exact l k n : n = length l → take n (l ++ k) = l.
Proof. intros ->. by rewrite take_app_length. Qed.

Lemma lookup_middle_eq l k (a : A) n : n = length l → (l ++ a :: k) !! n = Some a.
Proof. intros ->. by rewrite list_lookup_middle. Qed.

Lemma insert_middle l k (a b : A) n :
  n = length l → <[n := b]> (l ++ a :: k) = l ++ b :: k.
Proof. intros ->. by rewrite insert_app_r_alt, Nat.sub_diag by lia. Qed.

(** The longest prefix whose elements satisfy [f], and what follows it. *)
Fixpoint take_while (f : A → bool) l : list A :=
  match l with [] => [] | a :: l' => if f a then a :: take_while f l' else [] end.
Fixpoint drop_while (f : A → bool) l : list A :=
  match l with [] => [] | a :: l' => if f a then drop_while f l' else l end.

Lemma take_drop_while f l : take_while f l ++ drop_while f l = l.
Proof. induction l; simpl; [done|]. destruct (f a); simpl; by f_equal. Qed.
Lemma take_while_all f l : Forall (λ a, f a = true) (take_while f l).
Proof. induction l; simpl; [done|]. destruct (f a) eqn:?; by constructor. Qed.
Lemma drop_while_head f l a k : drop_while f l = a :: k → f a = false.
Proof.
  induction l as [|b l IH]; simpl; [done|].
  destruct (f b) eqn:?; [by apply IH|]. by intros [= <- <-].
Qed.
Lemma length_drop_while f l : length (drop_while f l) ≤ length l.
Proof. induction l; simpl; [done|]. destruct (f a); simpl; lia. Qed.
Lemma take_while_app_stop f l a k :
  Forall (λ a, f a = true) l → f a = false → take_while f (l ++ a :: k) = l.
Proof.
  intros Hl Ha. induction Hl as [|b l Hb Hl IH]; simpl; [by rewrite Ha|].
  rewrite Hb. by f_equal.
Qed.
End lists.

Create HintDb cverif.
Create Rewrite HintDb len_db.
#[export] Hint Rewrite @length_app @length_insert @length_drop @length_take
  @length_replicate @length_map : len_db.
#[export] Hint Resolve take_while_all : cverif.

(** Lengths of concatenations, then linear arithmetic. *)
Ltac len := autorewrite with len_db in *; simpl in *; lia.

(** Equality of concatenations, up to associativity. *)
Ltac app_eq := simpl; repeat (rewrite <- app_assoc; simpl); reflexivity.

(** * Pairwise relations on lists *)
Section pairwise.
Context {A : Type} (R : A → A → Prop).

Fixpoint pairwise (l : list A) : Prop :=
  match l with [] => True | x :: l' => Forall (R x) l' ∧ pairwise l' end.

Lemma pairwise_app l k :
  pairwise (l ++ k) ↔ pairwise l ∧ pairwise k ∧ ∀ x y, x ∈ l → y ∈ k → R x y.
Proof.
  induction l as [|a l IH]; simpl.
  - set_solver.
  - rewrite Forall_app, IH, !Forall_forall. set_solver.
Qed.
End pairwise.
