(* ===== verification/CString.v ===== *)
(** C strings and character arrays.

    A [char] array is a list of [ascii]; a pointer into it is an offset; a
    NULL pointer is [None].  A C string is the list of its characters without
    the terminating NUL.  The [<string.h>] and [<stdlib.h>] functions the
    programs call are written over the memory that starts at their argument,
    and read outside the array is [OutOfBounds]. *)
From Stdlib Require Import ZArith Lia Ascii.
From stdpp Require Import prelude gmap strings numbers list.
From S2P Require Import Prelude.
Open Scope nat_scope.

Abbreviation cstr := (list ascii).
Definition nul : ascii := Ascii.zero.
(** A string literal. *)
Definition lit (s : string) : cstr := String.list_ascii_of_string s.

Definition in_set (set : cstr) (c : ascii) : bool := bool_decide (c ∈ set).

(** Reads and writes of one character of an array. *)
Definition load (buf : cstr) (p : nat) : outcome ascii := require OutOfBounds (buf !! p).
Definition store (buf : cstr) (p : nat) (c : ascii) : outcome cstr :=
  if decide (p < length buf) then Ok (<[p := c]> buf) else Undef OutOfBounds.

(** [strspn]/[strcspn] of the string that starts at the head of [m]. *)
Fixpoint strspn (m : cstr) (accept : cstr) : outcome nat :=
  match m with
  | [] => Undef OutOfBounds
  | c :: m' => if decide (c ≠ nul ∧ c ∈ accept) then S <$> strspn m' accept else Ok 0
  end.
Fixpoint strcspn (m : cstr) (reject : cstr) : outcome nat :=
  match m with
  | [] => Undef OutOfBounds
  | c :: m' => if decide (c = nul ∨ c ∈ reject) then Ok 0 else S <$> strcspn m' reject
  end.

(** The string that starts at the head of [m]. *)
Fixpoint c_string (m : cstr) : outcome cstr :=
  match m with
  | [] => Undef OutOfBounds
  | c :: m' => if decide (c = nul) then Ok [] else cons c <$> c_string m'
  end.
Definition string_at (buf : cstr) (p : nat) : outcome cstr := c_string (drop p buf).

(** [strncmp(s, t, n) == 0] and [strcmp(s, t) == 0] on string values. *)
Definition strncmp_eq (s t : cstr) (n : nat) : bool := bool_decide (take n s = take n t).
Definition strcmp_eq (s t : cstr) : bool := bool_decide (s = t).

(** [strcpy] of the string [s] into an array of [cap] characters. *)
Definition strcpy (cap : nat) (s : cstr) : outcome cstr :=
  if decide (length s < cap) then Ok s else Undef OutOfBounds.

Definition isdigit (c : ascii) : bool :=
  let n := nat_of_ascii c in (48 <=? n) && (n <=? 57).
Definition isspace (c : ascii) : bool :=
  let n := nat_of_ascii c in (n =? 32) || ((9 <=? n) && (n <=? 13)).
Definition digit_value (c : ascii) : Z := Z.of_nat (nat_of_ascii c) - 48.

(** [atoi]: leading white space, an optional sign, then decimal digits; the
    value must be representable. *)
Definition digits_value (s : cstr) : Z :=
  foldl (λ acc c, acc * 10 + digit_value c)%Z 0%Z (take_while isdigit s).
Definition atoi (s : cstr) : outcome Z :=
  match drop_while isspace s with
  | "-"%char :: s' => CInt.int_result (- digits_value s')
  | "+"%char :: s' => CInt.int_result (digits_value s')
  | s' => CInt.int_result (digits_value s')
  end.

(** Decimal printing ([%d], [%zu]). *)
Definition digit_char (n : Z) : ascii := ascii_of_nat (Z.to_nat (48 + n)).
Fixpoint print_nat_go (fuel : nat) (n : Z) (acc : cstr) : cstr :=
  match fuel with
  | 0 => acc
  | S f => let acc' := digit_char (n `mod` 10) :: acc in
           if decide (n < 10)%Z then acc' else print_nat_go f (n / 10) acc'
  end.
Definition print_nat (n : Z) : cstr := print_nat_go (S (Z.to_nat (Z.log2 n))) n [].
Definition print_int (z : Z) : cstr :=
  if decide (z < 0)%Z then "-"%char :: print_nat (- z) else print_nat z.

(** The port number of an address: [htons] takes a [uint16_t]. *)
Definition port_number (port : Z) : Z := (port `mod` 65536)%Z.

(** A field of [n] characters ([%5d], [%12s]). *)
Definition pad_left (n : nat) (s : cstr) : cstr := replicate (n - length s) " "%char ++ s.

(** [fgets] reads up to [n] characters, through the end of the line. *)
Fixpoint fgets_chunk (n : nat) (file : cstr) : cstr * cstr :=
  match n, file with
  | 0, _ | _, [] => ([], file)
  | S n', c :: file' =>
      if decide (c = "010"%char) then ([c], file')
      else let '(l, rest) := fgets_chunk n' file' in (c :: l, rest)
  end.
(** [fgets(line, size, fp)]: the array and what is left of the file, or NULL
    at its end. *)
Definition fgets (size : nat) (line : cstr) (file : cstr) : option (cstr * cstr) :=
  match file with
  | [] => None
  | _ => let '(l, rest) := fgets_chunk (size - 1) file in
         Some (l ++ nul :: drop (S (length l)) line, rest)
  end.

(** * Facts *)
Lemma in_set_true set c : in_set set c = true ↔ c ∈ set.
Proof. apply bool_decide_eq_true. Qed.
Lemma in_set_false set c : in_set set c = false ↔ c ∉ set.
Proof. apply bool_decide_eq_false. Qed.

Lemma store_ok buf p c : p < length buf → store buf p c = Ok (<[p := c]> buf).
Proof. intros. unfold store. by rewrite decide_True. Qed.

Lemma strcpy_ok cap s : length s < cap → strcpy cap s = Ok s.
Proof. intros. unfold strcpy. by rewrite decide_True. Qed.

Lemma c_string_app s m : nul ∉ s → c_string (s ++ nul :: m) = Ok s.
Proof.
  induction s as [|c s IH]; intros Hs; simpl; [done|].
  rewrite decide_False by set_solver. rewrite IH by set_solver. done.
Qed.

Lemma string_at_app pre s m p :
  p = length pre → nul ∉ s → string_at (pre ++ s ++ nul :: m) p = Ok s.
Proof. intros -> Hs. unfold string_at. rewrite drop_app_length. by apply c_string_app. Qed.

Lemma load_string buf p c t : string_at buf p = Ok (c :: t) → load buf p = Ok c.
Proof.
  unfold string_at, load. rewrite <- (Nat.add_0_r p) at 2. rewrite <- lookup_drop.
  destruct (drop p buf) as [|d m]; simpl; [done|]. case_decide; [done|].
  destruct (c_string m); [|done..]. by intros [= -> _].
Qed.

Lemma strspn_app s c m accept :
  nul ∉ s → (∀ d, d ∈ s → d ∈ accept) → (c = nul ∨ c ∉ accept) →
  strspn (s ++ c :: m) accept = Ok (length s).
Proof.
  intros Hn Hs Hc. induction s as [|d s IH]; simpl.
  - rewrite decide_False by tauto. done.
  - rewrite decide_True by set_solver. rewrite IH by set_solver. done.
Qed.

Lemma strcspn_app s c m reject :
  nul ∉ s → (∀ d, d ∈ s → d ∉ reject) → (c = nul ∨ c ∈ reject) →
  strcspn (s ++ c :: m) reject = Ok (length s).
Proof.
  intros Hn Hs Hc. induction s as [|d s IH]; simpl.
  - rewrite decide_True by tauto. done.
  - rewrite decide_False by set_solver. rewrite IH by set_solver. done.
Qed.

(** * Decimal numbers *)
Definition digits_from (a : Z) (ds : cstr) : Z := foldl (λ acc c, acc * 10 + digit_value c)%Z a ds.

Lemma digit_char_spec n :
  (0 ≤ n < 10)%Z → isdigit (digit_char n) = true ∧ digit_value (digit_char n) = n.
Proof.
  intros Hn. assert (n = 0 ∨ n = 1 ∨ n = 2 ∨ n = 3 ∨ n = 4 ∨ n = 5 ∨ n = 6 ∨ n = 7 ∨ n = 8 ∨ n = 9)%Z as H by lia.
  by destruct H as [->|[->|[->|[->|[->|[->|[->|[->|[->| ->]]]]]]]]].
Qed.

Lemma print_nat_go_spec fuel n acc :
  (0 ≤ n < 10 ^ Z.of_nat fuel)%Z →
  ∃ ds, print_nat_go fuel n acc = ds ++ acc ∧ length ds ≤ fuel ∧ Forall (λ c, isdigit c = true) ds ∧
    (fuel = 0 ∨ ds ≠ []) ∧ ∀ a, digits_from a ds = (a * 10 ^ Z.of_nat (length ds) + n)%Z.
Proof.
  revert n acc. induction fuel as [|f IH]; intros n acc Hn; cbn [print_nat_go].
  - exists []. split_and!; [done|simpl; lia|done|by left|]. intros a. simpl in *. lia.
  - destruct (digit_char_spec (n `mod` 10)) as [Hd Hv]; [by apply Z.mod_pos_bound|].
    case_decide as H10.
    + exists [digit_char (n `mod` 10)]. split_and!; [done|simpl; lia|by repeat constructor|by right|].
      intros a. cbn [digits_from foldl length]. rewrite Hv, Z.mod_small by lia.
      change (10 ^ Z.of_nat 1)%Z with 10%Z. done.
    + rewrite Nat2Z.inj_succ, Z.pow_succ_r in Hn by lia.
      destruct (IH (n / 10) (digit_char (n `mod` 10) :: acc))%Z as (ds & -> & Hlen & Hall & _ & Hval).
      { split; [by apply Z.div_pos; lia|]. apply Z.div_lt_upper_bound; lia. }
      exists (ds ++ [digit_char (n `mod` 10)]). split_and!.
      * app_eq.
      * rewrite length_app. simpl. lia.
      * apply Forall_app. by repeat constructor.
      * right. by destruct ds.
      * intros a. unfold digits_from in *. rewrite foldl_app, Hval. cbn [foldl]. rewrite Hv, length_app.
        rewrite Nat2Z.inj_add, Z.pow_add_r by lia. pose proof (Z.div_mod n 10). simpl (10 ^ Z.of_nat _)%Z. lia.
Qed.

Lemma print_nat_spec n :
  (0 ≤ n)%Z →
  Forall (λ c, isdigit c = true) (print_nat n) ∧ print_nat n ≠ [] ∧
  length (print_nat n) ≤ S (Z.to_nat (Z.log2 n)) ∧ digits_value (print_nat n) = n.
Proof.
  intros Hn. unfold print_nat.
  destruct (print_nat_go_spec (S (Z.to_nat (Z.log2 n))) n []) as (ds & -> & Hl & Hall & [|Hne] & Hv); [|done|].
  - split; [done|]. rewrite Nat2Z.inj_succ, Z2Nat.id by apply Z.log2_nonneg.
    destruct (decide (n = 0)%Z) as [->|]; [done|]. pose proof (Z.log2_spec n ltac:(lia)) as [_ H].
    eapply Z.lt_le_trans; [exact H|]. apply Z.pow_le_mono_l. pose proof (Z.log2_nonneg n). lia.
  - rewrite app_nil_r. split_and!; [done|done|lia|]. unfold digits_value.
    assert (take_while isdigit ds = ds) as ->.
    { clear -Hall. induction Hall as [|c l Hc _ IH]; simpl; [done|]. by rewrite Hc, IH. }
    change (digits_from 0 ds = n). rewrite Hv. lia.
Qed.

Lemma atoi_unsigned c l :
  isspace c = false → c ≠ "-"%char → c ≠ "+"%char → atoi (c :: l) = CInt.int_result (digits_value (c :: l)).
Proof.
  intros Hs Hm Hp. unfold atoi. cbn [drop_while]. rewrite Hs.
  destruct c as [[] [] [] [] [] [] [] []]; done.
Qed.

(** The number printed is the number read. *)
Lemma atoi_print_nat n : (0 ≤ n ≤ CInt.INT_MAX)%Z → atoi (print_nat n) = Ok n.
Proof.
  intros Hn. destruct (print_nat_spec n) as (Hall & Hne & _ & Hv); [lia|].
  destruct (print_nat n) as [|c l] eqn:Hp; [done|]. pose proof (Forall_inv Hall) as Hc. simpl in Hc.
  assert (isspace c = false) as Hs.
  { unfold isspace, isdigit in *. apply andb_true_iff in Hc as [?%Nat.leb_le ?%Nat.leb_le].
    apply orb_false_iff. split; [apply Nat.eqb_neq; lia|]. apply andb_false_iff. right. apply Nat.leb_gt. lia. }
  rewrite <- Hv in Hn |- *. rewrite <- (CInt.int_result_ok (digits_value (c :: l)))
    by (unfold CInt.INT_MIN in *; lia).
  apply atoi_unsigned; [done|by intros ->..].
Qed.
