(* ===== verification/CFloat.v ===== *)
(** IEEE 754 arithmetic as the programs use it: the C types [float] (binary32)
    and [double] (binary64), by the executable specification of the Standard
    Library, with their conversions and printing; and what is needed to bound
    their errors: an exact result between two multiples of a power of two that
    the format holds is rounded to a number between them. *)
From Stdlib Require Import ZArith Lia Ascii SpecFloat.
From stdpp Require Import prelude strings numbers list.
From S2P Require Import Prelude CString.
Open Scope Z_scope.
Import CInt.

(** * Operations *)
Abbreviation float := spec_float.
Definition fadd : float → float → float := SFadd 24 128.
Definition fsub : float → float → float := SFsub 24 128.
Definition fmul : float → float → float := SFmul 24 128.
Definition fdiv : float → float → float := SFdiv 24 128.
(** [(float) z] of an [int]. *)
Definition of_int (z : Z) : float := binary_normalize 24 128 z 0 false.


Abbreviation double := spec_float.
Definition dadd : double → double → double := SFadd 53 1024.
Definition dsub : double → double → double := SFsub 53 1024.
Definition dmul : double → double → double := SFmul 53 1024.
Definition ddiv : double → double → double := SFdiv 53 1024.
Definition double_of (z : Z) : double := binary_normalize 53 1024 z 0 false.
(** The conversion of a [double] to a [float]; one back is exact. *)
Definition to_float (d : double) : float :=
  match d with S754_finite s m e => binary_normalize 24 128 (cond_Zopp s (Zpos m)) e s | d => d end.

(** [(int) f]: towards zero; undefined when the value does not fit. *)
Definition float_to_int (f : float) : outcome Z :=
  match f with
  | S754_zero _ => Ok 0
  | S754_finite s m e => int_result (cond_Zopp s (Z.shiftl (Zpos m) e))
  | S754_infinity _ | S754_nan => Undef IntOverflow
  end.

(** [%.<d>f] for [d] > 0: the exact value rounded to [d] decimals, to even in the middle.
    The sign of a NaN is left out. *)
Definition round_half_even (num den : Z) : Z :=
  let q := num / den in
  let r := num mod den in
  if decide (2 * r < den) then q else if decide (2 * r = den) then (if Z.even q then q else q + 1) else q + 1.
Definition pad_zeros (n : nat) (s : cstr) : cstr := replicate (n - length s) "0"%char ++ s.
Definition print_decimals (d : nat) (n : Z) : cstr :=
  print_nat (n / 10 ^ Z.of_nat d) ++ lit "." ++ pad_zeros d (print_nat (n mod 10 ^ Z.of_nat d)).
Definition sign (s : bool) : cstr := if s then lit "-" else [].
Definition print_float (d : nat) (f : float) : cstr :=
  match f with
  | S754_zero s => sign s ++ print_decimals d 0
  | S754_finite s m e =>
      sign s ++ print_decimals d (if decide (0 ≤ e) then Zpos m * 2 ^ e * 10 ^ Z.of_nat d
                                  else round_half_even (Zpos m * 10 ^ Z.of_nat d) (2 ^ (- e)))
  | S754_infinity s => sign s ++ lit "inf"
  | S754_nan => lit "nan"
  end.

Example printed :
  map (print_float 1) [of_int 0; fdiv (of_int 1) (of_int 3); fdiv (of_int (-1)) (of_int 4); fdiv (of_int 200) (of_int 1);
                       fdiv (of_int 0) (of_int 0); fdiv (of_int 5) (of_int 0)] =
  map lit ["0.0"; "0.3"; "-0.2"; "200.0"; "nan"; "inf"].
Proof. by vm_compute. Qed.
(** Above 2^24 not every integer is a float. *)
Example int_rounded : print_float 1 (of_int 16777217) = lit "16777216.0".
Proof. by vm_compute. Qed.

(** * Between multiples of a power of two *)

(** [m * 2^e] is at most [B * 2^E]. *)
Definition le2 (m e B E : Z) : Prop := m * 2 ^ (e - Z.min e E) ≤ B * 2 ^ (E - Z.min e E).
(** [f] is at least [A * 2^E] and at most [B * 2^E]. *)
Definition between (E A B : Z) (f : spec_float) : Prop :=
  match f with
  | S754_zero false => A ≤ 0 ≤ B
  | S754_finite false m e => le2 A E (Zpos m) e ∧ le2 (Zpos m) e B E
  | _ => False
  end.
(** Integers a [float] holds, and [f] between two of them. *)
Definition TOP : Z := 16777216.
Abbreviation near := (between 0).

Lemma pow2_pos k : 0 ≤ k → 0 < 2 ^ k.
Proof. intros. apply Z.pow_pos_nonneg; lia. Qed.
Lemma pow2_split a b : 0 ≤ a → 0 ≤ b → 2 ^ (a + b) = 2 ^ a * 2 ^ b.
Proof. intros. by apply Z.pow_add_r. Qed.

(** The comparison at any common exponent. *)
Lemma le2_at k m e B E : k ≤ e → k ≤ E → le2 m e B E ↔ m * 2 ^ (e - k) ≤ B * 2 ^ (E - k).
Proof.
  intros He HE. unfold le2. set (j := Z.min e E).
  replace (e - k) with ((e - j) + (j - k)) by lia. replace (E - k) with ((E - j) + (j - k)) by lia.
  rewrite !pow2_split by lia. pose proof (pow2_pos (j - k) ltac:(lia)). nia.
Qed.
Lemma le2_trans m e m1 e1 m2 e2 : le2 m e m1 e1 → le2 m1 e1 m2 e2 → le2 m e m2 e2.
Proof.
  set (k := Z.min e (Z.min e1 e2)). rewrite !(le2_at k) by lia. lia.
Qed.
Lemma le2_le m B E : m ≤ B → le2 m E B E.
Proof. intros. rewrite (le2_at E) by lia. rewrite Z.sub_diag. lia. Qed.
Lemma le2_mul m e B E m' e' B' E' :
  0 ≤ m → 0 ≤ m' → le2 m e B E → le2 m' e' B' E' → le2 (m * m') (e + e') (B * B') (E + E').
Proof.
  intros Hm Hm'. set (k := Z.min e E). set (k' := Z.min e' E').
  rewrite (le2_at k), (le2_at k' m'), (le2_at (k + k')) by lia. intros H H'.
  replace (e + e' - (k + k')) with ((e - k) + (e' - k')) by lia.
  replace (E + E' - (k + k')) with ((E - k) + (E' - k')) by lia. rewrite !pow2_split by lia.
  pose proof (pow2_pos (e - k) ltac:(lia)). pose proof (pow2_pos (e' - k') ltac:(lia)).
  transitivity ((m * 2 ^ (e - k)) * (m' * 2 ^ (e' - k'))); [nia|].
  transitivity ((B * 2 ^ (E - k)) * (B' * 2 ^ (E' - k'))); [|nia]. apply Z.mul_le_mono_nonneg; nia.
Qed.
(** The same bound in smaller units. *)
Lemma le2_fine m e B E k : 0 ≤ k → le2 m e B E ↔ le2 m e (B * 2 ^ k) (E - k).
Proof.
  intros Hk. set (j := Z.min e (E - k)). rewrite !(le2_at j) by lia.
  replace (E - j) with (k + (E - k - j)) by lia. rewrite pow2_split by lia. by rewrite Z.mul_assoc.
Qed.
Lemma le2_fine_l m e B E k : 0 ≤ k → le2 m e B E ↔ le2 (m * 2 ^ k) (e - k) B E.
Proof.
  intros Hk. set (j := Z.min (e - k) E). rewrite !(le2_at j) by lia.
  replace (e - j) with (k + (e - k - j)) by lia. rewrite pow2_split by lia. by rewrite Z.mul_assoc.
Qed.

Lemma between_fine E A B f k : 0 ≤ k → between E A B f ↔ between (E - k) (A * 2 ^ k) (B * 2 ^ k) f.
Proof.
  intros Hk. pose proof (pow2_pos k Hk). destruct f as [[]| | |[] m e]; simpl; try done; [nia|].
  by rewrite <- le2_fine, <- le2_fine_l by done.
Qed.
Lemma between_weaken E A B E' A' B' f : le2 A' E' A E → le2 B E B' E' → between E A B f → between E' A' B' f.
Proof.
  intros HA HB. destruct f as [[]| | |[] m e]; simpl; try done.
  - set (k := Z.min E E'). rewrite !(le2_at k) in * by lia.
    pose proof (pow2_pos (E - k) ltac:(lia)). pose proof (pow2_pos (E' - k) ltac:(lia)). nia.
  - intros [? ?]. split; by eapply le2_trans.
Qed.
(** An exact value is between 0 and any larger integer. *)
Lemma near_weaken A B B' f : 0 ≤ A → B ≤ B' → near A B f → near 0 B' f.
Proof. intros. eapply between_weaken; [..|done]; by apply le2_le. Qed.
Lemma between_finite E A B m e : between E A B (S754_finite false m e) → le2 A E (Zpos m) e ∧ le2 (Zpos m) e B E.
Proof. done. Qed.

(** ** Shifting right *)
Lemma iter_pos_nat {A} (f : A → A) n x : SpecFloat.iter_pos f n x = Nat.iter (Pos.to_nat n) f x.
Proof.
  revert x. induction n as [n IH|n IH|]; intros x; cbn [SpecFloat.iter_pos]; [| |done].
  - rewrite !IH, Pos2Nat.inj_xI. rewrite <- !Nat.iter_add. replace (2 * Pos.to_nat n)%nat with (Pos.to_nat n + Pos.to_nat n)%nat by lia.
    by rewrite Nat.iter_succ_r.
  - rewrite !IH, Pos2Nat.inj_xO. rewrite <- Nat.iter_add. f_equal. lia.
Qed.

Definition exact_rec (r : shr_record) : Prop := shr_r r = false ∧ shr_s r = false.
Lemma shr_1_step r :
  0 ≤ shr_m r → shr_m (shr_1 r) = shr_m r / 2 ∧ 0 ≤ shr_m (shr_1 r) ∧
  (exact_rec (shr_1 r) ↔ exact_rec r ∧ shr_m r mod 2 = 0).
Proof.
  destruct r as [m b s]. unfold exact_rec. intros Hm. cbn [shr_m] in *.
  destruct m as [|[p|p|]|p]; [| | | |lia]; cbn [shr_1 shr_m shr_r shr_s].
  - split_and!; [done|done|]. destruct b, s; naive_solver.
  - split_and!; [|lia|]; [|rewrite Pos2Z.inj_xI, Z.add_comm, Z.mul_comm, Z.mod_add by lia; destruct b, s; naive_solver].
    rewrite Pos2Z.inj_xI, Z.mul_comm, Z.div_add_l by lia. change (1 / 2) with 0. lia.
  - split_and!; [|lia|]; [by rewrite Pos2Z.inj_xO, Z.mul_comm, Z.div_mul|].
    rewrite (Pos2Z.inj_xO p), Z.mul_comm, Z.mod_mul by lia. destruct b, s; naive_solver.
  - split_and!; [done|done|naive_solver].
Qed.
Lemma shr_1_iter n r :
  0 ≤ shr_m r →
  shr_m (Nat.iter n shr_1 r) = shr_m r / 2 ^ Z.of_nat n ∧ 0 ≤ shr_m (Nat.iter n shr_1 r) ∧
  (exact_rec (Nat.iter n shr_1 r) ↔ exact_rec r ∧ shr_m r mod 2 ^ Z.of_nat n = 0).
Proof.
  intros Hm. induction n as [|n (Hd & Hp & He)].
  - simpl. rewrite Z.div_1_r, Z.mod_1_r. split_and!; [done|done|tauto].
  - rewrite Nat.iter_succ. destruct (shr_1_step _ Hp) as (Hd' & Hp' & He').
    assert (0 < 2 ^ Z.of_nat n) by (apply Z.pow_pos_nonneg; lia).
    rewrite Nat2Z.inj_succ, Z.pow_succ_r, (Z.mul_comm 2) by lia. split_and!; [|done|].
    + by rewrite Hd', Hd, Z.div_div by lia.
    + rewrite He', He, Hd, Z.rem_mul_r by lia.
      pose proof (Z.mod_pos_bound (shr_m r) (2 ^ Z.of_nat n) ltac:(lia)).
      pose proof (Z.mod_pos_bound (shr_m r / 2 ^ Z.of_nat n) 2 ltac:(lia)).
      split; [intros [[? Ha] Hb]; split; [done|nia]|]. intros [? Hs]. split; [split; [done|]|]; nia.
Qed.

Lemma digits2_bounds p : 2 ^ (Zpos (digits2_pos p) - 1) ≤ Zpos p < 2 ^ Zpos (digits2_pos p).
Proof.
  induction p as [p IH|p IH|]; cbn [digits2_pos]; [| |done];
    rewrite Pos2Z.inj_succ; replace (Z.succ (Zpos (digits2_pos p)) - 1) with (Z.succ (Zpos (digits2_pos p) - 1)) by lia;
    rewrite !Z.pow_succ_r by lia; lia.
Qed.
Lemma digits2_le p k : 0 ≤ k → Zpos p < 2 ^ k → Zpos (digits2_pos p) ≤ k.
Proof.
  intros Hk Hp. destruct (digits2_bounds p) as [Hl _].
  assert (Zpos (digits2_pos p) - 1 < k); [|lia]. apply (Z.pow_lt_mono_r_iff 2); lia.
Qed.
(** ** Rounding *)
Section format.
Context (prec emax : Z) (Hprec : 2 ≤ prec) (Hemax : 3 * prec ≤ emax).
(** The units of the bounds: neither the smallest nor the largest numbers. *)
Definition unit_ok (E : Z) : Prop := emin prec emax ≤ E ≤ emax - 2 * prec.

Section round.
Context (E A B : Z) (HE : unit_ok E) (HA : 0 ≤ A) (HB : B < 2 ^ prec).

(** What is known of a mantissa, an exponent and the rest that was cut off. *)
Record within (m e : Z) (exact : Prop) : Prop := {
  w_pos : 0 ≤ m;
  w_low : le2 A E m e;
  w_high : le2 m e B E;
  w_strict : ¬ exact → e ≤ E ∧ le2 (m + 1) e B E
}.

Lemma below_digits p e : le2 (Zpos p) e B E → Zpos (digits2_pos p) + e ≤ prec + E.
Proof.
  set (k := Z.min e E). rewrite (le2_at k) by lia. intros Hp. destruct (digits2_bounds p) as [Hl _].
  pose proof (pow2_pos (e - k) ltac:(lia)). pose proof (pow2_pos (E - k) ltac:(lia)).
  assert (2 ^ (Zpos (digits2_pos p) - 1 + (e - k)) < 2 ^ (prec + (E - k))) as Hlt.
  { rewrite !pow2_split by lia. nia. }
  apply Z.pow_lt_mono_r_iff in Hlt; lia.
Qed.
Lemma fexp_top m e : 0 ≤ m → le2 m e B E → e < fexp prec emax (Zdigits2 m + e) → fexp prec emax (Zdigits2 m + e) ≤ E.
Proof.
  intros Hm Hl. unfold fexp. destruct HE. destruct m as [|p|p]; [simpl; lia| |lia]. apply below_digits in Hl. cbn [Zdigits2]. lia.
Qed.

Lemma within_shift m e (P P' : Prop) n m' :
  within m e P → e + Z.of_nat n ≤ E → m' = m / 2 ^ Z.of_nat n →
  (P ∨ ¬ P) → (P → m mod 2 ^ Z.of_nat n = 0 → P') →
  within m' (e + Z.of_nat n) P'.
Proof.
  intros [Hp Hl Hh Hs] Hn -> HP Hx. set (N := Z.of_nat n) in *.
  assert (0 ≤ N) by lia. pose proof (pow2_pos N ltac:(lia)). pose proof (pow2_pos (E - (e + N)) ltac:(lia)) as HQ.
  rewrite (le2_at e) in Hl, Hh by lia. replace (E - e) with (N + (E - (e + N))) in Hl, Hh by lia.
  rewrite Z.sub_diag, pow2_split, Z.mul_1_r in Hl, Hh by lia.
  set (K := 2 ^ N) in *. set (Q := 2 ^ (E - (e + N))) in *.
  pose proof (Z.div_mod m K ltac:(lia)) as Hd. pose proof (Z.mod_pos_bound m K ltac:(lia)).
  assert (∀ x, le2 x (e + N) B E ↔ x ≤ B * Q) as Hat1.
  { intros x. rewrite (le2_at (e + N)) by lia. by rewrite Z.sub_diag, Z.mul_1_r. }
  split; [apply Z.div_pos; lia| |apply Hat1, Z.div_le_upper_bound; nia|].
  - rewrite (le2_at (e + N)) by lia. rewrite Z.sub_diag, Z.mul_1_r. apply Z.div_le_lower_bound; [lia|]. fold Q. nia.
  - intros Hn'. split; [done|]. apply Hat1. assert (m < K * (B * Q)) as Hlt.
    { destruct HP as [HP|HP].
      - assert (m mod K ≠ 0) by tauto. assert (m ≠ K * (B * Q)); [|nia].
        intros Heq. assert (m mod K = 0) by (rewrite Heq, Z.mul_comm; apply Z.mod_mul; lia). done.
      - destruct (Hs HP) as [_ Hs']. rewrite (le2_at e) in Hs' by lia. replace (E - e) with (N + (E - (e + N))) in Hs' by lia.
        rewrite Z.sub_diag, pow2_split, Z.mul_1_r in Hs' by lia. fold K Q in Hs'. nia. }
    pose proof (Z.div_lt_upper_bound m K (B * Q) ltac:(lia) Hlt). lia.
Qed.

Lemma exact_rec_loc r : exact_rec r ↔ loc_of_shr_record r = loc_Exact.
Proof. destruct r as [m [] []]; unfold exact_rec; simpl; naive_solver. Qed.
Lemma exact_rec_of m l : exact_rec (shr_record_of_loc m l) ↔ l = loc_Exact.
Proof. destruct l as [|[]]; unfold exact_rec; simpl; naive_solver. Qed.
Lemma loc_dec l : l = loc_Exact ∨ l ≠ loc_Exact.
Proof. destruct l; [by left|by right]. Qed.
Lemma shr_m_of m l : shr_m (shr_record_of_loc m l) = m.
Proof. by destruct l as [|[]]. Qed.

Lemma shr_fexp_within m e l :
  within m e (l = loc_Exact) →
  let r := shr_fexp prec emax m e l in
  within (shr_m r.1) r.2 (loc_of_shr_record r.1 = loc_Exact).
Proof.
  intros W r. pose proof (w_pos _ _ _ W) as Hp. pose proof (fexp_top m e Hp (w_high _ _ _ W)) as Hf.
  assert (within (shr_m (shr_record_of_loc m l)) e (loc_of_shr_record (shr_record_of_loc m l) = loc_Exact)) as W0.
  { destruct W as [? ? ? Hs]. rewrite shr_m_of. split; try done. intros Hn. apply Hs. intros Hl. by apply Hn, exact_rec_loc, exact_rec_of. }
  unfold r, shr_fexp, shr. destruct (fexp prec emax (Zdigits2 m + e) - e) as [|n|n] eqn:En; cbn [fst snd]; [done| |done].
  rewrite iter_pos_nat. destruct (shr_1_iter (Pos.to_nat n) (shr_record_of_loc m l)) as (Hm & _ & He); [by rewrite shr_m_of|].
  rewrite shr_m_of in *. rewrite positive_nat_Z in *.
  replace (e + Zpos n) with (e + Z.of_nat (Pos.to_nat n)) by lia.
  eapply within_shift; [exact W|lia|by rewrite positive_nat_Z|apply loc_dec|].
  rewrite positive_nat_Z. intros Hl Hz. by apply exact_rec_loc, He; split; [apply exact_rec_of|].
Qed.

Lemma round_even_within m e l :
  within m e (l = loc_Exact) → within (round_nearest_even m l) e (loc_Exact = loc_Exact).
Proof.
  intros [Hp Hl Hh Hs]. destruct l as [|c]; [by split|]. destruct (Hs ltac:(done)) as [_ Hs'].
  assert (round_nearest_even m (loc_Inexact c) = m ∨ round_nearest_even m (loc_Inexact c) = m + 1) as [->| ->]
    by (simpl; repeat case_match; auto); split; try done; [lia|].
  eapply le2_trans; [exact Hl|]. apply le2_le. lia.
Qed.

Lemma round_between m e l : within m e (l = loc_Exact) → between E A B (binary_round_aux prec emax false m e l).
Proof.
  intros W. unfold binary_round_aux. pose proof (shr_fexp_within m e l W) as W1.
  destruct (shr_fexp prec emax m e l) as [r e1]. cbn [fst snd] in W1. apply round_even_within in W1.
  apply shr_fexp_within in W1. set (m1 := round_nearest_even _ _) in *.
  destruct (shr_fexp prec emax m1 e1 loc_Exact) as [r2 e2]. cbn [fst snd] in W1. destruct W1 as [Hp2 Hl2 Hh2 _].
  destruct (shr_m r2) as [|p|p]; [| |lia].
  - simpl. set (k := Z.min e2 E) in *. rewrite (le2_at k) in Hl2, Hh2 by lia. pose proof (pow2_pos (E - k) ltac:(lia)). nia.
  - apply below_digits in Hh2 as Hd. destruct HE. destruct (Z.leb_spec e2 (emax - prec)); [by split|lia].
Qed.

Lemma pos_iter_xO p d : Zpos (Pos.iter xO p d) = Zpos p * 2 ^ Zpos d.
Proof.
  induction d as [|d IH] using Pos.peano_ind; [simpl; lia|].
  rewrite Pos.iter_succ, Pos2Z.inj_xO, IH, Pos2Z.inj_succ, Z.pow_succ_r by lia. lia.
Qed.
(** A mantissa aligned to a smaller exponent has the same value. *)
Lemma shl_align_value m e e' : e' ≤ e → Zpos (shl_align m e e').1 = Zpos m * 2 ^ (e - e') ∧ (shl_align m e e').2 = e'.
Proof.
  intros He. unfold shl_align. destruct (e' - e) as [|d|d] eqn:Ed; [|lia|]; cbn [fst snd].
  - replace (e - e') with 0 by lia. split; lia.
  - rewrite pos_iter_xO. replace (e - e') with (Zpos d) by lia. done.
Qed.

Lemma within_exact m e : 0 ≤ m → le2 A E m e → le2 m e B E → within m e (loc_Exact = loc_Exact).
Proof. by split. Qed.
Lemma shl_align_le2 m e e' :
  e' ≤ e → ∀ x ex, (le2 x ex (Zpos (shl_align m e e').1) e' ↔ le2 x ex (Zpos m) e) ∧
  (le2 (Zpos (shl_align m e e').1) e' x ex ↔ le2 (Zpos m) e x ex).
Proof.
  intros He x ex. destruct (shl_align_value m e e' He) as [-> _]. split.
  - rewrite (le2_fine x ex (Zpos m) e (e - e')) by lia. by replace (e - (e - e')) with e' by lia.
  - rewrite (le2_fine_l (Zpos m) e x ex (e - e')) by lia. by replace (e - (e - e')) with e' by lia.
Qed.

Lemma normalize_between m e :
  0 ≤ m → le2 A E m e → le2 m e B E → between E A B (binary_normalize prec emax m e false).
Proof.
  intros Hm Hl Hh. destruct m as [|p|p]; cbn [binary_normalize]; [| |lia].
  - simpl. set (k := Z.min e E) in *. rewrite (le2_at k) in Hl, Hh by lia. pose proof (pow2_pos (E - k) ltac:(lia)). nia.
  - unfold binary_round. set (e' := fexp prec emax (Zpos (digits2_pos p) + e)).
    destruct (decide (e' ≤ e)) as [Hle|Hgt].
    + destruct (shl_align_le2 p e e' Hle A E) as [H1 _]. destruct (shl_align_le2 p e e' Hle B E) as [_ H2].
      destruct (shl_align_value p e e' Hle) as [_ He']. destruct (shl_align p e e') as [mz ez]. cbn [fst snd] in *. subst ez.
      apply round_between, within_exact; [done|by apply H1|by apply H2].
    + assert (shl_align p e e' = (p, e)) as ->.
      { unfold shl_align. destruct (e' - e) eqn:Ed; [done|done|lia]. }
      by apply round_between.
Qed.
End round.

(** ** The operations *)
Lemma le2_add m m' e B B' E : le2 m e B E → le2 m' e B' E → le2 (m + m') e (B + B') E.
Proof. set (k := Z.min e E). rewrite !(le2_at k) by lia. nia. Qed.
Lemma le2_zero m e E : le2 m e 0 E ↔ m ≤ 0.
Proof. set (k := Z.min e E). rewrite (le2_at k) by lia. pose proof (pow2_pos (e - k) ltac:(lia)). nia. Qed.
Lemma le2_zero_l B e E : le2 0 e B E ↔ 0 ≤ B.
Proof. set (k := Z.min e E). rewrite (le2_at k) by lia. pose proof (pow2_pos (E - k) ltac:(lia)). nia. Qed.
Lemma le2_pos A E m e : le2 (Zpos m) e A E → 0 < A.
Proof. set (k := Z.min e E). rewrite (le2_at k) by lia. pose proof (pow2_pos (e - k) ltac:(lia)). pose proof (pow2_pos (E - k) ltac:(lia)). nia. Qed.

Section ops.
Context (E A B : Z) (HE : unit_ok E) (HA : 0 ≤ A) (HB : B < 2 ^ prec).

Lemma SFadd_between A1 B1 A2 B2 x y :
  A = A1 + A2 → B = B1 + B2 → 0 ≤ A1 → 0 ≤ A2 → between E A1 B1 x → between E A2 B2 y → between E A B (SFadd prec emax x y).
Proof.
  intros -> -> H1 H2 Hx Hy. destruct x as [[]|?| |[] mx ex], y as [[]|?| |[] my ey]; try done; cbn [SFadd].
  - simpl in *. lia.
  - simpl in Hx. eapply between_weaken; [..|exact Hy]; apply le2_le; lia.
  - simpl in Hy. eapply between_weaken; [..|exact Hx]; apply le2_le; lia.
  - apply between_finite in Hx as [Lx Ux], Hy as [Ly Uy]. unfold cond_Zopp. set (ez := Z.min ex ey).
    destruct (shl_align_le2 mx ex ez ltac:(lia) A1 E) as [Lx' _]. destruct (shl_align_le2 mx ex ez ltac:(lia) B1 E) as [_ Ux'].
    destruct (shl_align_le2 my ey ez ltac:(lia) A2 E) as [Ly' _]. destruct (shl_align_le2 my ey ez ltac:(lia) B2 E) as [_ Uy'].
    apply normalize_between; [done|done|lia|apply le2_add; tauto|apply le2_add; tauto].
Qed.

Lemma le2_sub m m' e B0 B' F : le2 m e B0 F → le2 B' F m' e → le2 (m - m') e (B0 - B') F.
Proof. set (k := Z.min e F). rewrite !(le2_at k) by lia. nia. Qed.
Lemma SFsub_between A1 B1 A2 B2 x y :
  A = A1 - B2 → B = B1 - A2 → between E A1 B1 x → between E A2 B2 y → between E A B (SFsub prec emax x y).
Proof.
  intros -> -> Hx Hy. destruct x as [[]|?| |[] mx ex], y as [[]|?| |[] my ey]; try done; cbn [SFsub].
  - simpl in *. lia.
  - simpl in Hx. apply between_finite in Hy as [_ Hy]. apply le2_pos in Hy. lia.
  - simpl in Hy. eapply between_weaken; [..|exact Hx]; apply le2_le; lia.
  - apply between_finite in Hx as [Lx Ux], Hy as [Ly Uy]. unfold cond_Zopp. set (ez := Z.min ex ey).
    destruct (shl_align_le2 mx ex ez ltac:(lia) A1 E) as [Lx' _]. destruct (shl_align_le2 mx ex ez ltac:(lia) B1 E) as [_ Ux'].
    destruct (shl_align_le2 my ey ez ltac:(lia) A2 E) as [Ly' _]. destruct (shl_align_le2 my ey ez ltac:(lia) B2 E) as [_ Uy'].
    set (mx' := (shl_align mx ex ez).1) in *. set (my' := (shl_align my ey ez).1) in *.
    assert (le2 (A1 - B2) E (Zpos mx' - Zpos my') ez) as Hl by (apply le2_sub; tauto).
    apply normalize_between; [done|done| |done|apply le2_sub; tauto].
    apply (le2_zero_l _ E ez). eapply le2_trans; [|exact Hl]. by apply le2_le.
Qed.

Lemma SFmul_between E1 A1 B1 E2 A2 B2 x y :
  0 ≤ A1 → 0 ≤ A2 → le2 A E (A1 * A2) (E1 + E2) → le2 (B1 * B2) (E1 + E2) B E →
  between E1 A1 B1 x → between E2 A2 B2 y → between E A B (SFmul prec emax x y).
Proof.
  intros H1 H2 HL HU Hx Hy.
  assert (A1 = 0 ∨ A2 = 0 → 0 ≤ B1 → 0 ≤ B2 → A ≤ 0 ≤ B) as Hz.
  { intros H0 ? ?. assert (A1 * A2 = 0) as Ha by nia. rewrite Ha, le2_zero in HL. split; [done|].
    apply (le2_zero_l _ E E). eapply le2_trans; [|exact HU]. apply le2_zero_l. nia. }
  destruct x as [[]|?| |[] mx ex], y as [[]|?| |[] my ey]; try done; cbn [SFmul].
  - simpl in *. apply Hz; lia.
  - simpl in Hx. apply between_finite in Hy as [_ Hy%le2_pos]. apply Hz; lia.
  - simpl in Hy. apply between_finite in Hx as [_ Hx%le2_pos]. apply Hz; lia.
  - apply between_finite in Hx as [Lx Ux], Hy as [Ly Uy]. rewrite Pos2Z.inj_mul. cbn [xorb].
    apply round_between, within_exact; [done|done|lia| |].
    + eapply le2_trans; [exact HL|]. by apply le2_mul.
    + eapply le2_trans; [|exact HU]. by apply le2_mul.
Qed.

Lemma div_location b : new_location b 0 = loc_Exact.
Proof. unfold new_location. by destruct (Z.even b). Qed.

Lemma SFdiv_between E1 A1 B1 E2 A2 B2 x y :
  0 < A2 → le2 (A * B2) (E + E2) A1 E1 → le2 B1 E1 (B * A2) (E + E2) →
  between E1 A1 B1 x → between E2 A2 B2 y → between E A B (SFdiv prec emax x y).
Proof.
  intros H2 HL HU Hx Hy. destruct x as [[]|?| |[] mx ex], y as [[]|?| |[] my ey]; try done; cbn [SFdiv]; try (simpl in *; lia).
  - simpl in Hx. apply between_finite in Hy as [_ Hy%le2_pos]. simpl.
    assert (A * B2 ≤ 0); [apply (le2_zero _ (E + E2) E1); eapply le2_trans; [exact HL|apply le2_zero; lia]|].
    assert (0 ≤ B * A2); [apply (le2_zero_l _ E1 (E + E2)); eapply le2_trans; [apply (le2_zero_l B1 E1); lia|exact HU]|]. nia.
  - apply between_finite in Hx as [Lx Ux], Hy as [Ly Uy].
    assert (0 ≤ B) as HB0.
    { apply le2_pos in Ux. assert (0 ≤ B * A2); [|nia]. apply (le2_zero_l _ E1 (E + E2)). eapply le2_trans; [|exact HU]. apply le2_zero_l; lia. }
    assert (le2 (A * Zpos my) (E + ey) (Zpos mx) ex) as HL'.
    { eapply le2_trans; [|exact Lx]. eapply le2_trans; [|exact HL]. apply le2_mul; [lia|lia|by apply le2_le|done]. }
    assert (le2 (Zpos mx) ex (B * Zpos my) (E + ey)) as HU'.
    { eapply le2_trans; [exact Ux|]. eapply le2_trans; [exact HU|]. apply le2_mul; [lia|lia|by apply le2_le|done]. }
    clear - HE HA HB HB0 HL' HU' Hprec Hemax.
    unfold SFdiv_core_binary. cbn [Zdigits2 xorb].
    set (F := fexp prec emax _). set (e' := Z.min F (ex - ey)).
    assert (e' ≤ E) as HeE.
    { destruct (decide (ex - ey ≤ E)); [lia|]. assert (F ≤ E); [|lia]. unfold F, fexp. destruct HE as [HE1 HE2].
      enough (Zpos (digits2_pos mx) + ex - (Zpos (digits2_pos my) + ey) - prec ≤ E) by lia.
      destruct (digits2_bounds mx) as [Hdx _]. destruct (digits2_bounds my) as [_ Hdy].
      rewrite (le2_at (E + ey)) in HU' by lia. rewrite Z.sub_diag, Z.mul_1_r in HU'.
      assert (2 ^ (Zpos (digits2_pos mx) - 1 + (ex - (E + ey))) < 2 ^ (prec + Zpos (digits2_pos my))) as Hlt.
      { rewrite !pow2_split by lia. pose proof (pow2_pos (ex - (E + ey)) ltac:(lia)). pose proof (pow2_pos prec ltac:(lia)). nia. }
      apply Z.pow_lt_mono_r_iff in Hlt; lia. }
    set (s := ex - ey - e'). assert (0 ≤ s) as Hs by lia.
    assert (match s with 0 => Zpos mx | Zpos _ => Z.shiftl (Zpos mx) s | Zneg _ => 0 end = Zpos mx * 2 ^ s) as ->.
    { destruct s eqn:Es; [simpl; lia|by rewrite Z.shiftl_mul_pow2 by lia|lia]. }
    pose proof (Z.div_eucl_eq (Zpos mx * 2 ^ s) (Zpos my) ltac:(lia)) as Hd.
    pose proof (Z.mod_pos_bound (Zpos mx * 2 ^ s) (Zpos my) ltac:(lia)) as Hr. unfold Z.modulo in Hr.
    destruct (Z.div_eucl (Zpos mx * 2 ^ s) (Zpos my)) as [q r].
    rewrite (le2_fine_l _ _ _ _ s) in HU' by lia. rewrite (le2_fine _ _ _ _ s) in HL' by lia.
    replace (ex - s) with (e' + ey) in HL', HU' by lia. rewrite Hd in HL', HU'.
    rewrite (le2_at (e' + ey)) in HL', HU' by lia. replace (E + ey - (e' + ey)) with (E - e') in HL', HU' by lia.
    rewrite Z.sub_diag, Z.mul_1_r in HL', HU'. pose proof (pow2_pos (E - e') ltac:(lia)) as Hpw.
    assert (∀ z, le2 z e' B E ↔ z ≤ B * 2 ^ (E - e')) as HatB.
    { intros z. rewrite (le2_at e') by lia. by rewrite Z.sub_diag, Z.mul_1_r. }
    pose proof (pow2_pos s Hs).
    apply round_between; [done..|]. split.
    + nia.
    + rewrite (le2_at e') by lia. rewrite Z.sub_diag, Z.mul_1_r. nia.
    + apply HatB. nia.
    + intros Hne. split; [done|]. apply HatB. assert (r ≠ 0) as Hr0; [|nia]. intros ->. by apply Hne, div_location.
Qed.
End ops.
(** ** Canonical mantissas, which comparisons rely on *)
Definition canonical (f : spec_float) : Prop :=
  match f with S754_finite _ m e => fexp prec emax (Zpos (digits2_pos m) + e) = e | _ => True end.

Lemma digits_unique p d : 2 ^ (d - 1) ≤ Zpos p < 2 ^ d → Zpos (digits2_pos p) = d.
Proof.
  intros [Hl Hu]. destruct (digits2_bounds p) as [Hl' Hu'].
  assert (0 ≤ d) by (destruct (decide (0 ≤ d)); [done|]; rewrite (Z.pow_neg_r 2 d) in Hu by lia; lia).
  assert (Zpos (digits2_pos p) - 1 < d) by (apply (Z.pow_lt_mono_r_iff 2); lia).
  assert (d - 1 < Zpos (digits2_pos p)) by (apply (Z.pow_lt_mono_r_iff 2); lia). lia.
Qed.
Lemma digits_shift p n q : 0 ≤ n → Zpos p / 2 ^ n = Zpos q → Zpos (digits2_pos q) = Zpos (digits2_pos p) - n.
Proof.
  intros Hn Hq. pose proof (pow2_pos n Hn) as HN. destruct (digits2_bounds p) as [Hl Hu]. set (d := Zpos (digits2_pos p)) in *.
  pose proof (Z.mul_div_le (Zpos p) (2 ^ n) HN) as Hm. rewrite Hq in Hm.
  assert (n < d) as Hnd.
  { apply (Z.pow_lt_mono_r_iff 2); [lia|lia|]. eapply Z.le_lt_trans; [|exact Hu]. nia. }
  apply digits_unique. rewrite <- Hq. split.
  - apply Z.div_le_lower_bound; [done|]. rewrite <- pow2_split by lia. by replace (n + (d - n - 1)) with (d - 1) by lia.
  - apply Z.div_lt_upper_bound; [done|]. rewrite <- pow2_split by lia. by replace (n + (d - n)) with d by lia.
Qed.
Lemma digits_le p q : Zpos p ≤ Zpos q → Zpos (digits2_pos p) ≤ Zpos (digits2_pos q).
Proof. intros Hpq. apply digits2_le; [lia|]. destruct (digits2_bounds q). lia. Qed.

Lemma shr_fexp_canonical m e l :
  0 ≤ m → e ≤ fexp prec emax (Zdigits2 m + e) →
  let r := shr_fexp prec emax m e l in
  (shr_m r.1 = 0 ∧ r.2 = emin prec emax) ∨ (0 < shr_m r.1 ∧ fexp prec emax (Zdigits2 (shr_m r.1) + r.2) = r.2).
Proof.
  intros Hm Hle r. unfold r, shr_fexp, shr. destruct (fexp prec emax (Zdigits2 m + e) - e) as [|n|n] eqn:En; cbn [fst snd]; [| |lia].
  - rewrite shr_m_of. destruct (decide (m = 0)) as [->|]; [left|right; split; lia]. split; [done|].
    cbn [Zdigits2] in *. unfold fexp in *. lia.
  - rewrite iter_pos_nat. destruct (shr_1_iter (Pos.to_nat n) (shr_record_of_loc m l)) as (Hd & Hp & _); [by rewrite shr_m_of|].
    rewrite shr_m_of, positive_nat_Z in Hd. set (m' := shr_m _) in *. unfold fexp in *.
    destruct (decide (m' = 0)) as [H0|Hn0]; [left; split; [done|]|right; split; [lia|]].
    + destruct m as [|p|p]; [cbn [Zdigits2] in *; lia| |lia]. cbn [Zdigits2] in *. destruct (digits2_bounds p) as [Hl _].
      rewrite H0 in Hd. symmetry in Hd. apply Z.div_small_iff in Hd; [|apply Z.pow_nonzero; lia].
      assert (Zpos (digits2_pos p) - 1 < Zpos n) by (apply (Z.pow_lt_mono_r_iff 2); [lia|lia|]; destruct Hd; lia). lia.
    + destruct m as [|p|p]; [by rewrite Z.div_0_l in Hd by (apply Z.pow_nonzero; lia)| |lia].
      destruct m' as [|q|q]; [done| |lia]. cbn [Zdigits2] in *.
      rewrite (digits_shift p (Zpos n) q) by (done || lia). lia.
Qed.

Lemma round_canonical m e l :
  0 ≤ m → e ≤ fexp prec emax (Zdigits2 m + e) → canonical (binary_round_aux prec emax false m e l).
Proof.
  intros Hm Hle. unfold binary_round_aux. pose proof (shr_fexp_canonical m e l Hm Hle) as C1.
  destruct (shr_fexp prec emax m e l) as [r e1]. cbn [fst snd] in C1. set (m1 := round_nearest_even _ _).
  assert (m1 = shr_m r ∨ m1 = shr_m r + 1) as Hm1.
  { unfold m1. destruct (loc_of_shr_record r) as [|[]]; simpl; [by left|destruct (Z.even _); auto|auto|auto]. }
  assert (0 ≤ m1 ∧ e1 ≤ fexp prec emax (Zdigits2 m1 + e1)) as [Hp1 Hle1].
  { destruct C1 as [[Hz ->]|[Hp He]]; [split; [lia|unfold fexp; lia]|]. split; [lia|]. rewrite <- He at 1.
    destruct (shr_m r) as [|p|p]; [lia| |lia]. destruct m1 as [|q|q]; [lia| |lia]. cbn [Zdigits2].
    pose proof (digits_le p q ltac:(lia)). unfold fexp. lia. }
  pose proof (shr_fexp_canonical m1 e1 loc_Exact Hp1 Hle1) as C2.
  destruct (shr_fexp prec emax m1 e1 loc_Exact) as [r2 e2]. cbn [fst snd] in C2.
  destruct (shr_m r2) as [|p|p]; [done| |done]. destruct (e2 <=? emax - prec); [|done].
  destruct C2 as [[? _]|[_ Hc]]; [done|exact Hc].
Qed.

Lemma normalize_canonical m e : 0 ≤ m → canonical (binary_normalize prec emax m e false).
Proof.
  intros Hm. destruct m as [|p|p]; [done| |lia]. cbn [binary_normalize]. unfold binary_round.
  set (e' := fexp prec emax (Zpos (digits2_pos p) + e)). destruct (decide (e' ≤ e)) as [Hle|Hgt].
  - destruct (shl_align_value p e e' Hle) as [Hv He']. destruct (shl_align p e e') as [mz ez]. cbn [fst snd] in *. subst ez.
    apply round_canonical; [lia|]. cbn [Zdigits2].
    assert (Zpos (digits2_pos mz) = Zpos (digits2_pos p) + (e - e')) as ->.
    { apply digits_unique. rewrite Hv. destruct (digits2_bounds p). pose proof (pow2_pos (e - e') ltac:(lia)).
      replace (Zpos (digits2_pos p) + (e - e') - 1) with ((Zpos (digits2_pos p) - 1) + (e - e')) by lia. rewrite !pow2_split by lia. nia. }
    replace (Zpos (digits2_pos p) + (e - e') + e') with (Zpos (digits2_pos p) + e) by lia. fold e'. lia.
  - assert (shl_align p e e' = (p, e)) as ->.
    { unfold shl_align. destruct (e' - e) eqn:Ed; [done|done|lia]. }
    apply round_canonical; [lia|]. cbn [Zdigits2]. fold e'. lia.
Qed.
End format.

Lemma unit_32 E : -149 ≤ E ≤ 80 → unit_ok 24 128 E.
Proof. unfold unit_ok, emin. lia. Qed.
Lemma unit_64 E : -1074 ≤ E ≤ 918 → unit_ok 53 1024 E.
Proof. unfold unit_ok, emin. lia. Qed.

(** ** Integers, in [float] *)
Ltac in_float := first [lia|apply unit_32; lia|done].
Lemma of_int_near z : 0 ≤ z < TOP → near z z (of_int z).
Proof. unfold TOP. intros Hz. apply normalize_between; try in_float; by apply le2_le. Qed.
Lemma fadd_near a b x y : 0 ≤ a → 0 ≤ b → a + b < TOP → near a a x → near b b y → near (a + b) (a + b) (fadd x y).
Proof. unfold TOP. intros. apply (SFadd_between 24 128) with a a b b; try in_float. Qed.
Lemma fsub_near a b x y : 0 ≤ b ≤ a → a < TOP → near a a x → near b b y → near (a - b) (a - b) (fsub x y).
Proof. unfold TOP. intros. apply (SFsub_between 24 128) with a a b b; try in_float. Qed.
Lemma fmul_near a c x y : 0 ≤ a → 0 ≤ c → c * a < TOP → near c c x → near 0 a y → near 0 (c * a) (fmul x y).
Proof. unfold TOP. intros. apply (SFmul_between 24 128) with 0 c c 0 0 a; try in_float; apply le2_le; lia. Qed.
(** A quotient by the integer [b], of something between 0 and [a]. *)
Lemma fdiv_near a b B x y :
  0 ≤ a < TOP → 0 < b → 0 ≤ B < TOP → a ≤ b * B → near 0 a x → near b b y → near 0 B (fdiv x y).
Proof. unfold TOP. intros. apply (SFdiv_between 24 128) with 0 0 a 0 b b; try in_float; apply le2_le; lia. Qed.

(** The conversion to an integer. *)
Definition trunc (f : spec_float) : option Z :=
  match f with
  | S754_zero _ => Some 0
  | S754_finite s m e => Some (cond_Zopp s (Z.shiftl (Zpos m) e))
  | _ => None
  end.
Lemma trunc_between E A B f :
  E ≤ 0 → 0 ≤ A → between E A B f → ∃ n, trunc f = Some n ∧ A / 2 ^ (- E) ≤ n ≤ B / 2 ^ (- E).
Proof.
  intros HE HA Hf. pose proof (pow2_pos (- E) ltac:(lia)) as HP.
  destruct f as [[]|?| |[] m e]; try done; simpl in *.
  { exists 0. split; [done|]. split; [apply Z.div_le_upper_bound|apply Z.div_le_lower_bound]; lia. }
  eexists. split; [done|]. destruct Hf as [Hl Hh]. destruct (decide (0 ≤ e)).
  - rewrite Z.shiftl_mul_pow2 by lia. rewrite (le2_at E) in Hl, Hh by lia. rewrite Z.sub_diag, Z.mul_1_r in Hl, Hh.
    replace (e - E) with (e + - E) in Hl, Hh by lia. rewrite pow2_split in Hl, Hh by lia.
    split; [apply Z.div_le_upper_bound|apply Z.div_le_lower_bound]; lia.
  - rewrite Z.shiftl_div_pow2 by lia. pose proof (pow2_pos (- e) ltac:(lia)). set (k := Z.min e E).
    rewrite (le2_at k) in Hl, Hh by lia. pose proof (pow2_pos (e - k) ltac:(lia)). pose proof (pow2_pos (E - k) ltac:(lia)).
    assert (2 ^ (- e) * 2 ^ (e - k) = 2 ^ (- E) * 2 ^ (E - k)) as Hp.
    { rewrite <- !pow2_split by lia. f_equal. lia. }
    split.
    + apply Z.div_le_lower_bound; [done|]. pose proof (Z.mul_div_le A (2 ^ (- E)) HP) as Hd. set (q := A / _) in *.
      enough (2 ^ (- e) * q * 2 ^ (e - k) ≤ Zpos m * 2 ^ (e - k)) by nia. transitivity (A * 2 ^ (E - k)); [|done].
      transitivity (2 ^ (- E) * 2 ^ (E - k) * q); [rewrite <- Hp; lia|nia].
    + apply Z.div_le_lower_bound; [done|]. pose proof (Z.mul_div_le (Zpos m) (2 ^ (- e)) ltac:(lia)) as Hd. set (q := Zpos m / _) in *.
      enough (2 ^ (- E) * q * 2 ^ (E - k) ≤ B * 2 ^ (E - k)) by nia. transitivity (Zpos m * 2 ^ (e - k)); [|done].
      transitivity (2 ^ (- E) * 2 ^ (E - k) * q); [lia|rewrite <- Hp; nia].
Qed.
Lemma float_to_int_between E A B f :
  E ≤ 0 → 0 ≤ A → B / 2 ^ (- E) ≤ INT_MAX → between E A B f →
  ∃ n, float_to_int f = Ok n ∧ A / 2 ^ (- E) ≤ n ≤ B / 2 ^ (- E).
Proof.
  intros HE HA HB Hf. destruct (trunc_between E A B f HE HA Hf) as (n & Hn & Hr). exists n. split; [|done].
  pose proof (pow2_pos (- E) ltac:(lia)). pose proof (Z.div_pos A (2 ^ (- E)) HA ltac:(lia)).
  destruct f as [s|?| |s m e]; simplify_eq/=; [done|]. apply int_result_ok. unfold INT_MIN. lia.
Qed.
Lemma float_to_int_near A B f : 0 ≤ A → B < TOP → near A B f → ∃ n, float_to_int f = Ok n ∧ A ≤ n ≤ B.
Proof.
  unfold TOP. intros HA HB Hf. destruct (float_to_int_between 0 A B f) as (n & Hn & Hr); [lia|lia| |done|].
  - change (2 ^ (- 0)) with 1. rewrite Z.div_1_r. unfold INT_MAX. lia.
  - change (2 ^ (- 0)) with 1 in Hr. rewrite !Z.div_1_r in Hr. eauto.
Qed.

(** A percentage of two integers. *)
Definition percent (a b : Z) : float := fmul (of_int 100) (fdiv (of_int a) (of_int b)).
Lemma of_int_coarse z k : 0 ≤ k ≤ 80 → 0 ≤ z → z / 2 ^ k + 1 < TOP → between k (z / 2 ^ k) (z / 2 ^ k + 1) (of_int z).
Proof.
  unfold TOP. intros Hk Hz Hlt. pose proof (pow2_pos k ltac:(lia)). pose proof (Z.div_mod z (2 ^ k) ltac:(lia)).
  pose proof (Z.mod_pos_bound z (2 ^ k) ltac:(lia)).
  apply normalize_between; [lia|lia|apply unit_32; lia|lia|lia|..]; rewrite (le2_at 0) by lia; rewrite !Z.sub_0_r; lia.
Qed.
Lemma percent_range a b : 0 ≤ a ≤ b → 0 < b < INT_MAX → ∃ n, float_to_int (percent a b) = Ok n ∧ 0 ≤ n ≤ 100.
Proof.
  intros Ha Hb. assert (between (-10) 0 1025 (fdiv (of_int a) (of_int b))) as Hq.
  { unfold INT_MAX in *. destruct (decide (b < TOP)) as [Hlt|Hge]; unfold TOP in *.
    - apply (SFdiv_between 24 128) with 0 a a 0 b b; try in_float; try (apply of_int_near; unfold TOP; lia);
        rewrite (le2_at (-10)) by lia; lia.
    - pose proof (Z.div_mod a 256 ltac:(lia)). pose proof (Z.div_mod b 256 ltac:(lia)).
      pose proof (Z.mod_pos_bound a 256 ltac:(lia)). pose proof (Z.mod_pos_bound b 256 ltac:(lia)).
      apply (SFdiv_between 24 128) with 8 (a / 256) (a / 256 + 1) 8 (b / 256) (b / 256 + 1); try in_float;
        try (apply (of_int_coarse _ 8); change (2 ^ 8) with 256; unfold TOP; lia); rewrite (le2_at (-10)) by lia; simpl; lia. }
  destruct (float_to_int_between (-10) 0 102500 (percent a b)) as (n & Hn & Hr); [lia|lia|by vm_compute| |].
  - apply (SFmul_between 24 128) with 0 100 100 (-10) 0 1025; try in_float; try done; try (by vm_compute).
  - exists n. split; [done|]. exact Hr.
Qed.

(** ** Doubles *)
Lemma double_of_between z : 0 ≤ z < 2 ^ 53 → between 0 z z (double_of z).
Proof. intros Hz. apply normalize_between; try lia; try (by apply le2_le). apply unit_64; lia. Qed.
Lemma to_float_between E A B E' A' B' d :
  unit_ok 24 128 E' → 0 ≤ A' → B' < 2 ^ 24 → le2 A' E' A E → le2 B E B' E' →
  between E A B d → between E' A' B' (to_float d).
Proof.
  intros HE HA HB Hl Hh Hd. pose proof (between_weaken _ _ _ _ _ _ _ Hl Hh Hd) as Hd'.
  destruct d as [[]|?| |[] m e]; try done. destruct Hd' as [? ?]. by apply normalize_between.
Qed.
(** The difference of equal numbers is zero. *)
Lemma sub_self E A B d : between E A B d → dsub d d = S754_zero false.
Proof. destruct d as [[]|?| |[] m e]; try done. intros _. unfold dsub, SFsub. by rewrite Z.sub_diag. Qed.

(** ** Printing *)
Lemma round_half_even_near num den : 0 < den → 2 * num - den ≤ 2 * (round_half_even num den * den) ≤ 2 * num + den.
Proof.
  intros Hd. unfold round_half_even. pose proof (Z.div_mod num den ltac:(lia)). pose proof (Z.mod_pos_bound num den Hd).
  repeat case_decide; [nia|destruct (Z.even _); nia|nia].
Qed.
(** [%.<d>f] prints a number of units of the last place that is at most half a
    unit off. *)
Lemma print_float_between d E A B f :
  E ≤ 0 → between E A B f →
  ∃ h, print_float d f = print_decimals d h ∧
    2 * (A * 10 ^ Z.of_nat d) - 2 ^ (- E) ≤ 2 * (h * 2 ^ (- E)) ≤ 2 * (B * 10 ^ Z.of_nat d) + 2 ^ (- E).
Proof.
  intros HE Hf. pose proof (pow2_pos (- E) ltac:(lia)) as HP.
  assert (0 < 10 ^ Z.of_nat d) as H10 by (apply Z.pow_pos_nonneg; lia). set (T := 10 ^ Z.of_nat d) in *. set (P := 2 ^ (- E)) in *.
  destruct f as [[]|?| |[] m e]; try done; simpl in Hf; cbn [print_float sign app].
  { exists 0. split; [done|]. nia. }
  eexists. split; [done|]. destruct Hf as [Hl Hh]. fold T. case_decide as He.
  - rewrite (le2_at E) in Hl, Hh by lia. rewrite Z.sub_diag, Z.mul_1_r in Hl, Hh.
    replace (e - E) with (e + - E) in Hl, Hh by lia. rewrite pow2_split in Hl, Hh by lia. fold P in Hl, Hh.
    set (V := 2 ^ e) in *. nia.
  - pose proof (pow2_pos (- e) ltac:(lia)) as HD. pose proof (round_half_even_near (Zpos m * T) (2 ^ (- e)) HD) as Hr.
    set (h := round_half_even _ _) in *. set (D := 2 ^ (- e)) in *.
    assert (A * D ≤ Zpos m * P ∧ Zpos m * P ≤ B * D) as [Ha Hb].
    { set (k := Z.min e E). rewrite (le2_at k) in Hl, Hh by lia. pose proof (pow2_pos (- k) ltac:(lia)).
      pose proof (pow2_pos (e - k) ltac:(lia)). pose proof (pow2_pos (E - k) ltac:(lia)).
      assert (D * 2 ^ (e - k) = 2 ^ (- k)) as E1 by (unfold D; rewrite <- pow2_split by lia; f_equal; lia).
      assert (P * 2 ^ (E - k) = 2 ^ (- k)) as E2 by (unfold P; rewrite <- pow2_split by lia; f_equal; lia).
      set (x := 2 ^ (e - k)) in *. set (y := 2 ^ (E - k)) in *. clearbody x y D P.
      split; nia. }
    clearbody D P T h. split; nia.
Qed.
