(* ===== verification/Clock.v ===== *)
(** The clock of the scheduler (get_time of LabWork/Lab7/workload.c) in
    floating point, and how far the times computed from it are from the exact
    ones.  The exact time is a number of microseconds. *)
From Stdlib Require Import ZArith Lia Ascii SpecFloat.
From stdpp Require Import prelude strings numbers list.
From S2P Require Import Prelude CString CFloat.
Open Scope Z_scope.
Import CInt.

(** [tv.tv_sec + tv.tv_usec / 1000000.0]. *)
Definition get_time (us : Z) : double :=
  dadd (double_of (us / 1000000)) (ddiv (double_of (us mod 1000000)) (double_of 1000000)).

(** The times of a clock whose seconds fit an [int]. *)
Definition LATEST : Z := 2147483648 * 1000000.
Definition clock_ok (us : Z) : Prop := 0 ≤ us < LATEST.

(** * The clock *)
Lemma get_time_between k us :
  0 ≤ k ≤ 21 → clock_ok us →
  between (- k) (us * 2 ^ k / 1000000) (us * 2 ^ k / 1000000 + 1) (get_time us).
Proof.
  intros Hk [H0 Hl]. unfold LATEST in Hl. pose proof (pow2_pos k ltac:(lia)) as HK.
  assert (2 ^ k ≤ 2 ^ 21) as HK' by (apply Z.pow_le_mono_r; lia). change (2 ^ 21) with 2097152 in HK'.
  pose proof (Z.div_mod us 1000000 ltac:(lia)) as Hd. pose proof (Z.mod_pos_bound us 1000000 ltac:(lia)) as Hm.
  set (sec := us / 1000000) in *. set (f := us mod 1000000) in *.
  assert (0 ≤ sec < 2147483648) as Hs by lia.
  assert (us * 2 ^ k / 1000000 = sec * 2 ^ k + f * 2 ^ k / 1000000) as ->.
  { replace (us * 2 ^ k) with (f * 2 ^ k + (sec * 2 ^ k) * 1000000) by lia. rewrite Z.div_add by lia. lia. }
  pose proof (Z.div_mod (f * 2 ^ k) 1000000 ltac:(lia)) as Hq. pose proof (Z.mod_pos_bound (f * 2 ^ k) 1000000 ltac:(lia)) as Hr.
  set (q := f * 2 ^ k / 1000000) in *.
  assert (0 ≤ q < 2 ^ k) as Hqk by nia.
  assert (between (- k) q (q + 1) (ddiv (double_of f) (double_of 1000000))) as Hf.
  { apply (SFdiv_between 53 1024) with 0 f f 0 1000000 1000000; try lia; try (apply unit_64; lia); try (apply double_of_between; lia).
    - rewrite Z.add_0_r, (le2_at (- k)) by lia. rewrite Z.sub_diag, Z.mul_1_r. replace (0 - - k) with k by lia. lia.
    - rewrite Z.add_0_r, (le2_at (- k)) by lia. rewrite Z.sub_diag, Z.mul_1_r. replace (0 - - k) with k by lia. lia. }
  apply (SFadd_between 53 1024) with (sec * 2 ^ k) (sec * 2 ^ k) q (q + 1); try lia; try (apply unit_64; lia); try nia; [|done].
  apply (between_fine 0 sec sec _ k); [lia|]. apply double_of_between. lia.
Qed.

(** The whole seconds. *)
Lemma get_time_int us : clock_ok us → float_to_int (get_time us) = Ok (us / 1000000).
Proof.
  intros Hc. pose proof Hc as [H0 Hl]. unfold LATEST in Hl.
  pose proof (Z.div_mod us 1000000 ltac:(lia)). pose proof (Z.mod_pos_bound us 1000000 ltac:(lia)).
  pose proof (Z.div_mod (us * 2 ^ 20) 1000000 ltac:(lia)) as Hq. pose proof (Z.mod_pos_bound (us * 2 ^ 20) 1000000 ltac:(lia)) as Hr.
  set (sec := us / 1000000) in *. set (q := us * 2 ^ 20 / 1000000) in *.
  change (2 ^ 20) with 1048576 in *.
  assert (q / 1048576 = sec ∧ (q + 1) / 1048576 = sec) as [E1 E2].
  { split; symmetry; [apply (Z.div_unique _ _ _ (q - sec * 1048576))|apply (Z.div_unique _ _ _ (q + 1 - sec * 1048576))]; lia. }
  destruct (float_to_int_between (-20) q (q + 1) (get_time us)) as (n & -> & Hn); [lia|unfold q; apply Z.div_pos; lia| | |].
  - change (2 ^ (- -20)) with 1048576. unfold INT_MAX. lia.
  - unfold q. change 1048576 with (2 ^ 20). by apply (get_time_between 20).
  - change (2 ^ (- -20)) with 1048576 in Hn. f_equal. lia.
Qed.

(** * Differences *)

(** [f] is the time [us], up to [k] in units of 2^-10 millionths. *)
Definition within_us (k us : Z) (f : float) : Prop :=
  ∃ A B, between (-10) A B f ∧ 0 ≤ A ∧ 1024 * us - k ≤ 1000000 * A ∧ 1000000 * B ≤ 1024 * us + k.
Definition SLACK : Z := 1001000.

(** [float turn = completion_time - arrival_time]. *)
Definition elapsed (c a : Z) : float := to_float (dsub (get_time c) (get_time a)).

Lemma elapsed_within a c :
  clock_ok a → clock_ok c → a ≤ c → c - a < 16000 * 1000000 → within_us SLACK (c - a) (elapsed c a).
Proof.
  intros Ha Hc Hle Hlt. unfold elapsed, SLACK.
  pose proof (get_time_between 21 a ltac:(lia) Ha) as Ba. pose proof (get_time_between 21 c ltac:(lia) Hc) as Bc.
  destruct (decide (a = c)) as [->|Hne].
  { rewrite (sub_self _ _ _ _ Bc). exists 0, 0. split_and!; [done|lia|lia|lia]. }
  change (2 ^ 21) with 2097152 in *.
  pose proof (Z.div_mod (a * 2097152) 1000000 ltac:(lia)). pose proof (Z.mod_pos_bound (a * 2097152) 1000000 ltac:(lia)).
  pose proof (Z.div_mod (c * 2097152) 1000000 ltac:(lia)). pose proof (Z.mod_pos_bound (c * 2097152) 1000000 ltac:(lia)).
  unfold clock_ok, LATEST in *.
  set (La := a * 2097152 / 1000000) in *. set (Lc := c * 2097152 / 1000000) in *.
  assert (0 ≤ Lc - (La + 1)) as Hpos by lia.
  assert (between (-21) (Lc - (La + 1)) (Lc + 1 - La) (dsub (get_time c) (get_time a))) as Hd.
  { apply (SFsub_between 53 1024) with Lc (Lc + 1) La (La + 1); try lia; try (apply unit_64; lia); done. }
  pose proof (Z.div_mod (Lc - (La + 1)) 2048 ltac:(lia)). pose proof (Z.mod_pos_bound (Lc - (La + 1)) 2048 ltac:(lia)).
  pose proof (Z.div_mod (Lc + 1 - La) 2048 ltac:(lia)). pose proof (Z.mod_pos_bound (Lc + 1 - La) 2048 ltac:(lia)).
  set (A := (Lc - (La + 1)) / 2048) in *. set (B := (Lc + 1 - La) / 2048) in *.
  exists A, (B + 1). split_and!; [|lia..].
  eapply to_float_between; [apply unit_32; lia|lia|lia| | |exact Hd]; rewrite (le2_at (-21)) by lia; simpl; lia.
Qed.

(** * Sums and averages *)
Lemma fadd_within k1 k2 u1 u2 x y :
  1024 * (u1 + u2) + k1 + k2 < 16777216 * 1000000 →
  within_us k1 u1 x → within_us k2 u2 y → within_us (k1 + k2) (u1 + u2) (fadd x y).
Proof.
  intros Hlt (A1 & B1 & Hx & ? & ? & ?) (A2 & B2 & Hy & ? & ? & ?). exists (A1 + A2), (B1 + B2).
  split_and!; [|lia..]. apply (SFadd_between 24 128) with A1 B1 A2 B2; try in_float.
Qed.
(** The printed hundredths of an average of [n] times. *)
Lemma average_printed n u f :
  0 < n < TOP → 0 ≤ u → within_us (n * SLACK) u f → 1024 * u + n * SLACK + n * 1000000 < 16777216 * 1000000 →
  ∃ h, print_float 2 (fdiv f (of_int n)) = print_decimals 2 h ∧ u - n * 10000 ≤ n * h * 10000 ≤ u + n * 10000.
Proof.
  unfold TOP, SLACK. intros Hn Hu (A & B & Hf & HA & Hl & Hh) Hlt.
  pose proof (Z.div_mod A n ltac:(lia)). pose proof (Z.mod_pos_bound A n ltac:(lia)).
  pose proof (Z.div_mod B n ltac:(lia)). pose proof (Z.mod_pos_bound B n ltac:(lia)).
  pose proof (Z.div_pos A n HA ltac:(lia)).
  set (A' := A / n) in *. set (B' := B / n) in *.
  assert (B' + 1 < 16777216) by (destruct (decide (B' ≤ 0)); [lia|nia]).
  assert (between (-10) A' (B' + 1) (fdiv f (of_int n))) as Hq.
  { apply (SFdiv_between 24 128) with (-10) A B 0 n n; try in_float.
    - apply le2_le. lia.
    - apply le2_le. lia.
    - apply of_int_near. unfold TOP. lia. }
  destruct (print_float_between 2 (-10) A' (B' + 1) _ ltac:(lia) Hq) as (h & -> & Hp).
  change (2 ^ (- -10)) with 1024 in Hp. change (10 ^ Z.of_nat 2) with 100 in Hp.
  exists h. split; [done|]. nia.
Qed.
Lemma elapsed_printed u f :
  within_us SLACK u f → 0 ≤ u → ∃ h, print_float 2 f = print_decimals 2 h ∧ u - 10000 ≤ h * 10000 ≤ u + 10000.
Proof.
  unfold SLACK. intros (A & B & Hf & HA & Hl & Hh) Hu.
  destruct (print_float_between 2 (-10) A B _ ltac:(lia) Hf) as (h & -> & Hp).
  change (2 ^ (- -10)) with 1024 in Hp. change (10 ^ Z.of_nat 2) with 100 in Hp.
  exists h. split; [done|]. lia.
Qed.

(** * Comparisons *)
Definition QUARTER : double := ddiv (double_of 1) (double_of 4).
(** [run_time > .25]. *)
Definition over_quarter (run_time : double) : bool := SFltb QUARTER run_time.

Lemma quarter_eq : QUARTER = S754_finite false 4503599627370496 (-54).
Proof. by vm_compute. Qed.

Lemma normalize_double m e : 0 ≤ m → canonical 53 1024 (binary_normalize 53 1024 m e false).
Proof. apply normalize_canonical; lia. Qed.
Lemma get_time_canonical us : clock_ok us → 1000000 ≤ us → canonical 53 1024 (get_time us) ∧ ∃ m e, get_time us = S754_finite false m e.
Proof.
  intros Hc H1. pose proof Hc as [H0 Hl]. unfold LATEST in Hl.
  pose proof (get_time_between 0 us ltac:(lia) Hc) as Hb. change (2 ^ 0) with 1 in Hb. rewrite Z.mul_1_r in Hb.
  pose proof (Z.div_mod us 1000000 ltac:(lia)) as Hd. pose proof (Z.mod_pos_bound us 1000000 ltac:(lia)) as Hm.
  assert (0 < us / 1000000 < 2147483648) as Hs by lia. set (sec := us / 1000000) in *. set (f := us mod 1000000) in *.
  assert (∃ m e, get_time us = S754_finite false m e) as Hfin.
  { destruct (get_time us) as [[]|?| |[] m e]; simpl in Hb; try done; [lia|by exists m, e]. }
  split; [|done]. unfold get_time, dadd. fold sec f.
  assert (between 0 0 1 (ddiv (double_of f) (double_of 1000000))) as Hq.
  { apply (SFdiv_between 53 1024) with 0 f f 0 1000000 1000000; try lia; try (apply unit_64; lia); try (apply double_of_between; lia);
      apply le2_le; lia. }
  pose proof (double_of_between sec ltac:(lia)) as Hx. pose proof (normalize_double sec 0 ltac:(lia)) as Hcx. fold (double_of sec) in Hcx.
  destruct (double_of sec) as [[]|?| |[] mx ex]; simpl in Hx; try done; [lia|].
  destruct (ddiv _ _) as [[]|?| |[] my ey]; simpl in Hq; try done. apply normalize_double. cbn [cond_Zopp]. lia.
Qed.

(** A difference of more than a quarter of a second is seen as such, and one
    of less is not. *)
Lemma over_quarter_between d A B :
  canonical 53 1024 d → between (-21) A B d →
  (524288 < A → over_quarter d = true) ∧ (B < 524288 → over_quarter d = false).
Proof.
  intros Hc Hb. unfold over_quarter. rewrite quarter_eq. unfold SFltb. destruct d as [[]|?| |[] m e]; simpl in Hb; try done; [split; [lia|done]|].
  destruct Hb as [Hl Hh]. simpl in Hc. unfold fexp, emin in Hc. destruct (digits2_bounds m) as [Dl Du]. set (g := Zpos (digits2_pos m)) in *.
  cbn [SFcompare]. split; intros Hq.
  - assert (le2 1 (-2) (Zpos m) e) as Hv by (eapply le2_trans; [|exact Hl]; rewrite (le2_at (-21)) by lia; simpl; lia).
    assert (-1 ≤ g + e) as Hge.
    { set (k := Z.min (-2) e). rewrite (le2_at k) in Hv by lia. pose proof (pow2_pos (e - k) ltac:(lia)).
      assert (2 ^ (-2 - k) < 2 ^ (g + (e - k))) as Hlt by (rewrite (pow2_split g) by lia; nia).
      apply Z.pow_lt_mono_r_iff in Hlt; lia. }
    destruct (Z.compare_spec (-54) e) as [<-|Hlt|Hlt]; [|done|lia].
    rewrite (le2_at (-54)) in Hl by lia. simpl in Hl.
    assert (Pos.compare 4503599627370496 m = Lt) as Hcmp by (apply Pos.compare_lt_iff; lia). unfold Pos.compare in Hcmp. by rewrite Hcmp.
  - assert (g + e ≤ -2) as Hge.
    { set (k := Z.min (-21) e). rewrite (le2_at k) in Hh by lia. pose proof (pow2_pos (e - k) ltac:(lia)). pose proof (pow2_pos (-21 - k) ltac:(lia)).
      assert (2 ^ (g - 1 + (e - k)) < 2 ^ (19 + (-21 - k))) as Hlt.
      { rewrite !pow2_split by lia. change (2 ^ 19) with 524288. nia. }
      apply Z.pow_lt_mono_r_iff in Hlt; lia. }
    destruct (Z.compare_spec (-54) e); [lia|lia|done].
Qed.

Lemma normalize_negative E A B z e : ¬ 0 ≤ z → ¬ between E A B (binary_normalize 53 1024 z e false).
Proof.
  intros Hz. destruct z as [|p|p]; [lia|lia|]. cbn [binary_normalize]. unfold binary_round, binary_round_aux.
  destruct (shl_align _ _ _) as [mz ez]. destruct (shr_fexp _ _ (Zpos mz) ez loc_Exact) as [r1 e1].
  destruct (shr_fexp _ _ _ e1 loc_Exact) as [r2 e2]. destruct (shr_m r2); simpl; [tauto| |tauto]. destruct (_ <=? _); tauto.
Qed.
(** [run_time = end - start]. *)
Definition run_time (e s : Z) : double := dsub (get_time e) (get_time s).
Lemma run_time_between s e :
  clock_ok s → clock_ok e → 1000000 ≤ s ≤ e →
  canonical 53 1024 (run_time e s) ∧ ∃ A B, between (-21) A B (run_time e s) ∧ 0 ≤ A ∧
    (e - s) * 2097152 - 2000000 < A * 1000000 ∧ B * 1000000 < (e - s) * 2097152 + 2000000.
Proof.
  intros Hs He Hlt. pose proof (get_time_between 21 s ltac:(lia) Hs) as Bs. pose proof (get_time_between 21 e ltac:(lia) He) as Be.
  destruct (get_time_canonical s Hs ltac:(lia)) as [_ (ms & es & Es)]. destruct (get_time_canonical e He ltac:(lia)) as [_ (me & ee & Ee)].
  destruct (decide (s = e)) as [->|Hne].
  { unfold run_time. rewrite (sub_self _ _ _ _ Be). split; [done|]. exists 0, 0. split_and!; [done|lia..]. }
  change (2 ^ 21) with 2097152 in *. unfold clock_ok, LATEST in *.
  pose proof (Z.div_mod (s * 2097152) 1000000 ltac:(lia)). pose proof (Z.mod_pos_bound (s * 2097152) 1000000 ltac:(lia)).
  pose proof (Z.div_mod (e * 2097152) 1000000 ltac:(lia)). pose proof (Z.mod_pos_bound (e * 2097152) 1000000 ltac:(lia)).
  set (Ls := s * 2097152 / 1000000) in *. set (Le := e * 2097152 / 1000000) in *.
  assert (between (-21) (Le - (Ls + 1)) (Le + 1 - Ls) (run_time e s)) as Hd.
  { apply (SFsub_between 53 1024) with Le (Le + 1) Ls (Ls + 1); try lia; try (apply unit_64; lia); done. }
  split; [|exists (Le - (Ls + 1)), (Le + 1 - Ls); split_and!; [done|lia..]].
  unfold run_time, dsub in *. rewrite Es, Ee in Hd |- *. cbn [SFsub] in *. 
  set (z := cond_Zopp _ _ - cond_Zopp _ _) in *. destruct (decide (0 ≤ z)); [by apply normalize_double|].
  by apply normalize_negative in Hd.
Qed.
(** What is seen as more is at least that. *)
Lemma over_quarter_true d A B :
  canonical 53 1024 d → between (-21) A B d → over_quarter d = true → between (-2) 1 B d.
Proof.
  intros Hc Hb. unfold over_quarter. rewrite quarter_eq. unfold SFltb. destruct d as [[]|?| |[] m e]; simpl in Hb; try done.
  destruct Hb as [_ Hh]. simpl in Hc. unfold fexp, emin in Hc. destruct (digits2_bounds m) as [Dl _].
  cbn [SFcompare]. intros Hq. assert (0 < B) by (eapply (le2_pos 53 1024); [lia|lia|exact Hh]).
  split; [|eapply le2_trans; [exact Hh|]; rewrite (le2_at (-21)) by lia; simpl; lia].
  assert (-54 ≤ e) as He by (destruct (Z.compare_spec (-54) e); [lia|lia|done]).
  assert (Zpos (digits2_pos m) = 53) as Hg by lia. rewrite Hg in Dl.
  apply le2_trans with (4503599627370496) (-54); [rewrite (le2_at (-54)) by lia; done|].
  rewrite (le2_at (-54)) by lia. rewrite Z.sub_diag, Z.mul_1_r. pose proof (pow2_pos (e - -54) ltac:(lia)).
  change (2 ^ (53 - 1)) with 4503599627370496 in Dl. set (P := 2 ^ (e - -54)) in *. nia.
Qed.
