(* ===== verification/Tokenizer.v ===== *)
(** The string tokenizer [next_token] (Project4/next_token.c, and the same
    function in Project4/www.c, Project1/inspector.c and
    LabWork/Lab7/file_format.c): its in-place code over a character array, the
    splitting it is meant to compute, and the interface its clients use. *)
From Stdlib Require Import ZArith Lia Ascii.
From stdpp Require Import prelude gmap strings numbers list.
From S2P Require Import Prelude CString.
Open Scope nat_scope.

(** * The code *)

(** [next_token(&str_ptr, delim)] over the array [buf]: the array after the
    call, the new value of [*str_ptr] and the returned pointer. *)
Definition next_token (buf : cstr) (str_ptr : option nat) (delim : cstr)
    : outcome (cstr * option nat * option nat) :=
  match str_ptr with
  | None => Ok (buf, None, None)
  | Some p =>
      tok_start ← strspn (drop p buf) delim;
      tok_end ← strcspn (drop (p + tok_start) buf) delim;
      if decide (tok_end ≤ 0) then Ok (buf, None, None)
      else
        let current_ptr := p + tok_start in
        let str_ptr' := p + (tok_start + tok_end) in
        c ← load buf str_ptr';
        if decide (c = nul) then Ok (buf, None, Some current_ptr)
        else
          buf' ← store buf str_ptr' nul;
          Ok (buf', Some (S str_ptr'), Some current_ptr)
  end.

(** The type of such tokenizers. *)
Abbreviation tokenizer_fn := (cstr → option nat → cstr → outcome (cstr * option nat * option nat)).

(** [while ((curr_tok = next_token(&next_tok, delim)) != NULL)]: the array
    after the loop and the pointers returned, in order. *)
Fixpoint token_loop (next : tokenizer_fn) (fuel : nat) (buf : cstr) (sp : option nat)
    (delim : cstr) : outcome (cstr * list nat) :=
  match fuel with
  | 0 => OutOfFuel
  | S f =>
      '(buf', sp', ret) ← next buf sp delim;
      match ret with
      | None => Ok (buf', [])
      | Some tok => '(buf'', toks) ← token_loop next f buf' sp' delim; Ok (buf'', tok :: toks)
      end
  end.

(** * What it computes

    [split delim s]: the maximal non-empty runs of characters of [s] outside
    [delim]. [cur] is the run being read. *)
Fixpoint split_from (delim cur s : cstr) : list cstr :=
  match s with
  | [] => match cur with [] => [] | _ => [cur] end
  | c :: s' =>
      if in_set delim c
      then match cur with [] => split_from delim [] s' | _ => cur :: split_from delim [] s' end
      else split_from delim (cur ++ [c]) s'
  end.
Definition split (delim s : cstr) : list cstr := split_from delim [] s.

(** The three parts of a string a call looks at. *)
Definition lead (delim s : cstr) : cstr := take_while (in_set delim) s.
Definition body (delim s : cstr) : cstr := drop_while (in_set delim) s.
Definition first_tok (delim s : cstr) : cstr := take_while (negb ∘ in_set delim) (body delim s).
Definition after_tok (delim s : cstr) : cstr := drop_while (negb ∘ in_set delim) (body delim s).

Lemma parts delim s : s = lead delim s ++ first_tok delim s ++ after_tok delim s.
Proof.
  unfold lead, first_tok, after_tok. rewrite take_drop_while. unfold body.
  by rewrite take_drop_while.
Qed.

Lemma elem_parts delim s c :
  (c ∈ lead delim s → c ∈ delim) ∧ (c ∈ first_tok delim s → c ∉ delim).
Proof.
  split; intros Hc.
  - pose proof (take_while_all (in_set delim) s) as H. rewrite Forall_forall in H.
    by apply in_set_true, H.
  - pose proof (take_while_all (negb ∘ in_set delim) (body delim s)) as H.
    rewrite Forall_forall in H. apply in_set_false, negb_true_iff, (H c Hc).
Qed.

Lemma parts_elem delim s c :
  c ∈ lead delim s ∨ c ∈ first_tok delim s ∨ c ∈ after_tok delim s → c ∈ s.
Proof. intros H. rewrite (parts delim s), !elem_of_app. tauto. Qed.

Lemma split_from_lead delim s : split_from delim [] s = split_from delim [] (body delim s).
Proof.
  unfold body. induction s as [|c s IH]; simpl; [done|].
  by destruct (in_set delim c) eqn:E; simpl; rewrite ?E.
Qed.

Lemma split_from_run delim cur t s :
  Forall (λ c, in_set delim c = false) t →
  split_from delim cur (t ++ s) = split_from delim (cur ++ t) s.
Proof.
  intros Ht. revert cur. induction Ht as [|c t Hc Ht IH]; intros cur; simpl.
  - by rewrite app_nil_r.
  - rewrite Hc, IH. by rewrite <- app_assoc.
Qed.

(** [split] unfolds along the parts of the string. *)
Lemma split_unfold delim s :
  split delim s =
  match first_tok delim s with
  | [] => []
  | _ => first_tok delim s :: split delim (tail (after_tok delim s))
  end.
Proof.
  unfold split. rewrite split_from_lead.
  rewrite <- (take_drop_while (negb ∘ in_set delim) (body delim s)) at 1.
  fold (first_tok delim s) (after_tok delim s).
  assert (Forall (λ c, in_set delim c = false) (first_tok delim s)) as Hf.
  { apply Forall_forall. intros c Hc. by apply in_set_false, (elem_parts delim s). }
  rewrite split_from_run by done. simpl.
  destruct (after_tok delim s) as [|c r] eqn:Ea; simpl.
  - by destruct (first_tok delim s).
  - pose proof (drop_while_head _ _ _ _ Ea) as Hc. apply negb_false_iff in Hc.
    rewrite Hc. destruct (first_tok delim s) eqn:Ef; [|done].
    (* an empty token means the body is empty or starts with a non-delimiter *)
    exfalso. unfold first_tok, after_tok, body in *.
    destruct (drop_while (in_set delim) s) as [|d k] eqn:Eb; [done|].
    pose proof (drop_while_head _ _ _ _ Eb) as Hd. simpl in Ef. unfold compose in Ef.
    by rewrite Hd in Ef.
Qed.

Lemma first_tok_nil delim s : first_tok delim s = [] → body delim s = [].
Proof.
  unfold first_tok. destruct (body delim s) as [|d k] eqn:Eb; [done|].
  pose proof (drop_while_head _ _ _ _ Eb) as Hd. simpl. unfold compose. by rewrite Hd.
Qed.

(** * One call *)

(** The outcome of a call on the string [s] found in the array at the pointer,
    in terms of its parts. *)
Definition next_token_spec (pre s post delim : cstr) : cstr * option nat * option nat :=
  let tok := length pre + length (lead delim s) in
  let end_ := tok + length (first_tok delim s) in
  match first_tok delim s with
  | [] => (pre ++ s ++ nul :: post, None, None)
  | _ =>
      match after_tok delim s with
      | [] => (pre ++ s ++ nul :: post, None, Some tok)
      | _ :: rest =>
          (pre ++ lead delim s ++ first_tok delim s ++ nul :: rest ++ nul :: post,
           Some (S end_), Some tok)
      end
  end.

(** The interface of a tokenizer: what its clients rely on, for the strings
    that satisfy [ok]. *)
Class Tokenizer (next : tokenizer_fn) (ok : cstr → Prop) : Prop := {
  ok_suffix l r : ok (l ++ r) → ok r;
  next_null buf delim : next buf None delim = Ok (buf, None, None);
  next_some pre s post delim :
    nul ∉ s → nul ∉ delim → ok s →
    next (pre ++ s ++ nul :: post) (Some (length pre)) delim =
      Ok (next_token_spec pre s post delim)
}.

Lemma scan_parts pre s post delim :
  nul ∉ s → nul ∉ delim →
  strspn (drop (length pre) (pre ++ s ++ nul :: post)) delim = Ok (length (lead delim s)) ∧
  strcspn (drop (length pre + length (lead delim s)) (pre ++ s ++ nul :: post)) delim
    = Ok (length (first_tok delim s)).
Proof.
  intros Hs Hd. pose proof (elem_parts delim s) as Hp.
  assert (∀ c, c ∈ lead delim s ∨ c ∈ first_tok delim s → c ≠ nul) as Hnn.
  { intros c Hc ->. apply Hs, (parts_elem delim). tauto. }
  assert (pre ++ s ++ nul :: post =
    (pre ++ lead delim s) ++ first_tok delim s ++ after_tok delim s ++ nul :: post) as Eb.
  { rewrite (parts delim s) at 1. by rewrite <- !app_assoc. }
  split.
  - rewrite Eb, <- app_assoc, drop_app_exact by done.
    destruct (first_tok delim s) as [|c t] eqn:Ef.
    + assert (after_tok delim s = []) as Ea.
      { pose proof (first_tok_nil _ _ Ef) as Hb. unfold after_tok. by rewrite Hb. }
      rewrite Ea. apply strspn_app; [set_solver| |by left]. intros; by apply Hp.
    + simpl. apply strspn_app; [set_solver| |right]; [intros; by apply Hp|].
      apply Hp. rewrite ?Ef. set_solver.
  - rewrite Eb, drop_app_exact by len.
    destruct (after_tok delim s) as [|c r] eqn:Ea; simpl.
    + apply strcspn_app; [set_solver| |by left]. intros; by apply Hp.
    + apply strcspn_app; [set_solver| |right]; [intros; by apply Hp|].
      pose proof (drop_while_head _ _ _ _ Ea) as Hc.
      by apply in_set_true, negb_false_iff.
Qed.

#[export] Instance next_token_tokenizer : Tokenizer next_token (λ _, True).
Proof.
  split; [done|done|]. intros pre s post delim Hs Hd _.
  destruct (scan_parts pre s post delim Hs Hd) as [H1 H2].
  unfold next_token. rewrite H1. simpl. rewrite H2. simpl.
  unfold next_token_spec. destruct (first_tok delim s) as [|c t] eqn:Ef; [done|].
  rewrite decide_False by (simpl; lia).
  assert (pre ++ s ++ nul :: post =
    (pre ++ lead delim s ++ c :: t) ++ after_tok delim s ++ nul :: post) as Eb.
  { rewrite (parts delim s), Ef at 1. by rewrite <- !app_assoc. }
  replace (length pre + (length (lead delim s) + length (c :: t)))
    with (length (pre ++ lead delim s ++ c :: t)) by len.
  unfold load. rewrite Eb. destruct (after_tok delim s) as [|d r] eqn:Ea; simpl.
  - by rewrite lookup_middle_eq by done.
  - rewrite lookup_middle_eq by done. simpl.
    assert (d ≠ nul) as Hdn.
    { intros ->. apply Hs, (parts_elem delim). rewrite Ea. set_solver. }
    rewrite decide_False by done. rewrite store_ok by len. simpl.
    rewrite insert_middle by done. do 3 f_equal; [by rewrite <- !app_assoc|f_equal; len].
Qed.

(** * The token loop *)
Section token_loop.
Context (next : tokenizer_fn) (ok : cstr → Prop) `{!Tokenizer next ok}.
Implicit Types (pre s post delim : cstr).

(** One call on the string [s]: there is no token left; or the token is the
    last one; or the string [r] after the token and its delimiter remains.
    Later calls do not reach back to the token. *)
Inductive token_step pre s post delim : outcome (cstr * option nat * option nat) → Prop :=
  | step_none :
  split delim s = [] → token_step pre s post delim (Ok (pre ++ s ++ nul :: post, None, None))
  | step_last p t :
  split delim s = [t] → string_at (pre ++ s ++ nul :: post) p = Ok t →
  token_step pre s post delim (Ok (pre ++ s ++ nul :: post, None, Some p))
  | step_more t pre' r p :
  split delim s = t :: split delim r → nul ∉ r → ok r →
  (∃ u, pre' = pre ++ u ∧ length u + length r = length s) → length r < length s →
  (∀ m, string_at (pre' ++ m) p = Ok t) →
  token_step pre s post delim (Ok (pre' ++ r ++ nul :: post, Some (length pre'), Some p)).

Lemma next_step pre s post delim :
  nul ∉ s → nul ∉ delim → ok s →
  token_step pre s post delim (next (pre ++ s ++ nul :: post) (Some (length pre)) delim).
Proof.
  intros Hs Hd Hok. rewrite next_some by done. unfold next_token_spec.
  pose proof (split_unfold delim s) as Hsplit. pose proof (parts delim s) as Hp.
  destruct (first_tok delim s) as [|c t] eqn:Ef; [by constructor|].
  assert (nul ∉ c :: t) as Ht.
  { intros Hn. rewrite <- Ef in Hn. apply Hs, (parts_elem delim). tauto. }
  destruct (after_tok delim s) as [|d r] eqn:Ea.
  - apply (step_last _ _ _ _ _ (c :: t)); [done|].
    generalize dependent (lead delim s). intros l Hp. rewrite Hp, app_nil_r.
    rewrite <- app_assoc, app_assoc. apply (string_at_app _ (c :: t)); [len|done].
  - set (pre' := pre ++ lead delim s ++ (c :: t) ++ [nul]).
    replace (pre ++ lead delim s ++ (c :: t) ++ nul :: r ++ nul :: post)
      with (pre' ++ r ++ nul :: post) by (unfold pre'; by rewrite <- !app_assoc).
    replace (S (length pre + length (lead delim s) + length (c :: t)))
      with (length pre') by (unfold pre'; len).
    apply (f_equal length) in Hp as Hlen.
    apply (step_more _ _ _ _ (c :: t)); [done| | | |len|].
    + intros Hn. apply Hs, (parts_elem delim). rewrite Ea. set_solver.
    + rewrite Hp in Hok. apply (ok_suffix (lead delim s ++ (c :: t) ++ [d])).
      by rewrite <- !app_assoc.
    + eexists. split; [done|len].
    + intros m. unfold pre'. rewrite <- !app_assoc. simpl. rewrite app_assoc.
      apply (string_at_app _ (c :: t)); [len|done].
Qed.

(** The state of the array after the loop: the prefix and what follows the
    string are untouched, and each pointer returned still denotes its
    token in the final array. *)
Record loop_result (pre s post : cstr) (ts : list cstr) (buf : cstr) (toks : list nat) : Prop := {
  loop_mem : ∃ s', buf = pre ++ s' ++ nul :: post ∧ length s' = length s;
  loop_toks : Forall2 (λ p t, string_at buf p = Ok t) toks ts
}.

Lemma loop_result_more pre s post t ts u r p buf toks :
  length u + length r = length s → (∀ m, string_at ((pre ++ u) ++ m) p = Ok t) →
  loop_result (pre ++ u) r post ts buf toks →
  loop_result pre s post (t :: ts) buf (p :: toks).
Proof.
  intros Hlen Hp [(s' & -> & Hs') Ht]. split.
  - exists (u ++ s'). rewrite <- !app_assoc. split; [done|len].
  - constructor; [apply Hp|done].
Qed.

Lemma token_loop_ok fuel pre s post delim :
  nul ∉ s → nul ∉ delim → ok s → length s + 1 < fuel →
  ∃ buf toks, token_loop next fuel (pre ++ s ++ nul :: post) (Some (length pre)) delim
  = Ok (buf, toks) ∧
  loop_result pre s post (split delim s) buf toks.
Proof.
  revert pre s. induction fuel as [|fuel IH]; intros pre s Hs Hd Hok Hf; [lia|].
  cbn [token_loop].
  destruct (next_step pre s post delim Hs Hd Hok)
    as [Hsp|p t Hsp Hp|t pre' r p Hsp Hr Hokr (u & -> & Hu) Hlt Hp]; simpl.
  - do 2 eexists. split; [done|]. split; [by exists s|]. rewrite Hsp. constructor.
  - destruct fuel as [|fuel]; [lia|]. cbn [token_loop]. rewrite next_null. simpl.
    do 2 eexists. split; [done|]. split; [by exists s|]. rewrite Hsp. by repeat constructor.
  - destruct (IH (pre ++ u) r Hr Hd Hokr) as (buf & toks & -> & Hres); [lia|]. simpl.
    do 2 eexists. split; [done|]. rewrite Hsp. by eapply loop_result_more.
Qed.

Lemma loop_strings pre s post ts buf toks :
  loop_result pre s post ts buf toks → mapM (string_at buf) toks = Ok ts.
Proof.
  intros [_ Ht]. induction Ht as [|p t ps ts' Hp _ IH]; simpl; [done|].
  rewrite Hp. simpl. by rewrite IH.
Qed.

Lemma token_loop_strings fuel pre s post delim :
  nul ∉ s → nul ∉ delim → ok s → length s + 1 < fuel →
  ∃ buf toks, token_loop next fuel (pre ++ s ++ nul :: post) (Some (length pre)) delim
  = Ok (buf, toks) ∧
  (∃ s', buf = pre ++ s' ++ nul :: post ∧ length s' = length s) ∧
  mapM (string_at buf) toks = Ok (split delim s).
Proof.
  intros Hs Hd Hok Hf. destruct (token_loop_ok fuel pre s post delim Hs Hd Hok Hf)
    as (buf & toks & Hrun & Hres).
  do 2 eexists. split; [done|]. split; [apply Hres|by eapply loop_strings].
Qed.
End token_loop.

(** A delimiter at the end of a string makes no difference. *)
Lemma split_snoc delim s d : d ∈ delim → split delim (s ++ [d]) = split delim s.
Proof.
  intros Hd. enough (∀ cur, split_from delim cur (s ++ [d]) = split_from delim cur s) as H by apply H.
  induction s as [|c s IH]; intros cur; simpl.
  - rewrite (proj2 (in_set_true _ _) Hd). by destruct cur.
  - destruct (in_set delim c); [destruct cur|]; by rewrite ?IH.
Qed.

(** A token is no longer than the string. *)
Lemma split_length delim s t : t ∈ split delim s → length t ≤ length s.
Proof.
  enough (∀ cur, t ∈ split_from delim cur s → length t ≤ length cur + length s) as H by apply (H []).
  induction s as [|c s IH]; intros cur; simpl.
  - destruct cur; [by intros ?%not_elem_of_nil|]. intros ->%list_elem_of_singleton. lia.
  - destruct (in_set delim c); [destruct cur as [|d cur]|].
    + intros H%IH. simpl in H. lia.
    + intros [->|H]%elem_of_cons; [lia|]. apply IH in H. simpl in *. lia.
    + intros H%IH. len.
Qed.

(** Tokens do not extend over a delimiter. *)
Lemma split_app delim s d s' :
  d ∈ delim → split delim ((s ++ [d]) ++ s') = split delim (s ++ [d]) ++ split delim s'.
Proof.
  intros Hd.
  enough (∀ cur, split_from delim cur ((s ++ [d]) ++ s') =
                 split_from delim cur (s ++ [d]) ++ split_from delim [] s') as H by apply H.
  induction s as [|c s IH]; intros cur; simpl.
  - rewrite (proj2 (in_set_true _ _) Hd). by destruct cur.
  - destruct (in_set delim c); [destruct cur|]; by rewrite ?IH.
Qed.

(** There are no more tokens than characters. *)
Lemma split_count delim s : length (split delim s) ≤ length s.
Proof.
  enough (∀ cur, length (split_from delim cur s) ≤ length s + match cur with [] => 0 | _ => 1 end) as H.
  { specialize (H []). simpl in H. unfold split. lia. }
  induction s as [|c s IH]; intros cur; simpl.
  - by destruct cur.
  - destruct (in_set delim c); [destruct cur as [|d cur]|].
    + specialize (IH []). simpl in IH. lia.
    + specialize (IH []). simpl in *. lia.
    + specialize (IH (cur ++ [c])). destruct cur; simpl in *; lia.
Qed.

(** * The tokens a caller has yet to read

    The string ends before [post], which no call changes. *)
Definition pending (delim post buf : cstr) (sp : option nat) (ts : list cstr) : Prop :=
  (sp = None ∧ ts = [] ∧ ∃ l, buf = l ++ nul :: post) ∨
  ∃ pre s, buf = pre ++ s ++ nul :: post ∧ sp = Some (length pre) ∧ (nul ∉ s) ∧ split delim s = ts.

Lemma pending_start delim s post :
  nul ∉ s → pending delim post (s ++ nul :: post) (Some 0) (split delim s).
Proof. intros Hs. right. by exists [], s. Qed.

(** The next call returns the next of them, or NULL. *)
Lemma next_token_pending delim post buf sp ts :
  nul ∉ delim → pending delim post buf sp ts →
  match ts with
  | [] => next_token buf sp delim = Ok (buf, None, None) ∧ pending delim post buf None []
  | t :: ts' => ∃ buf' sp' p, next_token buf sp delim = Ok (buf', sp', Some p) ∧
                  string_at buf' p = Ok t ∧ pending delim post buf' sp' ts' ∧ length buf' = length buf
  end.
Proof.
  intros Hd [(-> & -> & l & ->)|(pre & s & -> & -> & Hs & Hsp)]; [split; [done|left; eauto]|].
  destruct (next_step next_token (λ _, True) pre s post delim Hs Hd I)
    as [Hn|p t Hn Hp|t pre' r p Hn Hr _ (u & Hu & Hlen) Hlt Hp]; rewrite Hn in Hsp; subst ts.
  - split; [done|]. left. split_and!; [done|done|]. exists (pre ++ s). app_eq.
  - do 3 eexists. split_and!; [done|done| |done]. left. split_and!; [done|done|]. exists (pre ++ s). app_eq.
  - do 3 eexists. split_and!; [done|apply Hp| |subst pre'; len].
    right. by exists pre', r.
Qed.

(** C24: the tokenizing loop, run on a NUL-terminated string anywhere in a
    character array with enough iterations, terminates without leaving the
    array, changes nothing before the string nor from its terminator on, and
    the pointers it returned denote, in the final array, exactly the maximal
    delimiter-free runs of the string, in order. *)
Theorem next_token_loop_splits fuel pre s post delim :
  nul ∉ s → nul ∉ delim → length s + 1 < fuel →
  ∃ buf toks, token_loop next_token fuel (pre ++ s ++ nul :: post) (Some (length pre)) delim
                = Ok (buf, toks) ∧
              (∃ s', buf = pre ++ s' ++ nul :: post ∧ length s' = length s) ∧
              mapM (string_at buf) toks = Ok (split delim s).
Proof. intros. by apply (token_loop_strings next_token (λ _, True)). Qed.

Lemma next_token_loop_splits_witness :
  let s := lit "GET /a.html HTTP/1.1" in
  ∃ buf toks, token_loop next_token 30 (lit "ab" ++ s ++ nul :: lit "z") (Some 2) (lit " ")
                = Ok (buf, toks) ∧
              (∃ s', buf = lit "ab" ++ s' ++ nul :: lit "z" ∧ length s' = length s) ∧
              mapM (string_at buf) toks = Ok (split (lit " ") s).
Proof.
  apply (next_token_loop_splits 30 (lit "ab")); [decide_now|decide_now|simpl; lia].
Defined.

(** The example of [main] in Project4/next_token.c. *)
Example main_example :
  let str := lit "     This is a really great string, is it not?!" in
  ('(buf, toks) ← token_loop next_token 60 (str ++ [nul]) (Some 0) (lit " ,?!");
   mapM (string_at buf) toks)
  = Ok (map lit ["This"; "is"; "a"; "really"; "great"; "string"; "is"; "it"; "not"]).
Proof. vm_compute. reflexivity. Qed.
