(* ===== verification/Allocator.v ===== *)
(** The memory allocator (Project3/allocator.c): the block list it keeps in
    the mapped regions, its three placement policies, [malloc], [free],
    [calloc], [realloc] and the state dump.

    Addresses are integers (NULL is 0).  The headers live in [blocks], keyed
    by their address; the other bytes of the mapped regions are given by
    [bytes].  Access to a header that is not there, and a [memset] that leaves
    the mapped memory or touches a header, are undefined. *)
From Stdlib Require Import ZArith Lia Ascii.
From stdpp Require Import prelude gmap strings numbers list.
From S2P Require Import Prelude CString.
Open Scope Z_scope.
Import CInt.

(** * Data *)
Record mem_block := MkBlock {
  alloc_id : Z;
  blk_size : Z;
  usage : Z;
  region_start : Z;
  region_size : Z;
  next : Z
}.
#[export] Instance mem_block_eq_dec : EqDecision mem_block.
Proof. solve_decision. Defined.
(** [sizeof(struct mem_block)]: six 8-byte words. *)
Definition SIZEOF_BLOCK : Z := 48.

Record alloc_state := MkAlloc {
  g_head : Z;
  g_allocations : Z;
  blocks : gmap Z mem_block;
  mapped : gmap Z Z;       (* start of each mapping, and its length *)
  bytes : Z → Z
}.
Definition init_state (bs : Z → Z) : alloc_state := MkAlloc 0 0 ∅ ∅ bs.

(** The two environment variables the library reads. *)
Record alloc_env := MkEnv {
  ALLOCATOR_ALGORITHM : option cstr;
  ALLOCATOR_SCRIBBLE : bool
}.

Definition set_usage (u : Z) (b : mem_block) : mem_block :=
  MkBlock (alloc_id b) (blk_size b) u (region_start b) (region_size b) (next b).
Definition set_next (n : Z) (b : mem_block) : mem_block :=
  MkBlock (alloc_id b) (blk_size b) (usage b) (region_start b) (region_size b) n.
Definition set_blocks (bl : gmap Z mem_block) (st : alloc_state) : alloc_state :=
  MkAlloc (g_head st) (g_allocations st) bl (mapped st) (bytes st).

Definition deref (bl : gmap Z mem_block) (p : Z) : outcome mem_block :=
  if decide (p = 0) then Undef NullDeref else require Unmapped (bl !! p).

(** [p, p + n) lies in one mapping. *)
Definition in_mapping (mp : gmap Z Z) (p n : Z) : Prop :=
  Exists (λ r : Z * Z, r.1 ≤ p ∧ p + n ≤ r.1 + r.2) (map_to_list mp).
(** [p, p + n) meets no header of [bl]. *)
Definition clear_of_headers (bl : gmap Z mem_block) (p n : Z) : Prop :=
  Forall (λ h : Z * mem_block, p + n ≤ h.1 ∨ h.1 + SIZEOF_BLOCK ≤ p) (map_to_list bl).
#[export] Instance in_mapping_dec mp p n : Decision (in_mapping mp p n).
Proof. unfold in_mapping. apply _. Defined.
#[export] Instance clear_of_headers_dec bl p n : Decision (clear_of_headers bl p n).
Proof. unfold clear_of_headers. apply _. Defined.

Definition memset (st : alloc_state) (p c n : Z) : outcome alloc_state :=
  if decide (p = 0) then Undef NullDeref
  else if decide (n ≤ 0) then Ok st
  else if decide (in_mapping (mapped st) p n ∧ clear_of_headers (blocks st) p n)
  then Ok (MkAlloc (g_head st) (g_allocations st) (blocks st) (mapped st)
             (λ a, if decide (p ≤ a < p + n) then c else bytes st a))
  else Undef OutOfBounds.

(** Writing a whole new header into free bytes. *)
Definition store_new (st : alloc_state) (p : Z) (b : mem_block) : outcome alloc_state :=
  if decide (in_mapping (mapped st) p SIZEOF_BLOCK ∧ clear_of_headers (blocks st) p SIZEOF_BLOCK)
  then Ok (set_blocks (<[p := b]> (blocks st)) st)
  else Undef OutOfBounds.

(** [while (cur != NULL) { ...; cur = cur->next; }]: the body either leaves
    the loop with a result ([inl]) or goes on with its locals ([inr]). *)
Fixpoint walk {A R} (body : A → Z → mem_block → outcome (R + A)) (done : A → R)
    (fuel : nat) (bl : gmap Z mem_block) (cur : Z) (acc : A) : outcome R :=
  match fuel with
  | O => OutOfFuel
  | S f =>
      if decide (cur = 0) then Ok (done acc)
      else
        b ← deref bl cur;
        r ← body acc cur b;
        match r with
        | inl res => Ok res
        | inr acc' => walk body done f bl (next b) acc'
        end
  end.
(** One more iteration than there are headers. *)
Definition chain_fuel (bl : gmap Z mem_block) : nat := S (length (map_to_list bl)).

(** * reuse *)
(** [current_block->size - current_block->usage] and
    [size + sizeof(struct mem_block)], both [size_t]. *)
Definition avail (b : mem_block) : Z := wrap64 (blk_size b - usage b).
Definition need (size : Z) : Z := wrap64 (size + SIZEOF_BLOCK).

Definition first_fit (st : alloc_state) (size : Z) : outcome Z :=
  walk (λ (_ : unit) cur b,
          if decide (avail b > need size) then Ok (inl cur) else Ok (inr tt))
       (λ _, 0) (chain_fuel (blocks st)) (blocks st) (g_head st) tt.

Definition best_fit (st : alloc_state) (size : Z) : outcome Z :=
  walk (λ '(best, ret) cur b,
          if decide (avail b >= need size)
          then if decide (avail b ≤ best) then Ok (inr (avail b, cur)) else Ok (inr (best, ret))
          else Ok (inr (best, ret)))
       snd (chain_fuel (blocks st)) (blocks st) (g_head st) (INT_MAX, 0).

Definition worst_fit (st : alloc_state) (size : Z) : outcome Z :=
  walk (λ '(worst, ret) cur b,
          if decide (avail b >= need size)
          then if decide (avail b >= worst) then Ok (inr (avail b, cur)) else Ok (inr (worst, ret))
          else Ok (inr (worst, ret)))
       snd (chain_fuel (blocks st)) (blocks st) (g_head st) (0, 0).

Definition reuse (env : alloc_env) (st : alloc_state) (size : Z) : outcome Z :=
  let algo := default (lit "first_fit") (ALLOCATOR_ALGORITHM env) in
  if strcmp_eq algo (lit "first_fit") then first_fit st size
  else if strcmp_eq algo (lit "best_fit") then best_fit st size
  else if strcmp_eq algo (lit "worst_fit") then worst_fit st size
  else Ok 0.

(** * malloc *)
(** Realign memory requests to 8 bytes. *)
Definition align8 (size : Z) : Z :=
  if decide (size `mod` 8 ≠ 0) then wrap64 (size + (8 - size `mod` 8)) else size.

Definition scribble (env : alloc_env) (st : alloc_state) (p size : Z) : outcome alloc_state :=
  if ALLOCATOR_SCRIBBLE env then memset st p 170 size else Ok st.

Definition take_id (st : alloc_state) : alloc_state :=
  MkAlloc (g_head st) (wrap64 (g_allocations st + 1)) (blocks st) (mapped st) (bytes st).

(** The part of [malloc] after [reuse] returned the block at [r]. *)
Definition malloc_reuse (env : alloc_env) (st : alloc_state) (r size : Z)
    : outcome (alloc_state * Z) :=
  let real_sz := need size in
  rb ← deref (blocks st) r;
  if decide (usage rb = 0) then
    let st1 := set_blocks (<[r := MkBlock (g_allocations st) (blk_size rb) real_sz
                 (region_start rb) (region_size rb) (next rb)]> (blocks st)) (take_id st) in
    st2 ← scribble env st1 (r + SIZEOF_BLOCK) size;
    Ok (st2, r + SIZEOF_BLOCK)
  else
    let block := r + usage rb in
    st1 ← store_new (take_id st) block
      (MkBlock (g_allocations st) (wrap64 (blk_size rb - usage rb)) real_sz
         (region_start rb) (region_size rb) (next rb));
    let st2 := set_blocks (<[r := MkBlock (alloc_id rb) (usage rb) (usage rb)
                 (region_start rb) (region_size rb) block]> (blocks st1)) st1 in
    st3 ← scribble env st2 (block + SIZEOF_BLOCK) size;
    Ok (st3, block + SIZEOF_BLOCK).

(** The last block of the list, where a new region is linked. *)
Definition last_block (st : alloc_state) : outcome Z :=
  walk (λ (_ : unit) cur b, if decide (next b = 0) then Ok (inl cur) else Ok (inr tt))
       (λ _, 0) (chain_fuel (blocks st)) (blocks st) (g_head st) tt.

Definition link_region (st : alloc_state) (block : Z) : outcome alloc_state :=
  if decide (g_head st = 0)
  then Ok (MkAlloc block (g_allocations st) (blocks st) (mapped st) (bytes st))
  else
    current ← last_block st;
    if decide (current = 0) then Ok st
    else b ← deref (blocks st) current;
         Ok (set_blocks (<[current := set_next block b]> (blocks st)) st).

Section os.
(** [getpagesize()] and the kernel's choice of address for a new anonymous
    mapping of the given length ([None] is MAP_FAILED). *)
Context (page_sz : Z) (mmap : gmap Z Z → Z → option Z).

Definition region_sz_of (real_sz : Z) : Z :=
  let pages := real_sz / page_sz in
  let pages := if decide (real_sz `mod` page_sz ≠ 0) then pages + 1 else pages in
  wrap64 (pages * page_sz).

(** The bytes of a fresh mapping, which the system fills with zeros, are left as
    [bytes] has them; no theorem is about them. *)
Definition malloc_map (env : alloc_env) (st : alloc_state) (size : Z)
  : outcome (alloc_state * Z) :=
  let real_sz := need size in
  let region_sz := region_sz_of real_sz in
  match mmap (mapped st) region_sz with
  | None => Ok (st, 0)
  | Some block =>
      let st0 := MkAlloc (g_head st) (g_allocations st) (blocks st)
        (<[block := region_sz]> (mapped st)) (bytes st) in
      st1 ← store_new (take_id st0) block
        (MkBlock (g_allocations st) region_sz real_sz block region_sz 0);
      st2 ← link_region st1 block;
      st3 ← scribble env st2 (block + SIZEOF_BLOCK) size;
      Ok (st3, block + SIZEOF_BLOCK)
  end.

Definition malloc (env : alloc_env) (st : alloc_state) (size : Z)
  : outcome (alloc_state * Z) :=
  let size := align8 size in
  reusable_block ← reuse env st size;
  if decide (reusable_block ≠ 0) then malloc_reuse env st reusable_block size
  else malloc_map env st size.

Definition calloc (env : alloc_env) (st : alloc_state) (nmemb size : Z)
  : outcome (alloc_state * Z) :=
  let n := wrap64 (nmemb * size) in
  '(st1, ptr) ← malloc env st n;
  st2 ← memset st1 ptr 0 n;
  Ok (st2, ptr).
End os.

(** * free *)
(** The scan of the region of [rs]: whether every block of it is free, and
    where the scan stopped. *)
Definition scan_region (bl : gmap Z mem_block) (rs : Z) : outcome (bool * Z) :=
  walk (λ (_ : unit) cur b,
          if decide (region_start b ≠ rs) then Ok (inl (true, cur))
          else if decide (usage b ≠ 0) then Ok (inl (false, cur))
          else Ok (inr tt))
       (λ _, (true, 0)) (chain_fuel bl) bl rs tt.

(** [while (tmp != NULL && tmp->next != rs) tmp = tmp->next]. *)
Definition find_pred (bl : gmap Z mem_block) (head rs : Z) : outcome Z :=
  walk (λ (_ : unit) cur b, if decide (next b = rs) then Ok (inl cur) else Ok (inr tt))
       (λ _, 0) (chain_fuel bl) bl head tt.

(** [munmap(start, len)] that succeeds: the mapping and the headers in it go. *)
Definition unmap (st : alloc_state) (start len : Z) : alloc_state :=
  MkAlloc (g_head st) (g_allocations st)
    (filter (λ kv : Z * mem_block, ¬ (start ≤ kv.1 < start + len)) (blocks st))
    (delete start (mapped st)) (bytes st).

(** [munmap_ok] is whether the system call succeeds. *)
Definition free (munmap_ok : bool) (st : alloc_state) (ptr : Z) : outcome alloc_state :=
  if decide (ptr = 0) then Ok st
  else
    let blk := ptr - SIZEOF_BLOCK in
    b ← deref (blocks st) blk;
    let bl1 := <[blk := set_usage 0 b]> (blocks st) in
    '(free_, current) ← scan_region bl1 (region_start b);
    if free_ : bool then
      st2 ← (if decide (g_head st = region_start b)
             then Ok (MkAlloc current (g_allocations st) bl1 (mapped st) (bytes st))
             else
               tmp ← find_pred bl1 (g_head st) (region_start b);
               tb ← deref bl1 tmp;
               Ok (set_blocks (<[tmp := set_next current tb]> bl1) st));
      b2 ← deref (blocks st2) blk;
      if munmap_ok then Ok (unmap st2 (region_start b2) (region_size b2)) else Ok st2
    else Ok (set_blocks bl1 st).

(** * realloc *)
Definition realloc (page_sz : Z) (mmap : gmap Z Z → Z → option Z) (env : alloc_env)
    (munmap_ok : bool) (st : alloc_state) (ptr size : Z) : outcome (alloc_state * Z) :=
  let size := align8 size in
  if decide (ptr = 0) then malloc page_sz mmap env st size
  else if decide (size = 0) then st' ← free munmap_ok st ptr; Ok (st', 0)
  else Ok (st, 0).

(** * print_memory and write_memory *)
Inductive mem_line :=
  | RegionLine (start end_ size : Z)
  | BlockLine (start end_ id size used request : Z).

(** The lines both functions print after the title, to stdout or to [fp]. *)
Definition memory_lines (st : alloc_state) : outcome (list mem_line) :=
  walk (λ '(current_region, out) cur b,
          hd ← (if decide (region_start b ≠ current_region)
                then rb ← deref (blocks st) (region_start b);
                     Ok (region_start b,
                         [RegionLine (region_start b) (region_start b + region_size rb)
                            (region_size rb)])
                else Ok (current_region, []));
          Ok (inr (fst hd, out ++ snd hd ++
                   [BlockLine cur (cur + blk_size b) (alloc_id b) (blk_size b) (usage b)
                      (if decide (usage b = 0) then 0 else wrap64 (usage b - SIZEOF_BLOCK))])))
       snd (chain_fuel (blocks st)) (blocks st) (g_head st) (0, []).
