(* ===== verification/AllocLayout.v ===== *)
(** The layout invariant of the allocator: the block list is the sequence of
    the blocks of a list of disjoint mapped regions, each cut into adjacent
    blocks.  The lemmas on the layout that the correctness proofs of
    [AllocSafe] use: what a walk of the list visits, and how the header map
    changes when a block is rewritten, split, appended or a region removed. *)
From Stdlib Require Import ZArith Lia Ascii.
From stdpp Require Import prelude gmap strings numbers list.
From S2P Require Import Prelude CString Allocator.
Open Scope Z_scope.
Import CInt.

Abbreviation cell := (Z * mem_block)%type.
(** A region: its address and its blocks, in address order. *)
Abbreviation region := (Z * list mem_block)%type.

Fixpoint place (a : Z) (bl : list mem_block) : list cell :=
  match bl with [] => [] | b :: bl' => (a, b) :: place (a + blk_size b) bl' end.
Fixpoint total (bl : list mem_block) : Z :=
  match bl with [] => 0 | b :: bl' => blk_size b + total bl' end.
Fixpoint chain (rgs : list region) : list cell :=
  match rgs with [] => [] | r :: rgs' => place r.1 r.2 ++ chain rgs' end.

(** The [next] fields are those of the sequence. *)
Definition head_of (l : list cell) (e : Z) : Z := match l with [] => e | c :: _ => c.1 end.
Fixpoint link (l : list cell) (e : Z) : list cell :=
  match l with [] => [] | c :: l' => (c.1, set_next (head_of l' e) c.2) :: link l' e end.

Definition block_ok (rs rsz : Z) (b : mem_block) : Prop :=
  (SIZEOF_BLOCK ≤ blk_size b ∧ (usage b = 0 ∨ SIZEOF_BLOCK ≤ usage b ≤ blk_size b)) ∧
  (blk_size b `mod` 8 = 0 ∧ usage b `mod` 8 = 0) ∧
  region_start b = rs ∧ region_size b = rsz.
Definition region_ok (r : region) : Prop :=
  r.2 ≠ [] ∧ 0 < r.1 ∧ r.1 `mod` 8 = 0 ∧ r.1 + total r.2 < 18446744073709551616 ∧
  Forall (block_ok r.1 (total r.2)) r.2.
Definition apart (r r' : region) : Prop := r.1 + total r.2 ≤ r'.1 ∨ r'.1 + total r'.2 ≤ r.1.
Definition cells_apart (c c' : cell) : Prop :=
  c.1 + blk_size c.2 ≤ c'.1 ∨ c'.1 + blk_size c'.2 ≤ c.1.

Definition extent (r : region) : Z * Z := (r.1, total r.2).

Record layout (st : alloc_state) (rgs : list region) : Prop := {
  l_regions : Forall region_ok rgs;
  l_apart : pairwise apart rgs;
  l_blocks : blocks st = list_to_map (link (chain rgs) 0);
  l_head : g_head st = head_of (chain rgs) 0;
  l_mapped : mapped st = list_to_map (extent <$> rgs)
}.
(** Some block of the region is in use. *)
Definition busy (r : region) : Prop := Exists (λ b, usage b ≠ 0) r.2.
(** The invariant: every mapping the allocator holds is a region of the list,
    and no region is entirely free. *)
Definition wf (st : alloc_state) : Prop := ∃ rgs, layout st rgs ∧ Forall busy rgs.

(** The memory a client owns: the payload at [p] and its length. *)
Definition live (st : alloc_state) (p : Z) : option Z :=
  match blocks st !! (p - SIZEOF_BLOCK) with
  | Some b => if decide (usage b = 0) then None else Some (usage b - SIZEOF_BLOCK)
  | None => None
  end.

(** * Sequences of blocks *)
Section sequences.
Implicit Types (l : list cell) (rgs : list region) (bl : list mem_block).

Lemma place_app a bl1 bl2 : place a (bl1 ++ bl2) = place a bl1 ++ place (a + total bl1) bl2.
Proof.
  revert a. induction bl1 as [|b bl1 IH]; intros a; simpl; [by rewrite Z.add_0_r|].
  by rewrite IH, Z.add_assoc.
Qed.
Lemma total_app bl1 bl2 : total (bl1 ++ bl2) = total bl1 + total bl2.
Proof. induction bl1; simpl; lia. Qed.
Lemma chain_app rgs1 rgs2 : chain (rgs1 ++ rgs2) = chain rgs1 ++ chain rgs2.
Proof. induction rgs1; simpl; [done|]. by rewrite IHrgs1, app_assoc. Qed.

Lemma head_of_app l1 l2 e : head_of (l1 ++ l2) e = head_of l1 (head_of l2 e).
Proof. by destruct l1. Qed.
Lemma link_app l1 l2 e : link (l1 ++ l2) e = link l1 (head_of l2 e) ++ link l2 e.
Proof. induction l1; simpl; [done|]. by rewrite IHl1, head_of_app. Qed.
Lemma link_keys l e : (link l e).*1 = l.*1.
Proof. induction l; simpl; [done|]. by f_equal. Qed.
Lemma length_link l e : length (link l e) = length l.
Proof. rewrite <- (length_fmap fst), link_keys. apply length_fmap. Qed.

Lemma elem_of_link l e a b :
  (a, b) ∈ link l e → ∃ b0 n, (a, b0) ∈ l ∧ b = set_next n b0.
Proof.
  induction l as [|c l IH]; simpl; [set_solver|].
  intros [[= -> ->]|H]%elem_of_cons.
  - exists c.2, (head_of l e). split; [destruct c; set_solver|done].
  - destruct (IH H) as (b0 & n & ? & ?). exists b0, n. set_solver.
Qed.
Lemma link_elem l e a b : (a, b) ∈ l → ∃ n, (a, set_next n b) ∈ link l e.
Proof.
  induction l as [|c l IH]; simpl; [set_solver|].
  intros [<-|H]%elem_of_cons; [exists (head_of l e); set_solver|].
  destruct (IH H) as [n ?]. exists n. set_solver.
Qed.

Lemma total_nonneg bl : Forall (λ b, 0 ≤ blk_size b) bl → 0 ≤ total bl.
Proof. induction 1; simpl; lia. Qed.

Lemma place_bounds a bl c :
  Forall (λ b, 0 ≤ blk_size b) bl → c ∈ place a bl →
  a ≤ c.1 ∧ c.1 + blk_size c.2 ≤ a + total bl ∧ c.2 ∈ bl.
Proof.
  intros Hbl. revert a. induction Hbl as [|b bl Hb Hbl IH]; intros a; simpl; [set_solver|].
  pose proof (total_nonneg _ Hbl). intros [->|Hc]%elem_of_cons; simpl.
  - split_and!; [lia|lia|set_solver].
  - destruct (IH _ Hc) as (? & ? & ?). split_and!; [lia|lia|set_solver].
Qed.

Lemma place_apart a bl :
  Forall (λ b, 0 ≤ blk_size b) bl → pairwise cells_apart (place a bl).
Proof.
  intros Hbl. revert a. induction Hbl as [|b bl Hb Hbl IH]; intros a; simpl; [done|].
  split; [|done]. apply Forall_forall. intros c Hc.
  destruct (place_bounds _ _ _ Hbl Hc) as (? & ? & ?). left. simpl. lia.
Qed.

Lemma region_sizes r : region_ok r → Forall (λ b, 0 ≤ blk_size b) r.2.
Proof.
  intros (_ & _ & _ & _ & H). eapply Forall_impl; [exact H|].
  intros b [[? _] _]. unfold SIZEOF_BLOCK in *. lia.
Qed.

Lemma region_total r : region_ok r → SIZEOF_BLOCK ≤ total r.2.
Proof.
  intros Hr. pose proof (region_sizes _ Hr) as Hs. destruct Hr as (Hne & _ & _ & _ & Hb).
  destruct r as [rs [|b bl]]; [done|]. simpl in *.
  apply Forall_cons in Hb as [[[? _] _] _]. apply Forall_cons in Hs as [_ Hs].
  pose proof (total_nonneg _ Hs). lia.
Qed.

(** Every cell of the chain is a block of one of the regions. *)
Lemma elem_of_chain rgs c :
  c ∈ chain rgs →
  ∃ rg1 rs bl1 bl2 rg2, rgs = rg1 ++ (rs, bl1 ++ c.2 :: bl2) :: rg2 ∧ c.1 = rs + total bl1.
Proof.
  induction rgs as [|[rs bl] rgs IH]; simpl; [set_solver|].
  intros [Hc|Hc]%elem_of_app.
  - exists [], rs. cut (∃ bl1 bl2, bl = bl1 ++ c.2 :: bl2 ∧ c.1 = rs + total bl1).
    { intros (bl1 & bl2 & -> & ?). by exists bl1, bl2, rgs. }
    clear IH. revert rs Hc. induction bl as [|b bl IH]; intros rs; simpl; [set_solver|].
    intros [->|Hc]%elem_of_cons; simpl.
    + exists [], bl. split; [done|simpl; lia].
    + destruct (IH _ Hc) as (bl1 & bl2 & -> & ?). exists (b :: bl1), bl2. split; [done|simpl; lia].
  - destruct (IH Hc) as (rg1 & rs' & bl1 & bl2 & rg2 & -> & ?).
    by exists ((rs, bl) :: rg1), rs', bl1, bl2, rg2.
Qed.

Lemma chain_in_region rgs c :
  Forall region_ok rgs → c ∈ chain rgs →
  ∃ r, r ∈ rgs ∧ r.1 ≤ c.1 ∧ c.1 + blk_size c.2 ≤ r.1 + total r.2 ∧
  block_ok r.1 (total r.2) c.2 ∧ c.1 `mod` 8 = 0.
Proof.
  intros Hok Hc. destruct (elem_of_chain _ _ Hc) as (rg1 & rs & bl1 & bl2 & rg2 & -> & Ha).
  exists (rs, bl1 ++ c.2 :: bl2). simpl.
  apply Forall_app in Hok as [_ [Hr _]%Forall_cons].
  pose proof (region_sizes _ Hr) as Hsz. simpl in Hsz.
  destruct Hr as (_ & _ & Hal & _ & Hbl). simpl in *.
  apply Forall_app in Hsz as [Hs1 [_ Hs2]%Forall_cons].
  pose proof (total_nonneg _ Hs1). pose proof (total_nonneg _ Hs2).
  apply Forall_app in Hbl as [Hb1 [Hb _]%Forall_cons].
  rewrite !total_app in *. simpl in *.
  assert (total bl1 `mod` 8 = 0).
  { clear -Hb1. induction Hb1 as [|b bl Hb _ IH]; simpl; [done|].
    destruct Hb as (_ & [? _] & _). rewrite Z.add_mod, H, IH by lia. done. }
  split_and!; [set_solver|lia|lia|done|].
  rewrite Ha, Z.add_mod, Hal, H1 by lia. done.
Qed.
End sequences.

Lemma deref_ok bl p b : bl !! p = Some b → p ≠ 0 → deref bl p = Ok b.
Proof. intros Hb Hp. unfold deref. by rewrite decide_False, Hb. Qed.

(** * The chain of a layout *)
Section layout_facts.
Context (st : alloc_state) (rgs : list region) (L : layout st rgs).

Lemma chain_apart : pairwise cells_apart (chain rgs).
Proof.
  pose proof (l_regions _ _ L) as Hok. pose proof (l_apart _ _ L) as Hap. clear L.
  induction rgs as [|r rgs' IH]; simpl in *; [done|].
  apply Forall_cons in Hok as [Hr Hok]. destruct Hap as [Hra Hap].
  apply pairwise_app. split_and!; [by apply place_apart, region_sizes|by apply IH|].
  intros c c' Hc Hc'.
  destruct (place_bounds _ _ _ (region_sizes _ Hr) Hc) as (? & ? & _).
  destruct (chain_in_region _ _ Hok Hc') as (r' & Hr' & ? & ? & _).
  rewrite Forall_forall in Hra. destruct (Hra _ Hr'); [left|right]; lia.
Qed.

Lemma extent_NoDup : NoDup (extent <$> rgs).*1.
Proof.
  pose proof (l_regions _ _ L) as Hok. pose proof (l_apart _ _ L) as Hap. clear L.
  induction rgs as [|r rgs' IH]; simpl in *; [constructor|].
  apply Forall_cons in Hok as [Hr Hok]. destruct Hap as [Hra Hap].
  constructor; [|by apply IH].
  intros (x & Hx & (r' & -> & Hr')%list_elem_of_fmap)%list_elem_of_fmap.
  rewrite Forall_forall in Hra, Hok. specialize (Hra _ Hr').
  pose proof (region_total _ Hr). pose proof (region_total _ (Hok _ Hr')).
  unfold apart, SIZEOF_BLOCK in *. simpl in *. lia.
Qed.

Lemma layout_mapped : Forall (λ r, mapped st !! r.1 = Some (total r.2)) rgs.
Proof.
  apply Forall_forall. intros r Hr. rewrite (l_mapped _ _ L).
  apply elem_of_list_to_map; [apply extent_NoDup|].
  apply (list_elem_of_fmap_2 extent) in Hr. done.
Qed.

Lemma cell_facts a b :
  (a, b) ∈ chain rgs →
  0 < a ∧ a `mod` 8 = 0 ∧ a + blk_size b < 18446744073709551616 ∧
  block_ok (region_start b) (region_size b) b.
Proof.
  intros Hc. destruct (chain_in_region _ _ (l_regions _ _ L) Hc)
    as (r & Hr & ? & ? & (Hb1 & Hb2 & _ & _) & ?).
  pose proof (l_regions _ _ L) as Hok. rewrite Forall_forall in Hok.
  destruct (Hok _ Hr) as (_ & ? & _ & ? & _). simpl in *.
  destruct Hb1 as [? ?], Hb2 as [? ?]. unfold block_ok. split_and!; try done; lia.
Qed.

Lemma chain_sizes : Forall (λ c : cell, SIZEOF_BLOCK ≤ blk_size c.2) (chain rgs).
Proof. apply Forall_forall. intros [a b] Hc. by destruct (cell_facts _ _ Hc) as (_&_&_&[[? _] _]). Qed.

Lemma chain_NoDup : NoDup (chain rgs).*1.
Proof.
  pose proof chain_apart as Hap. pose proof chain_sizes as Hsz. clear L.
  induction (chain rgs) as [|c l IH]; simpl in *; [constructor|].
  destruct Hap as [Hc Hl]. apply Forall_cons in Hsz as [Hs Hsz].
  constructor; [|by apply IH]. intros (c' & Ha & Hc')%list_elem_of_fmap.
  rewrite Forall_forall in Hc, Hsz. specialize (Hc _ Hc'). specialize (Hsz _ Hc').
  unfold cells_apart, SIZEOF_BLOCK in *. destruct Hc; lia.
Qed.

Lemma cells_disjoint a b a' b' :
  (a, b) ∈ chain rgs → (a', b') ∈ chain rgs → a ≠ a' → cells_apart (a, b) (a', b').
Proof.
  intros H1 H2 Hne. pose proof chain_apart as Hap.
  apply list_elem_of_split in H1 as (l1 & l2 & Hl). rewrite Hl in Hap, H2.
  apply pairwise_app in Hap as (_ & [Hc _] & Hx).
  apply elem_of_app in H2 as [H2|[[= -> ->]|H2]%elem_of_cons]; [|done|].
  - destruct (Hx (a', b') (a, b)); [done|set_solver|right|left]; done.
  - by apply (proj1 (Forall_forall _ _) Hc).
Qed.

Lemma blocks_lookup a b : blocks st !! a = Some b ↔ (a, b) ∈ link (chain rgs) 0.
Proof.
  rewrite (l_blocks _ _ L). symmetry. apply elem_of_list_to_map.
  rewrite link_keys. apply chain_NoDup.
Qed.
Lemma blocks_cell a b : blocks st !! a = Some b → ∃ b0 n, (a, b0) ∈ chain rgs ∧ b = set_next n b0.
Proof. intros H%blocks_lookup. by apply elem_of_link in H. Qed.
Lemma cell_blocks a b : (a, b) ∈ chain rgs → ∃ n, blocks st !! a = Some (set_next n b).
Proof. intros H. destruct (link_elem _ 0 _ _ H) as [n Hn]. exists n. by apply blocks_lookup. Qed.

Lemma length_chain : length (map_to_list (blocks st)) = length (chain rgs).
Proof.
  rewrite (l_blocks _ _ L), map_to_list_to_map; [apply length_link|].
  rewrite link_keys. apply chain_NoDup.
Qed.

(** Distinct live payloads do not meet, nor do a payload and a header. *)
Lemma live_cell p n :
  live st p = Some n →
  ∃ b, (p - SIZEOF_BLOCK, b) ∈ chain rgs ∧ usage b = n + SIZEOF_BLOCK ∧ usage b ≠ 0.
Proof.
  unfold live. destruct (blocks st !! _) as [b|] eqn:Hb; [|done].
  destruct (decide _) as [|Hu]; [done|]. intros [= <-].
  destruct (blocks_cell _ _ Hb) as (b0 & n' & Hc & ->).
  exists b0. simpl in *. split_and!; [done|lia|done].
Qed.
End layout_facts.

(** * Walking the list *)
Fixpoint walk_list {A R} (body : A → Z → mem_block → outcome (R + A)) (done : A → R)
    (l : list cell) (acc : A) : outcome R :=
  match l with
  | [] => Ok (done acc)
  | c :: l' =>
      r ← body acc c.1 c.2;
      match r with inl res => Ok res | inr acc' => walk_list body done l' acc' end
  end.

(** The cells [l] are linked from [h] on, up to the end of the list. *)
Fixpoint linked (h : Z) (l : list cell) : Prop :=
  match l with [] => h = 0 | c :: l' => h = c.1 ∧ c.1 ≠ 0 ∧ linked (next c.2) l' end.

Lemma linked_link l : Forall (λ c : cell, c.1 ≠ 0) l → linked (head_of l 0) (link l 0).
Proof. induction 1 as [|c l Hc _ IH]; simpl; [done|]. split_and!; done. Qed.

Lemma walk_linked {A R} (body : A → Z → mem_block → outcome (R + A)) done fuel bl h l acc :
  linked h l → Forall (λ c, bl !! c.1 = Some c.2) l → (length l < fuel)%nat →
  walk body done fuel bl h acc = walk_list body done l acc.
Proof.
  revert h l acc. induction fuel as [|fuel IH]; intros h l acc Hl Hb Hf; [lia|].
  destruct l as [|c l]; simpl in *.
  - by rewrite decide_True.
  - destruct Hl as (-> & Hne & Hl). apply Forall_cons in Hb as [Hc Hb].
    rewrite decide_False by done. unfold deref. rewrite decide_False, Hc by done. simpl.
    destruct (body acc c.1 c.2) as [[r|acc']| |]; simpl; [done| |done|done].
    apply IH; [done|done|lia].
Qed.

(** A loop whose body does nothing on the first cells reaches the rest. *)
Lemma walk_list_app {A R} (body : A → Z → mem_block → outcome (R + A)) done l1 l2 acc :
  Forall (λ c : cell, body acc c.1 c.2 = Ok (inr acc)) l1 →
  walk_list body done (l1 ++ l2) acc = walk_list body done l2 acc.
Proof. induction 1 as [|c l1 Hc _ IH]; simpl; [done|]. by rewrite Hc. Qed.

Section layout_walk.
Context (st : alloc_state) (rgs : list region) (L : layout st rgs).

Lemma layout_nonzero : Forall (λ c : cell, c.1 ≠ 0) (chain rgs).
Proof. apply Forall_forall. intros [a b] Hc. destruct (cell_facts _ _ L _ _ Hc). simpl. lia. Qed.

Lemma layout_linked : Forall (λ c, blocks st !! c.1 = Some c.2) (link (chain rgs) 0).
Proof. apply Forall_forall. intros [a b] Hc. by apply (blocks_lookup st rgs L). Qed.

(** A loop over the list from its head, in any map that extends the headers. *)
Lemma walk_chain {A R} (body : A → Z → mem_block → outcome (R + A)) done acc :
  walk body done (chain_fuel (blocks st)) (blocks st) (g_head st) acc =
  walk_list body done (link (chain rgs) 0) acc.
Proof.
  rewrite (l_head _ _ L). apply walk_linked.
  - apply linked_link, layout_nonzero.
  - apply layout_linked.
  - unfold chain_fuel. rewrite length_link, (length_chain _ _ L). lia.
Qed.
End layout_walk.

(** * Header maps of sequences *)
Section header_map.
Implicit Types (l : list cell) (m : gmap Z mem_block).

Lemma map_rewrite_cell l1 l2 a (b b' : mem_block) :
  NoDup (l1 ++ (a, b) :: l2).*1 →
  <[a := b']> (list_to_map (l1 ++ (a, b) :: l2) : gmap Z mem_block) =
  list_to_map (l1 ++ (a, b') :: l2).
Proof.
  rewrite fmap_app. simpl. intros Hnd.
  assert (a ∉ l1.*1) as Ha.
  { apply NoDup_app in Hnd as (_ & Hx & _). intros Hin. apply (Hx _ Hin). set_solver. }
  rewrite !list_to_map_app. simpl.
  apply map_eq. intros i. destruct (decide (i = a)) as [->|Hne].
  - rewrite lookup_insert_eq, lookup_union_r by (by apply not_elem_of_list_to_map_1).
    by rewrite lookup_insert_eq.
  - rewrite lookup_insert_ne, !lookup_union, !lookup_insert_ne by done. done.
Qed.

Lemma map_insert_cell l1 l2 a (b : mem_block) :
  a ∉ (l1 ++ l2).*1 →
  <[a := b]> (list_to_map (l1 ++ l2) : gmap Z mem_block) = list_to_map (l1 ++ (a, b) :: l2).
Proof.
  rewrite fmap_app, elem_of_app. intros Ha. rewrite !list_to_map_app. simpl.
  apply insert_union_r, not_elem_of_list_to_map_1. tauto.
Qed.

Lemma map_remove_cells l1 lr l2 (P : Z * mem_block → Prop) `{∀ x, Decision (P x)} :
  NoDup (l1 ++ lr ++ l2).*1 →
  Forall P l1 → Forall P l2 → Forall (λ c, ¬ P c) lr →
  filter P (list_to_map (l1 ++ lr ++ l2) : gmap Z mem_block) = list_to_map (l1 ++ l2).
Proof.
  intros Hnd H1 H2 Hr. assert (NoDup (l1 ++ l2).*1) as Hnd'.
  { rewrite !fmap_app in *. apply NoDup_app in Hnd as (Hn1 & Hx & Hn2).
    apply NoDup_app in Hn2 as (_ & _ & Hn2). apply NoDup_app. split_and!; set_solver. }
  rewrite Forall_forall in H1, H2, Hr.
  apply map_eq. intros i. apply option_eq. intros b.
  rewrite map_lookup_filter_Some, <- !elem_of_list_to_map, !elem_of_app by done.
  naive_solver.
Qed.

(** The last cell of a sequence is where its end is linked. *)
Lemma link_snoc l a b e : link (l ++ [(a, b)]) e = link l a ++ [(a, set_next e b)].
Proof. by rewrite link_app. Qed.
End header_map.

(** * Rewriting cells of a linked sequence *)
Section linked_map.
Context (l1 l2 : list cell) (a : Z) (b : mem_block) (e : Z).
Context (Hnd : NoDup (l1 ++ (a, b) :: l2).*1).
Let m : gmap Z mem_block := list_to_map (link (l1 ++ (a, b) :: l2) e).

Lemma linked_lookup : m !! a = Some (set_next (head_of l2 e) b).
Proof.
  unfold m. apply elem_of_list_to_map; [by rewrite link_keys|].
  rewrite link_app. simpl. set_solver.
Qed.

Lemma linked_rewrite b' :
  <[a := set_next (head_of l2 e) b']> m = list_to_map (link (l1 ++ (a, b') :: l2) e).
Proof.
  unfold m. rewrite !link_app. simpl. apply map_rewrite_cell.
  pose proof (link_keys (l1 ++ (a, b) :: l2) e) as Hk. rewrite link_app in Hk. simpl in Hk.
  by rewrite Hk.
Qed.

(** A block cut in two: the header of the second part is new. *)
Lemma linked_split a' b1 b2 :
  a' ∉ (l1 ++ (a, b) :: l2).*1 →
  <[a := set_next a' b1]> (<[a' := set_next (head_of l2 e) b2]> m) =
  list_to_map (link (l1 ++ (a, b1) :: (a', b2) :: l2) e).
Proof.
  intros Ha'. assert (a' ≠ a) by (rewrite fmap_app in Ha'; set_solver).
  pose proof (link_keys (l1 ++ (a, b) :: l2) e) as Hk.
  assert (NoDup (link (l1 ++ (a, b) :: l2) e).*1) as Hnd' by (by rewrite Hk).
  rewrite <- Hk in Ha'. unfold m. rewrite link_app in Ha', Hnd' |- *. simpl in *.
  rewrite insert_insert_ne by done.
  rewrite (map_rewrite_cell _ _ _ _ (set_next a' b1)) by done.
  assert (link l1 a ++ (a, set_next a' b1) :: link l2 e =
    (link l1 a ++ [(a, set_next a' b1)]) ++ link l2 e) as ->.
  { by rewrite <- app_assoc. }
  rewrite map_insert_cell.
  - rewrite !link_app. simpl. by rewrite <- app_assoc.
  - rewrite !fmap_app in *. set_solver.
Qed.
End linked_map.

(** * Rewriting blocks of a layout *)
Section layout_update.
Implicit Types (rg : list region) (bl : list mem_block).

Lemma chain_middle rg1 rg2 rs bl1 bl2 bs :
  chain (rg1 ++ (rs, bl1 ++ bs ++ bl2) :: rg2) =
  (chain rg1 ++ place rs bl1) ++ place (rs + total bl1) bs ++
  (place (rs + total bl1 + total bs) bl2 ++ chain rg2).
Proof.
  rewrite chain_app. simpl. rewrite !place_app, <- !app_assoc. done.
Qed.

(** Replacing one block by blocks that fill the same space. *)
Lemma layout_replace st st' rg1 rg2 rs bl1 bl2 b bs :
  let rgs' := rg1 ++ (rs, bl1 ++ bs ++ bl2) :: rg2 in
  layout st (rg1 ++ (rs, bl1 ++ b :: bl2) :: rg2) →
  bs ≠ [] → total bs = blk_size b →
  Forall (block_ok (region_start b) (region_size b)) bs →
  blocks st' = list_to_map (link (chain rgs') 0) →
  g_head st' = g_head st → mapped st' = mapped st →
  layout st' rgs'.
Proof.
  intros rgs' L Hne Htot Hbs Hbl Hh Hm.
  assert (total (bl1 ++ bs ++ bl2) = total (bl1 ++ b :: bl2)) as Ht.
  { rewrite !total_app. simpl. lia. }
  pose proof (l_regions _ _ L) as Hok. apply Forall_app in Hok as [Hok1 [Hr Hok2]%Forall_cons].
  destruct Hr as (_ & H0 & Hal & Hub & Hbl'). simpl in *.
  apply Forall_app in Hbl' as [Hb1 [Hb Hb2]%Forall_cons].
  destruct Hb as (_ & _ & Hrs & Hrsz).
  split.
  - apply Forall_app. split; [done|]. apply Forall_cons. split; [|done].
    split_and!; simpl; [by destruct bl1, bs|done|done|by rewrite Ht|].
    rewrite Ht. rewrite Hrs, Hrsz in Hbs. apply Forall_app. split; [done|].
    apply Forall_app. done.
  - pose proof (l_apart _ _ L) as Hap. apply pairwise_app in Hap as (Hp1 & [Hp Hp2] & Hx).
    apply pairwise_app. split_and!; [done| |].
    + split; [|done]. eapply Forall_impl; [exact Hp|]. intros r. unfold apart. simpl.
      by rewrite Ht.
    + intros r r' Hr1 [->|Hr']%elem_of_cons; [|apply Hx; set_solver].
      specialize (Hx r (rs, bl1 ++ b :: bl2) Hr1 ltac:(set_solver)).
      unfold apart in *. simpl in *. by rewrite Ht.
  - done.
  - rewrite Hh, (l_head _ _ L). unfold rgs'. rewrite !chain_app, !head_of_app. f_equal.
    simpl. rewrite !place_app, !head_of_app. destruct bl1, bs; done.
  - rewrite Hm, (l_mapped _ _ L). unfold rgs'. rewrite !fmap_app. simpl.
    unfold extent at 2 5. simpl. by rewrite Ht.
Qed.

Lemma layout_congr st st' rgs :
  layout st rgs → blocks st' = blocks st → g_head st' = g_head st → mapped st' = mapped st →
  layout st' rgs.
Proof. intros [] Hb Hh Hm. by split; rewrite ?Hb, ?Hh, ?Hm. Qed.
End layout_update.

(** A layout seen from one of its cells: the regions and cells around it, and
    how to replace the cell by others that fill the same space. *)
Record focus (st : alloc_state) (rgs : list region) (a : Z) (b : mem_block)
    (rg1 : list region) (rs : Z) (bl1 bl2 : list mem_block) (rg2 : list region)
    (l1 l2 : list cell) : Prop := {
  fo_rgs : rgs = rg1 ++ (rs, bl1 ++ b :: bl2) :: rg2;
  fo_start : rs = region_start b;
  fo_addr : a = rs + total bl1;
  fo_chain : chain rgs = l1 ++ (a, b) :: l2;
  fo_replace st' bs :
    bs ≠ [] → total bs = blk_size b →
    Forall (block_ok (region_start b) (region_size b)) bs →
    blocks st' = list_to_map (link (l1 ++ place a bs ++ l2) 0) →
    g_head st' = g_head st → mapped st' = mapped st →
    layout st' (rg1 ++ (rs, bl1 ++ bs ++ bl2) :: rg2) ∧
    chain (rg1 ++ (rs, bl1 ++ bs ++ bl2) :: rg2) = l1 ++ place a bs ++ l2
}.

Lemma layout_focus st rgs a b :
  layout st rgs → (a, b) ∈ chain rgs →
  ∃ rg1 rs bl1 bl2 rg2 l1 l2, focus st rgs a b rg1 rs bl1 bl2 rg2 l1 l2.
Proof.
  intros L Hc. destruct (elem_of_chain _ _ Hc) as (rg1 & rs & bl1 & bl2 & rg2 & Hr & Ha).
  simpl in *.
  exists rg1, rs, bl1, bl2, rg2, (chain rg1 ++ place rs bl1),
    (place (a + blk_size b) bl2 ++ chain rg2).
  assert (∀ bs, total bs = blk_size b →
    chain (rg1 ++ (rs, bl1 ++ bs ++ bl2) :: rg2) =
      (chain rg1 ++ place rs bl1) ++ place a bs ++ place (a + blk_size b) bl2 ++ chain rg2) as Hch.
  { intros bs Ht. by rewrite chain_middle, Ht, <- Ha. }
  pose proof (l_regions _ _ L) as Hok. rewrite Hr in Hok.
  apply Forall_app in Hok as [_ [(_ & _ & _ & _ & Hbl) _]%Forall_cons]. simpl in Hbl.
  apply Forall_app in Hbl as [_ [(_ & _ & Hrs & _) _]%Forall_cons].
  split; [done|done|done| |].
  - rewrite Hr. specialize (Hch [b]). simpl in Hch. apply Hch. lia.
  - intros st' bs ? Ht Hbs Hbl' ? ?. rewrite Hr in L. split; [|by apply Hch].
    eapply layout_replace; [exact L|done..| |done|done]. by rewrite Hch.
Qed.

(** * Appending a region *)
Lemma link_next l e c : c ∈ link l e → next c.2 = e ∨ next c.2 ∈ l.*1.
Proof.
  induction l as [|d l IH]; simpl; [set_solver|].
  intros [->|Hc]%elem_of_cons; simpl.
  - destruct l as [|d' l]; simpl; [by left|right; set_solver].
  - destruct (IH Hc); [by left|right; set_solver].
Qed.

(** Reaching the last cell of the list, in a map with one more header. *)
Lemma walk_to_last l t bt bl a b h fuel :
  Forall (λ c : cell, c.1 ≠ 0) (l ++ [(t, bt)]) →
  NoDup (l ++ [(t, bt)]).*1 → a ∉ (l ++ [(t, bt)]).*1 →
  bl = <[a := b]> (list_to_map (link (l ++ [(t, bt)]) 0)) →
  h = head_of (l ++ [(t, bt)]) 0 → (length (l ++ [(t, bt)]) < fuel)%nat →
  walk (λ (_ : unit) cur b, if decide (next b = 0) then Ok (inl cur) else Ok (inr tt))
    (λ _, 0) fuel bl h tt = Ok t.
Proof.
  intros Hnz Hnd Ha -> -> Hf. rewrite (walk_linked _ _ _ _ _ (link (l ++ [(t, bt)]) 0)).
  - rewrite link_snoc. rewrite walk_list_app; simpl.
    + done.
    + apply Forall_forall. intros c Hc. apply Forall_app in Hnz as [Hl [Ht _]%Forall_cons].
      rewrite decide_False; [done|]. destruct (link_next _ _ _ Hc) as [->|Hin]; [done|].
      apply list_elem_of_fmap in Hin as (d & -> & Hd). rewrite Forall_forall in Hl. by apply Hl.
  - by apply linked_link.
  - apply Forall_forall. intros [a' b'] Hc. simpl.
    assert (a' ≠ a) as Hne.
    { intros ->. apply Ha. rewrite <- (link_keys _ 0). by apply (list_elem_of_fmap_2' fst _ _ _ Hc). }
    rewrite lookup_insert_ne by done. apply elem_of_list_to_map; [by rewrite link_keys|done].
  - by rewrite length_link.
Qed.

Lemma layout_snoc st st' rgs a b :
  layout st rgs → region_ok (a, [b]) → Forall (λ r, apart r (a, [b])) rgs →
  mapped st' = <[a := blk_size b]> (mapped st) →
  blocks st' = list_to_map (link (chain rgs ++ [(a, b)]) 0) →
  g_head st' = head_of (chain rgs) a →
  layout st' (rgs ++ [(a, [b])]).
Proof.
  intros L Hr Hap Hm Hb Hh. split.
  - apply Forall_app. split; [apply L|]. by constructor.
  - apply pairwise_app. split; [apply L|]. split; [by repeat constructor|].
    intros x y Hx ->%list_elem_of_singleton. rewrite Forall_forall in Hap. by apply Hap.
  - rewrite Hb, chain_app. done.
  - rewrite Hh, chain_app. simpl. rewrite head_of_app. done.
  - rewrite Hm, (l_mapped _ _ L), fmap_app, list_to_map_app. simpl.
    rewrite Z.add_0_r, <- insert_union_r, (right_id_L ∅ (∪)); [done|].
    apply not_elem_of_list_to_map_1.
    intros (x & Hx & (r & -> & Hin)%list_elem_of_fmap)%list_elem_of_fmap. simpl in Hx.
    pose proof (l_regions _ _ L) as Hok. rewrite Forall_forall in Hok, Hap.
    pose proof (region_total _ (Hok _ Hin)). pose proof (region_total _ Hr).
    specialize (Hap _ Hin). unfold apart, SIZEOF_BLOCK in *. simpl in *. lia.
Qed.

Lemma busy_replace rg1 rs bl1 bl2 rg2 b bs :
  Forall busy (rg1 ++ (rs, bl1 ++ b :: bl2) :: rg2) → Exists (λ b, usage b ≠ 0) bs →
  Forall busy (rg1 ++ (rs, bl1 ++ bs ++ bl2) :: rg2).
Proof.
  intros [H1 [_ H2]%Forall_cons]%Forall_app Hb. apply Forall_app. split; [done|].
  constructor; [|done]. unfold busy. simpl. rewrite !Exists_app. tauto.
Qed.
