(* ===== verification/AllocFit.v ===== *)
(** The three placement policies of [reuse] (Project3/allocator.c): which
    block each one chooses, and the interface through which [malloc] uses
    them. *)
From Stdlib Require Import ZArith Lia Ascii.
From stdpp Require Import prelude gmap strings numbers list.
From S2P Require Import Prelude CString Allocator AllocLayout.
Open Scope Z_scope.
Import CInt.

(** What [malloc] needs of a policy: on a well-formed list it returns, and
    returns NULL or a block of the list with enough unused space. *)
Class FitPolicy (policy : alloc_state → Z → outcome Z) : Prop :=
  fit_sound st rgs size :
    layout st rgs →
    ∃ r, policy st size = Ok r ∧
         (r = 0 ∨ ∃ b, (r, b) ∈ chain rgs ∧ need size ≤ avail b).

(** The cells of the list as the loops see them. *)
Definition cells (rgs : list region) : list cell := link (chain rgs) 0.

Lemma elem_of_cells rgs a b :
  (a, b) ∈ cells rgs → ∃ b0, (a, b0) ∈ chain rgs ∧ avail b0 = avail b.
Proof. intros (b0 & n & ? & ->)%elem_of_link. by exists b0. Qed.

(** ** First fit *)
Definition fits_strictly (size : Z) (c : cell) : Prop := avail c.2 > need size.

Definition first_fit_body (size : Z) : unit → Z → mem_block → outcome (Z + unit) :=
  λ _ cur b, if decide (avail b > need size) then Ok (inl cur) else Ok (inr tt).

Lemma first_fit_list (l : list cell) size :
  (walk_list (first_fit_body size) (λ _, 0) l tt = Ok 0 ∧
   Forall (λ c, ¬ fits_strictly size c) l) ∨
  (∃ l1 c l2, l = l1 ++ c :: l2 ∧ walk_list (first_fit_body size) (λ _, 0) l tt = Ok c.1 ∧
     fits_strictly size c ∧ Forall (λ c, ¬ fits_strictly size c) l1).
Proof.
  induction l as [|c l IH]; simpl.
  - left. by split.
  - assert (first_fit_body size tt c.1 c.2 =
      if decide (avail c.2 > need size) then Ok (inl c.1) else Ok (inr tt)) as -> by done.
    destruct (decide (avail c.2 > need size)) as [Hc|Hc]; simpl.
    + right. exists [], c, l. split_and!; try done.
    + destruct IH as [[-> Hl]|(l1 & c' & l2 & -> & -> & ? & ?)].
      * left. split; [done|]. by constructor.
      * right. exists (c :: l1), c', l2. split_and!; try done. by constructor.
Qed.

(** ** Best and worst fit

    Both loops keep the running extremum and the cell it was found at, and
    replace them on ties: the chosen cell is the last extremal one. *)
Section extremal.
Context (size : Z) (better : Z → Z → Prop) `{!∀ x y, Decision (better x y)}.

(** [better x y]: a cell of availability [x] replaces a best of [y]. *)
Definition choose (c : cell) (best : Z * Z) : Z * Z :=
  if decide (avail c.2 >= need size)
  then if decide (better (avail c.2) best.1) then (avail c.2, c.1) else best
  else best.
Definition choose_body : Z * Z → Z → mem_block → outcome (Z + (Z * Z)) :=
  λ best cur b, Ok (inr (choose (cur, b) best)).

Lemma choose_fold l best :
  walk_list choose_body snd l best = Ok (snd (foldl (λ s c, choose c s) best l)).
Proof. revert best. induction l as [|[a b] l IH]; intros best; simpl; [done|]. apply IH. Qed.

Context (better_trans : ∀ x y z, better x y → better y z → better x z)
  (better_total : ∀ x y, better x y ∨ better y x).

(** The result of the scan from [init]: nothing chosen, and then no cell
    qualifies against [init]; or a cell that qualifies, at least as good as
    every other one, and no later cell is as good. *)
Inductive extremal (l : list cell) (init : Z * Z) : Z * Z → Prop :=
  | extremal_none :
  Forall (λ c, avail c.2 >= need size → ¬ better (avail c.2) init.1) l →
  extremal l init init
  | extremal_some l1 c l2 :
  l = l1 ++ c :: l2 →
  avail c.2 >= need size → better (avail c.2) init.1 →
  Forall (λ d, avail d.2 >= need size → better (avail c.2) (avail d.2)) l1 →
  Forall (λ d, avail d.2 >= need size → ¬ better (avail d.2) (avail c.2)) l2 →
  extremal l init (avail c.2, c.1).

Lemma extremal_fold l init : extremal l init (foldl (λ s c, choose c s) init l).
Proof.
  induction l as [|d l IH] using rev_ind; [apply extremal_none; constructor|].
  rewrite foldl_app. simpl. revert IH. generalize (foldl (λ s c, choose c s) init l).
  intros r IH. unfold choose.
  destruct (decide (avail d.2 >= need size)) as [Hd|Hd]; last first.
  { destruct IH as [Hn|l1 c l2 -> Hc Hb H1 H2].
    - apply extremal_none. apply Forall_app. split; [done|]. constructor; [done|constructor].
    - eapply (extremal_some _ _ l1 c (l2 ++ [d])); [by rewrite <- app_assoc|done..|].
      apply Forall_app. split; [done|]. constructor; [done|constructor]. }
  destruct IH as [Hn|l1 c l2 -> Hc Hb H1 H2]; simpl.
  - destruct (decide (better (avail d.2) init.1)) as [Hx|Hx].
    + eapply (extremal_some _ _ l d []); [done|done|done| |constructor].
      eapply Forall_impl; [exact Hn|]. intros c Hc Hcn. simpl in *.
      destruct (better_total (avail d.2) (avail c.2)) as [|Hcd]; [done|].
      destruct (Hc Hcn). by eapply better_trans.
    + apply extremal_none. apply Forall_app. split; [done|]. constructor; [done|constructor].
  - destruct (decide (better (avail d.2) (avail c.2))) as [Hx|Hx].
    + eapply (extremal_some _ _ (l1 ++ c :: l2) d []); [done|done|by eapply better_trans| |constructor].
      apply Forall_app. split.
      * eapply Forall_impl; [exact H1|]. intros e He Hen. simpl in *. eapply better_trans; eauto.
      * constructor; [done|]. eapply Forall_impl; [exact H2|]. intros e He Hen. simpl in *.
        destruct (better_total (avail d.2) (avail e.2)) as [|Hed]; [done|].
        destruct (He Hen). by eapply better_trans.
    + eapply (extremal_some _ _ l1 c (l2 ++ [d])); [by rewrite <- app_assoc|done..|].
      apply Forall_app. split; [done|]. constructor; [done|constructor].
Qed.
End extremal.

Lemma walk_list_ext {A R} (body body' : A → Z → mem_block → outcome (R + A)) done l acc :
  (∀ s a b, body s a b = body' s a b) → walk_list body done l acc = walk_list body' done l acc.
Proof.
  intros H. revert acc. induction l as [|c l IH]; intros acc; simpl; [done|].
  rewrite H. destruct (body' acc c.1 c.2) as [[]| |]; simpl; [done|apply IH|done|done].
Qed.

Lemma extremal_sound rgs size better init p :
  extremal size better (cells rgs) (init, 0) p →
  p.2 = 0 ∨ ∃ b, (p.2, b) ∈ chain rgs ∧ need size ≤ avail b.
Proof.
  intros [|l1 [a b] l2 Hl Hc _ _ _]; [by left|right]. simpl in *.
  destruct (elem_of_cells rgs a b) as (b0 & ? & ?); [rewrite Hl; set_solver|].
  exists b0. split; [done|lia].
Qed.

Section policies.
Context (st : alloc_state) (rgs : list region) (L : layout st rgs).

Lemma best_fit_fold size :
  best_fit st size = Ok (snd (foldl (λ s c, choose size Z.le c s) (INT_MAX, 0) (cells rgs))).
Proof.
  unfold best_fit. rewrite (walk_chain _ _ L), <- choose_fold. apply walk_list_ext.
  intros [s r] a b. unfold choose_body, choose. simpl. by repeat case_decide.
Qed.
Lemma worst_fit_fold size :
  worst_fit st size = Ok (snd (foldl (λ s c, choose size Z.ge c s) (0, 0) (cells rgs))).
Proof.
  unfold worst_fit. rewrite (walk_chain _ _ L), <- choose_fold. apply walk_list_ext.
  intros [s r] a b. unfold choose_body, choose. simpl. by repeat case_decide.
Qed.
End policies.

#[export] Instance first_fit_policy : FitPolicy first_fit.
Proof.
  intros st rgs size L. unfold first_fit. rewrite (walk_chain _ _ L).
  fold (first_fit_body size) (cells rgs).
  destruct (first_fit_list (cells rgs) size) as [[-> _]|(l1 & [a b] & l2 & Hl & -> & Hf & _)].
  - exists 0. by split; [|left].
  - exists a. split; [done|right].
    destruct (elem_of_cells rgs a b) as (b0 & ? & Ha); [rewrite Hl; set_solver|].
    exists b0. split; [done|]. unfold fits_strictly in Hf. simpl in Hf. lia.
Qed.
#[export] Instance best_fit_policy : FitPolicy best_fit.
Proof.
  intros st rgs size L. rewrite (best_fit_fold _ _ L). eexists. split; [done|].
  apply (extremal_sound rgs size Z.le INT_MAX), extremal_fold; intros; lia.
Qed.
#[export] Instance worst_fit_policy : FitPolicy worst_fit.
Proof.
  intros st rgs size L. rewrite (worst_fit_fold _ _ L). eexists. split; [done|].
  apply (extremal_sound rgs size Z.ge 0), extremal_fold; intros; lia.
Qed.
#[export] Instance reuse_policy env : FitPolicy (reuse env).
Proof.
  intros st rgs size L. unfold reuse.
  destruct (strcmp_eq _ _); [by apply first_fit_policy|].
  destruct (strcmp_eq _ _); [by apply best_fit_policy|].
  destruct (strcmp_eq _ _); [by apply worst_fit_policy|].
  exists 0. by split; [|left].
Qed.
