(* ===== verification/AllocSafe.v ===== *)
(** Correctness of the allocator (Project3/allocator.c): [malloc], [free],
    [calloc] and [realloc] keep the layout invariant, never leave the memory
    they own, and implement the abstract allocator whose state is the set of
    live payloads. *)
From Stdlib Require Import ZArith Lia Ascii.
From stdpp Require Import prelude gmap strings numbers list.
From S2P Require Import Prelude CString Allocator AllocLayout AllocFit.
Open Scope Z_scope.
Import CInt.

(** The documented behaviour of [getpagesize] and of an anonymous [mmap] at
    an address of the kernel's choice: pages are a power of two of at least
    64 bytes, and a new mapping is page-aligned, inside the address space and
    clear of the existing ones; a request of length 0 fails. *)
Class MmapSpec (page_sz : Z) (mmap : gmap Z Z → Z → option Z) : Prop := {
  page_range : 64 ≤ page_sz ≤ INT_MAX;
  page_align : page_sz `mod` 8 = 0;
  mmap_fresh mp len a :
    mmap mp len = Some a →
    0 < len ∧ 0 < a ∧ a `mod` page_sz = 0 ∧ a + len < 18446744073709551616 ∧
    map_Forall (λ s n, a + len ≤ s ∨ s + n ≤ a) mp
}.

(** The largest request for which [size_t] arithmetic does not wrap. *)
Definition MAX_REQUEST : Z := 9223372036854775807.

(** * Arithmetic *)
Lemma align8_range size :
  0 ≤ size ≤ MAX_REQUEST →
  size ≤ align8 size < size + 8 ∧ align8 size `mod` 8 = 0.
Proof.
  unfold MAX_REQUEST. intros H. pose proof (Z.mod_pos_bound size 8 ltac:(lia)).
  pose proof (Z.div_mod size 8 ltac:(lia)) as Hd.
  unfold align8. case_decide; [|lia].
  rewrite wrap64_small by lia. split; [lia|].
  replace (size + (8 - size `mod` 8)) with ((size / 8 + 1) * 8) by lia. apply Z.mod_mul. lia.
Qed.

Lemma need_eq size : 0 ≤ size ≤ MAX_REQUEST + 8 → need size = size + SIZEOF_BLOCK.
Proof. unfold MAX_REQUEST, need, SIZEOF_BLOCK. intros. apply wrap64_small. lia. Qed.

Lemma avail_eq rs rsz b :
  block_ok rs rsz b → blk_size b < 18446744073709551616 → avail b = blk_size b - usage b.
Proof.
  unfold block_ok, SIZEOF_BLOCK, avail. intros ([? ?] & _) ?. apply wrap64_small. lia.
Qed.

Lemma mod8_add a b : a `mod` 8 = 0 → b `mod` 8 = 0 → (a + b) `mod` 8 = 0.
Proof. intros Ha Hb. by rewrite Z.add_mod, Ha, Hb by lia. Qed.
Lemma mod8_sub a b : a `mod` 8 = 0 → b `mod` 8 = 0 → (a - b) `mod` 8 = 0.
Proof. intros Ha Hb. by rewrite Zminus_mod, Ha, Hb by lia. Qed.

(** * Accesses that succeed *)
Lemma in_mapping_intro mp s n p k :
  mp !! s = Some n → s ≤ p → p + k ≤ s + n → in_mapping mp p k.
Proof.
  intros Hm ? ?. apply Exists_exists. exists (s, n). split; [|done].
  by apply elem_of_map_to_list.
Qed.
Lemma clear_intro bl p k :
  (∀ a b, bl !! a = Some b → p + k ≤ a ∨ a + SIZEOF_BLOCK ≤ p) → clear_of_headers bl p k.
Proof.
  intros H. apply Forall_forall. intros [a b] Hin%elem_of_map_to_list. simpl. by eapply H.
Qed.

(** Two states with the same headers; their other bytes may differ. *)
Record same_heads (st st' : alloc_state) : Prop := {
  sh_head : g_head st' = g_head st;
  sh_ids : g_allocations st' = g_allocations st;
  sh_blocks : blocks st' = blocks st;
  sh_mapped : mapped st' = mapped st
}.

Lemma same_heads_live st st' p : same_heads st st' → live st' p = live st p.
Proof. intros [_ _ Hb _]. unfold live. by rewrite Hb. Qed.
Lemma same_heads_layout st st' rgs : same_heads st st' → layout st rgs → layout st' rgs.
Proof. intros [Hh _ Hb Hm] L. by eapply layout_congr. Qed.

Section layout_access.
Context (st : alloc_state) (rgs : list region) (L : layout st rgs).

Lemma cell_mapped a b :
  (a, b) ∈ chain rgs →
  ∃ s n, mapped st !! s = Some n ∧ s ≤ a ∧ a + blk_size b ≤ s + n.
Proof.
  intros Hc. destruct (chain_in_region _ _ (l_regions _ _ L) Hc) as (r & Hr & ? & ? & _).
  pose proof (proj1 (Forall_forall _ _) (layout_mapped _ _ L) _ Hr) as Hm.
  by exists r.1, (total r.2).
Qed.

(** Bytes inside a block, past its header, meet no header. *)
Lemma inside_clear a b p k :
  (a, b) ∈ chain rgs → a + SIZEOF_BLOCK ≤ p → p + k ≤ a + blk_size b →
  clear_of_headers (blocks st) p k.
Proof.
  intros Hc ? ?. apply clear_intro. intros a' b' Hb'.
  destruct (blocks_cell _ _ L _ _ Hb') as (b0 & n & Hc' & ->).
  destruct (decide (a' = a)) as [->|Hne]; [by right|].
  destruct (cell_facts _ _ L _ _ Hc') as (_ & _ & _ & [[? _] _]).
  unfold SIZEOF_BLOCK in *.
  destruct (cells_disjoint _ _ L _ _ _ _ Hc' Hc Hne); simpl in *; [right|left]; lia.
Qed.

Lemma memset_ok p m c n :
  live st p = Some m → n ≤ m →
  ∃ st', memset st p c n = Ok st' ∧ same_heads st st' ∧
  (∀ a, bytes st' a = if decide (p ≤ a < p + n) then c else bytes st a).
Proof.
  intros Hl Hn. destruct (live_cell _ _ L _ _ Hl) as (b & Hc & Hu & Hu0).
  destruct (cell_facts _ _ L _ _ Hc) as (? & _ & _ & [[? ?] _]).
  unfold memset, SIZEOF_BLOCK in *. rewrite decide_False by lia.
  destruct (decide (n ≤ 0)).
  - exists st. split_and!; [done|by split|]. intros a. by rewrite decide_False by lia.
  - rewrite decide_True.
    + eexists. split_and!; [done|by split|done].
    + destruct (cell_mapped _ _ Hc) as (s & k & Hm & ? & ?). split.
      * apply (in_mapping_intro _ s k); [done|lia|lia].
      * apply (inside_clear (p - 48) b); unfold SIZEOF_BLOCK; [done|lia|lia].
Qed.

Lemma scribble_ok env p m n :
  live st p = Some m → n ≤ m →
  ∃ st', scribble env st p n = Ok st' ∧ same_heads st st' ∧
  (∀ a, bytes st' a = if decide (ALLOCATOR_SCRIBBLE env ∧ p ≤ a < p + n)
    then 170 else bytes st a).
Proof.
  intros Hl Hn. unfold scribble. destruct (ALLOCATOR_SCRIBBLE env).
  - destruct (memset_ok p m 170 n Hl Hn) as (st' & ? & ? & Hb). exists st'. split_and!; [done..|].
    intros a. rewrite Hb. repeat case_decide; naive_solver.
  - exists st. split_and!; [done|by split|]. intros a. rewrite decide_False; [done|].
    by intros [[] _].
Qed.

Lemma live_apart p n q m :
  live st p = Some n → live st q = Some m → p ≠ q →
  p + n + SIZEOF_BLOCK ≤ q ∨ q + m + SIZEOF_BLOCK ≤ p.
Proof.
  intros Hp Hq Hne. destruct (live_cell _ _ L _ _ Hp) as (b & Hb & ? & ?).
  destruct (live_cell _ _ L _ _ Hq) as (b' & Hb' & ? & ?).
  destruct (cell_facts _ _ L _ _ Hb) as (_ & _ & _ & [[? ?] _]).
  destruct (cell_facts _ _ L _ _ Hb') as (_ & _ & _ & [[? ?] _]).
  unfold SIZEOF_BLOCK in *.
  destruct (cells_disjoint _ _ L _ _ _ _ Hb Hb' ltac:(lia)); simpl in *; [left|right]; lia.
Qed.
End layout_access.

(** What a successful request for [size] bytes does to the client's memory. *)
Record granted (st st' : alloc_state) (p size : Z) : Prop := {
  gr_nonnull : 0 < p;
  gr_aligned : p `mod` 8 = 0;
  gr_fresh : live st p = None;
  gr_new : live st' p = Some size;
  gr_frame q : q ≠ p → live st' q = live st q
}.
(** The bytes: only those granted change, and only when scribbling is on. *)
Definition scribbled (env : alloc_env) (st st' : alloc_state) (p size : Z) : Prop :=
  ∀ a, bytes st' a = if decide (ALLOCATOR_SCRIBBLE env ∧ p ≤ a < p + size)
                     then 170 else bytes st a.

(** * malloc *)
Section reuse_block.
Context (env : alloc_env) (st : alloc_state) (rgs : list region) (L : layout st rgs)
  (B : Forall busy rgs).
Context (r size : Z) (rb0 : mem_block) (Hc : (r, rb0) ∈ chain rgs).
Context (Hsz : 0 ≤ size ≤ MAX_REQUEST + 8) (Hal : size `mod` 8 = 0)
  (Hfit : need size ≤ avail rb0).

Lemma fit_room : need size = size + SIZEOF_BLOCK ∧ usage rb0 + need size ≤ blk_size rb0.
Proof.
  destruct (cell_facts _ _ L _ _ Hc) as (? & _ & ? & Hb).
  pose proof (need_eq _ Hsz). pose proof (avail_eq _ _ _ Hb ltac:(lia)).
  split; [done|lia].
Qed.

(** The chain around the chosen block. *)
Lemma chosen_region :
  ∃ rg1 rs bl1 bl2 rg2,
  rgs = rg1 ++ (rs, bl1 ++ rb0 :: bl2) :: rg2 ∧ r = rs + total bl1.
Proof.
  destruct (elem_of_chain _ _ Hc) as (rg1 & rs & bl1 & bl2 & rg2 & ? & ?).
  by exists rg1, rs, bl1, bl2, rg2.
Qed.

Lemma chosen_facts :
  0 < r ∧ r `mod` 8 = 0 ∧ blk_size rb0 `mod` 8 = 0 ∧ usage rb0 `mod` 8 = 0 ∧
  (usage rb0 = 0 ∨ SIZEOF_BLOCK ≤ usage rb0) ∧ blk_size rb0 < 18446744073709551616.
Proof.
  destruct (cell_facts _ _ L _ _ Hc) as (? & ? & ? & [[? ?] ([? ?] & _)]).
  split_and!; try done; lia.
Qed.


(** The header written into a whole free block, and the two headers of a
    split; their [next] fields are left out. *)
Definition taken : mem_block :=
  MkBlock (g_allocations st) (blk_size rb0) (need size) (region_start rb0) (region_size rb0) 0.
Definition shrunk : mem_block :=
  MkBlock (alloc_id rb0) (usage rb0) (usage rb0) (region_start rb0) (region_size rb0) 0.
Definition remainder : mem_block :=
  MkBlock (g_allocations st) (blk_size rb0 - usage rb0) (need size)
  (region_start rb0) (region_size rb0) 0.

Lemma taken_ok : usage rb0 = 0 → block_ok (region_start rb0) (region_size rb0) taken.
Proof.
  intros Hu. destruct fit_room as [Hn Hroom]. destruct chosen_facts as (? & ? & ? & ? & ? & ?).
  unfold block_ok, taken; simpl. unfold SIZEOF_BLOCK in *.
  split_and!; try done; try lia. rewrite Hn. by apply mod8_add.
Qed.
Lemma split_ok :
  usage rb0 ≠ 0 → Forall (block_ok (region_start rb0) (region_size rb0)) [shrunk; remainder].
Proof.
  intros Hu. destruct fit_room as [Hn Hroom]. destruct chosen_facts as (? & ? & ? & ? & ? & ?).
  unfold block_ok, shrunk, remainder; simpl. unfold SIZEOF_BLOCK in *.
  repeat constructor; simpl; try done; try lia; [by apply mod8_sub|].
  rewrite Hn. by apply mod8_add.
Qed.

Lemma fresh_second_header : usage rb0 ≠ 0 → r + usage rb0 ∉ (chain rgs).*1.
Proof.
  intros Hu (c & Hca & Hcin)%list_elem_of_fmap. destruct c as [a b]. simpl in Hca.
  destruct fit_room as [Hn Hroom]. destruct chosen_facts as (? & ? & ? & ? & ? & ?).
  destruct (cell_facts _ _ L _ _ Hcin) as (_ & _ & _ & [[? _] _]).
  unfold SIZEOF_BLOCK in *.
  destruct (cells_disjoint _ _ L _ _ _ _ Hcin Hc ltac:(lia)); simpl in *; lia.
Qed.

(** What follows once the headers are written. *)
Lemma finish_grant st1 p b :
  wf st1 → bytes st1 = bytes st →
  0 < p - SIZEOF_BLOCK → p `mod` 8 = 0 →
  blocks st1 !! (p - SIZEOF_BLOCK) = Some b → usage b = need size →
  live st p = None → (∀ q, q ≠ p → live st1 q = live st q) →
  ∃ st2, scribble env st1 p size = Ok st2 ∧ wf st2 ∧
  granted st st2 p size ∧ scribbled env st st2 p size.
Proof.
  intros (rgs1 & L1 & B1) Hby Hp Hp8 Hb Hu Hnone Hframe.
  destruct fit_room as [Hn _]. unfold SIZEOF_BLOCK in *.
  assert (live st1 p = Some size) as Hlive.
  { unfold live, SIZEOF_BLOCK. rewrite Hb, Hu, Hn, decide_False by lia. f_equal. lia. }
  destruct (scribble_ok _ _ L1 env p size size Hlive) as (st2 & Hs & Hh & Hbs); [lia|].
  exists st2. split_and!; [done|exists rgs1; split; [by eapply same_heads_layout|done]| |].
  - split; [lia|done|done|by rewrite (same_heads_live _ _ _ Hh)|].
    intros q Hq. rewrite (same_heads_live _ _ _ Hh). by apply Hframe.
  - intros a. by rewrite Hbs, Hby.
Qed.

Lemma live_of_map st1 bl q :
  blocks st1 = bl → live st1 q =
  match bl !! (q - SIZEOF_BLOCK) with
  | Some b => if decide (usage b = 0) then None else Some (usage b - SIZEOF_BLOCK)
  | None => None
  end.
Proof. intros <-. done. Qed.

Lemma take_whole nxt :
  usage rb0 = 0 → blocks st !! r = Some (set_next nxt rb0) →
  let st1 := set_blocks (<[r := set_next nxt taken]> (blocks st)) (take_id st) in
  wf st1 ∧ live st (r + SIZEOF_BLOCK) = None ∧
  ∀ q, q ≠ r + SIZEOF_BLOCK → live st1 q = live st q.
Proof.
  intros Hu Hr st1. destruct (layout_focus _ _ _ _ L Hc)
    as (rg1 & rs & bl1 & bl2 & rg2 & l1 & l2 & F).
  pose proof (chain_NoDup _ _ L) as Hnd. rewrite (fo_chain _ _ _ _ _ _ _ _ _ _ _ F) in Hnd.
  pose proof (linked_lookup l1 l2 r rb0 0 Hnd) as Hlk.
  pose proof (linked_rewrite l1 l2 r rb0 0 Hnd taken) as Hrw.
  rewrite <- (fo_chain _ _ _ _ _ _ _ _ _ _ _ F), <- (l_blocks _ _ L) in Hlk, Hrw.
  assert (nxt = head_of l2 0) as -> by (rewrite Hr in Hlk; by injection Hlk).
  split_and!.
  - edestruct (fo_replace _ _ _ _ _ _ _ _ _ _ _ F st1 [taken]) as [L1 _]; try done.
    + simpl. lia.
    + constructor; [by apply taken_ok|constructor].
    + eexists. split; [exact L1|]. rewrite (fo_rgs _ _ _ _ _ _ _ _ _ _ _ F) in B.
      apply (busy_replace _ _ _ _ _ _ _ B). constructor. simpl.
      destruct fit_room. unfold SIZEOF_BLOCK in *. lia.
  - unfold live. rewrite Z.add_simpl_r, Hr. simpl. by rewrite decide_True.
  - intros q Hq. unfold live. simpl. rewrite lookup_insert_ne by lia. done.
Qed.

Lemma split_block nxt :
  usage rb0 ≠ 0 → blocks st !! r = Some (set_next nxt rb0) →
  let block := r + usage rb0 in
  let st1 := set_blocks (<[r := set_next block shrunk]>
    (<[block := set_next nxt remainder]> (blocks st))) (take_id st) in
  wf st1 ∧ live st (block + SIZEOF_BLOCK) = None ∧
  ∀ q, q ≠ block + SIZEOF_BLOCK → live st1 q = live st q.
Proof.
  intros Hu Hr block st1. destruct (layout_focus _ _ _ _ L Hc)
    as (rg1 & rs & bl1 & bl2 & rg2 & l1 & l2 & F).
  pose proof (fresh_second_header Hu) as Hfr.
  pose proof (chain_NoDup _ _ L) as Hnd. rewrite (fo_chain _ _ _ _ _ _ _ _ _ _ _ F) in Hnd, Hfr.
  pose proof (linked_lookup l1 l2 r rb0 0 Hnd) as Hlk.
  pose proof (linked_split l1 l2 r rb0 0 Hnd block shrunk remainder Hfr) as Hrw.
  rewrite <- (fo_chain _ _ _ _ _ _ _ _ _ _ _ F), <- (l_blocks _ _ L) in Hlk, Hrw.
  assert (nxt = head_of l2 0) as -> by (rewrite Hr in Hlk; by injection Hlk).
  assert (blocks st !! block = None) as Hnone.
  { rewrite (l_blocks _ _ L). apply not_elem_of_list_to_map_1.
    rewrite link_keys, (fo_chain _ _ _ _ _ _ _ _ _ _ _ F). done. }
  split_and!.
  - edestruct (fo_replace _ _ _ _ _ _ _ _ _ _ _ F st1 [shrunk; remainder]) as [L1 _]; try done.
    + simpl. lia.
    + by apply split_ok.
    + eexists. split; [exact L1|]. rewrite (fo_rgs _ _ _ _ _ _ _ _ _ _ _ F) in B.
      apply (busy_replace _ _ _ _ _ _ _ B). by constructor.
  - unfold live. by rewrite Z.add_simpl_r, Hnone.
  - intros q Hq. unfold live. simpl. destruct (decide (q - SIZEOF_BLOCK = r)) as [Heq|Hne].
    + rewrite Heq, lookup_insert_eq, Hr. done.
    + rewrite !lookup_insert_ne by lia. done.
Qed.

Lemma malloc_reuse_ok :
  ∃ st' p, malloc_reuse env st r size = Ok (st', p) ∧ wf st' ∧
  granted st st' p size ∧ scribbled env st st' p size.
Proof.
  destruct (cell_blocks _ _ L _ _ Hc) as [nxt Hr].
  destruct chosen_facts as (? & ? & ? & ? & Hu & ?). destruct fit_room as [Hn Hroom].
  unfold malloc_reuse, deref. rewrite decide_False, Hr by lia. simpl.
  destruct (decide (usage rb0 = 0)) as [Hu0|Hu0].
  - destruct (take_whole nxt Hu0 Hr) as (Hwf & Hnone & Hframe).
    edestruct (finish_grant _ (r + SIZEOF_BLOCK) (set_next nxt taken) Hwf)
      as (st2 & Hs & Hwf2 & Hg); try done; rewrite ?Z.add_simpl_r; try lia.
    + by apply mod8_add.
    + simpl. apply lookup_insert_eq.
    + unfold set_next, taken in Hs. simpl in Hs. rewrite Hs. simpl. eauto.
  - destruct (split_block nxt Hu0 Hr) as (Hwf & Hnone & Hframe).
    assert (0 < usage rb0) by (unfold SIZEOF_BLOCK in *; lia).
    rewrite wrap64_small by (unfold SIZEOF_BLOCK in *; lia).
    unfold store_new. rewrite decide_True; last first.
    { destruct (cell_mapped _ _ L _ _ Hc) as (s & n & Hm & ? & ?). unfold SIZEOF_BLOCK in *. split.
      - apply (in_mapping_intro _ s n); [done|lia|lia].
      - apply (inside_clear _ _ L r rb0); unfold SIZEOF_BLOCK; [done|lia|lia]. }
    simpl.
    edestruct (finish_grant _ (r + usage rb0 + SIZEOF_BLOCK) (set_next nxt remainder) Hwf)
      as (st2 & Hs & Hwf2 & Hg); try done; rewrite ?Z.add_simpl_r; try lia.
    + by repeat apply mod8_add.
    + simpl. rewrite lookup_insert_ne by lia. apply lookup_insert_eq.
    + unfold set_next, shrunk, remainder, set_blocks in Hs. simpl in Hs.
      unfold set_blocks. simpl. rewrite Hs. simpl. eauto.
Qed.
End reuse_block.

Section new_region.
Context (page_sz : Z) (mmap : gmap Z Z → Z → option Z) `{!MmapSpec page_sz mmap}.

Lemma region_sz_facts real_sz :
  SIZEOF_BLOCK ≤ real_sz ≤ MAX_REQUEST + 56 →
  real_sz ≤ region_sz_of page_sz real_sz ∧ region_sz_of page_sz real_sz `mod` 8 = 0.
Proof.
  intros H. pose proof page_range as Hp. pose proof page_align as Ha.
  unfold MAX_REQUEST, SIZEOF_BLOCK, INT_MAX in *.
  pose proof (Z.mod_pos_bound real_sz page_sz ltac:(lia)).
  pose proof (Z.div_mod real_sz page_sz ltac:(lia)) as Hd.
  unfold region_sz_of. case_decide.
  - rewrite wrap64_small by nia. split; [nia|].
    by rewrite Z.mul_mod, Ha, Z.mul_0_r by lia.
  - rewrite wrap64_small by nia. split; [nia|].
    by rewrite Z.mul_mod, Ha, Z.mul_0_r by lia.
Qed.

Context (env : alloc_env) (st : alloc_state) (rgs : list region) (L : layout st rgs)
  (B : Forall busy rgs).
Context (size : Z) (Hsz : 0 ≤ size ≤ MAX_REQUEST + 8) (Hal : size `mod` 8 = 0).
Context (block : Z) (Hmm : mmap (mapped st) (region_sz_of page_sz (need size)) = Some block).

Definition new_block : mem_block :=
  MkBlock (g_allocations st) (region_sz_of page_sz (need size)) (need size) block
  (region_sz_of page_sz (need size)) 0.

Lemma new_block_facts :
  region_ok (block, [new_block]) ∧ Forall (λ r, apart r (block, [new_block])) rgs ∧
  block ∉ (chain rgs).*1.
Proof.
  destruct (mmap_fresh _ _ _ Hmm) as (? & ? & Hb8 & ? & Hap).
  pose proof (need_eq _ Hsz) as Hn. pose proof page_range as Hp. pose proof page_align as Ha.
  unfold SIZEOF_BLOCK in *.
  destruct (region_sz_facts (need size)) as [Hge H8]; [unfold SIZEOF_BLOCK; lia|].
  assert (block `mod` 8 = 0) as Hblk8.
  { pose proof (Z.div_mod block page_sz ltac:(lia)) as Hd. rewrite Hb8, Z.add_0_r in Hd.
    rewrite Hd, Z.mul_mod, Ha by lia. done. }
  assert (Forall (λ r, apart r (block, [new_block])) rgs) as Hapart.
  { apply Forall_forall. intros r Hr. pose proof (layout_mapped _ _ L) as Hm.
    rewrite Forall_forall in Hm. pose proof (Hap _ _ (Hm _ Hr)) as Hx. unfold apart.
    simpl in *. lia. }
  split_and!; [|done|].
  - unfold region_ok; simpl. rewrite Z.add_0_r. split_and!; try done; try lia.
    constructor; [|constructor]. unfold block_ok, new_block; simpl. unfold SIZEOF_BLOCK.
    split_and!; try done; try lia. rewrite Hn. by apply mod8_add.
  - intros (c & -> & Hc)%list_elem_of_fmap.
    destruct (chain_in_region _ _ (l_regions _ _ L) Hc) as (r & Hr & ? & ? & [[? _] _] & _).
    rewrite Forall_forall in Hapart. specialize (Hapart _ Hr).
    unfold apart, SIZEOF_BLOCK in *. simpl in *. lia.
Qed.

Lemma link_region_ok st1 :
  g_head st1 = g_head st → mapped st1 = <[block := blk_size new_block]> (mapped st) →
  blocks st1 = <[block := new_block]> (blocks st) →
  ∃ st2, link_region st1 block = Ok st2 ∧ layout st2 (rgs ++ [(block, [new_block])]) ∧
  bytes st2 = bytes st1 ∧ g_allocations st2 = g_allocations st1 ∧
  (∀ q, live st2 q = live st1 q).
Proof.
  intros Hh Hm Hb. destruct new_block_facts as (Hrok & Hap & Hfr).
  pose proof (layout_nonzero _ _ L) as Hnz. pose proof (chain_NoDup _ _ L) as Hnd.
  unfold link_region. rewrite Hh, (l_head _ _ L).
  destruct (decide (chain rgs = [])) as [Hnil|Hne].
  - rewrite Hnil. simpl. eexists. split; [done|]. split_and!; [|done..].
    eapply layout_snoc; [exact L|done|done|done| |by rewrite Hnil].
    simpl. rewrite Hb, (l_blocks _ _ L), Hnil. done.
  - destruct (exists_last Hne) as (l & [t bt] & Hl). rewrite Hl in *.
    rewrite decide_False; last first.
    { destruct l; simpl; apply Forall_inv in Hnz; done. }
    unfold last_block. rewrite Hh, (l_head _ _ L).
    rewrite (walk_to_last l t bt (blocks st1) block new_block); try done.
    2: { by rewrite Hb, (l_blocks _ _ L), Hl. }
    2: { by rewrite Hl. }
    2: { unfold chain_fuel. rewrite Hb, map_to_list_insert by (rewrite (l_blocks _ _ L);
      apply not_elem_of_list_to_map_1; by rewrite link_keys, Hl). simpl.
      rewrite (length_chain _ _ L), Hl. lia. }
    simpl. apply Forall_app in Hnz as [_ [Ht _]%Forall_cons]. simpl in Ht.
    assert (t ≠ block) as Htb by (rewrite fmap_app in Hfr; set_solver).
    pose proof (linked_lookup l [] t bt 0 Hnd) as Hlk.
    rewrite <- Hl, <- (l_blocks _ _ L) in Hlk.
    rewrite decide_False by done. unfold deref. rewrite decide_False by done.
    rewrite Hb, lookup_insert_ne, Hlk by done. simpl.
    eexists. split; [done|]. split_and!; [|done|done|].
    + eapply layout_snoc; [exact L|done|done|done| |by rewrite Hl; destruct l; simpl; rewrite Hh, (l_head _ _ L), Hl].
      simpl. rewrite Hl. rewrite <- app_assoc. simpl.
      rewrite <- (linked_split l [] t bt 0 Hnd block bt new_block) by done.
      by rewrite (l_blocks _ _ L), Hl.
    + intros q. unfold live. simpl. rewrite Hb.
      destruct (decide (q - SIZEOF_BLOCK = t)) as [Heq|Hq].
      * rewrite Heq, lookup_insert_eq, lookup_insert_ne, Hlk by done. done.
      * by rewrite (lookup_insert_ne _ t) by done.
Qed.

Lemma new_header_clear : clear_of_headers (blocks st) block SIZEOF_BLOCK.
Proof.
  destruct new_block_facts as (Hrok & Hap & _). pose proof (region_total _ Hrok) as Ht.
  apply clear_intro. intros a b Hb. destruct (blocks_cell _ _ L _ _ Hb) as (b0 & n & Hc & ->).
  destruct (chain_in_region _ _ (l_regions _ _ L) Hc) as (r & Hr & ? & ? & [[? _] _] & _).
  rewrite Forall_forall in Hap. specialize (Hap _ Hr).
  unfold apart, SIZEOF_BLOCK in *. simpl in *. lia.
Qed.

Lemma malloc_map_ok :
  ∃ st' p, malloc_map page_sz mmap env st size = Ok (st', p) ∧ wf st' ∧
  granted st st' p size ∧ scribbled env st st' p size.
Proof.
  destruct new_block_facts as (Hrok & Hap & Hfr). pose proof (need_eq _ Hsz) as Hn.
  pose proof (region_total _ Hrok) as Ht. simpl in Ht.
  unfold malloc_map. rewrite Hmm. unfold store_new. simpl. rewrite decide_True; last first.
  { split; [|apply new_header_clear].
    apply (in_mapping_intro _ block (region_sz_of page_sz (need size)));
      [apply lookup_insert_eq|lia|unfold new_block in Ht; simpl in Ht; lia]. }
  simpl. match goal with |- context [link_region ?s block] => set (st1 := s) end.
  destruct (link_region_ok st1) as (st2 & -> & L2 & Hby & Hid & Hlive); [done..|]. simpl.
  assert (blocks st !! block = None) as Hnone.
  { rewrite (l_blocks _ _ L). apply not_elem_of_list_to_map_1. by rewrite link_keys. }
  assert (live st2 (block + SIZEOF_BLOCK) = Some size) as Hl.
  { rewrite Hlive. unfold live. simpl. rewrite Z.add_simpl_r, lookup_insert_eq. simpl.
    unfold SIZEOF_BLOCK in *. rewrite decide_False by lia. f_equal. lia. }
  destruct (scribble_ok _ _ L2 env _ size size Hl) as (st3 & -> & Hh & Hbs); [lia|]. simpl.
  destruct Hrok as (_ & ? & ? & _). simpl in *.
  do 2 eexists. split; [done|]. split_and!.
  - eexists. split; [by eapply same_heads_layout|]. apply Forall_app. split; [done|].
    constructor; [|constructor]. constructor. unfold SIZEOF_BLOCK in *. simpl. lia.
  - split.
    + unfold SIZEOF_BLOCK. lia.
    + by apply mod8_add.
    + unfold live. by rewrite Z.add_simpl_r, Hnone.
    + by rewrite (same_heads_live _ _ _ Hh).
    + intros q Hq. rewrite (same_heads_live _ _ _ Hh), Hlive. unfold live. simpl.
      by rewrite lookup_insert_ne by lia.
  - intros a. rewrite Hbs, Hby. done.
Qed.
End new_region.

(** * The allocator against its specification *)
Section spec.
Context (page_sz : Z) (mmap : gmap Z Z → Z → option Z) `{!MmapSpec page_sz mmap}.

(** A request returns NULL and changes nothing, or grants [n] bytes. *)
Definition served (env : alloc_env) (st st' : alloc_state) (p n : Z) : Prop :=
  (p = 0 ∧ st' = st) ∨ (granted st st' p n ∧ scribbled env st st' p n).

Lemma malloc_served env st size :
  wf st → 0 ≤ size ≤ MAX_REQUEST →
  ∃ st' p, malloc page_sz mmap env st size = Ok (st', p) ∧ wf st' ∧
  served env st st' p (align8 size).
Proof.
  intros (rgs & L & B) Hs. destruct (align8_range _ Hs) as [Hr H8]. unfold malloc.
  destruct (reuse_policy env st rgs (align8 size) L) as (r & -> & Hfit). simpl.
  destruct Hfit as [->|(b & Hc & Hb)].
  - rewrite decide_False by tauto.
    destruct (mmap (mapped st) (region_sz_of page_sz (need (align8 size)))) as [blk|] eqn:Hm.
    + destruct (malloc_map_ok page_sz mmap env st rgs L B (align8 size) ltac:(lia) H8 blk Hm)
      as (st' & p & ? & ? & ? & ?). exists st', p. split_and!; [done|done|by right].
    + exists st, 0. unfold malloc_map. rewrite Hm. split_and!; [done|by exists rgs|by left].
  - destruct (cell_facts _ _ L _ _ Hc) as (Hr0 & _). rewrite decide_True by lia.
    destruct (malloc_reuse_ok env st rgs L B r (align8 size) b Hc ltac:(lia) H8 Hb)
      as (st' & p & ? & ? & ? & ?). exists st', p. split_and!; [done|done|by right].
Qed.
End spec.
