(* ===== verification/AllocFree.v ===== *)
(** [free] (Project3/allocator.c): the scan of the region, the search of its
    predecessor in the list and the removal of a region that is entirely
    free. *)
From Stdlib Require Import ZArith Lia Ascii.
From stdpp Require Import prelude gmap strings numbers list.
From S2P Require Import Prelude CString Allocator AllocLayout AllocFit AllocSafe.
Open Scope Z_scope.
Import CInt.

(** * The two walks *)
Definition scan_body (rs : Z) : unit → Z → mem_block → outcome ((bool * Z) + unit) :=
  λ _ cur b,
    if decide (region_start b ≠ rs) then Ok (inl (true, cur))
    else if decide (usage b ≠ 0) then Ok (inl (false, cur))
    else Ok (inr tt).

Lemma scan_body_eq rs c :
  scan_body rs tt c.1 c.2 =
    if decide (region_start c.2 ≠ rs) then Ok (inl (true, c.1))
    else if decide (usage c.2 ≠ 0) then Ok (inl (false, c.1)) else Ok (inr tt).
Proof. done. Qed.

Definition all_free (bl : list mem_block) : Prop := Forall (λ b, usage b = 0) bl.
#[export] Instance all_free_dec bl : Decision (all_free bl).
Proof. unfold all_free. apply _. Defined.

Lemma scan_list rs a bl l e :
  Forall (λ b, region_start b = rs) bl →
  (∀ c l', l = c :: l' → region_start c.2 ≠ rs) →
  ∃ fr cur, walk_list (scan_body rs) (λ _, (true, 0)) (link (place a bl) e ++ l) tt = Ok (fr, cur) ∧
            (fr = true ↔ all_free bl) ∧ (fr = true → cur = head_of l 0).
Proof.
  intros Hbl Hl. revert a. unfold all_free. induction Hbl as [|b bl Hb Hbl IH]; intros a.
  - exists true, (head_of l 0). split; [|done]. destruct l as [|c l']; simpl; [done|].
    rewrite scan_body_eq, decide_True by (by eapply Hl). done.
  - cbn [place link app walk_list]. rewrite scan_body_eq. simpl. rewrite decide_False by tauto.
    destruct (decide (usage b ≠ 0)) as [Hu|Hu]; simpl.
    + exists false, a. split; [done|]. split; [|done]. split; [done|].
      by intros [? _]%Forall_cons.
    + destruct (IH (a + blk_size b)) as (fr & cur & -> & Hfr & Hc). exists fr, cur.
      split; [done|]. rewrite Forall_cons. split; [|done]. rewrite Hfr.
      split; [intros; split; [lia|done]|tauto].
Qed.

Lemma head_of_link l e h : head_of (link l e) h = head_of l h.
Proof. by destruct l. Qed.

Section region_walks.
Context (st : alloc_state) (rg1 : list region) (rs : Z) (bl : list mem_block) (rg2 : list region).
Context (L : layout st (rg1 ++ (rs, bl) :: rg2)).

Lemma middle_region : region_ok (rs, bl).
Proof. pose proof (l_regions _ _ L) as H. by apply Forall_app in H as [_ [? _]%Forall_cons]. Qed.

Lemma chain_split : chain (rg1 ++ (rs, bl) :: rg2) = chain rg1 ++ place rs bl ++ chain rg2.
Proof. by rewrite chain_app. Qed.

Lemma head_place l e : head_of (place rs bl ++ l) e = rs.
Proof. destruct middle_region as (Hne & _). simpl in Hne. by destruct bl. Qed.

Lemma other_regions r : r ∈ rg1 ∨ r ∈ rg2 → apart r (rs, bl) ∧ region_ok r.
Proof.
  intros Hr. pose proof (l_regions _ _ L) as Hok. pose proof (l_apart _ _ L) as Hap.
  rewrite Forall_forall in Hok. apply pairwise_app in Hap as (_ & [Hp _] & Hx).
  rewrite Forall_forall in Hp. split; [|apply Hok; set_solver].
  destruct Hr as [Hr|Hr]; [apply Hx; set_solver|]. destruct (Hp _ Hr); [right|left]; done.
Qed.

Lemma next_region_start c l' : link (chain rg2) 0 = c :: l' → region_start c.2 ≠ rs.
Proof.
  intros Hl. assert (c ∈ link (chain rg2) 0) as Hc by (rewrite Hl; set_solver).
  destruct c as [a b]. apply elem_of_link in Hc as (b0 & n & Hc & ->). simpl.
  assert (Forall region_ok rg2) as Hok.
  { apply Forall_forall. intros r Hr. by apply other_regions; right. }
  destruct (chain_in_region _ _ Hok Hc) as (r & Hr & _ & _ & (_ & _ & Hrs & _) & _). simpl in Hrs.
  rewrite Hrs.
  destruct (other_regions r ltac:(by right)) as [Hap Hr'].
  pose proof (region_total _ Hr'). pose proof (region_total _ middle_region).
  unfold apart, SIZEOF_BLOCK in *. simpl in *. lia.
Qed.

Lemma scan_region_ok :
  ∃ fr cur, scan_region (blocks st) rs = Ok (fr, cur) ∧
  (fr = true ↔ all_free bl) ∧ (fr = true → cur = head_of (chain rg2) 0).
Proof.
  pose proof (layout_nonzero _ _ L) as Hnz. pose proof (layout_linked _ _ L) as Hlk.
  rewrite chain_split in Hnz, Hlk. rewrite link_app in Hlk.
  apply Forall_app in Hnz as [_ Hnz]. apply Forall_app in Hlk as [_ Hlk].
  unfold scan_region. fold (scan_body rs).
  rewrite (walk_linked _ _ _ _ _ (link (place rs bl ++ chain rg2) 0)).
  - rewrite link_app. rewrite <- (head_of_link (chain rg2) 0).
    apply scan_list; [|apply next_region_start].
    destruct middle_region as (_ & _ & _ & _ & Hb). simpl in Hb.
    eapply Forall_impl; [exact Hb|]. by intros b (_ & _ & ? & _).
  - rewrite <- (head_place (chain rg2) 0) at 1. by apply linked_link.
  - done.
  - unfold chain_fuel. rewrite (length_chain _ _ L), chain_split, length_link.
    rewrite !length_app. lia.
Qed.

(** The last block before the region, when there is one. *)
Lemma find_pred_ok l t bt :
  chain rg1 = l ++ [(t, bt)] →
  find_pred (blocks st) (g_head st) rs = Ok t ∧ blocks st !! t = Some (set_next rs bt) ∧ t ≠ 0.
Proof.
  intros Hl. pose proof (chain_NoDup _ _ L) as Hnd. pose proof (layout_nonzero _ _ L) as Hnz.
  pose proof chain_split as Hch. rewrite Hl in Hch. rewrite <- app_assoc in Hch. simpl in Hch.
  assert (blocks st !! t = Some (set_next rs bt)) as Hb.
  { rewrite (l_blocks _ _ L). rewrite Hch in Hnd |- *.
    rewrite (linked_lookup _ _ _ _ _ Hnd), head_place. done. }
  split_and!; [|done|].
  - unfold find_pred. rewrite (walk_chain _ _ L), Hch, link_app. simpl. rewrite head_place.
    rewrite walk_list_app; [simpl; by rewrite decide_True|].
    apply Forall_forall. intros c Hc. rewrite decide_False; [done|].
    assert (rs ∈ (place rs bl).*1) as Hrs.
    { destruct middle_region as (Hne & _). simpl in Hne. destruct bl; simpl; [done|set_solver]. }
    rewrite Hch, fmap_app in Hnd. apply NoDup_app in Hnd as (_ & Hx & Hnd2). simpl in *.
    rewrite fmap_app in Hx, Hnd2. apply NoDup_cons in Hnd2 as [Hnt _].
    destruct (link_next _ _ _ Hc) as [->|Hin]; [set_solver|].
    intros Heq. rewrite Heq in Hin. apply (Hx _ Hin). set_solver.
  - rewrite Hch in Hnz. apply Forall_app in Hnz as [_ [? _]%Forall_cons]. done.
Qed.
End region_walks.

(** * Removing a free region *)
Section remove_region.
Context (st : alloc_state) (rg1 : list region) (rs : Z) (bl : list mem_block) (rg2 : list region).
Context (L : layout st (rg1 ++ (rs, bl) :: rg2)).

Let inside (kv : Z * mem_block) : Prop := rs ≤ kv.1 < rs + total bl.

Lemma region_cells c : c ∈ place rs bl → inside c.
Proof.
  intros Hc. pose proof (middle_region _ _ _ _ _ L) as Hr.
  destruct (place_bounds _ _ _ (region_sizes _ Hr) Hc) as (? & ? & Hin).
  destruct Hr as (_ & _ & _ & _ & Hb). simpl in Hb. rewrite Forall_forall in Hb.
  destruct (Hb _ Hin) as [[? _] _]. unfold inside, SIZEOF_BLOCK in *. simpl in *. lia.
Qed.

Lemma outside_cells c : c ∈ chain rg1 ∨ c ∈ chain rg2 → ¬ inside c.
Proof.
  intros Hc. assert (∃ r, (r ∈ rg1 ∨ r ∈ rg2) ∧ r.1 ≤ c.1 ∧ c.1 + blk_size c.2 ≤ r.1 + total r.2
    ∧ SIZEOF_BLOCK ≤ blk_size c.2) as (r & Hr & ? & ? & ?).
  { destruct Hc as [Hc|Hc]; [pose (rg := rg1)|pose (rg := rg2)].
    all: assert (Forall region_ok rg) as Hok by
      (apply Forall_forall; intros r Hr; by apply (other_regions _ _ _ _ _ L); tauto).
    all: destruct (chain_in_region _ _ Hok Hc) as (r & Hr & ? & ? & [[? _] _] & _).
    all: exists r; unfold rg in Hr; tauto. }
  destruct (other_regions _ _ _ _ _ L r Hr) as [Hap _].
  unfold inside, apart, SIZEOF_BLOCK in *. simpl in *. lia.
Qed.

Lemma link_cells l e (P : Z * mem_block → Prop) :
  (∀ c b, P c → P (c.1, b)) → (∀ c, c ∈ l → P c) → Forall P (link l e).
Proof.
  intros HP Hl. apply Forall_forall. intros [a b] Hc.
  apply elem_of_link in Hc as (b0 & n & Hc & ->). apply (HP (a, b0)), Hl, Hc.
Qed.

(** Cutting the cells of the region out of a header map. *)
Lemma filter_region l1 l2 e :
  NoDup (l1 ++ link (place rs bl) e ++ l2).*1 →
  Forall (λ c, ¬ inside c) l1 → Forall (λ c, ¬ inside c) l2 →
  filter (λ kv, ¬ inside kv)
  (list_to_map (l1 ++ link (place rs bl) e ++ l2) : gmap Z mem_block) = list_to_map (l1 ++ l2).
Proof.
  intros. apply map_remove_cells; [done..|]. apply link_cells; [unfold inside; simpl; tauto|].
  intros c Hc Hn. by apply Hn, region_cells.
Qed.

(** The headers after the region's predecessor, if any, is linked past it. *)
Definition relinked : gmap Z mem_block :=
  match last (chain rg1) with
  | None => blocks st
  | Some (t, bt) => <[t := set_next (head_of (chain rg2) 0) bt]> (blocks st)
  end.

Lemma removed_blocks :
  filter (λ kv, ¬ inside kv) relinked = list_to_map (link (chain rg1 ++ chain rg2) 0).
Proof.
  pose proof (chain_NoDup _ _ L) as Hnd. pose proof (link_keys (chain (rg1 ++ (rs, bl) :: rg2)) 0) as Hk.
  unfold relinked. rewrite (l_blocks _ _ L). rewrite (chain_split rg1 rs bl rg2) in *.
  assert (Forall (λ c, ¬ inside c) (link (chain rg2) 0)) as H2.
  { apply link_cells; [unfold inside; simpl; tauto|]. intros; apply outside_cells; tauto. }
  destruct (last (chain rg1)) as [[t bt]|] eqn:Hlast.
  - apply last_Some in Hlast as [l Hl]. rewrite Hl in *. rewrite <- app_assoc in *. simpl in *.
    rewrite link_app in *. simpl in *. rewrite (head_place _ _ _ _ _ L) in *.
    rewrite <- Hk in Hnd.
    rewrite (map_rewrite_cell _ _ _ _ (set_next (head_of (chain rg2) 0) bt)) by done.
    rewrite (link_app (place rs bl)) in *.
    rewrite (link_app (l ++ _)), link_snoc.
    assert (Forall (λ c, ¬ inside c) (link l t ++ [(t, set_next (head_of (chain rg2) 0) bt)])) as H1.
    { apply Forall_app. split; [|constructor; [|constructor]].
      - apply link_cells; [unfold inside; simpl; tauto|]. intros c Hc. apply outside_cells.
        left. rewrite Hl. set_solver.
      - apply (outside_cells (t, bt)). left. rewrite Hl. set_solver. }
    rewrite (cons_middle (t, _)), (app_assoc (link l t) [_]).
    apply filter_region; [|done|done]. clear -Hnd. rewrite !fmap_app in *. simpl in *.
    rewrite !fmap_app in *. rewrite <- app_assoc. exact Hnd.
  - apply last_None in Hlast. rewrite Hlast in *. simpl in *.
    rewrite link_app in *. apply (filter_region []); [|constructor|done].
    rewrite <- Hk in Hnd. done.
Qed.

Lemma removed_layout st' :
  blocks st' = filter (λ kv, ¬ inside kv) relinked →
  g_head st' = head_of (chain rg1) (head_of (chain rg2) 0) →
  mapped st' = delete rs (mapped st) →
  layout st' (rg1 ++ rg2).
Proof.
  intros Hb Hh Hm. split.
  - pose proof (l_regions _ _ L) as H. apply Forall_app in H as [? [_ ?]%Forall_cons].
    by apply Forall_app.
  - pose proof (l_apart _ _ L) as H. apply pairwise_app in H as (? & [_ ?] & Hx).
    apply pairwise_app. split_and!; [done|done|]. intros. apply Hx; set_solver.
  - rewrite Hb, removed_blocks, chain_app. done.
  - by rewrite Hh, chain_app, head_of_app.
  - pose proof (extent_NoDup _ _ L) as Hnd.
    rewrite Hm, (l_mapped _ _ L). rewrite !fmap_app in *. simpl in *.
    apply NoDup_app in Hnd as (_ & Hx & [Hn2 _]%NoDup_cons).
    rewrite !list_to_map_app. simpl. rewrite delete_union, delete_insert_eq.
    rewrite !delete_id; [done|..]; apply not_elem_of_list_to_map_1; [done|].
    intros Hin. apply (Hx _ Hin). set_solver.
Qed.

Lemma relinked_usage k : usage <$> relinked !! k = usage <$> blocks st !! k.
Proof.
  unfold relinked. destruct (last (chain rg1)) as [[t bt]|] eqn:Hl; [|done].
  apply last_Some in Hl as [l Hl].
  destruct (find_pred_ok _ _ _ _ _ L _ _ _ Hl) as (_ & Ht & _).
  destruct (decide (k = t)) as [->|]; [|by rewrite lookup_insert_ne].
  by rewrite lookup_insert_eq, Ht.
Qed.

(** The cells of a free region carry no payload. *)
Lemma inside_free k b :
  all_free bl → blocks st !! k = Some b → inside (k, b) → usage b = 0.
Proof.
  intros Hf Hb Hin. destruct (blocks_cell _ _ L _ _ Hb) as (b0 & n & Hc & ->). simpl.
  rewrite (chain_split rg1 rs bl rg2) in Hc.
  apply elem_of_app in Hc as [Hc|[Hc|Hc]%elem_of_app].
  - destruct (outside_cells (k, b0)); [by left|done].
  - pose proof (middle_region _ _ _ _ _ L) as Hr.
    destruct (place_bounds _ _ _ (region_sizes _ Hr) Hc) as (_ & _ & Hb0). simpl in *.
    unfold all_free in Hf. rewrite Forall_forall in Hf. by apply Hf.
  - destruct (outside_cells (k, b0)); [by right|done].
Qed.

Lemma removed_live st' q :
  all_free bl → blocks st' = filter (λ kv, ¬ inside kv) relinked → live st' q = live st q.
Proof.
  intros Hf Hb. unfold live. rewrite Hb. pose proof (relinked_usage (q - SIZEOF_BLOCK)) as Hu.
  rewrite map_lookup_filter.
  destruct (relinked !! _) as [b|] eqn:Hr; simpl in *.
  - destruct (blocks st !! (q - SIZEOF_BLOCK)) as [b'|] eqn:Hb'; [|done].
    injection Hu as Hu. destruct (decide (¬ inside (q - SIZEOF_BLOCK, b))) as [Hi|Hi].
    + rewrite option_guard_True by done. simpl. by rewrite Hu.
    + rewrite option_guard_False by done. simpl.
      rewrite decide_True; [done|]. apply dec_stable in Hi. by eapply inside_free.
  - destruct (blocks st !! (q - SIZEOF_BLOCK)); done.
Qed.
End remove_region.

(** * free *)
Section relinking.
Lemma head_is_region rg1 rs bl rg2 st1 :
  layout st1 (rg1 ++ (rs, bl) :: rg2) → g_head st1 = rs ↔ last (chain rg1) = None.
Proof.
  intros L1. rewrite (l_head _ _ L1), (chain_split rg1 rs bl rg2), head_of_app.
  pose proof (chain_NoDup _ _ L1) as Hnd. rewrite (chain_split rg1 rs bl rg2) in Hnd.
  rewrite (head_place _ _ _ _ _ L1). destruct (chain rg1) as [|c l]; simpl; [done|].
  split; [|by intros ?%last_None].
  intros Hh. apply NoDup_cons in Hnd as [Hn _]. exfalso. apply Hn. rewrite Hh.
  pose proof (middle_region _ _ _ _ _ L1) as (Hne & _). simpl in Hne.
  destruct bl as [|b bl]; [done|]. apply list_elem_of_fmap. exists (rs, b). split; [done|].
  simpl. set_solver.
Qed.

(** The step of [free] that takes the region out of the list. *)
Lemma relink_ok st1 rg1 rs bl rg2 cur :
  layout st1 (rg1 ++ (rs, bl) :: rg2) → cur = head_of (chain rg2) 0 →
  ∃ st2,
  (if decide (g_head st1 = rs)
    then Ok (MkAlloc cur (g_allocations st1) (blocks st1) (mapped st1) (bytes st1))
    else
    tmp ← find_pred (blocks st1) (g_head st1) rs;
    tb ← deref (blocks st1) tmp;
    Ok (set_blocks (<[tmp := set_next cur tb]> (blocks st1)) st1)) = Ok st2 ∧
  blocks st2 = relinked st1 rg1 rg2 ∧ g_head st2 = head_of (chain rg1) cur ∧
  mapped st2 = mapped st1 ∧ bytes st2 = bytes st1 ∧ g_allocations st2 = g_allocations st1.
Proof.
  intros L1 ->. pose proof (head_is_region _ _ _ _ _ L1) as Hh.
  unfold relinked. destruct (last (chain rg1)) as [[t bt]|] eqn:Hlast.
  - rewrite decide_False by (rewrite Hh; done).
    apply last_Some in Hlast as [l Hl].
    destruct (find_pred_ok _ _ _ _ _ L1 _ _ _ Hl) as (-> & Ht & Ht0). simpl.
    rewrite (deref_ok _ _ _ Ht Ht0). simpl. eexists. split_and!; try done. simpl.
    rewrite (l_head _ _ L1), chain_app, Hl. by destruct l.
  - rewrite decide_True by (by apply Hh). eexists. split_and!; try done. simpl.
    apply last_None in Hlast. by rewrite Hlast.
Qed.

Lemma relinked_fields st1 rg1 rs bl rg2 k b :
  layout st1 (rg1 ++ (rs, bl) :: rg2) → blocks st1 !! k = Some b →
  ∃ b', relinked st1 rg1 rg2 !! k = Some b' ∧
  region_start b' = region_start b ∧ region_size b' = region_size b.
Proof.
  intros L1 Hk. unfold relinked. destruct (last (chain rg1)) as [[t bt]|] eqn:Hlast; [|eauto].
  apply last_Some in Hlast as [l Hl]. destruct (find_pred_ok _ _ _ _ _ L1 _ _ _ Hl) as (_ & Ht & _).
  destruct (decide (k = t)) as [->|Hne].
  - rewrite Ht in Hk. injection Hk as <-. rewrite lookup_insert_eq. eauto.
  - rewrite lookup_insert_ne by done. eauto.
Qed.
End relinking.

Section free_block.
Context (st : alloc_state) (rgs : list region) (L : layout st rgs) (B : Forall busy rgs).
Context (a : Z) (b0 : mem_block) (Hc : (a, b0) ∈ chain rgs).

(** The state once the block is marked free. *)
Definition marked (nxt : Z) : alloc_state :=
  set_blocks (<[a := set_usage 0 (set_next nxt b0)]> (blocks st)) st.

Lemma marked_layout nxt :
  blocks st !! a = Some (set_next nxt b0) →
  ∃ rg1 bl1 bl2 rg2,
  rgs = rg1 ++ (region_start b0, bl1 ++ b0 :: bl2) :: rg2 ∧
  layout (marked nxt)
  (rg1 ++ (region_start b0, bl1 ++ [set_usage 0 b0] ++ bl2) :: rg2).
Proof.
  intros Ha. destruct (layout_focus _ _ _ _ L Hc)
    as (rg1 & rs & bl1 & bl2 & rg2 & l1 & l2 & F).
  pose proof (chain_NoDup _ _ L) as Hnd. rewrite (fo_chain _ _ _ _ _ _ _ _ _ _ _ F) in Hnd.
  pose proof (linked_lookup l1 l2 a b0 0 Hnd) as Hlk.
  pose proof (linked_rewrite l1 l2 a b0 0 Hnd (set_usage 0 b0)) as Hrw.
  rewrite <- (fo_chain _ _ _ _ _ _ _ _ _ _ _ F), <- (l_blocks _ _ L) in Hlk, Hrw.
  assert (nxt = head_of l2 0) as -> by (rewrite Ha in Hlk; by injection Hlk).
  destruct (cell_facts _ _ L _ _ Hc) as (_ & _ & _ & [[? _] ([? _] & _ & _)]).
  pose proof (fo_start _ _ _ _ _ _ _ _ _ _ _ F) as Hs. rewrite <- Hs.
  exists rg1, bl1, bl2, rg2. split; [by apply (fo_rgs _ _ _ _ _ _ _ _ _ _ _ F)|].
  edestruct (fo_replace _ _ _ _ _ _ _ _ _ _ _ F (marked (head_of l2 0)) [set_usage 0 b0]) as [L1 _];
    [done|simpl; lia| |exact Hrw|done|done|exact L1].
  constructor; [|constructor]. unfold block_ok. simpl. split_and!; try done. by left.
Qed.

Lemma marked_live nxt q :
  blocks st !! a = Some (set_next nxt b0) →
  live (marked nxt) q = if decide (q = a + SIZEOF_BLOCK) then None else live st q.
Proof.
  intros Ha. unfold live, marked. simpl. case_decide as Hq.
  - by rewrite Hq, Z.add_simpl_r, lookup_insert_eq.
  - by rewrite lookup_insert_ne by lia.
Qed.

(** What [free] leaves: the block is no longer live, every other payload and
    every byte is as it was. *)
Record released (st' : alloc_state) (p : Z) : Prop := {
  rl_wf : wf st';
  rl_live q : live st' q = if decide (q = p) then None else live st q;
  rl_bytes : bytes st' = bytes st;
  rl_ids : g_allocations st' = g_allocations st
}.

(** What it leaves when munmap fails: the same list of blocks and the same
    payloads as [st'], but the mapping stays. *)
Record unreturned (st' st2 : alloc_state) : Prop := {
  un_head : g_head st2 = g_head st';
  un_mapped : mapped st2 = mapped st;
  un_live q : live st2 q = live st' q;
  un_bytes : bytes st2 = bytes st;
  un_ids : g_allocations st2 = g_allocations st
}.

Lemma live_same_usage st1 st2 q :
  usage <$> blocks st1 !! (q - SIZEOF_BLOCK) = usage <$> blocks st2 !! (q - SIZEOF_BLOCK) → live st1 q = live st2 q.
Proof.
  unfold live. destruct (blocks st1 !! _) as [b1|], (blocks st2 !! _) as [b2|]; simpl; intros Hu; try done.
  injection Hu as Hu. by rewrite Hu.
Qed.

Lemma free_live_block p :
  p = a + SIZEOF_BLOCK →
  ∃ st' st2, free true st p = Ok st' ∧ released st' p ∧ free false st p = Ok st2 ∧ unreturned st' st2.
Proof.
  intros ->. destruct (cell_blocks _ _ L _ _ Hc) as [nxt Ha].
  destruct (cell_facts _ _ L _ _ Hc) as (Ha0 & _).
  destruct (marked_layout nxt Ha) as (rg1 & bl1 & bl2 & rg2 & Hrgs & L1).
  pose proof (λ q, marked_live nxt q Ha) as Hlive.
  set (rs := region_start b0) in *. set (bl := bl1 ++ [set_usage 0 b0] ++ bl2) in *.
  assert (total bl = region_size b0) as Htot.
  { unfold bl. rewrite !total_app. simpl. pose proof (l_regions _ _ L) as Hok. rewrite Hrgs in Hok.
    apply Forall_app in Hok as [_ [(_ & _ & _ & _ & Hb) _]%Forall_cons]. simpl in Hb.
    apply Forall_app in Hb as [_ [(_ & _ & _ & ->) _]%Forall_cons].
    rewrite total_app. simpl. lia. }
  pose proof B as B'. rewrite Hrgs in B'. apply Forall_app in B' as [B1 [_ B2]%Forall_cons].
  unfold free. assert (a + SIZEOF_BLOCK ≠ 0) as Hp0 by (unfold SIZEOF_BLOCK; lia). rewrite !(decide_False _ _ Hp0). rewrite Z.add_simpl_r.
  rewrite (deref_ok _ _ _ Ha) by lia. simpl. fold rs.
  destruct (scan_region_ok _ _ _ _ _ L1) as (fr & cur & Hscan & Hfr & Hcur).
  simpl in Hscan. rewrite Hscan. simpl. destruct fr; last first.
  { do 2 eexists. split; [done|]. split; [|split; [done|by split]]. split; [|exact Hlive|done|done].
    eexists. split; [exact L1|].
    apply Forall_app. split; [done|]. constructor; [|done]. unfold busy. simpl.
    apply not_Forall_Exists; [apply _|]. intros Hn. destruct Hfr as [_ Hfr].
    discriminate Hfr. done. }
  destruct (relink_ok _ _ _ _ _ cur L1 (Hcur eq_refl)) as (st2 & Hst2 & Hb2 & Hh2 & Hm2 & Hy2 & Hi2).
  unfold set_blocks in Hst2 |- *. simpl in Hst2. rewrite Hst2. simpl.
  destruct (relinked_fields _ _ _ _ _ a _ L1 (lookup_insert_eq _ _ _)) as (b' & Hb' & Hs' & Hz').
  rewrite (deref_ok (blocks st2) a b') by (rewrite ?Hb2; done || lia). simpl.
  simpl in Hs', Hz'. fold rs in Hs'. rewrite Hs', Hz', <- Htot.
  do 2 eexists. split; [done|].
  assert (blocks (unmap st2 rs (total bl)) =
    filter (λ kv, ¬ rs ≤ kv.1 < rs + total bl) (relinked (marked nxt) rg1 rg2)) as Hblk.
  { simpl. by rewrite Hb2. }
  assert (∀ q, live (unmap st2 rs (total bl)) q = live (marked nxt) q) as Hsame.
  { intros q. eapply (removed_live _ _ _ _ _ L1); [|exact Hblk]. by apply Hfr. }
  split; [|split; [done|]]; split; try done.
  - exists (rg1 ++ rg2). split; [|by apply Forall_app].
    eapply (removed_layout _ _ _ _ _ L1); [exact Hblk|simpl|simpl].
    + by rewrite Hh2, (Hcur eq_refl).
    + by rewrite Hm2.
  - intros q. by rewrite <- Hlive, Hsame.
  - intros q. rewrite Hsame. apply live_same_usage. rewrite Hb2. eapply relinked_usage, L1.
Qed.
End free_block.
