(* ===== verification/AllocDemo.v ===== *)
(** A kernel for which the documented behaviour of [mmap] holds, and a
    concrete heap of Project3/allocator.c, reached by four calls of [malloc]
    and one of [free], on which the theorems of the allocator are
    evaluated. *)
From Stdlib Require Import ZArith Lia Ascii.
From stdpp Require Import prelude gmap strings numbers list.
From S2P Require Import Prelude CString Allocator AllocLayout AllocFit AllocSafe.
Open Scope Z_scope.
Import CInt.

(** * A kernel that satisfies the documented behaviour

    New mappings go at the first page above all the others. *)
Definition page_up (a : Z) : Z := (a + 4095) / 4096 * 4096.
Definition top_of (mp : gmap Z Z) : Z := map_fold (λ s n acc, Z.max acc (page_up (s + n))) 4096 mp.
Definition bump_mmap (mp : gmap Z Z) (len : Z) : option Z :=
  if decide (0 < len ∧ top_of mp + len < 18446744073709551616) then Some (top_of mp) else None.

Lemma top_of_facts mp :
  4096 ≤ top_of mp ∧ top_of mp `mod` 4096 = 0 ∧ map_Forall (λ s n, s + n ≤ top_of mp) mp.
Proof.
  apply (map_fold_weak_ind (λ acc mp, 4096 ≤ acc ∧ acc `mod` 4096 = 0 ∧ map_Forall (λ s n, s + n ≤ acc) mp)).
  - split_and!; [done|done|apply map_Forall_empty].
  - intros s n m acc Hs (Hge & Hmod & Hall).
    assert (page_up (s + n) `mod` 4096 = 0) by (apply Z.mod_mul; lia).
    assert (s + n ≤ page_up (s + n)).
    { unfold page_up. pose proof (Z.div_mod (s + n + 4095) 4096 ltac:(lia)).
      pose proof (Z.mod_pos_bound (s + n + 4095) 4096). lia. }
    split_and!; [lia|by destruct (Z.max_spec acc (page_up (s + n))) as [[_ ->]|[_ ->]]|].
    apply map_Forall_insert; [done|]. split; [lia|].
    intros s' n' H'. specialize (Hall _ _ H'). simpl in *. lia.
Qed.

#[export] Instance bump_mmap_spec : MmapSpec 4096 bump_mmap.
Proof.
  split; [done|done|]. intros mp len a. unfold bump_mmap. destruct (top_of_facts mp) as (? & ? & Hall).
  case_decide as Hd; [|done]. intros [= <-]. split_and!; [lia|lia|done|lia|].
  intros s n Hs. right. by apply Hall.
Qed.

(** * A concrete heap *)
Definition plain_env : alloc_env := MkEnv None false.
Definition demo0 : alloc_state := init_state (λ _, 0).
Definition demo_malloc (st : alloc_state) (size : Z) : alloc_state :=
  (get (st, 0) (malloc 4096 bump_mmap plain_env st size)).1.
Definition demo1 : alloc_state := demo_malloc demo0 1000.
Definition demo2 : alloc_state := demo_malloc demo1 2000.
Definition demo3 : alloc_state := demo_malloc demo2 5000.
Definition demo4 : alloc_state := demo_malloc demo3 10.
Definition demo : alloc_state := get demo4 (free true demo4 4144).

Lemma demo_malloc_ok st size p :
  returns p (malloc 4096 bump_mmap plain_env st size) = true →
  malloc 4096 bump_mmap plain_env st size = Ok (demo_malloc st size, p).
Proof. apply returns_get. Qed.

Lemma demo1_ok : malloc 4096 bump_mmap plain_env demo0 1000 = Ok (demo1, 4144).
Proof. apply demo_malloc_ok. by vm_compute. Qed.
Lemma demo2_ok : malloc 4096 bump_mmap plain_env demo1 2000 = Ok (demo2, 5192).
Proof. apply demo_malloc_ok. by vm_compute. Qed.
Lemma demo3_ok : malloc 4096 bump_mmap plain_env demo2 5000 = Ok (demo3, 8240).
Proof. apply demo_malloc_ok. by vm_compute. Qed.
Lemma demo4_ok : malloc 4096 bump_mmap plain_env demo3 10 = Ok (demo4, 7240).
Proof. apply demo_malloc_ok. by vm_compute. Qed.
Lemma demo_ok : free true demo4 4144 = Ok demo.
Proof. apply is_ok_get. by vm_compute. Qed.

(** The two regions of the heap: the first block of the first is free. *)
Definition demo_regions : list region :=
  [(4096, [MkBlock 0 1048 0 4096 4096 5144; MkBlock 1 2048 2048 4096 4096 7192;
           MkBlock 3 1000 64 4096 4096 8192]);
   (8192, [MkBlock 2 8192 5048 8192 8192 0])].

Lemma demo_layout : layout demo demo_regions.
Proof.
  split.
  - repeat constructor; simpl; unfold SIZEOF_BLOCK; (lia || done || (right; lia)).
  - simpl. rewrite Forall_singleton, !Forall_nil. unfold apart. simpl. lia.
  - decide_now.
  - decide_now.
  - decide_now.
Qed.
Lemma demo_busy : Forall busy demo_regions.
Proof. unfold busy. decide_now. Qed.
Lemma demo_wf : wf demo.
Proof. exists demo_regions. split; [apply demo_layout|apply demo_busy]. Qed.
