(* ===== verification/AllocSpec.v ===== *)
(** The abstract allocator and the theorems that Project3/allocator.c
    implements it: a simulation for all sequences of calls, the memory-safety
    invariant, the zeroing of [calloc], the policies, the state dump, and the
    behaviours that fall outside the contract (a wrapped size, two unlocked
    calls). *)
From Stdlib Require Import ZArith Lia Ascii.
From stdpp Require Import prelude gmap strings numbers list.
From S2P Require Import Prelude CString Allocator AllocLayout AllocFit AllocSafe AllocFree AllocDemo.
Open Scope Z_scope.
Import CInt.

(** * The specification

    Its state is the payloads the client owns. *)
Inductive call :=
  | CMalloc (size p : Z)          (* malloc(size) returned p *)
  | CCalloc (nmemb size p : Z)
  | CFree (p : Z).

Definition separate (m : gmap Z Z) (p n : Z) : Prop :=
  map_Forall (λ q k, p + n ≤ q ∨ q + k ≤ p) m.

Inductive spec_step : gmap Z Z → call → gmap Z Z → Prop :=
  | spec_malloc m size p :
      0 < p → p `mod` 8 = 0 → separate m p (align8 size) → m !! p = None →
      spec_step m (CMalloc size p) (<[p := align8 size]> m)
  | spec_malloc_null m size : spec_step m (CMalloc size 0) m
  | spec_calloc m nmemb size p :
      0 < p → p `mod` 8 = 0 → separate m p (align8 (nmemb * size)) → m !! p = None →
      spec_step m (CCalloc nmemb size p) (<[p := align8 (nmemb * size)]> m)
  | spec_free m p : is_Some (m !! p) → spec_step m (CFree p) (delete p m)
  | spec_free_null m : spec_step m (CFree 0) m.

(** * The implementation *)
Section refinement.
Context (page_sz : Z) (mmap : gmap Z Z → Z → option Z) `{!MmapSpec page_sz mmap}.

(** A call by a client that keeps its side of the contract: requests that
    do not wrap [size_t], [free] of NULL or of a payload it owns. *)
Inductive impl_step : alloc_state → call → alloc_state → Prop :=
  | impl_malloc env st size st' p :
  0 ≤ size ≤ MAX_REQUEST → malloc page_sz mmap env st size = Ok (st', p) →
  impl_step st (CMalloc size p) st'
  | impl_calloc env st nmemb size st' p :
  0 ≤ nmemb → 0 ≤ size → nmemb * size ≤ MAX_REQUEST →
  calloc page_sz mmap env st nmemb size = Ok (st', p) →
  impl_step st (CCalloc nmemb size p) st'
  | impl_free st p st' :
  p = 0 ∨ is_Some (live st p) → free true st p = Ok st' →
  impl_step st (CFree p) st'.

Inductive runs {S L} (step : S → L → S → Prop) : S → list L → S → Prop :=
  | runs_nil s : runs step s [] s
  | runs_cons s l s' ls s'' : step s l s' → runs step s' ls s'' → runs step s (l :: ls) s''.

(** The abstraction: the live payloads. *)
Definition represents (st : alloc_state) (m : gmap Z Z) : Prop :=
  wf st ∧ ∀ p, live st p = m !! p.

Lemma served_separate st st' p n m :
  represents st m → wf st' → granted st st' p n → separate m p n.
Proof.
  intros [_ Hm] [rgs' [L' _]] G q k Hq.
  assert (q ≠ p) as Hne by (intros ->; rewrite <- Hm, (gr_fresh _ _ _ _ G) in Hq; done).
  rewrite <- Hm, <- (gr_frame _ _ _ _ G q Hne) in Hq.
  destruct (live_apart _ _ L' _ _ _ _ (gr_new _ _ _ _ G) Hq ltac:(done));
    unfold SIZEOF_BLOCK in *; [left|right]; lia.
Qed.

Lemma represents_insert st st' p n m :
  represents st m → wf st' → granted st st' p n → represents st' (<[p := n]> m).
Proof.
  intros [_ Hm] Hwf G. split; [done|]. intros q. destruct (decide (q = p)) as [->|Hne].
  - by rewrite lookup_insert_eq, (gr_new _ _ _ _ G).
  - by rewrite lookup_insert_ne, (gr_frame _ _ _ _ G), Hm by done.
Qed.

(** [calloc] is a [malloc] whose payload is then zeroed; on a NULL result
    it writes through NULL. *)
Lemma calloc_served env st nmemb size :
  wf st → 0 ≤ nmemb → 0 ≤ size → nmemb * size ≤ MAX_REQUEST →
  (calloc page_sz mmap env st nmemb size = Undef NullDeref ∧
    malloc page_sz mmap env st (nmemb * size) = Ok (st, 0)) ∨
  ∃ st1 st' p, malloc page_sz mmap env st (nmemb * size) = Ok (st1, p) ∧
  granted st st1 p (align8 (nmemb * size)) ∧
  calloc page_sz mmap env st nmemb size = Ok (st', p) ∧ wf st' ∧ same_heads st1 st' ∧
  (∀ a, bytes st' a = if decide (p ≤ a < p + nmemb * size) then 0 else bytes st1 a).
Proof.
  intros Hwf Hn Hs Hmax. assert (0 ≤ nmemb * size ≤ MAX_REQUEST) as Hr by nia.
  destruct (malloc_served page_sz mmap env st _ Hwf Hr) as (st1 & p & Hm & Hwf1 & Hsv).
  unfold calloc. rewrite wrap64_small by (unfold MAX_REQUEST in Hr; lia). rewrite Hm. simpl.
  destruct Hsv as [[-> ->]|[G _]].
  - left. done.
  - right. destruct Hwf1 as (rgs1 & L1 & B1).
    pose proof (align8_range _ Hr) as [? _].
    destruct (memset_ok _ _ L1 _ _ 0 (nmemb * size) (gr_new _ _ _ _ G)) as (st' & -> & Hh & Hb); [lia|].
    exists st1, st', p. split_and!; try done.
    exists rgs1. split; [by eapply same_heads_layout|done].
Qed.

Lemma free_served st p :
  wf st → is_Some (live st p) →
  ∃ st' st2, free true st p = Ok st' ∧ released st st' p ∧ free false st p = Ok st2 ∧ unreturned st st' st2.
Proof.
  intros (rgs & L & B) [n Hn]. destruct (live_cell _ _ L _ _ Hn) as (b & Hc & _).
  apply (free_live_block _ _ L B _ _ Hc p). lia.
Qed.

Lemma step_simulated st c st' m :
  represents st m → impl_step st c st' → ∃ m', spec_step m c m' ∧ represents st' m'.
Proof.
  intros R Hstep. pose proof R as [Hwf Hm]. destruct Hstep as
    [env st size st' p Hs Hrun|env st nmemb size st' p Hn Hs Hmax Hrun|st p st' Hp Hrun].
  - destruct (malloc_served page_sz mmap env st size Hwf Hs) as (st1 & p1 & Hrun' & Hwf' & Hsv).
    rewrite Hrun in Hrun'. injection Hrun' as <- <-. destruct Hsv as [[-> ->]|[G _]].
    + exists m. split; [constructor|done].
    + exists (<[p := align8 size]> m). split; [|by eapply represents_insert].
      constructor; [apply G|apply G|by eapply served_separate|by rewrite <- Hm, (gr_fresh _ _ _ _ G)].
  - destruct (calloc_served env st nmemb size Hwf Hn Hs Hmax) as
    [[Hu _]|(st1 & st2 & p1 & _ & G & Hrun' & Hwf' & Hh & _)]; [congruence|].
    rewrite Hrun in Hrun'. injection Hrun' as <- <-.
    assert (granted st st' p (align8 (nmemb * size))) as G'.
    { split; try apply G; [rewrite (same_heads_live _ _ _ Hh); apply G|].
      intros q Hq. rewrite (same_heads_live _ _ _ Hh). by apply G. }
    exists (<[p := align8 (nmemb * size)]> m). split; [|by eapply represents_insert].
    constructor; [apply G|apply G|by eapply served_separate|by rewrite <- Hm, (gr_fresh _ _ _ _ G)].
  - destruct (decide (p = 0)) as [->|Hp0].
    + unfold free in Hrun. rewrite decide_True in Hrun by done. injection Hrun as <-.
      exists m. split; [constructor|done].
    + destruct Hp as [|Hp]; [done|]. destruct (free_served st p Hwf Hp) as (st1 & _ & Hrun' & Rl & _).
      rewrite Hrun in Hrun'. injection Hrun' as <-.
      exists (delete p m). split; [constructor; by rewrite <- Hm|].
      split; [apply Rl|]. intros q. rewrite (rl_live _ _ _ Rl), lookup_delete, Hm.
      by repeat case_decide.
Qed.

Lemma init_represents bs : represents (init_state bs) ∅.
Proof.
  split; [|by intros p]. exists []. split; [|constructor].
  by split.
Qed.

Lemma runs_simulated st cs st' m :
  runs impl_step st cs st' → represents st m →
  ∃ m', runs spec_step m cs m' ∧ represents st' m'.
Proof.
  intros Hrun. revert m. induction Hrun as [|s c s1 cs s2 Hstep _ IH]; intros m R.
  - exists m. split; [constructor|done].
  - destruct (step_simulated _ _ _ _ R Hstep) as (m1 & ? & R1).
    destruct (IH _ R1) as (m2 & ? & R2). exists m2. split; [by econstructor|done].
Qed.

(** C1: every sequence of calls to [malloc], [calloc] and [free] by a client
    that keeps the contract is a sequence of the abstract allocator, whose
    state is the set of live payloads: each non-NULL result is 8-aligned,
    was not in use, has the requested length rounded to 8 and meets no live
    payload; [free] releases exactly its argument.  The live payloads of the
    final heap are those of the abstract state. *)
Theorem heap_refines_spec bs cs st :
  runs impl_step (init_state bs) cs st →
  ∃ m, runs spec_step ∅ cs m ∧ ∀ p, live st p = m !! p.
Proof.
  intros Hrun. destruct (runs_simulated _ _ _ _ Hrun (init_represents bs)) as (m & ? & _ & ?).
  eauto.
Qed.

Lemma runs_wf bs cs st : runs impl_step (init_state bs) cs st → wf st.
Proof.
  intros Hrun. by destruct (runs_simulated _ _ _ _ Hrun (init_represents bs)) as (m & _ & ? & _).
Qed.

Lemma idle_empty st rgs :
  layout st rgs → Forall busy rgs → (∀ p, live st p = None) → rgs = [].
Proof.
  intros L B Hnone. destruct rgs as [|[rs bl] rgs]; [done|exfalso].
  apply Forall_cons in B as [(b & Hb & Hu)%Exists_exists _]. simpl in Hb.
  apply list_elem_of_split in Hb as (bl1 & bl2 & ->).
  assert ((rs + total bl1, b) ∈ chain ((rs, bl1 ++ b :: bl2) :: rgs)) as Hc.
  { simpl. rewrite place_app. simpl. set_solver. }
  destruct (cell_blocks _ _ L _ _ Hc) as [n Hn].
  specialize (Hnone (rs + total bl1 + SIZEOF_BLOCK)). unfold live in Hnone.
  rewrite Z.add_simpl_r, Hn in Hnone. simpl in Hnone. by case_decide.
Qed.

(** C2: in every heap such a client can reach, the payloads it owns are
    8-aligned, pairwise disjoint with a header's room between them, and
    inside memory the allocator has mapped; and when it owns none, every
    mapping has been returned to the system and the block list is empty. *)
Theorem heap_safety bs cs st :
  runs impl_step (init_state bs) cs st →
  (∀ p n, live st p = Some n →
    p `mod` 8 = 0 ∧ ∃ s k, mapped st !! s = Some k ∧ s + SIZEOF_BLOCK ≤ p ∧ p + n ≤ s + k) ∧
  (∀ p n q m, live st p = Some n → live st q = Some m → p ≠ q →
    p + n + SIZEOF_BLOCK ≤ q ∨ q + m + SIZEOF_BLOCK ≤ p) ∧
  ((∀ p, live st p = None) → g_head st = 0 ∧ mapped st = ∅ ∧ blocks st = ∅).
Proof.
  intros Hrun. destruct (runs_wf _ _ _ Hrun) as (rgs & L & B). split_and!.
  - intros p n Hl. destruct (live_cell _ _ L _ _ Hl) as (b & Hc & Hu & Hu0).
    destruct (cell_facts _ _ L _ _ Hc) as (_ & H8 & _ & [[_ ?] _]).
    destruct (cell_mapped _ _ L _ _ Hc) as (s & k & ? & ? & ?).
    split; [|exists s, k; split_and!; [done|lia|lia]].
    replace p with (p - SIZEOF_BLOCK + SIZEOF_BLOCK) by lia. by apply mod8_add.
  - by apply (live_apart _ _ L).
  - intros Hnone. pose proof (idle_empty _ _ L B Hnone) as ->.
    by rewrite (l_head _ _ L), (l_mapped _ _ L), (l_blocks _ _ L).
Qed.
End refinement.

(** * The calls, one by one *)
Section calls.
Context (page_sz : Z) (mmap : gmap Z Z → Z → option Z) `{!MmapSpec page_sz mmap}.

(** C3: on a well-formed heap and for every policy, [malloc] of a size that
    does not wrap returns without an invalid access and keeps the heap well
    formed; it returns NULL and changes nothing, or a fresh 8-aligned
    payload of the size rounded up to 8, leaving every other payload and
    every byte outside the new one as it was, and filling the new one with
    0xAA exactly when ALLOCATOR_SCRIBBLE is set. *)
Theorem malloc_correct env st size :
  wf st → 0 ≤ size ≤ MAX_REQUEST →
  ∃ st' p, malloc page_sz mmap env st size = Ok (st', p) ∧ wf st' ∧
  ((p = 0 ∧ st' = st) ∨
    (granted st st' p (align8 size) ∧ scribbled env st st' p (align8 size))).
Proof. apply malloc_served, _. Qed.

(** C16: [calloc] returns a payload whose first [nmemb * size] bytes are 0,
    whatever the scribble setting, with every other payload as it was; when
    [malloc] returns NULL it writes through the NULL pointer. *)
Theorem calloc_correct env st nmemb size :
  wf st → 0 ≤ nmemb → 0 ≤ size → nmemb * size ≤ MAX_REQUEST →
  (malloc page_sz mmap env st (nmemb * size) = Ok (st, 0) ∧
    calloc page_sz mmap env st nmemb size = Undef NullDeref) ∨
  ∃ st' p, calloc page_sz mmap env st nmemb size = Ok (st', p) ∧ wf st' ∧
  granted st st' p (align8 (nmemb * size)) ∧
  (∀ a, p ≤ a < p + nmemb * size → bytes st' a = 0) ∧
  (∀ a, ¬ p ≤ a < p + align8 (nmemb * size) → bytes st' a = bytes st a).
Proof.
  intros Hwf Hn Hs Hmax. assert (0 ≤ nmemb * size ≤ MAX_REQUEST) as Hr by nia.
  destruct (calloc_served page_sz mmap env st nmemb size Hwf Hn Hs Hmax)
    as [[? ?]|(st1 & st' & p & Hm & G & Hc & Hwf' & Hh & Hb)]; [by left|right].
  destruct (malloc_served page_sz mmap env st _ Hwf Hr) as (st2 & p2 & Hm2 & _ & Hsv).
  rewrite Hm in Hm2. injection Hm2 as <- <-.
  pose proof (align8_range _ Hr) as [? _]. pose proof (gr_nonnull _ _ _ _ G).
  destruct Hsv as [[-> _]|[_ Hscr]]; [lia|].
  exists st', p. split_and!; [done|done| | |].
  - split; try apply G; [rewrite (same_heads_live _ _ _ Hh); apply G|].
    intros q Hq. rewrite (same_heads_live _ _ _ Hh). by apply G.
  - intros a Ha. by rewrite Hb, decide_True.
  - intros a Ha. rewrite Hb, decide_False by lia. rewrite Hscr, decide_False; [done|tauto].
Qed.

(** C17: [free] of a live payload returns without an invalid access (the
    search for the region's predecessor never runs off the list), keeps the
    heap well formed and every byte, and the payloads that remain live are
    exactly the others. When [munmap] fails the payloads and the list are
    those, but the mapping of a region that is now empty stays, although no
    block of the list is in it. *)
Theorem free_correct st p :
  wf st → is_Some (live st p) →
  ∃ st' st2, free true st p = Ok st' ∧ wf st' ∧
  (∀ q, live st' q = if decide (q = p) then None else live st q) ∧ bytes st' = bytes st ∧
  free false st p = Ok st2 ∧ g_head st2 = g_head st' ∧ mapped st2 = mapped st ∧
  (∀ q, live st2 q = live st' q) ∧ bytes st2 = bytes st.
Proof.
  intros Hwf Hl. destruct (free_served st p Hwf Hl) as (st' & st2 & ? & R & ? & U).
  exists st', st2. split_and!; [done|apply R|apply R|apply R|done|apply U|apply U|apply U|apply U].
Qed.

(** C18: two calls of [malloc] that are not serialised (the mutex of the
    source is never taken) may both be given the same free block by
    [reuse]; if it cannot hold both requests, the second call still places
    its payload behind the first one, past the end of the block, and the
    heap is no longer well formed. *)
Theorem unlocked_mallocs_overrun env st st1 st2 r b size1 size2 p1 p2 :
  wf st → 0 ≤ size1 ≤ MAX_REQUEST → 0 ≤ size2 ≤ MAX_REQUEST →
  blocks st !! r = Some b → usage b = 0 → r ≠ 0 →
  reuse env st size1 = Ok r → reuse env st size2 = Ok r →
  blk_size b < need size1 + need size2 → need size1 ≤ blk_size b →
  malloc_reuse env st r size1 = Ok (st1, p1) →
  malloc_reuse env st1 r size2 = Ok (st2, p2) →
  p2 = p1 + need size1 ∧ p2 + size2 > r + blk_size b ∧ ¬ wf st2.
Proof.
  intros (rgs & L & _) Hs1 Hs2 Hb Hu Hr0 _ _ Hsum Hfit H1 H2.
  pose proof (need_eq size1 ltac:(lia)) as Hn1. pose proof (need_eq size2 ltac:(lia)) as Hn2.
  destruct (blocks_cell _ _ L _ _ Hb) as (b0 & n & Hc & ->).
  destruct (cell_facts _ _ L _ _ Hc) as (? & _ & Hbd & _). simpl in *.
  unfold malloc_reuse in H1. rewrite (deref_ok _ _ _ Hb Hr0) in H1. simpl in H1.
  rewrite decide_True in H1 by done. inv_ok.
  assert (blocks st1 = <[r := MkBlock (g_allocations st) (blk_size b0) (need size1)
    (region_start b0) (region_size b0) n]> (blocks st)) as Hb1.
  { match goal with H : scribble _ _ _ _ = Ok st1 |- _ => revert H end.
    unfold scribble, memset. repeat (case_decide || case_match); by intros [= <-]. }
  unfold SIZEOF_BLOCK in *. unfold malloc_reuse in H2.
  erewrite deref_ok in H2; [|rewrite Hb1; apply lookup_insert_eq|done]. simpl in H2.
  rewrite decide_False in H2 by lia.
  rewrite wrap64_small in H2 by lia.
  unfold store_new in H2. case_decide; [|done]. simpl in H2. inv_ok.
  unfold SIZEOF_BLOCK. split_and!; [lia|lia|].
  intros (rgs2 & L2 & _).
  assert (∃ b2, blocks st2 !! (r + need size1) = Some b2 ∧ blk_size b2 = blk_size b0 - need size1 ∧
    usage b2 = need size2) as (b2 & Hb2 & Hz2 & Hu2).
  { match goal with H : scribble _ _ _ _ = Ok st2 |- _ => revert H end.
    unfold scribble, memset. simpl.
    repeat (case_decide || case_match); try done; intros [= <-]; simpl;
      (eexists; split; [rewrite lookup_insert_ne by lia; apply lookup_insert_eq|done]). }
  destruct (blocks_cell _ _ L2 _ _ Hb2) as (b3 & n3 & Hc3 & ->).
  destruct (cell_facts _ _ L2 _ _ Hc3) as (_ & _ & _ & [[_ ?] _]).
  unfold SIZEOF_BLOCK in *. simpl in *. lia.
Qed.

(** C38: a request close to the largest [size_t] wraps the computation of the
    space it needs: the first [malloc] of 2^64 - 40 bytes succeeds, returns
    a non-NULL pointer, and records a block whose used space is smaller than
    its header; the heap is not well formed afterwards. *)
Theorem malloc_wraps bs a :
  mmap ∅ page_sz = Some a →
  let size := 18446744073709551576 in
  ∃ st', malloc page_sz mmap (MkEnv None false) (init_state bs) size = Ok (st', a + SIZEOF_BLOCK) ∧
  live st' (a + SIZEOF_BLOCK) = Some (-40) ∧ ¬ wf st'.
Proof.
  intros Hm size. pose proof page_range as Hp. unfold INT_MAX in Hp.
  destruct (mmap_fresh _ _ _ Hm) as (_ & Ha & _ & Hub & _).
  assert (region_sz_of page_sz 8 = page_sz) as Hrs.
  { unfold region_sz_of. rewrite Z.div_small, Z.mod_small, decide_True by lia.
    rewrite wrap64_small; lia. }
  unfold malloc. replace (align8 size) with size by done.
  replace (reuse (MkEnv None false) (init_state bs) size) with (Ok 0 : outcome Z) by done.
  simpl. unfold malloc_map. replace (need size) with 8 by done. simpl. rewrite Hrs, Hm.
  unfold store_new, SIZEOF_BLOCK. rewrite decide_True; last first.
  { split; [apply (in_mapping_intro _ a page_sz); [apply lookup_insert_eq|lia|lia]|].
    by apply Forall_nil. }
  simpl. eexists. split; [done|]. split.
  - unfold live, SIZEOF_BLOCK. simpl. by rewrite Z.add_simpl_r, lookup_insert_eq.
  - intros (rgs & L & _).
    destruct (blocks_cell _ _ L a _ (lookup_insert_eq _ _ _)) as (b & n & Hc & Hb).
    destruct (cell_facts _ _ L _ _ Hc) as (_ & _ & _ & [[_ Hu] _]).
    apply (f_equal usage) in Hb. simpl in Hb. unfold SIZEOF_BLOCK in Hu. lia.
Qed.
End calls.

(** * The theorems at the concrete heap *)
Definition demo_calls : list call :=
  [CMalloc 1000 4144; CMalloc 2000 5192; CMalloc 5000 8240; CMalloc 10 7240; CFree 4144].

Lemma demo_runs : runs (impl_step 4096 bump_mmap) (init_state (λ _, 0)) demo_calls demo.
Proof.
  eapply runs_cons; [eapply impl_malloc; [|exact demo1_ok]; by vm_compute|].
  eapply runs_cons; [eapply impl_malloc; [|exact demo2_ok]; by vm_compute|].
  eapply runs_cons; [eapply impl_malloc; [|exact demo3_ok]; by vm_compute|].
  eapply runs_cons; [eapply impl_malloc; [|exact demo4_ok]; by vm_compute|].
  eapply runs_cons; [eapply impl_free; [right|exact demo_ok]; vm_compute; by eexists|].
  constructor.
Qed.

Lemma heap_refines_spec_witness :
  ∃ m, runs spec_step ∅ demo_calls m ∧ ∀ p, live demo p = m !! p.
Proof. apply (heap_refines_spec 4096 bump_mmap (λ _, 0) demo_calls demo), demo_runs. Defined.

Lemma heap_safety_witness :
  live demo 5192 = Some 2000 ∧ live demo 8240 = Some 5000 ∧
  (5192 + 2000 + SIZEOF_BLOCK ≤ 8240 ∨ 8240 + 5000 + SIZEOF_BLOCK ≤ 5192).
Proof.
  destruct (heap_safety 4096 bump_mmap (λ _, 0) demo_calls demo demo_runs) as (_ & Hd & _).
  split; [by vm_compute|]. split; [by vm_compute|]. by apply Hd; vm_compute.
Defined.

Lemma malloc_correct_witness :
  ∃ st' p, malloc 4096 bump_mmap plain_env demo 100 = Ok (st', p) ∧ wf st' ∧
    ((p = 0 ∧ st' = demo) ∨
     (granted demo st' p (align8 100) ∧ scribbled plain_env demo st' p (align8 100))).
Proof. apply (malloc_correct 4096 bump_mmap plain_env demo 100); [apply demo_wf|by vm_compute]. Defined.

Lemma calloc_correct_witness :
  (malloc 4096 bump_mmap plain_env demo (10 * 20) = Ok (demo, 0) ∧
   calloc 4096 bump_mmap plain_env demo 10 20 = Undef NullDeref) ∨
  ∃ st' p, calloc 4096 bump_mmap plain_env demo 10 20 = Ok (st', p) ∧ wf st' ∧
    granted demo st' p (align8 (10 * 20)) ∧
    (∀ a, p ≤ a < p + 10 * 20 → bytes st' a = 0) ∧
    (∀ a, ¬ p ≤ a < p + align8 (10 * 20) → bytes st' a = bytes demo a).
Proof.
  apply (calloc_correct 4096 bump_mmap plain_env demo 10 20); [apply demo_wf|by vm_compute..].
Defined.

Lemma free_correct_witness :
  is_Some (live demo 7240) ∧
  ∃ st' st2, free true demo 7240 = Ok st' ∧ wf st' ∧
    (∀ q, live st' q = if decide (q = 7240) then None else live demo q) ∧ bytes st' = bytes demo ∧
    free false demo 7240 = Ok st2 ∧ g_head st2 = g_head st' ∧ mapped st2 = mapped demo ∧
    (∀ q, live st2 q = live st' q) ∧ bytes st2 = bytes demo.
Proof.
  assert (is_Some (live demo 7240)) as Hl by (vm_compute; by eexists).
  split; [done|]. apply (free_correct demo 7240); [apply demo_wf|done].
Defined.

Definition race1 : alloc_state := (get (demo, 0) (malloc_reuse plain_env demo 4096 600)).1.
Definition race2 : alloc_state := (get (demo, 0) (malloc_reuse plain_env race1 4096 600)).1.
Lemma race1_ok : malloc_reuse plain_env demo 4096 600 = Ok (race1, 4144).
Proof. unfold race1. apply returns_get. by vm_compute. Qed.
Lemma race2_ok : malloc_reuse plain_env race1 4096 600 = Ok (race2, 4792).
Proof. unfold race2. apply returns_get. by vm_compute. Qed.

Lemma race_arith :
  0 ≤ 600 ≤ MAX_REQUEST ∧ 1048 < need 600 + need 600 ∧ need 600 ≤ 1048 ∧ 4096 ≠ 0.
Proof. by vm_compute. Qed.
Lemma race_block : blocks demo !! 4096 = Some (MkBlock 0 1048 0 4096 4096 5144).
Proof. by vm_compute. Qed.

Lemma unlocked_mallocs_overrun_witness :
  reuse plain_env demo 600 = Ok 4096 ∧
  4792 = 4144 + need 600 ∧ 4792 + 600 > 4096 + 1048 ∧ ¬ wf race2.
Proof.
  assert (reuse plain_env demo 600 = Ok 4096) as Hr by by vm_compute.
  split; [exact Hr|]. destruct race_arith as (Hs & Hn & Hf & H0).
  exact (unlocked_mallocs_overrun plain_env demo race1 race2 4096
           (MkBlock 0 1048 0 4096 4096 5144) 600 600 4144 4792
           demo_wf Hs Hs race_block eq_refl H0 Hr Hr Hn Hf race1_ok race2_ok).
Defined.

Lemma malloc_wraps_witness :
  let size := 18446744073709551576 in
  ∃ st', malloc 4096 bump_mmap (MkEnv None false) (init_state (λ _, 0)) size =
           Ok (st', 4096 + SIZEOF_BLOCK) ∧
         live st' (4096 + SIZEOF_BLOCK) = Some (-40) ∧ ¬ wf st'.
Proof. apply (malloc_wraps 4096 bump_mmap (λ _, 0) 4096). by vm_compute. Defined.
