(* ===== verification/AllocProgs.v ===== *)
(** The test programs of the allocator (Project3/tests/progs) as its clients:
    what they do with the memory they are given, proved from what malloc and
    free promise, and evaluated against the outputs their scripts expect. *)
From Stdlib Require Import ZArith Lia Ascii.
From stdpp Require Import prelude gmap strings numbers list.
From S2P Require Import Prelude CString Allocator AllocLayout AllocFit AllocSafe AllocFree AllocDemo AllocSpec.
Open Scope Z_scope.
Import CInt.

(** * Memory accesses of a client *)

(** The little-endian value of the [n] bytes at [p]. *)
Fixpoint le_value (f : Z → Z) (p : Z) (n : nat) : Z :=
  match n with O => 0 | S n' => f p + 256 * le_value f (p + 1) n' end.
Definition access {A} (st : alloc_state) (p n : Z) (k : outcome A) : outcome A :=
  if decide (p = 0) then Undef NullDeref
  else if decide (in_mapping (mapped st) p n ∧ clear_of_headers (blocks st) p n) then k
  else Undef OutOfBounds.
Definition load_at (st : alloc_state) (p : Z) (n : nat) : outcome Z :=
  access st p (Z.of_nat n) (Ok (le_value (bytes st) p n)).
Definition store_at (st : alloc_state) (p : Z) (n : nat) (v : Z) : outcome alloc_state :=
  access st p (Z.of_nat n)
    (Ok (MkAlloc (g_head st) (g_allocations st) (blocks st) (mapped st)
           (λ a, if decide (p ≤ a < p + Z.of_nat n) then (v / 256 ^ (a - p)) `mod` 256 else bytes st a))).

(** [for (l = i; l < i + k; ++l) total += a[l]], with elements of [n] bytes
    converted to [unsigned long] by [conv]. *)
Fixpoint sum_array (st : alloc_state) (conv : Z → Z) (n : nat) (a i : Z) (k : nat) (total : Z) : outcome Z :=
  match k with
  | O => Ok total
  | S k' =>
      v ← load_at st (a + Z.of_nat n * i) n;
      sum_array st conv n a (i + 1) k' (wrap64 (total + conv v))
  end.

Section programs.
Context (page_sz : Z) (mmap : gmap Z Z → Z → option Z) (env : alloc_env).
#[local] Abbreviation malloc := (Allocator.malloc page_sz mmap).

(** * allocations-1, -2 and -3, print-test and write-test *)
Definition allocations_1 (st : alloc_state) : outcome (list mem_line) :=
  '(st, a) ← malloc env st 100;
  '(st, b) ← malloc env st 100;
  '(st, c) ← malloc env st 100;
  '(st, d) ← malloc env st 10;
  '(st, e) ← malloc env st 100;
  '(st, f) ← malloc env st 100;
  st ← free true st b;
  st ← free true st d;
  '(st, g) ← malloc env st 10;
  memory_lines st.

Definition allocations_2 (st : alloc_state) : outcome alloc_state :=
  '(st, a) ← malloc env st 500;
  '(st, b) ← malloc env st 1000;
  '(st, c) ← malloc env st 250;
  '(st, d) ← malloc env st 250;
  '(st, e) ← malloc env st 500;
  st ← free true st b;
  st ← free true st d;
  '(st, f) ← malloc env st 600;
  '(st, g) ← malloc env st 150;
  '(st, h) ← malloc env st 50;
  Ok st.
Definition allocations_3 (st : alloc_state) : outcome (list mem_line) :=
  st ← allocations_2 st; memory_lines st.

Definition print_test (st : alloc_state) : outcome (list mem_line) :=
  '(st, a) ← malloc env st 4000;
  '(st, b) ← malloc env st 4000;
  '(st, c) ← malloc env st 4000;
  memory_lines st.

(** [vmsize]: the pages of the process, of which [rest] are not the
    allocator's. *)
Definition vmsize (rest : Z) (st : alloc_state) : Z :=
  rest + map_fold (λ _ n acc, n + acc) 0 (mapped st) / page_sz.
(** The exit code of allocations-2. *)
Definition pages_grew (rest : Z) (st : alloc_state) : outcome bool :=
  st' ← allocations_2 st;
  Ok (bool_decide (wrap64 (vmsize rest st' - vmsize rest st) > 1)).

(** * free *)
Definition ALLOC_SZ : Z := 5000000.
Inductive free_result := Passed | NoMemory | Leaked.

(** One round: the allocations, each cleared, for the values of [rand]. *)
Fixpoint alloc_round (st : alloc_state) (rands : list Z) : outcome (alloc_state * option (list Z)) :=
  match rands with
  | [] => Ok (st, Some [])
  | r :: rands' =>
      let alloc_sz := r `rem` ALLOC_SZ in
      '(st1, a) ← malloc env st (wrap64 (alloc_sz * 4));
      if decide (a = 0) then Ok (st1, None)
      else
      st2 ← memset st1 a 0 (wrap64 (alloc_sz * 4));
      '(st3, allocs) ← alloc_round st2 rands';
      Ok (st3, option_map (cons a) allocs)
  end.
Fixpoint free_round (st : alloc_state) (allocs : list Z) : outcome alloc_state :=
  match allocs with [] => Ok st | a :: allocs' => st1 ← free true st a; free_round st1 allocs' end.
(** The rounds: [vm_start] is 0 before the first. *)
Fixpoint free_rounds (rest vm_limit vm_start : Z) (st : alloc_state) (rounds : list (list Z))
  : outcome (alloc_state * free_result) :=
  match rounds with
  | [] => Ok (st, Passed)
  | rands :: rounds' =>
      '(st1, allocs) ← alloc_round st rands;
      match allocs with
      | None => Ok (st1, NoMemory)
      | Some allocs =>
          st2 ← free_round st1 allocs;
          let vm := vmsize rest st2 in
          let vm_start := if decide (vm_start = 0) then vm else vm_start in
          if decide (wrap64 (vm - vm_start) > vm_limit) then Ok (st2, Leaked)
          else free_rounds rest vm_limit vm_start st2 rounds'
      end
  end.
Definition free_main (rest : Z) (st : alloc_state) (rounds : list (list Z)) : outcome (alloc_state * free_result) :=
  free_rounds rest (ALLOC_SZ / page_sz * 2) 0 st rounds.

(** * thread-safety: the body of one thread *)
Definition MAX_ALLOC : Z := 2050.
Fixpoint fill (st : alloc_state) (mem arg i : Z) (k : nat) : outcome alloc_state :=
  match k with O => Ok st | S k' => st' ← store_at st (mem + 4 * i) 4 arg; fill st' mem arg (i + 1) k' end.
(** Whether the mismatch is reported. *)
Definition thread_proc (st : alloc_state) (rand arg : Z) : outcome (alloc_state * bool) :=
  let r := rand `rem` MAX_ALLOC in
  '(st1, mem) ← malloc env st (wrap64 (4 * r));
  st2 ← fill st1 mem arg 0 (Z.to_nat r);
  total ← sum_array st2 to_int 4 mem 0 (Z.to_nat r) 0;
  st3 ← free true st2 mem;
  Ok (st3, bool_decide (total ≠ wrap64 (arg * r))).
End programs.

(** * scribble *)
Section scribble_test.
Context (page_sz : Z) (mmap : gmap Z Z → Z → option Z).

(** What it prints up to the call of realloc, and the state and the array. *)
Definition scribble_start (algo : option cstr) (st : alloc_state) : outcome (list Z * alloc_state * Z) :=
  let env := MkEnv algo true in
  '(st, x) ← malloc page_sz mmap env st 4;
  vx ← load_at st x 4;
  st ← store_at st x 4 42;
  st ← free true st x;
  '(st, y) ← malloc page_sz mmap env st 4;
  vy ← load_at st y 4;
  '(st, i) ← malloc page_sz mmap env st 4;
  '(st, ul) ← malloc page_sz mmap env st 8;
  '(st, arr) ← malloc page_sz mmap env st 5000;
  vi ← load_at st i 4;
  vul ← load_at st ul 8;
  total ← sum_array st id 1 arr 0 (Z.to_nat 5000) 0;
  Ok ([to_int vx; to_int vy; to_int vi; vul; vi; vul; total], st, arr).
(** From there to the end. *)
Definition scribble_rest (algo : option cstr) (st : alloc_state) (arr : Z) : outcome (list Z) :=
  let env := MkEnv algo true in
  '(st, arr) ← realloc page_sz mmap env true st arr 10000;
  total ← sum_array st id 1 arr 0 (Z.to_nat 10000) 0;
  '(st, cleared) ← calloc page_sz mmap env st 4 450;
  total' ← sum_array st to_int 4 cleared 0 (Z.to_nat 450) 0;
  Ok [total; total'].
Definition scribble_main (algo : option cstr) (st : alloc_state) : outcome (list Z) :=
  '(out, st, arr) ← scribble_start algo st;
  out' ← scribble_rest algo st arr;
  Ok (out ++ out').
End scribble_test.

(** * Accesses within a live payload *)
Lemma same_heads_wf st st' : same_heads st st' → wf st → wf st'.
Proof. intros H (rgs & L & B). exists rgs. split; [by eapply same_heads_layout|done]. Qed.
Lemma same_heads_trans st1 st2 st3 : same_heads st1 st2 → same_heads st2 st3 → same_heads st1 st3.
Proof. intros [] []. split; congruence. Qed.

Section live_access.
Context (st : alloc_state) (p m : Z) (W : wf st) (Hl : live st p = Some m).

Lemma access_live {A} a n (k : outcome A) : p ≤ a → 0 < n → a + n ≤ p + m → access st a n k = k.
Proof.
  intros Ha Hn Hm. destruct W as (rgs & L & B). destruct (live_cell _ _ L _ _ Hl) as (b & Hc & Hu & Hu0).
  destruct (cell_facts _ _ L _ _ Hc) as (? & _ & _ & [[? ?] _]). unfold access, SIZEOF_BLOCK in *.
  rewrite decide_False by lia. rewrite decide_True; [done|].
  destruct (cell_mapped _ _ L _ _ Hc) as (s & k' & Hs & ? & ?). split.
  - apply (in_mapping_intro _ s k'); [done|lia|lia].
  - apply (inside_clear _ _ L (p - 48) b); unfold SIZEOF_BLOCK; [done|lia|lia].
Qed.

Lemma load_live a n : p ≤ a → (0 < n)%nat → a + Z.of_nat n ≤ p + m → load_at st a n = Ok (le_value (bytes st) a n).
Proof. intros. apply access_live; lia. Qed.

Lemma store_live a n v :
  p ≤ a → (0 < n)%nat → a + Z.of_nat n ≤ p + m →
  ∃ st', store_at st a n v = Ok st' ∧ same_heads st st' ∧
  ∀ x, bytes st' x = if decide (a ≤ x < a + Z.of_nat n) then (v / 256 ^ (x - a)) `mod` 256 else bytes st x.
Proof. intros. unfold store_at. rewrite access_live by lia. eexists. split_and!; [done|by split|done]. Qed.
End live_access.

Lemma le_value_ext f g p n : (∀ a, p ≤ a < p + Z.of_nat n → f a = g a) → le_value f p n = le_value g p n.
Proof.
  revert p. induction n as [|n IH]; intros p H; [done|]. simpl. rewrite (H p) by lia.
  by rewrite (IH (p + 1)) by (intros; apply H; lia).
Qed.

(** The bytes of [v] read back. *)
Lemma le_value_bytes v p n : le_value (λ a, (v / 256 ^ (a - p)) `mod` 256) p n = v `mod` 256 ^ Z.of_nat n.
Proof.
  revert v p. induction n as [|n IH]; intros v p; [by rewrite Z.mod_1_r|].
  change (le_value _ p (S n)) with ((v / 256 ^ (p - p)) `mod` 256 + 256 * le_value (λ a, (v / 256 ^ (a - p)) `mod` 256) (p + 1) n).
  rewrite (le_value_ext _ (λ a, (v / 256 / 256 ^ (a - (p + 1))) `mod` 256)), IH.
  - rewrite Z.sub_diag, Z.div_1_r, Nat2Z.inj_succ, Z.pow_succ_r by lia.
    rewrite Z.rem_mul_r by lia. lia.
  - intros a Ha. rewrite Z.div_div by lia. f_equal. f_equal. rewrite <- Z.pow_succ_r by lia. f_equal. lia.
Qed.

Lemma to_int_mod v : to_int (v `mod` 256 ^ Z.of_nat 4) = to_int v.
Proof. unfold to_int, wrap32. change (256 ^ Z.of_nat 4) with 4294967296. by rewrite Z.mod_mod. Qed.

(** An array of live memory whose elements all have the value [v]. *)
Lemma sum_array_const st p m conv n v a : ∀ k i total,
  wf st → live st p = Some m → (0 < n)%nat → p ≤ a + Z.of_nat n * i →
  a + Z.of_nat n * (i + Z.of_nat k) ≤ p + m →
  (∀ j, i ≤ j < i + Z.of_nat k → conv (le_value (bytes st) (a + Z.of_nat n * j) n) = v) →
  wrap64 total = total →
  sum_array st conv n a i k total = Ok (wrap64 (total + v * Z.of_nat k)).
Proof.
  induction k as [|k IH]; intros i total W Hl Hn Ha Hm Hv Ht; cbn [sum_array].
  - by rewrite Z.mul_0_r, Z.add_0_r, Ht.
  - rewrite (load_live st p m W Hl) by lia. cbn [mbind outcome_bind]. rewrite Hv by lia.
    rewrite IH; [|done|done|done|lia|lia|intros; apply Hv; lia|unfold wrap64; by rewrite Z.mod_mod].
    unfold wrap64. rewrite Z.add_mod_idemp_l by done. do 2 f_equal. lia.
Qed.

(** * The theorems *)
Section correct.
Context (page_sz : Z) (mmap : gmap Z Z → Z → option Z) `{!MmapSpec page_sz mmap}.

Lemma fill_live p m arg : ∀ k i st,
  wf st → live st p = Some m → 0 ≤ i → 4 * (i + Z.of_nat k) ≤ m →
  ∃ st', fill st p arg i k = Ok st' ∧ same_heads st st' ∧
  (∀ j d, i ≤ j < i + Z.of_nat k → 0 ≤ d < 4 → bytes st' (p + 4 * j + d) = (arg / 256 ^ d) `mod` 256) ∧
  (∀ x, ¬ (p + 4 * i ≤ x < p + 4 * (i + Z.of_nat k)) → bytes st' x = bytes st x).
Proof.
  induction k as [|k IH]; intros i st W Hl Hi Hm; cbn [fill].
  - exists st. split_and!; [done|by split|lia|done].
  - destruct (store_live st p m W Hl (p + 4 * i) 4 arg) as (st1 & -> & Hh & Hb); [lia..|].
    cbn [mbind outcome_bind].
    destruct (IH (i + 1) st1) as (st2 & -> & Hh2 & Hin & Hout);
      [by eapply same_heads_wf|by rewrite (same_heads_live _ _ _ Hh)|lia|lia|].
    exists st2. split_and!; [done|by eapply same_heads_trans| |].
    + intros j d Hj Hd. destruct (decide (j = i)) as [->|]; [|apply Hin; lia].
      rewrite Hout, Hb, decide_True by lia. do 2 f_equal. f_equal. lia.
    + intros x Hx. rewrite Hout, Hb by lia. by rewrite decide_False by lia.
Qed.

(** Two payloads do not share a byte. *)
Lemma live_separate st p n q m x :
  wf st → live st p = Some n → live st q = Some m → p ≠ q → p ≤ x < p + n → ¬ q ≤ x < q + m.
Proof.
  intros (rgs & L & B) Hp Hq Hne Hx. unfold SIZEOF_BLOCK in *.
  pose proof (live_apart _ _ L _ _ _ _ Hp Hq Hne). unfold SIZEOF_BLOCK in *. lia.
Qed.

(** C20: a thread of the thread-safety test, run without interference on any
    well-formed heap: it reports no mismatch, leaves every other payload and
    its bytes as they were and has returned its own; but when [malloc] returns
    NULL it writes through it, unless it asked for no elements. *)
Theorem thread_proc_correct env st rand arg :
  wf st → 0 ≤ rand → 0 ≤ arg ≤ INT_MAX →
  let r := rand `rem` MAX_ALLOC in
  (malloc page_sz mmap env st (4 * r) = Ok (st, 0) ∧
    thread_proc page_sz mmap env st rand arg = if decide (r = 0) then Ok (st, false) else Undef NullDeref) ∨
  ∃ st', thread_proc page_sz mmap env st rand arg = Ok (st', false) ∧ wf st' ∧
  (∀ q, live st' q = live st q) ∧
  (∀ q n x, live st q = Some n → q ≤ x < q + n → bytes st' x = bytes st x).
Proof.
  intros W Hr Ha r. assert (0 ≤ r < 2050) as Hr' by (apply Z.rem_bound_pos; unfold MAX_ALLOC; lia).
  destruct (malloc_served page_sz mmap env st (4 * r) W) as (st1 & p & Hm & W1 & Hs); [unfold MAX_REQUEST; lia|].
  unfold thread_proc. fold r. rewrite (wrap64_small (4 * r)) by lia. rewrite Hm. cbn [mbind outcome_bind].
  destruct Hs as [[-> ->]|[G Hscr]].
  { left. split; [done|]. case_decide as H0; [by rewrite H0; simpl; rewrite Z.mul_0_r|].
    destruct (Z.to_nat r) eqn:E; [lia|done]. }
  right. pose proof (gr_new _ _ _ _ G) as Hl. destruct (align8_range (4 * r)) as [? _]; [unfold MAX_REQUEST; lia|].
  destruct (fill_live p _ arg (Z.to_nat r) 0 st1 W1 Hl) as (st2 & -> & Hh & Hin & Hout); [lia..|].
  cbn [mbind outcome_bind]. pose proof (same_heads_wf _ _ Hh W1) as W2.
  assert (live st2 p = Some (align8 (4 * r))) as Hl2 by by rewrite (same_heads_live _ _ _ Hh).
  rewrite (sum_array_const st2 p _ _ _ arg _ _ 0 0 W2 Hl2); [|lia..| |done]; last first.
  { intros j Hj. rewrite (le_value_ext _ (λ a, (arg / 256 ^ (a - (p + 4 * j))) `mod` 256)).
    - rewrite le_value_bytes, to_int_mod. apply to_int_small. done.
    - intros a Hx. rewrite <- (Hin j (a - (p + 4 * j))) by lia. f_equal. lia. }
  cbn [mbind outcome_bind]. destruct (free_served st2 p W2) as (st3 & _ & -> & R & _); [by rewrite Hl2|].
  cbn [mbind outcome_bind]. exists st3. rewrite Z.add_0_l, Z2Nat.id by lia.
  rewrite bool_decide_false by (intros []; done). split_and!; [done|apply R| |].
  - intros q. rewrite (rl_live _ _ _ R). case_decide as Hq; [by rewrite Hq, (gr_fresh _ _ _ _ G)|].
    rewrite (same_heads_live _ _ _ Hh). by apply G.
  - intros q n x Hq Hx. assert (q ≠ p) as Hne by (intros ->; by rewrite (gr_fresh _ _ _ _ G) in Hq).
    rewrite (rl_bytes _ _ _ R). rewrite <- (gr_frame _ _ _ _ G q Hne) in Hq.
    pose proof (live_separate _ _ _ _ _ _ W1 Hq Hl Hne Hx).
    rewrite Hout by lia. rewrite Hscr, decide_False; [done|tauto].
Qed.

(** A round of the free test owns its allocations, and returns them. *)
Lemma alloc_round_owns env rands : ∀ st,
  wf st → Forall (λ r, 0 ≤ r) rands →
  ∃ st' res, alloc_round page_sz mmap env st rands = Ok (st', res) ∧ wf st' ∧
  ∀ allocs, res = Some allocs →
  NoDup allocs ∧ (∀ a, a ∈ allocs → live st a = None) ∧
  (∀ q, is_Some (live st' q) ↔ q ∈ allocs ∨ is_Some (live st q)).
Proof.
  induction rands as [|r rands IH]; intros st W Hr; cbn [alloc_round].
  { exists st, (Some []). split_and!; [done|done|]. intros ? [= <-].
    split_and!; [constructor|by intros ? ?%not_elem_of_nil|]. intros q. set_solver. }
  apply Forall_cons in Hr as [Hr Hrs].
  assert (0 ≤ r `rem` ALLOC_SZ < 5000000) by (apply Z.rem_bound_pos; unfold ALLOC_SZ; lia).
  set (size := r `rem` ALLOC_SZ) in *. rewrite wrap64_small by lia.
  destruct (malloc_served page_sz mmap env st (size * 4) W) as (st1 & p & -> & W1 & Hs); [unfold MAX_REQUEST; lia|].
  cbn [mbind outcome_bind]. destruct Hs as [[-> ->]|[G _]]; [by exists st, None|].
  rewrite decide_False by (pose proof (gr_nonnull _ _ _ _ G); lia).
  destruct (align8_range (size * 4)) as [? _]; [unfold MAX_REQUEST; lia|].
  destruct W1 as (rgs & L & B).
  destruct (memset_ok _ _ L p _ 0 (size * 4) (gr_new _ _ _ _ G)) as (st2 & -> & Hh & _); [lia|].
  cbn [mbind outcome_bind].
  destruct (IH st2) as (st3 & res & -> & W3 & Hres); [apply (same_heads_wf _ _ Hh); by exists rgs|done|].
  cbn [mbind outcome_bind]. exists st3, (option_map (cons p) res). split_and!; [done|done|].
  intros allocs Ha. destruct res as [as'|]; [|done]. injection Ha as <-.
  destruct (Hres as' eq_refl) as (Hnd & Hnew & Hlive).
  assert (∀ q, is_Some (live st2 q) ↔ q = p ∨ is_Some (live st q)) as Hq.
  { intros q. rewrite (same_heads_live _ _ _ Hh). destruct (decide (q = p)) as [->|Hne].
    - rewrite (gr_new _ _ _ _ G). naive_solver.
    - rewrite (gr_frame _ _ _ _ G q Hne). naive_solver. }
  split_and!.
  - constructor; [|done]. intros Hp%Hnew. destruct (proj2 (Hq p)) as [? Hs]; [by left|congruence].
  - intros a [->|Ha]%elem_of_cons; [apply G|]. apply eq_None_not_Some. intros Hs.
    specialize (Hnew a Ha). destruct (proj2 (Hq a)) as [? ?]; [by right|congruence].
  - intros q. rewrite Hlive, Hq, elem_of_cons. tauto.
Qed.

Lemma free_round_returns allocs : ∀ st,
  wf st → NoDup allocs → (∀ a, a ∈ allocs → is_Some (live st a)) →
  ∃ st', free_round st allocs = Ok st' ∧ wf st' ∧
  ∀ q, live st' q = if decide (q ∈ allocs) then None else live st q.
Proof.
  induction allocs as [|a allocs IH]; intros st W Hnd Hl; cbn [free_round]; [by exists st|].
  apply NoDup_cons in Hnd as [Hna Hnd].
  destruct (free_served st a W) as (st1 & _ & -> & R & _); [apply Hl; set_solver|]. cbn [mbind outcome_bind].
  destruct (IH st1) as (st2 & -> & W2 & Hq); [apply R|done| |].
  - intros b Hb. rewrite (rl_live _ _ _ R), decide_False by congruence. apply Hl. set_solver.
  - exists st2. split_and!; [done|done|]. intros q. rewrite Hq, (rl_live _ _ _ R).
    repeat case_decide; set_solver.
Qed.

Lemma idle_wf st :
  wf st → (∀ p, live st p = None) → g_head st = 0 ∧ mapped st = ∅ ∧ blocks st = ∅.
Proof.
  intros (rgs & L & B) Hnone. assert (rgs = []) as -> by (by eapply idle_empty).
  by rewrite (l_head _ _ L), (l_mapped _ _ L), (l_blocks _ _ L).
Qed.

Lemma free_rounds_pass env rest limit rounds : ∀ vm_start st,
  wf st → (∀ p, live st p = None) → Forall (Forall (λ r, 0 ≤ r)) rounds →
  0 ≤ limit → vm_start = 0 ∨ vm_start = rest →
  ∃ st' res, free_rounds page_sz mmap env rest limit vm_start st rounds = Ok (st', res) ∧
  (res = NoMemory ∨ res = Passed ∧ wf st' ∧ ∀ p, live st' p = None).
Proof.
  induction rounds as [|rands rounds IH]; intros vm st W Hnone Hr Hlim Hvm; cbn [free_rounds].
  { exists st, Passed. split; [done|]. by right. }
  apply Forall_cons in Hr as [Hr Hrs].
  destruct (alloc_round_owns env rands st W Hr) as (st1 & res & -> & W1 & Hres). cbn [mbind outcome_bind].
  destruct res as [allocs|]; [|by exists st1, NoMemory; split; [|left]].
  destruct (Hres allocs eq_refl) as (Hnd & _ & Hlive).
  destruct (free_round_returns allocs st1 W1 Hnd) as (st2 & -> & W2 & Hq); [intros a Ha; apply Hlive; by left|].
  cbn [mbind outcome_bind].
  assert (∀ p, live st2 p = None) as Hnone2.
  { intros p. rewrite Hq. case_decide; [done|]. apply eq_None_not_Some. rewrite Hlive, Hnone.
    intros [?|[]]; done. }
  destruct (idle_wf st2 W2 Hnone2) as (_ & Hmap & _).
  assert (vmsize page_sz rest st2 = rest) as ->.
  { unfold vmsize. rewrite Hmap, map_fold_empty, Z.div_0_l; [lia|].
    pose proof (page_range (page_sz := page_sz) (mmap := mmap)). lia. }
  assert ((if decide (vm = 0) then rest else vm) = rest) as -> by (case_decide; lia).
  rewrite Z.sub_diag. change (wrap64 0) with 0. rewrite decide_False by lia.
  apply IH; [done|done|done|done|by right].
Qed.

(** C19: the free test, for whatever [rand] returns and from the empty heap:
    no access is invalid and the growth of the process is never reported; it
    ends with every mapping returned to the system, or when [malloc] returns
    NULL. *)
Theorem free_test_passes env rest bs rounds :
  Forall (Forall (λ r, 0 ≤ r)) rounds →
  ∃ st' res, free_main page_sz mmap env rest (init_state bs) rounds = Ok (st', res) ∧
  (res = NoMemory ∨ res = Passed ∧ g_head st' = 0 ∧ mapped st' = ∅ ∧ blocks st' = ∅).
Proof.
  intros Hr. destruct (init_represents bs) as [W Hnone]. unfold free_main.
  destruct (free_rounds_pass env rest (ALLOC_SZ / page_sz * 2) rounds 0 (init_state bs)) as (st' & res & Hrun & Hres);
    [done|done|done| |by left|].
  { pose proof (page_range (page_sz := page_sz) (mmap := mmap)).
    pose proof (Z.div_pos ALLOC_SZ page_sz ltac:(unfold ALLOC_SZ; lia) ltac:(lia)). lia. }
  exists st', res. split; [done|]. destruct Hres as [?|(? & W' & Hn)]; [by left|right].
  split; [done|]. by apply idle_wf.
Qed.

(** Memory given with scribbling on, and kept. *)
Record scribbled_at (st : alloc_state) (p n : Z) : Prop := {
  sc_wf : wf st;
  sc_live : live st p = Some n;
  sc_bytes : ∀ a, p ≤ a < p + n → bytes st a = 170
}.

(** A malloc under scribbling: NULL, or scribbled memory, and what was
    scribbled before stays so. *)
Lemma scribbling_malloc algo st size :
  wf st → 0 ≤ size ≤ MAX_REQUEST →
  ∃ st' p, malloc page_sz mmap (MkEnv algo true) st size = Ok (st', p) ∧ wf st' ∧
  (∀ q n, scribbled_at st q n → scribbled_at st' q n) ∧
  (p = 0 ∨ 0 < p ∧ scribbled_at st' p (align8 size)).
Proof.
  intros W Hs. destruct (malloc_served page_sz mmap (MkEnv algo true) st size W Hs) as (st' & p & Hm & W' & Hv).
  exists st', p. split_and!; [done|done| |]; destruct Hv as [[-> ->]|[G Hb]]; [done| |by left|right].
  - intros q n [_ Hl Hq]. split; [done| |].
    + rewrite (gr_frame _ _ _ _ G); [done|]. intros ->. by rewrite (gr_fresh _ _ _ _ G) in Hl.
    + intros a Ha. rewrite Hb. case_decide; [done|]. by apply Hq.
  - split; [apply G|]. split; [done|apply G|]. intros a Ha. rewrite Hb. by rewrite decide_True.
Qed.

Definition le_170 (n : nat) : Z := le_value (λ _, 170) 0 n.
Lemma le_value_const c p p' n : le_value (λ _, c) p n = le_value (λ _, c) p' n.
Proof. revert p p'. induction n as [|n IH]; intros p p'; [done|]. simpl. by rewrite (IH (p + 1) (p' + 1)). Qed.
Lemma scribbled_value st p m a n :
  scribbled_at st p m → p ≤ a → a + Z.of_nat n ≤ p + m → le_value (bytes st) a n = le_170 n.
Proof.
  intros [_ _ Hb] Ha Hn. rewrite (le_value_ext _ (λ _, 170)) by (intros; apply Hb; lia). apply le_value_const.
Qed.
Lemma load_scribbled st p m n :
  scribbled_at st p m → (0 < n)%nat → Z.of_nat n ≤ m → load_at st p n = Ok (le_170 n).
Proof.
  intros S Hn Hm. rewrite (load_live st p m) by (apply S || lia). f_equal.
  apply (scribbled_value _ _ _ _ _ S); lia.
Qed.

(** Writing to the first allocation and returning it. *)
Lemma store_and_free st p m v :
  scribbled_at st p m → 4 ≤ m → ∃ st1 st2, store_at st p 4 v = Ok st1 ∧ free true st1 p = Ok st2 ∧ wf st2.
Proof.
  intros [W Hl _] Hm. destruct (store_live st p m W Hl p 4 v) as (st1 & ? & Hh & _); [lia..|].
  destruct (free_served st1 p) as (st2 & _ & ? & R & _); [by eapply same_heads_wf|by rewrite (same_heads_live _ _ _ Hh), Hl|].
  exists st1, st2. split_and!; [done|done|apply R].
Qed.

Lemma load_null st n : load_at st 0 n = Undef NullDeref.
Proof. unfold load_at, access. by rewrite decide_True. Qed.
Lemma sum_null st conv n k total : (0 < k)%nat → sum_array st conv n 0 0 k total = Undef NullDeref.
Proof. destruct k; [lia|]. intros _. cbn [sum_array]. by rewrite Z.mul_0_r, load_null. Qed.

Definition scribble_output : list Z :=
  [-1431655766; -1431655766; -1431655766; 12297829382473034410; 2863311530; 12297829382473034410; 850000].

Lemma scribble_begins algo st :
  wf st →
  scribble_start page_sz mmap algo st = Undef NullDeref ∨
  ∃ st' arr, scribble_start page_sz mmap algo st = Ok (scribble_output, st', arr) ∧
  wf st' ∧ is_Some (live st' arr) ∧ 0 < arr.
Proof.
  intros W. unfold scribble_start.
  destruct (scribbling_malloc algo st 4 W) as (st1 & x & -> & W1 & _ & Hx); [done|]. cbn [mbind outcome_bind].
  destruct Hx as [->|[_ Sx]]; [left; by rewrite load_null|]. rewrite (load_scribbled _ _ _ _ Sx) by (lia || by vm_compute).
  cbn [mbind outcome_bind]. destruct (store_and_free st1 x _ 42 Sx) as (st2 & st3 & -> & Hf & W3); [by vm_compute|].
  cbn [mbind outcome_bind]. rewrite Hf. cbn [mbind outcome_bind].
  destruct (scribbling_malloc algo st3 4 W3) as (st4 & y & -> & W4 & _ & Hy); [done|]. cbn [mbind outcome_bind].
  destruct Hy as [->|[_ Sy]]; [left; by rewrite load_null|]. rewrite (load_scribbled _ _ _ _ Sy) by (lia || by vm_compute).
  cbn [mbind outcome_bind].
  destruct (scribbling_malloc algo st4 4 W4) as (st5 & i & -> & W5 & _ & Hi); [done|]. cbn [mbind outcome_bind].
  destruct (scribbling_malloc algo st5 8 W5) as (st6 & ul & -> & W6 & K6 & Hul); [done|]. cbn [mbind outcome_bind].
  destruct (scribbling_malloc algo st6 5000 W6) as (st7 & arr & -> & W7 & K7 & Harr); [done|]. cbn [mbind outcome_bind].
  destruct Hi as [->|[_ Si]]; [left; by rewrite load_null|].
  rewrite (load_scribbled _ _ _ _ (K7 _ _ (K6 _ _ Si))) by (lia || by vm_compute). cbn [mbind outcome_bind].
  destruct Hul as [->|[_ Sul]]; [left; by rewrite load_null|].
  rewrite (load_scribbled _ _ _ _ (K7 _ _ Sul)) by (lia || by vm_compute). cbn [mbind outcome_bind].
  destruct Harr as [->|[Hp Sarr]]; [left; by rewrite sum_null by lia|right].
  rewrite (sum_array_const st7 arr (align8 5000) id 1 170 arr _ 0 0);
    [|apply Sarr|apply Sarr|lia|lia|rewrite Z2Nat.id by lia; done| |done].
  - exists st7, arr. split_and!; [done|done|by rewrite (sc_live _ _ _ Sarr)|done].
  - intros j Hj. rewrite Z2Nat.id in Hj by lia. apply (scribbled_value _ _ _ _ 1%nat Sarr); [lia|].
    change (align8 5000) with 5000. lia.
Qed.

(** C21: the scribble test on any well-formed heap, whatever the policy: unless
    a [malloc] returned NULL it prints exactly the first lines its script
    expects, up to the total 850000 of the array; but [realloc] never
    allocates, so the loop after it reads through NULL and the program never
    ends normally. *)
Theorem scribble_crashes algo st :
  wf st →
  scribble_main page_sz mmap algo st = Undef NullDeref ∧
  (scribble_start page_sz mmap algo st = Undef NullDeref ∨
    ∃ st' arr, scribble_start page_sz mmap algo st = Ok (scribble_output, st', arr) ∧
    realloc page_sz mmap (MkEnv algo true) true st' arr 10000 = Ok (st', 0)).
Proof.
  intros W. unfold scribble_main. destruct (scribble_begins algo st W) as [->|(st' & arr & -> & W' & _ & Hp)].
  { split; [done|by left]. }
  assert (realloc page_sz mmap (MkEnv algo true) true st' arr 10000 = Ok (st', 0)) as Hr.
  { unfold realloc. by rewrite !decide_False by (lia || done). }
  split; [|right; by exists st', arr]. cbn [mbind outcome_bind]. unfold scribble_rest. rewrite Hr.
  cbn [mbind outcome_bind]. by rewrite sum_null by lia.
Qed.
End correct.

(** * The outputs that the test scripts expect *)
Definition policy_env (a : cstr) : alloc_env := MkEnv (Some a) false.
(** The numbers of the allocations, in the order of the blocks printed. *)
Definition block_order (ls : list mem_line) : list Z :=
  omap (λ l, match l with BlockLine _ _ id _ _ _ => Some id | RegionLine _ _ _ => None end) ls.

Definition policies : list cstr := map lit ["first_fit"; "best_fit"; "worst_fit"].
(** Scripts 03 to 05, and 06 to 08. *)
Example allocations_1_orders :
  map (λ a, block_order <$> allocations_1 4096 bump_mmap (policy_env a) demo0) policies =
  [Ok [0; 6; 2; 3; 4; 5]; Ok [0; 1; 2; 6; 4; 5]; Ok [0; 1; 2; 3; 4; 5; 6]].
Proof. by vm_compute. Qed.
Example allocations_3_orders :
  map (λ a, block_order <$> allocations_3 4096 bump_mmap (policy_env a) demo0) policies =
  [Ok [0; 5; 6; 7; 2; 3; 4]; Ok [0; 5; 2; 6; 7; 4]; Ok [0; 6; 7; 2; 3; 4; 5]].
Proof. by vm_compute. Qed.
Example allocations_2_pages :
  map (λ a, pages_grew 4096 bump_mmap (policy_env a) 700 demo0) policies = [Ok false; Ok false; Ok false].
Proof. by vm_compute. Qed.
(** Scripts 11 and 12: three regions with a request of 4000 bytes. *)
Example print_test_output :
  print_test 4096 bump_mmap plain_env demo0 =
  Ok [RegionLine 4096 8192 4096; BlockLine 4096 8192 0 4096 4048 4000;
      RegionLine 8192 12288 4096; BlockLine 8192 12288 1 4096 4048 4000;
      RegionLine 12288 16384 4096; BlockLine 12288 16384 2 4096 4048 4000].
Proof. by vm_compute. Qed.

Lemma thread_proc_correct_witness :
  (malloc 4096 bump_mmap plain_env demo (4 * (4107 `rem` MAX_ALLOC)) = Ok (demo, 0) ∧
   thread_proc 4096 bump_mmap plain_env demo 4107 9 =
     if decide (4107 `rem` MAX_ALLOC = 0) then Ok (demo, false) else Undef NullDeref) ∨
  ∃ st', thread_proc 4096 bump_mmap plain_env demo 4107 9 = Ok (st', false) ∧ wf st' ∧
    (∀ q, live st' q = live demo q) ∧
    (∀ q n x, live demo q = Some n → q ≤ x < q + n → bytes st' x = bytes demo x).
Proof. apply (thread_proc_correct 4096 bump_mmap plain_env demo 4107 9); [apply demo_wf|done|done]. Defined.

Lemma free_test_passes_witness :
  ∃ st' res, free_main 4096 bump_mmap plain_env 700 (init_state (λ _, 0)) [[5; 17]; [3]] = Ok (st', res) ∧
    (res = NoMemory ∨ res = Passed ∧ g_head st' = 0 ∧ mapped st' = ∅ ∧ blocks st' = ∅).
Proof. apply (free_test_passes 4096 bump_mmap plain_env 700 (λ _, 0) [[5; 17]; [3]]). by repeat constructor. Defined.

Lemma scribble_crashes_witness :
  scribble_main 4096 bump_mmap None demo = Undef NullDeref ∧
  (scribble_start 4096 bump_mmap None demo = Undef NullDeref ∨
   ∃ st' arr, scribble_start 4096 bump_mmap None demo = Ok (scribble_output, st', arr) ∧
     realloc 4096 bump_mmap (MkEnv None true) true st' arr 10000 = Ok (st', 0)).
Proof. apply (scribble_crashes 4096 bump_mmap None demo), demo_wf. Defined.
