(* ===== verification/AllocReport.v ===== *)
(** The choices of the placement policies and the state dump of
    Project3/allocator.c, stated over the blocks of the list in their order,
    with the concrete heap on which the statements are evaluated. *)
From Stdlib Require Import ZArith Lia Ascii.
From stdpp Require Import prelude gmap strings numbers list.
From S2P Require Import Prelude CString Allocator AllocLayout AllocFit AllocSafe AllocDemo.
Open Scope Z_scope.
Import CInt.

(** * The dump *)
Definition block_line (c : cell) : mem_line :=
  BlockLine c.1 (c.1 + blk_size c.2) (alloc_id c.2) (blk_size c.2) (usage c.2)
    (if decide (usage c.2 = 0) then 0 else usage c.2 - SIZEOF_BLOCK).
(** A region line and then the lines of its blocks, for every region. *)
Definition dump (rgs : list region) : list mem_line :=
  rgs ≫= λ r, RegionLine r.1 (r.1 + total r.2) (total r.2) :: (block_line <$> place r.1 r.2).

Definition line_body (bl : gmap Z mem_block) : Z * list mem_line → Z → mem_block →
    outcome (list mem_line + (Z * list mem_line)) := λ '(current_region, out) cur b,
  hd ← (if decide (region_start b ≠ current_region)
        then rb ← deref bl (region_start b);
             Ok (region_start b,
                 [RegionLine (region_start b) (region_start b + region_size rb) (region_size rb)])
        else Ok (current_region, []));
  Ok (inr (fst hd, out ++ snd hd ++
           [BlockLine cur (cur + blk_size b) (alloc_id b) (blk_size b) (usage b)
              (if decide (usage b = 0) then 0 else wrap64 (usage b - SIZEOF_BLOCK))])).
Arguments line_body : simpl never.

Section dump.
Context (bl : gmap Z mem_block).

Lemma line_body_same cr out a b rsz :
  block_ok cr rsz b → blk_size b < 18446744073709551616 →
  line_body bl (cr, out) a b = Ok (inr (cr, out ++ [block_line (a, b)])).
Proof.
  unfold block_ok, SIZEOF_BLOCK. intros ([? Hu] & _ & Hrs & _) ?. unfold line_body. rewrite Hrs.
  rewrite (decide_False (P := cr ≠ cr)) by (intros []; done). simpl. unfold block_line, SIZEOF_BLOCK. simpl.
  repeat case_decide; try done. by rewrite wrap64_small by lia.
Qed.

Lemma line_body_new cr out a b rb rs rsz :
  rs ≠ cr → bl !! rs = Some rb → rs ≠ 0 → block_ok rs rsz b → region_size rb = rsz →
  blk_size b < 18446744073709551616 →
  line_body bl (cr, out) a b =
  Ok (inr (rs, out ++ [RegionLine rs (rs + rsz) rsz; block_line (a, b)])).
Proof.
  unfold block_ok, SIZEOF_BLOCK. intros Hne Hrb Hrs0 ([? Hu] & _ & Hrs & _) <- ?. unfold line_body.
  rewrite Hrs, (decide_True (P := rs ≠ cr)) by done. rewrite (deref_ok _ _ _ Hrb Hrs0). simpl.
  unfold block_line, SIZEOF_BLOCK. simpl. repeat case_decide; try done.
  by rewrite wrap64_small by lia.
Qed.

(** The blocks of one region, the region line already printed. *)
Lemma dump_blocks rs rsz bs a e rest out :
  Forall (block_ok rs rsz) bs → Forall (λ b, blk_size b < 18446744073709551616) bs →
  walk_list (line_body bl) snd (link (place a bs) e ++ rest) (rs, out) =
  walk_list (line_body bl) snd rest (rs, out ++ (block_line <$> place a bs)).
Proof.
  intros Hok. revert a out. induction Hok as [|b bs Hb Hbs IH]; intros a out Hlt; simpl.
  - by rewrite app_nil_r.
  - apply Forall_cons in Hlt as [Hb' Hlt].
    rewrite (line_body_same _ _ _ _ rsz) by done. simpl. rewrite IH by done.
    by rewrite <- app_assoc.
Qed.
End dump.

Lemma region_block_lt r : region_ok r → Forall (λ b, blk_size b < 18446744073709551616) r.2.
Proof.
  intros Hr. pose proof (region_sizes _ Hr) as Hs. destruct Hr as (_ & ? & _ & Hlt & _).
  apply Forall_forall. intros b Hb. apply list_elem_of_split in Hb as (b1 & b2 & Hb).
  rewrite Hb in *. rewrite total_app in Hlt. simpl in Hlt.
  apply Forall_app in Hs as [H1 [? H2]%Forall_cons].
  pose proof (total_nonneg _ H1). pose proof (total_nonneg _ H2). lia.
Qed.

Lemma dump_regions bl rgs e cr out :
  Forall region_ok rgs → pairwise apart rgs → Forall (λ r, r.1 ≠ cr) rgs →
  Forall (λ r, ∃ rb, bl !! r.1 = Some rb ∧ region_size rb = total r.2) rgs →
  walk_list (line_body bl) snd (link (chain rgs) e) (cr, out) = Ok (out ++ dump rgs).
Proof.
  intros Hok. revert e cr out. induction Hok as [|[rs bs] rgs Hr Hok IH]; intros e cr out Hap Hcr Hrb.
  { simpl. by rewrite app_nil_r. }
  apply Forall_cons in Hcr as [Hne Hcr], Hrb as [(rb & Hrb & Hrsz) Hrbs]. destruct Hap as [Ha Hap].
  assert (Forall (λ r, r.1 ≠ rs) rgs) as Hrs.
  { apply Forall_forall. intros r' Hin Heq. rewrite Forall_forall in Ha, Hok.
    specialize (Ha _ Hin). pose proof (region_total _ (Hok _ Hin)). pose proof (region_total _ Hr).
    unfold apart, SIZEOF_BLOCK in *. simpl in *. lia. }
  pose proof (region_block_lt _ Hr) as Hlt.
  destruct Hr as (Hbs & Hpos & _ & _ & Hb). simpl in *. rewrite link_app.
  destruct bs as [|b bs]; [done|]. apply Forall_cons in Hb as [Hb Hbs'], Hlt as [Hlt Hlts]. simpl.
  rewrite (line_body_new bl cr out rs _ rb rs _) by (done || lia). simpl.
  rewrite (dump_blocks bl rs (total (b :: bs))) by done. rewrite IH by done.
  f_equal. rewrite <- !app_assoc. done.
Qed.

Section report.
Context (st : alloc_state) (rgs : list region) (L : layout st rgs).

Lemma region_header_sizes :
  Forall (λ r, ∃ rb, blocks st !! r.1 = Some rb ∧ region_size rb = total r.2) rgs.
Proof.
  apply Forall_forall. intros r Hr. pose proof (l_regions _ _ L) as Hok.
  rewrite Forall_forall in Hok. destruct (Hok _ Hr) as (Hne & _ & _ & _ & Hb).
  destruct r as [rs [|b bs]]; [done|]. apply Forall_cons in Hb as [(_ & _ & _ & ?) _].
  assert ((rs, b) ∈ chain rgs) as Hc.
  { apply list_elem_of_split in Hr as (rg1 & rg2 & ->). rewrite chain_app. simpl. set_solver. }
  destruct (cell_blocks _ _ L _ _ Hc) as [n ?]. by exists (set_next n b).
Qed.
End report.

(** C39: [print_memory] and [write_memory] of a well-formed heap end, and
    print one line for every region, in list order, with its address range
    and length, each followed by the lines of its blocks in address order:
    address range, allocation id, size, used space, and the size requested
    (0 for a free block). *)
Theorem memory_lines_dump st rgs : layout st rgs → memory_lines st = Ok (dump rgs).
Proof.
  intros L. unfold memory_lines. fold (line_body (blocks st)). rewrite (walk_chain _ _ L).
  pose proof (l_regions _ _ L) as Hok.
  rewrite dump_regions; [done|done|apply (l_apart _ _ L)| |by apply region_header_sizes].
  eapply Forall_impl; [exact Hok|]. intros r (_ & ? & _). simpl. lia.
Qed.

(** [first_fit] returns the first block of the list with strictly more
    unused bytes than the request and a header take together, and NULL when
    there is none: a block that fits exactly is passed over. *)
Lemma first_fit_correct st rgs size :
  layout st rgs →
  ∃ r, first_fit st size = Ok r ∧
    ((r = 0 ∧ Forall (λ c, avail c.2 ≤ need size) (cells rgs)) ∨
     ∃ l1 b l2, cells rgs = l1 ++ (r, b) :: l2 ∧ need size < avail b ∧
                Forall (λ c, avail c.2 ≤ need size) l1).
Proof.
  intros L. unfold first_fit. rewrite (walk_chain _ _ L).
  fold (first_fit_body size) (cells rgs).
  assert (∀ l, Forall (λ c, ¬ fits_strictly size c) l → Forall (λ c, avail c.2 ≤ need size) l).
  { intros l Hl. eapply Forall_impl; [exact Hl|]. unfold fits_strictly. simpl. lia. }
  destruct (first_fit_list (cells rgs) size) as [[-> ?]|(l1 & [a b] & l2 & Hl & -> & Hf & ?)].
  - exists 0. eauto.
  - exists a. split; [done|right]. exists l1, b, l2. unfold fits_strictly in Hf. simpl in Hf.
    split_and!; [done|lia|eauto].
Qed.

(** [best_fit] returns a block with enough unused bytes and no more of
    them than any other such block, the last one in list order on a tie; it
    ignores blocks with more than INT_MAX unused bytes, and returns NULL when
    no other block is large enough. *)
Lemma best_fit_correct st rgs size :
  layout st rgs →
  ∃ r, best_fit st size = Ok r ∧
    ((r = 0 ∧ Forall (λ c, need size ≤ avail c.2 → INT_MAX < avail c.2) (cells rgs)) ∨
     ∃ l1 b l2, cells rgs = l1 ++ (r, b) :: l2 ∧ need size ≤ avail b ≤ INT_MAX ∧
       Forall (λ c, need size ≤ avail c.2 → avail b ≤ avail c.2) l1 ∧
       Forall (λ c, need size ≤ avail c.2 → avail b < avail c.2) l2).
Proof.
  intros L. rewrite (best_fit_fold _ _ L). eexists. split; [done|].
  destruct (extremal_fold size Z.le Z.le_trans Z.le_ge_cases (cells rgs) (INT_MAX, 0))
    as [Hn|l1 [a b] l2 Hl Hc Hb H1 H2]; [left|right].
  - split; [done|]. eapply Forall_impl; [exact Hn|]. simpl. lia.
  - exists l1, b, l2. simpl in *. split_and!; [done|lia|done|..];
      (eapply Forall_impl; [eassumption|]); simpl; lia.
Qed.

(** [worst_fit] returns a block with enough unused bytes and at least as
    many of them as any other block that has enough, the last one in list
    order on a tie, and NULL when no block is large enough. *)
Lemma worst_fit_correct st rgs size :
  layout st rgs →
  ∃ r, worst_fit st size = Ok r ∧
    ((r = 0 ∧ Forall (λ c, avail c.2 < need size) (cells rgs)) ∨
     ∃ l1 b l2, cells rgs = l1 ++ (r, b) :: l2 ∧ need size ≤ avail b ∧
       Forall (λ c, avail c.2 ≤ avail b ∨ avail c.2 < need size) l1 ∧
       Forall (λ c, avail c.2 < avail b ∨ avail c.2 < need size) l2).
Proof.
  intros L. rewrite (worst_fit_fold _ _ L). eexists. split; [done|].
  destruct (extremal_fold size Z.ge ltac:(lia) ltac:(lia) (cells rgs) (0, 0))
    as [Hn|l1 [a b] l2 Hl Hc Hb H1 H2]; [left|right].
  - split; [done|]. eapply Forall_impl; [exact Hn|]. intros c Hc. simpl in *.
    pose proof (wrap64_range (blk_size c.2 - usage c.2)). unfold avail in *. lia.
  - exists l1, b, l2. simpl in *. split_and!; [done|lia|..];
      (eapply Forall_impl; [eassumption|]); simpl; lia.
Qed.

(** What a policy may return for a request: NULL, or a block of the list with
    enough room, with what is known of the blocks before and after it. *)
Definition picks (st : alloc_state) (rgs : list region) (size : Z) (policy : alloc_state → Z → outcome Z)
    (none : mem_block → Prop) (room : mem_block → Prop) (before after : mem_block → mem_block → Prop) : Prop :=
  ∃ r, policy st size = Ok r ∧
    ((r = 0 ∧ Forall (λ c, none c.2) (cells rgs)) ∨
     ∃ l1 b l2, cells rgs = l1 ++ (r, b) :: l2 ∧ room b ∧
       Forall (λ c, before b c.2) l1 ∧ Forall (λ c, after b c.2) l2).

(** C40: the placement policies, on any well-formed heap, where a block has
    room when its unused bytes hold the request with a header. first_fit
    returns the first block with strictly more bytes than that, NULL if there
    is none; best_fit the smallest block with room, the last one on ties, but
    it only considers blocks with at most INT_MAX unused bytes; worst_fit the
    largest block with room, the last one on ties. *)
Theorem policies_correct st rgs size :
  layout st rgs →
  let fits b := need size ≤ avail b in
  picks st rgs size first_fit (λ b, avail b ≤ need size) (λ b, need size < avail b)
    (λ _ c, avail c ≤ need size) (λ _ _, True) ∧
  picks st rgs size best_fit (λ b, fits b → INT_MAX < avail b) (λ b, fits b ∧ avail b ≤ INT_MAX)
    (λ b c, fits c → avail b ≤ avail c) (λ b c, fits c → avail b < avail c) ∧
  picks st rgs size worst_fit (λ b, ¬ fits b) fits
    (λ b c, fits c → avail c ≤ avail b) (λ b c, fits c → avail c < avail b).
Proof.
  intros L fits. unfold fits. split_and!.
  - destruct (first_fit_correct st rgs size L) as (r & Hr & [H|(l1 & b & l2 & H)]); exists r; split; try done;
      [by left|right; exists l1, b, l2; destruct H as (? & ? & ?); split_and!; try done; by apply Forall_true].
  - exact (best_fit_correct st rgs size L).
  - destruct (worst_fit_correct st rgs size L) as (r & Hr & [[H Hn]|(l1 & b & l2 & H & Hb & H1 & H2)]);
      exists r; (split; [done|]); [left; split; [done|]|right; exists l1, b, l2; split_and!; try done];
      (eapply Forall_impl; [eassumption|]); simpl; lia.
Qed.

(** * The theorems at the concrete heap *)
Lemma memory_lines_dump_witness :
  memory_lines demo = Ok (dump demo_regions) ∧
  dump demo_regions =
    [RegionLine 4096 8192 4096; BlockLine 4096 5144 0 1048 0 0;
     BlockLine 5144 7192 1 2048 2048 2000; BlockLine 7192 8192 3 1000 64 16;
     RegionLine 8192 16384 8192; BlockLine 8192 16384 2 8192 5048 5000].
Proof. split; [apply (memory_lines_dump demo demo_regions), demo_layout|by vm_compute]. Defined.

Lemma policies_correct_witness :
  (first_fit demo 100, best_fit demo 100, worst_fit demo 100) = (Ok 4096, Ok 7192, Ok 8192) ∧
  picks demo demo_regions 100 worst_fit (λ b, ¬ need 100 ≤ avail b) (λ b, need 100 ≤ avail b)
    (λ b c, need 100 ≤ avail c → avail c ≤ avail b) (λ b c, need 100 ≤ avail c → avail c < avail b).
Proof. split; [by vm_compute|]. apply (policies_correct demo demo_regions 100), demo_layout. Defined.
