(* ===== verification/History.v ===== *)
(** The shell's command history (Project2/history.c): a ring of 100 rows, and
    its refinement of the list of all commands entered. *)
From Stdlib Require Import ZArith Lia Ascii.
From stdpp Require Import prelude gmap strings numbers list.
From S2P Require Import Prelude CString.
Open Scope Z_scope.
Import CInt.

(** * The code *)

(** The global variables; a row is the C string it holds. *)
Record hist := MkHist {
  history : list cstr;
  minimum : Z;
  cmd_count : Z;
  tail : Z
}.
Definition max : Z := 100.
(** The length of a row. *)
Definition ROW : nat := Z.to_nat 100000.
Definition hist_init : hist := MkHist (replicate 100 []) 0 0 0.

(** [history[i]]. *)
Definition row (h : hist) (i : Z) : outcome cstr :=
  if decide (i < 0) then Undef OutOfBounds else require OutOfBounds (history h !! Z.to_nat i).

(** The lines printed, a number and a command each. [k] iterations remain. *)
Fixpoint print_loop (k : nat) (h : hist) (i j : Z) : outcome (list (Z * cstr)) :=
  match k with
  | O => Ok []
  | S k' =>
      s ← row h (Z.rem i max);
      out ← print_loop k' h (i + 1) (j + 1);
      Ok (if bool_decide (s = []) then out else (j - max, s) :: out)
  end.
Definition print_history (h : hist) : outcome (list (Z * cstr)) :=
  let i := tail h + 1 in
  let max_length := tail h + max + 1 in
  print_loop (Z.to_nat (max_length - i)) h i (cmd_count h).

Definition add_history (h : hist) (command : cstr) : outcome hist :=
  let tail' := Z.rem (cmd_count h) max in
  _ ← row h tail';
  s ← strcpy ROW command;
  cnt ← int_result (cmd_count h + 1);
  Ok (MkHist (<[Z.to_nat tail' := s]> (history h))
        (if decide (cnt > max) then minimum h + 1 else minimum h) cnt tail').

(** The returned copies are the strings; NULL is [None]. *)
Definition get_cmd (h : hist) (num : Z) : outcome (option cstr) :=
  if decide (num >= minimum h ∧ num ≤ cmd_count h)
  then s ← row h (Z.rem num max); s' ← strcpy (S ROW) s; Ok (Some s')
  else Ok None.

(** [sizeof(get_cmd(i)) + 1]: a pointer's size and one. *)
Definition FIND_CAP : nat := 9.
Fixpoint find_loop (k : nat) (h : hist) (cmd : cstr) (i : Z) : outcome (option cstr) :=
  match k with
  | O => OutOfFuel
  | S k' =>
      if decide (i >= minimum h)
      then
        c ← get_cmd h i;
        match c with
        | Some s =>
            if strncmp_eq s cmd (length cmd)
            then temp ← strcpy FIND_CAP s; Ok (Some temp)
            else find_loop k' h cmd (i - 1)
        | None => find_loop k' h cmd (i - 1)
        end
      else Ok None
  end.
(** One more iteration than there are numbers from [minimum] to [cmd_count - 1]. *)
Definition find_cmd (h : hist) (cmd : cstr) : outcome (option cstr) :=
  find_loop (S (Z.to_nat (cmd_count h - minimum h))) h cmd (cmd_count h - 1).

(** * The abstract history

    The list [cs] of all commands entered, the oldest first. *)
Definition entry (cs : list cstr) (n : Z) : cstr :=
  if decide (0 ≤ n) then default [] (cs !! Z.to_nat n) else [].
Definition entered (cs : list cstr) : Z := Z.of_nat (length cs).

Record hist_rep (h : hist) (cs : list cstr) : Prop := {
  hr_rows : length (history h) = 100%nat;
  hr_count : cmd_count h = entered cs;
  hr_min : minimum h = Z.max 0 (entered cs - max);
  hr_tail : tail h = if decide (cs = []) then 0 else (entered cs - 1) `mod` max;
  hr_entries n :
    entered cs - max ≤ n < entered cs → history h !! Z.to_nat (n `mod` max) = Some (entry cs n);
  hr_fit : Forall (λ s, (length s < ROW)%nat) cs
}.

Lemma hist_init_rep : hist_rep hist_init [].
Proof.
  split; [done..| |done]. intros n Hn. unfold entered in Hn. cbn [length] in *. unfold max in *.
  pose proof (Z.mod_pos_bound n 100 ltac:(done)). unfold entry. rewrite decide_False by lia.
  apply lookup_replicate. split; [done|lia].
Qed.

Section rep.
Context (h : hist) (cs : list cstr) (R : hist_rep h cs).

Lemma row_rep n :
  entered cs - max ≤ n < entered cs → row h (n `mod` max) = Ok (entry cs n).
Proof.
  intros Hn. unfold row. pose proof (Z.mod_pos_bound n max ltac:(done)).
  rewrite decide_False by lia. by rewrite (hr_entries _ _ R).
Qed.

(** The row of any index is that of the last command written to it. *)
Lemma row_rem i k :
  0 ≤ i → entered cs - max ≤ i - k * max < entered cs →
  row h (Z.rem i max) = Ok (entry cs (i - k * max)).
Proof.
  intros Hi Hn. rewrite Z.rem_mod_nonneg by done. rewrite <- (row_rep _ Hn).
  f_equal. rewrite Zminus_mod, Z.mod_mul, Z.sub_0_r, Z.mod_mod by done. done.
Qed.

Lemma entry_fits n : (length (entry cs n) < ROW)%nat.
Proof.
  unfold entry. case_decide; [|simpl; unfold ROW; lia].
  destruct (cs !! Z.to_nat n) as [s|] eqn:Hs; simpl; [|unfold ROW; lia].
  by apply (Forall_lookup_1 _ _ _ _ (hr_fit _ _ R) Hs).
Qed.

Lemma entry_snoc c n :
  entry (cs ++ [c]) n = if decide (n = entered cs) then c else entry cs n.
Proof.
  unfold entry, entered. destruct (decide (0 ≤ n)); [|rewrite decide_False by lia; done].
  destruct (decide (n = Z.of_nat (length cs))) as [->|Hne].
  - by rewrite Nat2Z.id, lookup_app_r, Nat.sub_diag by lia.
  - destruct (decide (n < Z.of_nat (length cs))).
    + by rewrite lookup_app_l by lia.
    + rewrite !lookup_ge_None_2; [done|lia|rewrite length_app; simpl; lia].
Qed.

Lemma get_cmd_in num :
  Z.max 0 (entered cs - max) ≤ num < entered cs → get_cmd h num = Ok (Some (entry cs num)).
Proof.
  intros Hn. unfold get_cmd. rewrite (hr_min _ _ R), (hr_count _ _ R).
  rewrite decide_True by lia. rewrite (row_rem num 0) by (unfold max in *; lia). simpl.
  rewrite Z.sub_0_r. unfold strcpy. pose proof (entry_fits num). by rewrite decide_True by lia.
Qed.
End rep.

Lemma count_snoc cs c : entered (cs ++ [c]) = entered cs + 1.
Proof. unfold entered. rewrite length_app. simpl. lia. Qed.

Lemma add_history_rep h cs c :
  hist_rep h cs → (length c < ROW)%nat → entered cs < INT_MAX →
  ∃ h', add_history h c = Ok h' ∧ hist_rep h' (cs ++ [c]).
Proof.
  intros R Hc Hi. assert (0 ≤ entered cs) as H0 by (unfold entered; lia).
  unfold add_history. rewrite (hr_count _ _ R).
  rewrite (row_rem h cs R _ 1) by (unfold max; lia). simpl.
  unfold strcpy. rewrite decide_True by done. simpl.
  rewrite int_result_ok by (unfold INT_MIN, INT_MAX in *; lia). simpl.
  eexists. split; [done|]. rewrite Z.rem_mod_nonneg by done.
  pose proof (Z.mod_pos_bound (entered cs) max ltac:(done)) as Hm.
  split; simpl; rewrite ?count_snoc.
  - rewrite length_insert. apply R.
  - done.
  - rewrite (hr_min _ _ R). case_decide; unfold max in *; lia.
  - rewrite decide_False by (by destruct cs). f_equal. lia.
  - intros n Hn. rewrite (entry_snoc cs c n). destruct (decide (n = entered cs)) as [->|Hne].
    + apply list_lookup_insert_eq. rewrite (hr_rows _ _ R). unfold max in *. lia.
    + rewrite list_lookup_insert_ne; [apply R; lia|]. unfold max in *.
      pose proof (Z.mod_pos_bound n 100 ltac:(done)). intros Heq%Z2Nat.inj; [|lia..].
      pose proof (Z.div_mod n 100 ltac:(done)). pose proof (Z.div_mod (entered cs) 100 ltac:(done)). lia.
  - apply Forall_app. split; [apply R|]. by constructor.
Qed.

(** The commands entered, in order, from an empty history. *)
Fixpoint add_all (h : hist) (cs : list cstr) : outcome hist :=
  match cs with
  | [] => Ok h
  | c :: cs' => h' ← add_history h c; add_all h' cs'
  end.

Lemma add_all_rep h cs0 cs :
  hist_rep h cs0 → Forall (λ s, (length s < ROW)%nat) cs → entered cs0 + entered cs ≤ INT_MAX →
  ∃ h', add_all h cs = Ok h' ∧ hist_rep h' (cs0 ++ cs).
Proof.
  revert h cs0. induction cs as [|c cs IH]; intros h cs0 R Hf Hi; simpl.
  - exists h. by rewrite app_nil_r.
  - apply Forall_cons in Hf as [Hc Hf]. unfold entered in Hi. simpl in Hi.
    destruct (add_history_rep h cs0 c R Hc) as (h1 & -> & R1); [unfold entered; lia|]. simpl.
    destruct (IH h1 (cs0 ++ [c]) R1 Hf) as (h' & ? & R').
    { unfold entered. rewrite length_app. simpl. lia. }
    exists h'. split; [done|]. by rewrite <- app_assoc in R'.
Qed.

(** * The operations, over any reachable history *)

(** The numbered commands [print_history] is to show: the last 100. *)
Definition numbered (cs : list cstr) : list (Z * cstr) :=
  (λ n, (n, entry cs n)) <$> seqZ (Z.max 0 (entered cs - max)) (Z.min max (entered cs)).

Lemma print_loop_rep h cs k n :
  hist_rep h cs → entered cs - max ≤ n → n + Z.of_nat k ≤ entered cs → 0 ≤ tail h →
  (tail h + 1) `mod` max = entered cs `mod` max →
  print_loop k h (tail h + 1 + (n - (entered cs - max))) (entered cs + (n - (entered cs - max))) =
    Ok (filter (λ p : Z * cstr, p.2 ≠ []) ((λ m, (m, entry cs m)) <$> seqZ n (Z.of_nat k))).
Proof.
  intros R Hn Hk Ht Hm. revert n Hn Hk. induction k as [|k IH]; intros n Hn Hk; [done|].
  cbn [print_loop]. rewrite Z.rem_mod_nonneg by (done || lia).
  replace ((tail h + 1 + (n - (entered cs - max))) `mod` max) with (n `mod` max); last first.
  { rewrite Z.add_mod, Hm, <- Z.add_mod by done.
    replace (entered cs + (n - (entered cs - max))) with (n + 1 * max) by lia. by rewrite Z.mod_add. }
  rewrite (row_rep h cs R) by lia. cbn [mbind outcome_bind].
  replace (tail h + 1 + (n - (entered cs - max)) + 1) with (tail h + 1 + (n + 1 - (entered cs - max))) by lia.
  replace (entered cs + (n - (entered cs - max)) + 1) with (entered cs + (n + 1 - (entered cs - max))) by lia.
  rewrite IH by lia. cbn [mbind outcome_bind]. rewrite (seqZ_cons n), fmap_cons by lia.
  replace (Z.succ n) with (n + 1) by lia. replace (Z.pred (Z.of_nat (S k))) with (Z.of_nat k) by lia.
  rewrite filter_cons. simpl.
  replace (Z.pred (Z.of_nat (S k))) with (Z.of_nat k) by lia.
  replace (entered cs + (n - (entered cs - max)) - max) with n by lia.
  case_bool_decide; case_decide; naive_solver.
Qed.

Lemma tail_next h cs : hist_rep h cs → 0 ≤ tail h ∧
  (cs ≠ [] → (tail h + 1) `mod` max = entered cs `mod` max).
Proof.
  intros R. rewrite (hr_tail _ _ R). case_decide.
  - split; [done|]. by intros [].
  - split; [by apply Z.mod_pos_bound|]. intros _.
    rewrite Z.add_mod_idemp_l by done. f_equal. lia.
Qed.

Lemma print_loop_blank h k i j :
  (∀ n, 0 ≤ n < max → history h !! Z.to_nat n = Some []) → 0 ≤ i → print_loop k h i j = Ok [].
Proof.
  intros Hb. revert i j. induction k as [|k IH]; intros i j Hi; simpl; [done|].
  rewrite Z.rem_mod_nonneg by done. pose proof (Z.mod_pos_bound i max ltac:(done)).
  unfold row. rewrite decide_False by lia. rewrite Hb by done. simpl. by rewrite IH by lia.
Qed.

Lemma entry_negative cs n : n < 0 → entry cs n = [].
Proof. intros. unfold entry. by rewrite decide_False by lia. Qed.

Lemma filter_negative cs n k :
  n + Z.of_nat k ≤ 0 →
  filter (λ p : Z * cstr, p.2 ≠ []) ((λ m, (m, entry cs m)) <$> seqZ n (Z.of_nat k)) = [].
Proof.
  revert n. induction k as [|k IH]; intros n Hn; [done|].
  rewrite (seqZ_cons n), fmap_cons by lia. rewrite filter_cons. simpl.
  rewrite entry_negative by lia. case_decide as Hd; [by destruct Hd|].
  replace (Z.pred (Z.of_nat (S k))) with (Z.of_nat k) by lia. apply IH. lia.
Qed.

(** What is printed for a history that holds [cs]. *)
Lemma print_history_rep h cs :
  hist_rep h cs → print_history h = Ok (filter (λ p : Z * cstr, p.2 ≠ []) (numbered cs)).
Proof.
  intros R. unfold print_history.
  replace (tail h + max + 1 - (tail h + 1)) with max by lia.
  destruct (tail_next _ _ R) as [Ht Hm].
  destruct (decide (cs = [])) as [->|Hne].
  { rewrite print_loop_blank; [done| |lia]. intros n Hn. pose proof (hr_entries _ _ R (n - max)) as He.
    rewrite entry_negative in He by (unfold max in *; lia).
    replace ((n - max) `mod` max) with n in He; [apply He; unfold entered; simpl; unfold max in *; lia|].
    rewrite Zminus_mod, Z.mod_same, Z.sub_0_r, Z.mod_mod, Z.mod_small by done. done. }
  pose proof (print_loop_rep h cs (Z.to_nat max) (entered cs - max) R ltac:(lia)
                ltac:(unfold max; lia) Ht (Hm Hne)) as Hp.
  rewrite Z.sub_diag, !Z.add_0_r in Hp. rewrite (hr_count _ _ R), Hp. f_equal. unfold numbered.
  assert (0 ≤ entered cs) by (unfold entered; lia).
  destruct (decide (max ≤ entered cs)).
  - by rewrite Z.max_r, Z.min_l, Z2Nat.id by (unfold max in *; lia).
  - rewrite Z.max_l, Z.min_r, Z2Nat.id by (unfold max in *; lia).
    replace max with ((max - entered cs) + entered cs) at 2 by lia.
    rewrite seqZ_app by (unfold max in *; lia). rewrite fmap_app, filter_app.
    rewrite <- (Z2Nat.id (max - entered cs)) by lia. rewrite filter_negative by (unfold max in *; lia).
    simpl. do 2 f_equal. f_equal. unfold max in *. lia.
Qed.

(** C25: from an empty history, entering any commands shorter than a row keeps
    every access in bounds, and [print_history] then prints the last 100 of
    them that are not empty, oldest first, each with its number of entry. *)
Theorem print_history_correct cs :
  Forall (λ s, (length s < ROW)%nat) cs → entered cs ≤ INT_MAX →
  ∃ h, add_all hist_init cs = Ok h ∧
       print_history h = Ok (filter (λ p : Z * cstr, p.2 ≠ []) (numbered cs)).
Proof.
  intros Hf Hi. destruct (add_all_rep _ [] cs hist_init_rep Hf ltac:(done)) as (h & ? & R).
  exists h. split; [done|]. by apply print_history_rep.
Qed.

(** [get_cmd] returns a copy of the command with the given number exactly
    when it is among the last 100, but for the number of the next command,
    for which it returns the oldest command of the full ring (and the empty
    string before the ring is full): the upper bound of its test is one too
    large. *)
Lemma get_cmd_correct h cs num :
  hist_rep h cs →
  get_cmd h num = Ok (
    if decide (Z.max 0 (entered cs - max) ≤ num < entered cs) then Some (entry cs num)
    else if decide (num = entered cs) then Some (entry cs (num - max))
    else None).
Proof.
  intros R. assert (0 ≤ entered cs) as H0 by (unfold entered; lia).
  case_decide as Hn; [by apply get_cmd_in|]. unfold get_cmd. rewrite (hr_min _ _ R), (hr_count _ _ R).
  destruct (decide (num = entered cs)) as [->|Hc].
  - rewrite decide_True by (unfold max in *; lia).
    rewrite (row_rem h cs R _ 1) by (unfold max; lia). simpl. unfold strcpy.
    pose proof (entry_fits h cs R (entered cs - 1 * max)). rewrite decide_True by lia. simpl.
    by rewrite Z.mul_1_l.
  - by rewrite decide_False by lia.
Qed.

(** The most recent command numbered from [lo] that starts with [p]. *)
Fixpoint latest (k : nat) (cs : list cstr) (p : cstr) (n : Z) : option cstr :=
  match k with
  | O => None
  | S k' => if strncmp_eq (entry cs n) p (length p) then Some (entry cs n)
            else latest k' cs p (n - 1)
  end.

Lemma find_loop_S k h p i :
  find_loop (S k) h p i =
    if decide (i >= minimum h)
    then
      c ← get_cmd h i;
      match c with
      | Some s => if strncmp_eq s p (length p) then temp ← strcpy FIND_CAP s; Ok (Some temp)
                  else find_loop k h p (i - 1)
      | None => find_loop k h p (i - 1)
      end
    else Ok None.
Proof. done. Qed.

Lemma find_loop_rep h cs p k n :
  hist_rep h cs → n < entered cs → n - Z.of_nat k = Z.max 0 (entered cs - max) - 1 →
  find_loop (S k) h p n =
    match latest k cs p n with
    | Some s => temp ← strcpy FIND_CAP s; Ok (Some temp)
    | None => Ok None
    end.
Proof.
  intros R. revert n. induction k as [|k IH]; intros n Hn Hk; rewrite find_loop_S, (hr_min _ _ R); cbn [latest].
  - by rewrite decide_False by lia.
  - rewrite decide_True by lia. rewrite (get_cmd_in h cs R) by lia. cbn [mbind outcome_bind].
    destruct (strncmp_eq _ _ _); [done|]. apply IH; lia.
Qed.

Lemma latest_spec k cs p n :
  match latest k cs p n with
  | Some s => ∃ m, n - Z.of_nat k < m ≤ n ∧ s = entry cs m ∧ p `prefix_of` s ∧
                   ∀ m', m < m' ≤ n → ¬ p `prefix_of` entry cs m'
  | None => ∀ m, n - Z.of_nat k < m ≤ n → ¬ p `prefix_of` entry cs m
  end.
Proof.
  assert (∀ s, strncmp_eq s p (length p) = true ↔ p `prefix_of` s) as Hp.
  { intros s. unfold strncmp_eq. rewrite bool_decide_eq_true, (take_ge p) by done. split.
    - intros <-. apply prefix_take.
    - intros [t ->]. by rewrite take_app_length. }
  revert n. induction k as [|k IH]; intros n; simpl; [intros; lia|].
  destruct (strncmp_eq _ _ _) eqn:He.
  - exists n. split_and!; [lia..|done|by apply Hp|]. intros; lia.
  - assert (¬ p `prefix_of` entry cs n) as Hnp by (by rewrite <- Hp, He).
    specialize (IH (n - 1)). destruct (latest k cs p (n - 1)).
    + destruct IH as (m & ? & ? & ? & Hl). exists m. split_and!; [lia..|done|done|].
      intros m' Hm'. destruct (decide (m' = n)) as [->|]; [done|]. apply Hl. lia.
    + intros m Hm. destruct (decide (m = n)) as [->|]; [done|]. apply IH. lia.
Qed.

(** [find_cmd] terminates; when no command of the last 100 starts with the
    prefix it returns NULL; otherwise it finds the most recent one that does,
    and returns a copy of it if it has at most 8 characters: the copy is
    allocated with the size of a pointer, and a longer command overruns it. *)
Lemma find_cmd_correct h cs p :
  hist_rep h cs →
  (find_cmd h p = Ok None ∧
   ∀ m, Z.max 0 (entered cs - max) ≤ m < entered cs → ¬ p `prefix_of` entry cs m) ∨
  ∃ m, Z.max 0 (entered cs - max) ≤ m < entered cs ∧ p `prefix_of` entry cs m ∧
       (∀ m', m < m' < entered cs → ¬ p `prefix_of` entry cs m') ∧
       find_cmd h p = if decide (length (entry cs m) ≤ 8)%nat then Ok (Some (entry cs m))
                      else Undef OutOfBounds.
Proof.
  intros R. assert (0 ≤ entered cs) by (unfold entered; lia).
  unfold find_cmd. rewrite (hr_count _ _ R), (hr_min _ _ R).
  set (k := Z.to_nat (entered cs - Z.max 0 (entered cs - max))).
  assert (Z.of_nat k = entered cs - Z.max 0 (entered cs - max)) as Hk by (unfold k, max in *; lia).
  rewrite (find_loop_rep h cs) by (done || lia).
  pose proof (latest_spec k cs p (entered cs - 1)) as Hl.
  destruct (latest k cs p (entered cs - 1)) as [s|].
  - right. destruct Hl as (m & ? & -> & ? & Hl). exists m.
    split_and!; [lia..|done| |].
    + intros m' ?. apply Hl. lia.
    + unfold strcpy, FIND_CAP. by repeat case_decide; try lia.
  - left. split; [done|]. intros m Hm. apply Hl. lia.
Qed.

(** C26: looking up past commands. get_cmd returns a copy of the command with
    the given number exactly when it is among the last 100, but for the number
    of the next command, for which it returns the oldest one of a full ring:
    the upper bound of its test is one too large. find_cmd terminates, and
    returns NULL when no command of the last 100 starts with the prefix;
    otherwise it finds the most recent one that does, and returns a copy of it
    if it has at most 8 characters: the copy is allocated with the size of a
    pointer, and a longer command overruns it. *)
Theorem history_lookup h cs :
  hist_rep h cs →
  (∀ num, get_cmd h num = Ok (
    if decide (Z.max 0 (entered cs - max) ≤ num < entered cs) then Some (entry cs num)
    else if decide (num = entered cs) then Some (entry cs (num - max))
    else None)) ∧
  ∀ p,
    (find_cmd h p = Ok None ∧
     ∀ m, Z.max 0 (entered cs - max) ≤ m < entered cs → ¬ p `prefix_of` entry cs m) ∨
    ∃ m, Z.max 0 (entered cs - max) ≤ m < entered cs ∧ p `prefix_of` entry cs m ∧
         (∀ m', m < m' < entered cs → ¬ p `prefix_of` entry cs m') ∧
         find_cmd h p = if decide (length (entry cs m) ≤ 8)%nat then Ok (Some (entry cs m))
                        else Undef OutOfBounds.
Proof. intros R. split; intros; [by apply get_cmd_correct|by apply find_cmd_correct]. Qed.

(** * At concrete histories *)
Definition demo_cmds : list cstr := map lit ["ls -l"; "cat notes.txt"; "ls"; "pwd"].
Definition demo_hist : hist := get hist_init (add_all hist_init demo_cmds).

Lemma demo_fit : Forall (λ s, (length s < ROW)%nat) demo_cmds.
Proof.
  apply (Forall_impl (λ s : cstr, Z.of_nat (length s) < 100000)); [decide_now|].
  unfold ROW. intros; lia.
Qed.

Lemma demo_rep : hist_rep demo_hist demo_cmds.
Proof.
  destruct (add_all_rep hist_init [] demo_cmds hist_init_rep) as (h & Hh & R).
  - apply demo_fit.
  - by vm_compute.
  - unfold demo_hist. rewrite Hh. done.
Qed.

Lemma print_history_correct_witness :
  ∃ h, add_all hist_init demo_cmds = Ok h ∧
       print_history h = Ok (filter (λ p : Z * cstr, p.2 ≠ []) (numbered demo_cmds)).
Proof.
  apply (print_history_correct demo_cmds).
  - apply demo_fit.
  - by vm_compute.
Defined.

Lemma history_lookup_witness :
  get_cmd demo_hist 2 = Ok (
    if decide (Z.max 0 (entered demo_cmds - max) ≤ 2 < entered demo_cmds) then Some (entry demo_cmds 2)
    else if decide (2 = entered demo_cmds) then Some (entry demo_cmds (2 - max)) else None).
Proof. apply (history_lookup demo_hist demo_cmds), demo_rep. Defined.

(** The third command is found, the second is too long to be copied. *)
Example demo_finds :
  find_cmd demo_hist (lit "l") = Ok (Some (lit "ls")) ∧
  find_cmd demo_hist (lit "cat") = Undef OutOfBounds ∧
  print_history demo_hist = Ok (zip [0; 1; 2; 3] demo_cmds).
Proof. by vm_compute. Qed.
