(* ===== verification/ShellTokenizer.v ===== *)
(** The shell's tokenizers: [next_token] with quoting (Project2/tokenizer.c)
    and [tokenizer] (Project2/shell.c), which fills the token array of a
    command line. *)
From Stdlib Require Import ZArith Lia Ascii.
From stdpp Require Import prelude gmap strings numbers list.
From S2P Require Import Prelude CString Tokenizer History.
Open Scope nat_scope.

(** * The code of tokenizer.c *)
Definition quotes : cstr := ["'"; "034"]%char.

Definition next_token (buf : cstr) (str_ptr : option nat) (delim : cstr)
    : outcome (cstr * option nat * option nat) :=
  match str_ptr with
  | None => Ok (buf, None, None)
  | Some p =>
      tok_st ← strspn (drop p buf) delim;
      tok_end ← strcspn (drop (p + tok_st) buf) delim;
      quote_st ← strcspn (drop p buf) quotes;
      let offset := quote_st + 1 in
      tok_end ← (if decide (quote_st < tok_end)
                 then
                   q ← load buf (p + quote_st);
                   e ← strcspn (drop (p + offset) buf) [q];
                   let quote_end := e + offset in
                   t ← strcspn (drop (p + quote_end) buf) delim;
                   Ok (Z.to_nat (CInt.wrap64 (Z.of_nat t + Z.of_nat quote_end - Z.of_nat tok_st)))
                 else Ok tok_end);
      if decide (tok_end ≤ 0) then Ok (buf, None, None)
      else
        let current_ptr := p + tok_st in
        let str_ptr' := p + (tok_st + tok_end) in
        c ← load buf str_ptr';
        if decide (c = nul) then Ok (buf, None, Some current_ptr)
        else
          buf' ← store buf str_ptr' nul;
          Ok (buf', Some (S str_ptr'), Some current_ptr)
  end.

(** * The code of shell.c *)
Definition MAX_TOKENS : Z := 5000.
Definition SEPARATORS : cstr := [" "; "009"; "013"; "010"]%char.

(** [while (i <= 5000 && ...) tokens[i++] = curr_tok]: the array after the
    loop and the pointers stored from [tokens[i]] on. *)
Fixpoint tokens_loop (fuel : nat) (buf : cstr) (sp : option nat) (i : Z)
    : outcome (cstr * list nat) :=
  match fuel with
  | 0 => OutOfFuel
  | S f =>
      if decide (i ≤ 5000)%Z
      then
        '(buf', sp', ret) ← next_token buf sp SEPARATORS;
        match ret with
        | None => Ok (buf', [])
        | Some tok =>
            c ← load buf' tok;
            if decide (c = "#"%char) then Ok (buf', [])
            else if decide (i < MAX_TOKENS)%Z
            then '(buf'', toks) ← tokens_loop f buf' sp' (i + 1); Ok (buf'', tok :: toks)
            else Undef OutOfBounds
        end
      else Ok (buf, [])
  end.

(** The shell's variables the function changes. *)
Record shell_vars := MkVars { num_cmds : Z; hist_of : hist }.

(** A line that starts with [#] is counted and entered in the history. *)
Definition note_comment (v : shell_vars) (str : cstr) : outcome shell_vars :=
  if strncmp_eq str (lit "#") 1
  then n ← CInt.int_result (num_cmds v + 1);
       h ← add_history (hist_of v) str;
       Ok (MkVars n h)
  else Ok v.

(** [tokenizer(tokens, str)] where [str] is the start of the array [buf]. The
    result holds the entries of [tokens] up to the NULL stored at their end;
    their number is [num_tokens]. *)
Definition tokenizer (v : shell_vars) (buf : cstr) : outcome (shell_vars * cstr * list nat) :=
  str ← string_at buf 0;
  v' ← note_comment v str;
  '(buf', toks) ← tokens_loop (length buf + 2) buf (Some 0) 0;
  if decide (Z.of_nat (length toks) < MAX_TOKENS)%Z
  then Ok (v', buf', toks)
  else Undef OutOfBounds.

(** * Strings without quotes *)
Definition no_quotes (s : cstr) : Prop := ∀ c, c ∈ s → c ∉ quotes.

Lemma quote_scan pre s post :
  nul ∉ s → no_quotes s → strcspn (drop (length pre) (pre ++ s ++ nul :: post)) quotes = Ok (length s).
Proof. intros Hs Hq. rewrite drop_app_exact by done. apply strcspn_app; [done|done|by left]. Qed.

(** On a string without quote characters the shell's [next_token] is the
    plain [next_token]. *)
Lemma next_token_unquoted pre s post delim :
  nul ∉ s → nul ∉ delim → no_quotes s →
  next_token (pre ++ s ++ nul :: post) (Some (length pre)) delim =
    Tokenizer.next_token (pre ++ s ++ nul :: post) (Some (length pre)) delim.
Proof.
  intros Hs Hd Hq. destruct (scan_parts pre s post delim Hs Hd) as [H1 H2].
  unfold next_token, Tokenizer.next_token. rewrite H1. simpl. rewrite H2. simpl.
  rewrite quote_scan by done. simpl. rewrite (decide_False (P := length s < _)); [done|].
  pose proof (f_equal length (parts delim s)). len.
Qed.

#[export] Instance next_token_shell : Tokenizer next_token no_quotes.
Proof.
  split.
  - intros l r H c Hc. apply H, elem_of_app. by right.
  - done.
  - intros pre s post delim Hs Hd Hq. rewrite next_token_unquoted by done.
    by apply (next_some (ok := λ _, True)).
Qed.

(** * Quoted words *)
Section quoted.
Context (delim l a b c r : cstr) (q : ascii).
(** Delimiters [l], then a word with a quoted part: [a] before the quote, [b]
    inside, [c] after it, up to the end or the next delimiter. *)
Context (Hdelim : (nul ∉ delim) ∧ (∀ x, x ∈ delim → x ∉ quotes)).
Context (Hq : q ∈ quotes).
Context (Hl : ∀ x, x ∈ l → x ∈ delim) (Ha : ∀ x, x ∈ a → (x ∉ delim) ∧ (x ∉ quotes)).
Context (Hb : q ∉ b) (Hc : ∀ x, x ∈ c → x ∉ delim).
Context (Hr : ∀ x, head r = Some x → x ∈ delim).
Let s := l ++ a ++ q :: b ++ q :: c ++ r.
Context (Hs : nul ∉ s) (Hsz : (Z.of_nat (length s) < 18446744073709551616)%Z).

(** The length of the word as the plain scan sees it: up to the first
    delimiter, which may be inside the quotes. *)
Definition raw_length : nat :=
  length a + 1 + length (take_while (negb ∘ in_set delim) (b ++ q :: c)).

Lemma quote_not_delim : q ∉ delim.
Proof. intros Hin. by apply (proj2 Hdelim q). Qed.

Lemma take_while_run (u v : cstr) :
  (∀ x, x ∈ u → x ∉ delim) → take_while (negb ∘ in_set delim) (u ++ v) = u ++ take_while (negb ∘ in_set delim) v.
Proof.
  induction u as [|x u IH]; intros Hu; simpl; [done|]. unfold compose.
  rewrite (proj2 (in_set_false delim x)) by set_solver. simpl. f_equal. apply IH. set_solver.
Qed.

Lemma quoted_lead : lead delim s = l.
Proof.
  unfold lead, s. pose proof quote_not_delim as Hqd.
  assert (Forall (λ x, in_set delim x = true) l) as Hl'.
  { apply Forall_forall. intros x Hx. by apply in_set_true, Hl. }
  destruct a as [|x a']; simpl; apply take_while_app_stop; try done; apply in_set_false; [done|].
  apply Ha. set_solver.
Qed.

Lemma take_while_stop (u v : cstr) :
  (∀ x, head v = Some x → x ∈ delim) →
  take_while (negb ∘ in_set delim) (u ++ v) = take_while (negb ∘ in_set delim) u.
Proof.
  intros Hv. induction u as [|x u IH]; simpl.
  - destruct v as [|y v]; [done|]. simpl. unfold compose.
    pose proof (Hv y eq_refl) as Hy%in_set_true. by rewrite Hy.
  - unfold compose in *. destruct (in_set delim x); simpl; [done|]. by rewrite IH.
Qed.

Lemma quoted_raw : length (first_tok delim s) = raw_length.
Proof.
  unfold first_tok, body, raw_length. pose proof (parts delim s) as Hp.
  assert (drop_while (in_set delim) s = a ++ q :: b ++ q :: c ++ r) as ->.
  { pose proof (take_drop_while (in_set delim) s) as Ht. fold (lead delim s) in Ht.
    rewrite quoted_lead in Ht. unfold s in Ht at 2. by apply app_inv_head in Ht. }
  replace (a ++ q :: b ++ q :: c ++ r) with ((a ++ [q]) ++ (b ++ q :: c) ++ r)
    by (by rewrite <- !app_assoc).
  rewrite take_while_run, take_while_stop by (done || set_solver).
  rewrite !length_app. simpl. lia.
Qed.

Lemma quoted_scans pre post :
  let buf := pre ++ s ++ nul :: post in
  strcspn (drop (length pre) buf) quotes = Ok (length l + length a) ∧
  load buf (length pre + (length l + length a)) = Ok q ∧
  strcspn (drop (length pre + (length l + length a + 1)) buf) [q] = Ok (length b) ∧
  strcspn (drop (length pre + (length b + (length l + length a + 1))) buf) delim
  = Ok (1 + length c).
Proof.
  intros buf. assert (nul ∉ quotes) as Hnq by decide_now. pose proof quote_not_delim as Hqd.
  assert (q ≠ nul) as Hqn by (intros ->; done). unfold s in Hs.
  assert (buf = pre ++ (l ++ a) ++ q :: b ++ q :: c ++ r ++ nul :: post) as E1
    by (unfold buf, s; app_eq).
  assert (buf = (pre ++ l ++ a ++ [q]) ++ b ++ q :: c ++ r ++ nul :: post) as E2
    by (rewrite E1; app_eq).
  assert (buf = (pre ++ l ++ a ++ q :: b) ++ (q :: c) ++ r ++ nul :: post) as E3
    by (rewrite E1; app_eq).
  split_and!.
  - rewrite E1, drop_app_exact by done. rewrite (strcspn_app (l ++ a)); [by rewrite length_app| |..].
    + set_solver.
    + intros x [Hx|Hx]%elem_of_app; [by apply Hdelim, Hl|by apply Ha].
    + by right.
  - unfold load. rewrite E1, app_assoc, lookup_middle_eq; [done|len].
  - rewrite E2, drop_app_exact by len. apply strcspn_app; set_solver.
  - rewrite E3, drop_app_exact by len. destruct r as [|d r']; simpl.
    + apply (strcspn_app (q :: c)); [set_solver| |by left]. intros x [->|Hx]%elem_of_cons; [done|auto].
    + apply (strcspn_app (q :: c)); [set_solver| |right; by apply Hr].
      intros x [->|Hx]%elem_of_cons; [done|auto].
Qed.

(** A call that finds a token [t] of the string cuts it off there. *)
Lemma cut_token pre post t rest :
  s = l ++ t ++ rest →
  ∃ buf sp,
  (let str_ptr' := length pre + (length l + length t) in
    c ← load (pre ++ s ++ nul :: post) str_ptr';
    if decide (c = nul) then Ok (pre ++ s ++ nul :: post, None, Some (length pre + length l))
    else
    buf' ← store (pre ++ s ++ nul :: post) str_ptr' nul;
    Ok (buf', Some (S str_ptr'), Some (length pre + length l))) = Ok (buf, sp, Some (length pre + length l)) ∧
  string_at buf (length pre + length l) = Ok t ∧
  match sp with
  | None => rest = [] ∧ buf = pre ++ s ++ nul :: post
  | Some p' => string_at buf p' = Ok (drop 1 rest) ∧ rest ≠ []
  end.
Proof.
  clear Hsz Hr Ha Hb Hc Hl Hq Hdelim. intros E. clearbody s. subst s.
  assert (pre ++ (l ++ t ++ rest) ++ nul :: post = (pre ++ l) ++ t ++ rest ++ nul :: post) as -> by app_eq.
  unfold load. cbn zeta. rewrite (app_assoc _ t). destruct rest as [|d r']; simpl.
  - rewrite lookup_middle_eq by len. simpl. do 2 eexists. split; [done|].
    split; [|done]. rewrite <- app_assoc. apply string_at_app; [len|set_solver].
  - rewrite lookup_middle_eq by len. simpl.
    assert (d ≠ nul) as Hdn by set_solver.
    rewrite decide_False by done. rewrite store_ok by len. simpl.
    rewrite insert_middle by len. do 2 eexists. split; [done|]. split.
    + rewrite <- app_assoc. apply string_at_app; [len|set_solver].
    + split; [|done]. rewrite cons_middle, app_assoc. apply string_at_app; [len|set_solver].
Qed.

(** Whether the word is returned whole: the quote is seen, or there is nothing
    in it to stop at. *)
Definition whole : bool := bool_decide (length l + length a < raw_length) || forallb (negb ∘ in_set delim) b.
Definition quoted_word : cstr := a ++ q :: b ++ q :: c.
Definition token_of_word : cstr := if whole then quoted_word else a ++ q :: take_while (negb ∘ in_set delim) b.
Definition after_word : cstr := if whole then r else drop_while (negb ∘ in_set delim) b ++ q :: c ++ r.

Lemma take_drop_stop (f : ascii → bool) (u v : cstr) :
  (forallb f u = true → take_while f (u ++ v) = u ++ take_while f v ∧ drop_while f (u ++ v) = drop_while f v) ∧
  (forallb f u = false → take_while f (u ++ v) = take_while f u ∧ drop_while f (u ++ v) = drop_while f u ++ v ∧
    length (take_while f u) < length u).
Proof.
  induction u as [|x u [IH1 IH2]]; simpl; [done|]. destruct (f x); simpl; [|split; [done|intros _; split_and!; [done|done|lia]]].
  split.
  - intros H. by destruct (IH1 H) as [-> ->].
  - intros H. destruct (IH2 H) as (-> & -> & ?). split_and!; [done|done|lia].
Qed.

(** The parts of the string a call that does not see the quote cuts. *)
Lemma unseen_parts :
  ¬ length l + length a < raw_length → s = l ++ token_of_word ++ after_word ∧ length token_of_word = raw_length.
Proof.
  intros Hn. unfold token_of_word, after_word, whole, raw_length, quoted_word in *. rewrite bool_decide_false by done. cbn [orb].
  set (f := negb ∘ in_set delim) in *. destruct (take_drop_stop f b (q :: c)) as [H1 H2].
  destruct (forallb f b).
  - destruct (H1 eq_refl) as [-> _]. assert (take_while f (q :: c) = q :: c) as ->.
    { rewrite <- (app_nil_r (q :: c)) at 1. unfold f. rewrite take_while_run; [by rewrite app_nil_r|].
      intros x [->|Hx]%elem_of_cons; [by apply quote_not_delim|by apply Hc]. }
    split; [unfold s; app_eq|]. repeat (rewrite length_app; simpl). lia.
  - destruct (H2 eq_refl) as (-> & _ & _). split.
    + unfold s. rewrite <- (take_drop_while f b) at 1. app_eq.
    + rewrite length_app. simpl. lia.
Qed.

(** C34: the call on blanks [l] and a word with a quoted part [b]: [a] before
    the quote, [c] after the closing one.  The word is returned whole,
    delimiters inside the quotes included, exactly when the blanks are few
    enough (fewer than what a plain scan would return less the part before
    the quote) or there is no delimiter inside the quotes; otherwise it is cut
    at the first delimiter inside them.  The rest of the string is left for
    the next call. *)
Theorem next_token_quoted pre post :
  (token_of_word = quoted_word ↔ whole = true) ∧
  ∃ buf sp, next_token (pre ++ s ++ nul :: post) (Some (length pre)) delim = Ok (buf, sp, Some (length pre + length l)) ∧
  string_at buf (length pre + length l) = Ok token_of_word ∧
  match sp with
  | None => after_word = [] ∧ buf = pre ++ s ++ nul :: post
  | Some p' => string_at buf p' = Ok (drop 1 after_word) ∧ after_word ≠ []
  end.
Proof.
  split.
  { unfold token_of_word, quoted_word. destruct whole eqn:Hw; [done|]. split; [|done].
    apply orb_false_iff in Hw as [_ Hw]. destruct (take_drop_stop (negb ∘ in_set delim) b []) as [_ H].
    destruct (H Hw) as (_ & _ & Hlt). intros E%(f_equal length). repeat (rewrite length_app in E; simpl in E). lia. }
  destruct (scan_parts pre s post delim Hs (proj1 Hdelim)) as [H1 H2].
  destruct (quoted_scans pre post) as (Q1 & Q2 & Q3 & Q4).
  rewrite quoted_lead in H1, H2. rewrite quoted_raw in H2.
  unfold next_token. rewrite H1. simpl. rewrite H2. simpl. rewrite Q1. simpl.
  destruct (decide (length l + length a < raw_length)) as [Hin|Hout].
  - rewrite Q2. simpl. rewrite Q3. simpl. rewrite Q4. simpl. clear H1 H2 Q1 Q2 Q3 Q4.
    unfold token_of_word, after_word, whole. rewrite bool_decide_true by done. cbn [orb].
    assert (length s = length l + length a + length b + length c + length r + 2) as Hlen
      by (unfold s; repeat (rewrite length_app; simpl); lia).
    assert (length quoted_word = length a + length b + length c + 2) as Hw
      by (unfold quoted_word; repeat (rewrite length_app; simpl); lia).
    rewrite CInt.wrap64_small by lia. replace (Z.to_nat _) with (length quoted_word) by lia.
    rewrite decide_False by lia. apply cut_token. unfold s, quoted_word. app_eq.
  - destruct (unseen_parts Hout) as [Hp Hl']. cbn [mbind outcome_bind].
    rewrite decide_False by (unfold raw_length; lia). rewrite <- Hl'. by apply cut_token.
Qed.
End quoted.

(** * The token array of a line *)

(** A token that ends the loop. *)
Definition comment_token (t : cstr) : bool := bool_decide (head t = Some "#"%char).
Definition line_tokens (s : cstr) : list cstr :=
  take_while (negb ∘ comment_token) (split SEPARATORS s).

Lemma split_nonempty delim s t : t ∈ split delim s → t ≠ [].
Proof.
  remember (length s) as n eqn:Hn. revert s Hn. induction (lt_wf n) as [n _ IH]. intros s ->.
  rewrite split_unfold. destruct (first_tok delim s) as [|c u] eqn:Ef; [set_solver|].
  intros [->|Hin]%elem_of_cons; [done|].
  pose proof (f_equal length (parts delim s)) as Hp. rewrite Ef in Hp.
  repeat (rewrite length_app in Hp; simpl in Hp).
  eapply (IH (length (List.tl (after_tok delim s)))); [|done|done].
  destruct (after_tok delim s); simpl in *; lia.
Qed.

Lemma comment_load buf p t :
  t ≠ [] → string_at buf p = Ok t → ∃ c, load buf p = Ok c ∧ (c = "#"%char ↔ comment_token t = true).
Proof.
  intros Hne Hp. destruct t as [|c t]; [done|]. exists c. split; [by eapply load_string|].
  unfold comment_token. rewrite bool_decide_eq_true. simpl. naive_solver.
Qed.

Lemma tokens_loop_S f buf sp i :
  tokens_loop (S f) buf sp i =
    if decide (i ≤ 5000)%Z
    then
      '(buf', sp', ret) ← next_token buf sp SEPARATORS;
      match ret with
      | None => Ok (buf', [])
      | Some tok =>
          c ← load buf' tok;
          if decide (c = "#"%char) then Ok (buf', [])
          else if decide (i < MAX_TOKENS)%Z
          then '(buf'', toks) ← tokens_loop f buf' sp' (i + 1); Ok (buf'', tok :: toks)
          else Undef OutOfBounds
      end
    else Ok (buf, []).
Proof. done. Qed.

(** The loop stores the tokens before the first comment, or runs past the end
    of the array. *)
Lemma tokens_loop_ok fuel pre s post i :
  nul ∉ s → no_quotes s → length s + 1 < fuel → (0 ≤ i ≤ MAX_TOKENS)%Z →
  let ts := line_tokens s in
  if decide (i + Z.of_nat (length ts) ≤ MAX_TOKENS)%Z
  then ∃ buf toks, tokens_loop fuel (pre ++ s ++ nul :: post) (Some (length pre)) i = Ok (buf, toks) ∧
                   loop_result pre s post ts buf toks
  else tokens_loop fuel (pre ++ s ++ nul :: post) (Some (length pre)) i = Undef OutOfBounds.
Proof.
  revert pre s i. induction fuel as [|fuel IH]; intros pre s i Hs Hq Hf Hi ts; [lia|].
  rewrite tokens_loop_S, (decide_True (P := (i ≤ 5000)%Z)) by (unfold MAX_TOKENS in *; lia).
  assert (nul ∉ SEPARATORS) as Hsep by decide_now.
  unfold ts, line_tokens in *. pose proof (split_nonempty SEPARATORS s) as Hne.
  destruct (next_step next_token no_quotes pre s post SEPARATORS Hs Hsep Hq)
    as [Hsp|p t Hsp Hp|t pre' r p Hsp Hr Hqr (u & -> & Hu) Hlt Hp]; rewrite Hsp in *; simpl.
  - rewrite decide_True by lia. do 2 eexists. split; [done|]. split; [by exists s|constructor].
  - destruct (comment_load _ _ _ (Hne t ltac:(set_solver)) Hp) as (c & -> & Hc). simpl. unfold compose.
    destruct (comment_token t) eqn:Et; simpl.
    + rewrite !decide_True by (tauto || lia). do 2 eexists. split; [done|]. split; [by exists s|constructor].
    + rewrite (decide_False (P := c = "#"%char)) by (rewrite Hc; done).
      destruct fuel as [|fuel]; [lia|].
      repeat case_decide; try lia; [|done]. rewrite tokens_loop_S. simpl.
      rewrite decide_True by (unfold MAX_TOKENS in *; lia).
      do 2 eexists. split; [done|]. split; [by exists s|by repeat constructor].
  - destruct (comment_load ((pre ++ u) ++ r ++ nul :: post) _ _ (Hne t ltac:(set_solver)) (Hp _))
      as (c & -> & Hc). simpl. unfold compose.
    destruct (comment_token t) eqn:Et; simpl.
    + rewrite !decide_True by (tauto || lia). do 2 eexists. split; [done|].
      split; [|constructor]. exists (u ++ r). split; [app_eq|len].
    + rewrite (decide_False (P := c = "#"%char)) by (rewrite Hc; done).
      destruct (decide (i < MAX_TOKENS)%Z); [|by rewrite decide_False by lia].
      specialize (IH (pre ++ u) r (i + 1)%Z Hr Hqr ltac:(lia) ltac:(lia)).
      unfold line_tokens in IH. fold (comment_token) in *.
      set (ts' := take_while (negb ∘ comment_token) (split SEPARATORS r)) in *.
      change (take_while _ (split SEPARATORS r)) with ts'.
      destruct (decide (i + 1 + Z.of_nat (length ts') ≤ MAX_TOKENS)%Z).
      * rewrite decide_True by lia. destruct IH as (buf & toks & -> & Hres). simpl.
        do 2 eexists. split; [done|]. by eapply loop_result_more.
      * rewrite decide_False by lia. by rewrite IH.
Qed.

Lemma tokenizer_line v v' s post :
  nul ∉ s → no_quotes s → note_comment v s = Ok v' →
  let ts := line_tokens s in
  if decide (Z.of_nat (length ts) < MAX_TOKENS)%Z
  then ∃ buf toks, tokenizer v (s ++ nul :: post) = Ok (v', buf, toks) ∧
                   mapM (string_at buf) toks = Ok ts
  else tokenizer v (s ++ nul :: post) = Undef OutOfBounds.
Proof.
  intros Hs Hq Hv ts. unfold tokenizer.
  pose proof (string_at_app [] s post 0 eq_refl Hs) as Hstr. simpl in Hstr. rewrite Hstr. simpl.
  rewrite Hv. simpl.
  pose proof (tokens_loop_ok (length (s ++ nul :: post) + 2) [] s post 0 Hs Hq) as Hloop.
  simpl in Hloop. specialize (Hloop ltac:(len) ltac:(done)). fold ts in Hloop.
  destruct (decide (Z.of_nat (length ts) ≤ MAX_TOKENS)%Z) as [Hle|]; last first.
  { rewrite decide_False in Hloop by lia. rewrite decide_False by lia. by rewrite Hloop. }
  rewrite decide_True in Hloop by lia. destruct Hloop as (buf & toks & -> & Hres). simpl.
  pose proof (Forall2_length _ _ _ (loop_toks _ _ _ _ _ _ Hres)) as Hlen. rewrite Hlen.
  case_decide; [|done]. do 2 eexists. split; [done|]. by eapply loop_strings.
Qed.

(** A comment line is counted and entered in the history. *)
Lemma note_comment_rep v cs s :
  hist_rep (hist_of v) cs → (length s < ROW)%nat → (entered cs < CInt.INT_MAX)%Z →
  (CInt.INT_MIN ≤ num_cmds v < CInt.INT_MAX)%Z →
  ∃ v', note_comment v s = Ok v' ∧
    if decide (head s = Some "#"%char)
    then num_cmds v' = (num_cmds v + 1)%Z ∧ hist_rep (hist_of v') (cs ++ [s])
    else v' = v.
Proof.
  intros R Hl Hi Hn. unfold note_comment, strncmp_eq. case_decide as Hh.
  - rewrite bool_decide_true by (destruct s as [|x s']; [done|]; by injection Hh as ->).
    rewrite CInt.int_result_ok by lia. cbn [mbind outcome_bind].
    destruct (add_history_rep _ cs s R Hl Hi) as (h & -> & R'). by eexists.
  - rewrite bool_decide_false by (destruct s as [|x s']; [done|]; by intros [= ->]). by eexists.
Qed.

(** C10: on a line without quotes and shorter than a row of the history,
    [tokenizer] counts a line that starts with [#] and enters it in the history,
    and changes neither for another line; and then leaves in [tokens],
    NULL-terminated and in order, the words of the line up to the first word
    that starts with [#]; with 5000 words or more it writes past the end of the
    array. *)
Theorem tokenizer_correct v cs s post :
  nul ∉ s → no_quotes s → (length s < ROW)%nat → hist_rep (hist_of v) cs → (entered cs < CInt.INT_MAX)%Z →
  (CInt.INT_MIN ≤ num_cmds v < CInt.INT_MAX)%Z →
  let ts := line_tokens s in
  if decide (Z.of_nat (length ts) < MAX_TOKENS)%Z
  then ∃ v' buf toks, tokenizer v (s ++ nul :: post) = Ok (v', buf, toks) ∧
    mapM (string_at buf) toks = Ok ts ∧
    if decide (head s = Some "#"%char)
    then num_cmds v' = (num_cmds v + 1)%Z ∧ hist_rep (hist_of v') (cs ++ [s])
    else v' = v
  else tokenizer v (s ++ nul :: post) = Undef OutOfBounds.
Proof.
  intros Hs Hq Hl R Hi Hn ts. destruct (note_comment_rep v cs s R Hl Hi Hn) as (v' & Hv & Hv').
  pose proof (tokenizer_line v v' s post Hs Hq Hv) as H. fold ts in H. cbn zeta in H.
  destruct (decide (Z.of_nat (length ts) < MAX_TOKENS)%Z); [|done].
  destruct H as (buf & toks & H1 & H2). by exists v', buf, toks.
Qed.

(** * At concrete lines *)
Definition demo_vars : shell_vars := MkVars 0 hist_init.
Definition demo_line : cstr := lit "ls -l  /tmp # all" ++ ["010"%char].

Lemma plain_line (s : cstr) : Forall (λ c : ascii, c ∉ quotes) s → no_quotes s.
Proof. intros H. exact (proj1 (Forall_forall (λ c : ascii, c ∉ quotes) s) H). Qed.

(** A comment is recorded, and its first word ends the line. *)
Definition demo_comment : cstr := lit "# ls" ++ ["010"%char].
Lemma tokenizer_correct_witness :
  (∃ v' buf toks, tokenizer demo_vars (demo_line ++ nul :: []) = Ok (v', buf, toks) ∧
     mapM (string_at buf) toks = Ok (map lit ["ls"; "-l"; "/tmp"]) ∧ v' = demo_vars) ∧
  ∃ v' buf toks, tokenizer demo_vars (demo_comment ++ nul :: []) = Ok (v', buf, toks) ∧
    mapM (string_at buf) toks = Ok [] ∧ num_cmds v' = 1%Z ∧ hist_rep (hist_of v') [demo_comment].
Proof.
  split.
  - apply (tokenizer_correct demo_vars [] demo_line []);
      [decide_now|apply plain_line; decide_now|apply Nat.ltb_lt; by vm_compute|apply hist_init_rep|done|done].
  - apply (tokenizer_correct demo_vars [] demo_comment []);
      [decide_now|apply plain_line; decide_now|apply Nat.ltb_lt; by vm_compute|apply hist_init_rep|done|done].
Defined.

Example demo_tokens : line_tokens demo_line = map lit ["ls"; "-l"; "/tmp"].
Proof. by vm_compute. Qed.

Definition SP : cstr := [" "%char].

(** A quoted word is one token after one blank; after six blanks it is cut, but
    not when there is no blank in it. *)
Definition blanks (n : nat) : cstr := replicate n " "%char.
Lemma next_token_quoted_witness :
  let call n b := next_token (lit "echo" ++ (blanks n ++ [] ++ "034"%char :: b ++ "034"%char :: [] ++ SP) ++ nul :: [])
    (Some 4) SP in
  (∃ buf sp, call 1 (lit "a b") = Ok (buf, sp, Some 5) ∧ string_at buf 5 = Ok ("034"%char :: lit "a b" ++ ["034"%char])) ∧
  (∃ buf sp, call 6 (lit "a b") = Ok (buf, sp, Some 10) ∧ string_at buf 10 = Ok ("034"%char :: lit "a")) ∧
  (∃ buf sp, call 6 (lit "ab") = Ok (buf, sp, Some 10) ∧ string_at buf 10 = Ok ("034"%char :: lit "ab" ++ ["034"%char])).
Proof.
  assert ((nul ∉ SP) ∧ (∀ x, x ∈ SP → x ∉ quotes)) as Hd by (split; [decide_now|apply plain_line; decide_now]).
  assert (∀ n x, x ∈ blanks n → x ∈ SP) as Hb by (intros n x [-> _]%elem_of_replicate; decide_now).
  assert (∀ x, head SP = Some x → x ∈ SP) as Hr by (intros x [= <-]; decide_now).
  assert (∀ (P : ascii → Prop) x, x ∈ ([] : cstr) → P x) as Hn by (by intros P x ?%not_elem_of_nil).
  assert (∀ n b, ("034"%char ∉ b) → (nul ∉ b) → (n + length b < 100)%nat → ∀ pre post,
    let word := quoted_word [] b [] "034"%char in
    (token_of_word SP (blanks n) [] b [] "034"%char = word ↔ whole SP (blanks n) [] b [] "034"%char = true) ∧
    ∃ buf sp, next_token (pre ++ (blanks n ++ [] ++ "034"%char :: b ++ "034"%char :: [] ++ SP) ++ nul :: post)
        (Some (length pre)) SP = Ok (buf, sp, Some (length pre + length (blanks n))) ∧
      string_at buf (length pre + length (blanks n)) = Ok (token_of_word SP (blanks n) [] b [] "034"%char)) as H.
  { intros n b Hq Hb' Hlen pre post word.
    assert (nul ∉ blanks n ++ [] ++ "034"%char :: b ++ "034"%char :: [] ++ SP) as Hs.
    { rewrite !not_elem_of_app, !not_elem_of_cons, !not_elem_of_app, !not_elem_of_cons. unfold blanks, SP.
      split_and!; try done; try decide_now; by intros [? _]%elem_of_replicate. }
    assert (Z.of_nat (length (blanks n ++ [] ++ "034"%char :: b ++ "034"%char :: [] ++ SP)) < 18446744073709551616)%Z as Hsz.
    { unfold blanks, SP. repeat (rewrite length_app || rewrite length_replicate || simpl). lia. }
    destruct (next_token_quoted SP (blanks n) [] b [] SP "034"%char Hd ltac:(decide_now) (Hb n) (Hn _) Hq (Hn _) Hr Hs Hsz pre post)
      as (Hw & buf & sp & ? & ? & _). by eauto. }
  split_and!.
  - destruct (H 1 (lit "a b") ltac:(decide_now) ltac:(decide_now) ltac:(simpl; lia) (lit "echo") []) as (_ & buf & sp & ? & ?).
    by exists buf, sp.
  - destruct (H 6 (lit "a b") ltac:(decide_now) ltac:(decide_now) ltac:(simpl; lia) (lit "echo") []) as (_ & buf & sp & ? & ?).
    by exists buf, sp.
  - destruct (H 6 (lit "ab") ltac:(decide_now) ltac:(decide_now) ltac:(simpl; lia) (lit "echo") []) as (_ & buf & sp & ? & ?).
    by exists buf, sp.
Defined.
