(* ===== verification/Jobs.v ===== *)
(** The shell's table of background jobs (Project2/shell.c): the part of
    [exec] that enters a job, the SIGCHLD handler that removes it, and the
    [num_jobs] listing, against the list of running jobs. *)
From Stdlib Require Import ZArith Lia Ascii.
From stdpp Require Import prelude gmap strings numbers list.
From S2P Require Import Prelude CString.
Open Scope Z_scope.
Import CInt.

(** * The code *)
Record jobs := MkJobs {
  count : Z;
  num_jobs : list Z;
  bg_cmds : list cstr
}.
Definition jobs_init : jobs := MkJobs 0 (replicate 10 0) (replicate 10 []).

(** Elements of the two arrays. *)
Definition job_at {A} (a : list A) (i : Z) : outcome A :=
  if decide (i < 0) then Undef OutOfBounds else require OutOfBounds (a !! Z.to_nat i).
Definition set_job {A} (a : list A) (i : Z) (x : A) : outcome (list A) :=
  if decide (0 ≤ i < Z.of_nat (length a)) then Ok (<[Z.to_nat i := x]> a) else Undef OutOfBounds.

(** The parent's branch of [exec] for a background job. *)
Definition add_job (st : jobs) (pid : Z) (command_char : cstr) : outcome jobs :=
  nj ← set_job (num_jobs st) (count st) pid;
  c ← strcpy 5000 command_char;
  bg ← set_job (bg_cmds st) (count st) c;
  cnt ← int_result (count st + 1);
  Ok (MkJobs cnt nj bg).

(** Its statements one by one: the handler can run between any two. *)
Definition set_pid (st : jobs) (pid : Z) : outcome jobs :=
  nj ← set_job (num_jobs st) (count st) pid; Ok (MkJobs (count st) nj (bg_cmds st)).
Definition set_cmd (st : jobs) (command_char : cstr) : outcome jobs :=
  c ← strcpy 5000 command_char; bg ← set_job (bg_cmds st) (count st) c; Ok (MkJobs (count st) (num_jobs st) bg).
Definition count_up (st : jobs) : outcome jobs :=
  cnt ← int_result (count st + 1); Ok (MkJobs cnt (num_jobs st) (bg_cmds st)).

(** [while (i < 9 && num_jobs[i] != pid) i++]. *)
Fixpoint find_job (fuel : nat) (nj : list Z) (pid i : Z) : outcome Z :=
  match fuel with
  | O => OutOfFuel
  | S f =>
      if decide (i < 9)
      then p ← job_at nj i; if decide (p ≠ pid) then find_job f nj pid (i + 1) else Ok i
      else Ok i
  end.

(** [while (i < count) { ... i++; }]; [k] iterations remain. *)
Fixpoint shift_jobs (k : nat) (nj : list Z) (bg : list cstr) (i : Z)
    : outcome (list Z * list cstr) :=
  match k with
  | O => Ok (nj, bg)
  | S k' =>
      p ← job_at nj (i + 1);
      nj' ← set_job nj i p;
      c ← job_at bg (i + 1);
      c' ← strcpy 5000 c;
      bg' ← set_job bg i c';
      shift_jobs k' nj' bg' (i + 1)
  end.

(** The handler, given the result of [waitpid(-1, NULL, WNOHANG)]: the pid of
    a child that ended, 0 when there are children and none has ended, -1 when
    there is none. *)
Definition sigchld_handler (pid : Z) (st : jobs) : outcome jobs :=
  last ← job_at (num_jobs st) 9;
  if decide (pid = last) then
    cnt ← int_result (count st - 1);
    bg ← set_job (bg_cmds st) 9 [];
    nj ← set_job (num_jobs st) 9 0;
    Ok (MkJobs cnt nj bg)
  else
    i ← find_job 10 (num_jobs st) pid 0;
    if decide (i = 9) then Ok st
    else
      '(nj, bg) ← shift_jobs (Z.to_nat (count st - i)) (num_jobs st) (bg_cmds st) i;
      cnt ← int_result (count st - 1);
      Ok (MkJobs cnt nj bg).

(** The lines of the [num_jobs] command; none when no job runs. *)
Fixpoint list_jobs_from (k : nat) (bg : list cstr) (i : Z) : outcome (list (Z * cstr)) :=
  match k with
  | O => Ok []
  | S k' => c ← job_at bg i; out ← list_jobs_from k' bg (i + 1); Ok ((i, c) :: out)
  end.
Definition list_jobs (st : jobs) : outcome (list (Z * cstr)) :=
  if decide (count st = 0) then Ok [] else list_jobs_from (Z.to_nat (count st)) (bg_cmds st) 0.

(** A new job whose entry the handler interrupts, for the end of [ended]. *)
Inductive add_point := BeforeCmd | BeforeCount.
Definition add_interrupted (point : add_point) (ended : Z) (st : jobs) (pid : Z) (command_char : cstr) : outcome jobs :=
  st ← set_pid st pid;
  st ← (match point with BeforeCmd => sigchld_handler ended st | BeforeCount => Ok st end);
  st ← set_cmd st command_char;
  st ← (match point with BeforeCount => sigchld_handler ended st | BeforeCmd => Ok st end);
  count_up st.

(** * The list of running jobs *)
Record jobs_rep (st : jobs) (js : list (Z * cstr)) : Prop := {
  jr_len : (length js ≤ 10)%nat;
  jr_count : count st = Z.of_nat (length js);
  jr_pids : num_jobs st = js.*1 ++ replicate (10 - length js) 0;
  jr_cmds : bg_cmds st = js.*2 ++ replicate (10 - length js) [];
  jr_fit : Forall (λ c, (length c < 5000)%nat) js.*2;
  jr_pos : Forall (λ p, 0 < p) js.*1;
  jr_nodup : NoDup js.*1
}.

Lemma jobs_init_rep : jobs_rep jobs_init [].
Proof. split; simpl; (lia || done || constructor). Qed.

Lemma job_at_nat {A} (a : list A) (n : nat) x : a !! n = Some x → job_at a (Z.of_nat n) = Ok x.
Proof. intros H. unfold job_at. rewrite decide_False by lia. by rewrite Nat2Z.id, H. Qed.
Lemma set_job_middle {A} (l k : list A) (x y : A) i :
  i = Z.of_nat (length l) → set_job (l ++ x :: k) i y = Ok (l ++ y :: k).
Proof.
  intros ->. unfold set_job. rewrite decide_True by len. by rewrite insert_middle by lia.
Qed.
Lemma job_at_middle {A} (l k : list A) (x : A) i :
  i = Z.of_nat (length l) → job_at (l ++ x :: k) i = Ok x.
Proof. intros ->. apply job_at_nat. by apply lookup_middle_eq. Qed.

Lemma job_at_next {A} (l k : list A) (x y : A) i :
  i = Z.of_nat (length l) → job_at (l ++ x :: y :: k) (i + 1) = Ok y.
Proof.
  intros ->. replace (l ++ x :: y :: k) with ((l ++ [x]) ++ y :: k) by app_eq.
  apply job_at_middle. len.
Qed.

Lemma job_at_end {A} (l : list A) (x : A) :
  job_at (l ++ [x]) (Z.of_nat (length l) + 1) = Undef OutOfBounds.
Proof.
  unfold job_at. rewrite decide_False by lia. by rewrite lookup_ge_None_2 by len.
Qed.

Lemma replicate_next {A} (n : nat) (x : A) : (n < 10)%nat → replicate (10 - n) x = x :: replicate (10 - S n) x.
Proof. intros H. by replace (10 - n)%nat with (S (10 - S n)) by lia. Qed.

Lemma add_job_rep st js pid c :
  jobs_rep st js → 0 < pid → pid ∉ js.*1 → (length c < 5000)%nat → (length js < 10)%nat →
  ∃ st', add_job st pid c = Ok st' ∧ jobs_rep st' (js ++ [(pid, c)]).
Proof.
  intros R Hp Hn Hc Hl. unfold add_job. rewrite (jr_pids _ _ R), (jr_cmds _ _ R), (jr_count _ _ R).
  rewrite (replicate_next _ 0), (replicate_next _ []) by done. rewrite set_job_middle by len. simpl.
  unfold strcpy. rewrite decide_True by done. simpl. rewrite set_job_middle by len. simpl.
  rewrite int_result_ok by (unfold INT_MIN, INT_MAX; lia). simpl. eexists. split; [done|].
  split; simpl; rewrite ?length_app, ?fmap_app; simpl.
  - lia.
  - lia.
  - rewrite <- app_assoc. by replace (length js + 1)%nat with (S (length js)) by lia.
  - rewrite <- app_assoc. by replace (length js + 1)%nat with (S (length js)) by lia.
  - apply Forall_app. split; [apply R|]. by constructor.
  - apply Forall_app. split; [apply R|]. by constructor.
  - apply NoDup_app. split; [apply R|]. split; [|apply NoDup_singleton]. set_solver.
Qed.

(** * Removal *)
Lemma find_job_first nj pid (l : list Z) x k fuel :
  nj = l ++ x :: k → x = pid → pid ∉ l → (length l < 9)%nat → ∀ l1 l2, l = l1 ++ l2 →
  (length l2 < fuel)%nat → find_job fuel nj pid (Z.of_nat (length l1)) = Ok (Z.of_nat (length l)).
Proof.
  intros -> -> Hn Hl l1 l2. revert l1 fuel. induction l2 as [|y l2 IH]; intros l1 fuel -> Hf;
    (destruct fuel as [|fuel]; [simpl in Hf; lia|]); cbn [find_job].
  - rewrite app_nil_r in *. rewrite decide_True by lia. rewrite job_at_middle by done. simpl.
    by rewrite decide_False by tauto.
  - rewrite decide_True by len. rewrite <- app_assoc. rewrite <- app_comm_cons.
    rewrite job_at_middle by done. simpl. rewrite decide_True by set_solver.
    specialize (IH (l1 ++ [y]) fuel). rewrite <- !app_assoc in IH. simpl in IH.
    replace (Z.of_nat (length l1) + 1) with (Z.of_nat (length (l1 ++ [y]))) by len.
    apply IH; [done|simpl in Hf; lia].
Qed.

Lemma find_job_none nj pid fuel (n : nat) :
  length nj = 10%nat → (n ≤ 9)%nat → (∀ i x, (i < 9)%nat → nj !! i = Some x → x ≠ pid) →
  (9 - n < fuel)%nat → find_job fuel nj pid (Z.of_nat n) = Ok 9.
Proof.
  intros Hlen Hn Hne. revert n Hn. induction fuel as [|fuel IH]; intros n Hn Hf; [lia|].
  cbn [find_job]. destruct (decide (n = 9%nat)) as [->|]; [done|]. rewrite decide_True by lia.
  destruct (lookup_lt_is_Some_2 nj n) as [x Hx]; [lia|]. rewrite (job_at_nat _ _ _ Hx). simpl.
  rewrite decide_True by (apply (Hne n); [lia|done]).
  replace (Z.of_nat n + 1) with (Z.of_nat (S n)) by lia. apply IH; lia.
Qed.

(** The loop moves the rest of the table down by one place. *)
Lemma shift_jobs_ok (l : list Z) (lc : list cstr) x c (m : list Z) (mc : list cstr) z zc r rc :
  length l = length lc → length m = length mc → Forall (λ c, (length c < 5000)%nat) (mc ++ [zc]) →
  shift_jobs (S (length m)) (l ++ x :: m ++ z :: r) (lc ++ c :: mc ++ zc :: rc) (Z.of_nat (length l)) =
    Ok (l ++ m ++ z :: z :: r, lc ++ mc ++ zc :: zc :: rc).
Proof.
  revert l lc x c mc. induction m as [|y m IH]; intros l lc x c mc Hl Hm Hf;
    destruct mc as [|yc mc]; try done; cbn [shift_jobs length].
  - simpl. rewrite (job_at_next l) by lia. simpl. rewrite (set_job_middle l) by lia. simpl.
    rewrite (job_at_next lc) by lia. simpl.
    apply Forall_cons in Hf as [Hz _]. unfold strcpy. rewrite decide_True by done. simpl.
    by rewrite (set_job_middle lc) by lia.
  - simpl in Hf. apply Forall_cons in Hf as [Hy Hf]. rewrite <- !app_comm_cons.
    rewrite (job_at_next l) by lia. cbn [mbind outcome_bind].
    rewrite (set_job_middle l) by lia. cbn [mbind outcome_bind].
    rewrite (job_at_next lc) by lia. cbn [mbind outcome_bind].
    unfold strcpy. rewrite decide_True by done. cbn [mbind outcome_bind].
    rewrite (set_job_middle lc) by lia. cbn [mbind outcome_bind].
    replace (Z.of_nat (length l) + 1) with (Z.of_nat (length (l ++ [y]))) by len.
    specialize (IH (l ++ [y]) (lc ++ [yc]) y yc mc). rewrite <- !app_assoc in IH. simpl in IH.
    apply IH; [len|simpl in Hm; lia|done].
Qed.

(** In a full table it reads one element past its end. *)
Lemma shift_jobs_full (k : list Z) (kc : list cstr) y yc m mc :
  length k = length kc → length m = length mc → Forall (λ c, (length c < 5000)%nat) mc →
  shift_jobs (S (length m)) (k ++ y :: m) (kc ++ yc :: mc) (Z.of_nat (length k)) = Undef OutOfBounds.
Proof.
  revert k kc y yc mc. induction m as [|z m IH]; intros k kc y yc mc Hk Hm Hf;
    destruct mc as [|zc mc]; try done; cbn [shift_jobs length].
  - by rewrite (job_at_end k).
  - apply Forall_cons in Hf as [Hz Hf].
    rewrite (job_at_next k) by lia. cbn [mbind outcome_bind].
    rewrite (set_job_middle k) by lia. cbn [mbind outcome_bind].
    rewrite (job_at_next kc) by lia. cbn [mbind outcome_bind].
    unfold strcpy. rewrite decide_True by done. cbn [mbind outcome_bind].
    rewrite (set_job_middle kc) by lia. cbn [mbind outcome_bind].
    replace (Z.of_nat (length k) + 1) with (Z.of_nat (length (k ++ [z]))) by len.
    specialize (IH (k ++ [z]) (kc ++ [zc]) z zc mc). rewrite <- !app_assoc in IH. simpl in IH.
    apply IH; [len|simpl in Hm; lia|done].
Qed.

Section removal.
Context (st : jobs) (l1 l2 : list (Z * cstr)) (pid : Z) (c : cstr).
Let js := l1 ++ (pid, c) :: l2.
Context (R : jobs_rep st js).

Lemma removal_pids :
  num_jobs st = l1.*1 ++ pid :: l2.*1 ++ replicate (10 - length js) 0 ∧
  bg_cmds st = l1.*2 ++ c :: l2.*2 ++ replicate (10 - length js) [].
Proof.
  rewrite (jr_pids _ _ R), (jr_cmds _ _ R). unfold js. rewrite !fmap_app. simpl.
  split; by rewrite <- app_assoc.
Qed.

Lemma removal_facts : (pid ∉ l1.*1) ∧ (pid ∉ l2.*1) ∧ 0 < pid.
Proof.
  pose proof (jr_nodup _ _ R) as Hnd. pose proof (jr_pos _ _ R) as Hp. unfold js in *.
  rewrite fmap_app in *. simpl in *. apply NoDup_app in Hnd as (_ & Hd & Hnd).
  apply NoDup_cons in Hnd as [? _]. apply Forall_app in Hp as [_ [? _]%Forall_cons].
  split_and!; [|done|done]. intros Hin. specialize (Hd _ Hin). set_solver.
Qed.

Lemma removed_rep st' :
  count st' = Z.of_nat (length js) - 1 →
  num_jobs st' = (l1 ++ l2).*1 ++ replicate (11 - length js) 0 →
  bg_cmds st' = (l1 ++ l2).*2 ++ replicate (11 - length js) [] →
  jobs_rep st' (l1 ++ l2).
Proof.
  intros Hc Hn Hb. pose proof R as [Hlen _ _ _ Hf Hp Hnd]. unfold js in *.
  rewrite !fmap_app in *. simpl in *. rewrite !length_app in *. simpl in *.
  apply Forall_app in Hf as [? [_ ?]%Forall_cons], Hp as [? [_ ?]%Forall_cons].
  split; rewrite ?fmap_app, ?length_app.
  - lia.
  - lia.
  - rewrite Hn. do 2 f_equal. lia.
  - rewrite Hb. do 2 f_equal. lia.
  - by apply Forall_app.
  - by apply Forall_app.
  - apply NoDup_app in Hnd as (? & Hd & Hnd). apply NoDup_cons in Hnd as [_ ?].
    apply NoDup_app. split_and!; [done| |done]. intros x Hx. specialize (Hd x Hx). set_solver.
Qed.

Lemma sigchld_last :
  length l1 = 9%nat → ∃ st', sigchld_handler pid st = Ok st' ∧ jobs_rep st' (l1 ++ l2).
Proof.
  intros H9. destruct removal_pids as [Hn Hb]. pose proof (jr_len _ _ R) as Hlen.
  assert (length l2 = 0%nat) as Hl2 by (unfold js in Hlen; len).
  apply nil_length_inv in Hl2. rewrite Hl2 in Hn, Hb.
  assert (length js = 10%nat) as H10 by (unfold js; rewrite Hl2; len).
  unfold sigchld_handler. rewrite Hn, job_at_middle by len. simpl. rewrite decide_True by done.
  rewrite (jr_count _ _ R), int_result_ok by (unfold INT_MIN, INT_MAX; lia). simpl.
  rewrite Hb, set_job_middle by len. simpl. rewrite set_job_middle by len. simpl.
  eexists. split; [done|]. apply removed_rep; simpl; rewrite ?Hl2, ?H10, ?app_nil_r; done.
Qed.

Lemma found_early :
  (length l1 < 9)%nat → find_job 10 (num_jobs st) pid 0 = Ok (Z.of_nat (length l1)).
Proof.
  intros Hl1. destruct removal_pids as [Hn _]. destruct removal_facts as (Hp1 & _).
  rewrite <- (length_fmap fst l1).
  by apply (find_job_first _ pid (l1.*1) pid _ 10 Hn eq_refl Hp1 ltac:(len) [] (l1.*1) eq_refl); len.
Qed.

(** With fewer than nine jobs before it, the job is not at the last index. *)
Lemma not_last : (length l1 < 9)%nat → ∃ x, num_jobs st !! 9%nat = Some x ∧ x ≠ pid.
Proof.
  intros Hl1. destruct removal_pids as [Hn _]. destruct removal_facts as (_ & Hp2 & Hp).
  pose proof (jr_len _ _ R) as Hlen. pose proof (f_equal length Hn) as Hln.
  unfold js in *. rewrite !length_app in *. simpl in *. rewrite length_app, length_replicate in Hln.
  rewrite !length_fmap in Hln.
  destruct (lookup_lt_is_Some_2 (num_jobs st) 9) as [x Hx]; [lia|].
  exists x. split; [done|]. rewrite Hn, lookup_app_r, length_fmap in Hx by len.
  destruct (9 - length l1)%nat as [|k] eqn:Ek; [lia|]. simpl in Hx.
  apply list_elem_of_lookup_2, elem_of_app in Hx as [Hx|[-> _]%elem_of_replicate]; [set_solver|lia].
Qed.

Lemma sigchld_middle :
  (length js < 10)%nat → ∃ st', sigchld_handler pid st = Ok st' ∧ jobs_rep st' (l1 ++ l2).
Proof.
  intros Hlen. assert (length l1 + length l2 < 9)%nat as Hl by (unfold js in Hlen; len).
  destruct removal_pids as [Hn Hb]. destruct (not_last ltac:(lia)) as (x & Hx & Hne).
  unfold sigchld_handler. rewrite (job_at_nat _ 9 x Hx : job_at _ 9 = _). cbn [mbind outcome_bind]. rewrite decide_False by done.
  rewrite found_early by lia. cbn [mbind outcome_bind]. rewrite decide_False by lia.
  rewrite (jr_count _ _ R), Hn, Hb, (replicate_next _ 0), (replicate_next _ []) by done.
  replace (Z.to_nat (Z.of_nat (length js) - Z.of_nat (length l1))) with (S (length l2.*1))
    by (unfold js; rewrite length_fmap; len).
  rewrite <- (length_fmap fst l1).
  rewrite shift_jobs_ok; [|by rewrite !length_fmap..|].
  - simpl. rewrite int_result_ok by (unfold INT_MIN, INT_MAX; lia). simpl.
    eexists. split; [done|]. apply removed_rep; simpl; [done|..];
      rewrite fmap_app, <- app_assoc; do 2 f_equal;
      (replace (11 - length js)%nat with (S (S (10 - S (length js)))) by lia; done).
  - apply Forall_app. split; [|by repeat constructor]. pose proof (jr_fit _ _ R) as Hf.
    unfold js in Hf. rewrite fmap_app in Hf. simpl in Hf. by apply Forall_app in Hf as [_ [_ ?]%Forall_cons].
Qed.

Lemma sigchld_full :
  length js = 10%nat → (length l1 < 9)%nat → sigchld_handler pid st = Undef OutOfBounds.
Proof.
  intros Hlen Hl1. destruct removal_pids as [Hn Hb]. destruct (not_last Hl1) as (x & Hx & Hne).
  unfold sigchld_handler. rewrite (job_at_nat _ 9 x Hx : job_at _ 9 = _). cbn [mbind outcome_bind]. rewrite decide_False by done.
  rewrite found_early by done. cbn [mbind outcome_bind]. rewrite decide_False by lia.
  rewrite (jr_count _ _ R), Hn, Hb, Hlen. simpl. rewrite !app_nil_r.
  replace (Z.to_nat (Z.of_nat 10 - Z.of_nat (length l1))) with (S (length l2.*1)); last first.
  { unfold js in Hlen. rewrite length_fmap. len. }
  rewrite <- (length_fmap fst l1). pose proof (jr_fit _ _ R) as Hf.
  unfold js in Hf. rewrite fmap_app in Hf. simpl in Hf. apply Forall_app in Hf as [_ [_ Hf]%Forall_cons].
  by rewrite shift_jobs_full by (done || by rewrite !length_fmap).
Qed.
End removal.

(** A child that is not a job leaves the table alone. *)
Lemma sigchld_other st js pid :
  jobs_rep st js → pid ≠ 0 → pid ∉ js.*1 → sigchld_handler pid st = Ok st.
Proof.
  intros R Hp Hn. assert (length (num_jobs st) = 10%nat) as Hlen.
  { rewrite (jr_pids _ _ R). pose proof (jr_len _ _ R). len. }
  assert (∀ i x, num_jobs st !! i = Some x → x ≠ pid) as Hne.
  { intros i x Hx. rewrite (jr_pids _ _ R) in Hx. intros ->.
    by apply list_elem_of_lookup_2, elem_of_app in Hx as [|[-> _]%elem_of_replicate]. }
  destruct (lookup_lt_is_Some_2 (num_jobs st) 9) as [x Hx]; [lia|].
  unfold sigchld_handler. rewrite (job_at_nat _ 9 x Hx : job_at _ 9 = _). cbn [mbind outcome_bind].
  rewrite decide_False by (intros Heq; by apply (Hne 9%nat x Hx)).
  rewrite (find_job_none _ _ 10 0); [done|done|lia| |lia]. eauto.
Qed.

(** * Sequences of starts and ends *)
Inductive job_event :=
  | Started (pid : Z) (cmd : cstr)
  | Ended (pid : Z).

Definition job_step (st : jobs) (e : job_event) : outcome jobs :=
  match e with Started pid c => add_job st pid c | Ended pid => sigchld_handler pid st end.
Fixpoint job_run (st : jobs) (es : list job_event) : outcome jobs :=
  match es with [] => Ok st | e :: es' => st' ← job_step st e; job_run st' es' end.

(** The list of running jobs after an event, and the events it allows: at
    most nine jobs at a time, pids of running jobs are not reused. *)
Definition job_spec (js : list (Z * cstr)) (e : job_event) : list (Z * cstr) :=
  match e with
  | Started pid c => js ++ [(pid, c)]
  | Ended pid => filter (λ j : Z * cstr, j.1 ≠ pid) js
  end.
Definition job_allowed (js : list (Z * cstr)) (e : job_event) : Prop :=
  match e with
  | Started pid c => 0 < pid ∧ (pid ∉ js.*1) ∧ (length c < 5000)%nat ∧ (length js < 9)%nat
  | Ended pid => 0 < pid
  end.
Fixpoint jobs_allowed (js : list (Z * cstr)) (es : list job_event) : Prop :=
  match es with [] => True | e :: es' => job_allowed js e ∧ jobs_allowed (job_spec js e) es' end.

Lemma filter_all_pids (l : list (Z * cstr)) pid :
  pid ∉ l.*1 → filter (λ j : Z * cstr, j.1 ≠ pid) l = l.
Proof.
  induction l as [|[p c] l IH]; intros Hn; [done|]. rewrite filter_cons. simpl.
  rewrite decide_True by set_solver. by rewrite IH by set_solver.
Qed.

Lemma job_step_rep st js e :
  jobs_rep st js → (length js ≤ 9)%nat → job_allowed js e →
  ∃ st', job_step st e = Ok st' ∧ jobs_rep st' (job_spec js e) ∧ (length (job_spec js e) ≤ 9)%nat.
Proof.
  intros R Hlen Ha. destruct e as [pid c|pid]; simpl in *.
  - destruct Ha as (? & ? & ? & ?). destruct (add_job_rep st js pid c R) as (st' & ? & ?); [done..|lia|].
    exists st'. split_and!; [done|done|len].
  - destruct (decide (pid ∈ js.*1)) as [Hin|Hout].
    + apply list_elem_of_fmap_1 in Hin as ([p c] & -> & (l1 & l2 & ->)%list_elem_of_split). simpl in *.
      destruct (sigchld_middle st l1 l2 p c R ltac:(len)) as (st' & ? & R').
      destruct (removal_facts st l1 l2 p c R) as (? & ? & _).
      rewrite filter_app, filter_cons. simpl. rewrite decide_False by tauto.
      rewrite !filter_all_pids by done. exists st'. split_and!; [done|done|len].
    + rewrite filter_all_pids by done. exists st. split_and!; [|done|done].
      apply (sigchld_other st js); [done|lia|done].
Qed.

Lemma job_run_rep st js es :
  jobs_rep st js → (length js ≤ 9)%nat → jobs_allowed js es →
  ∃ st', job_run st es = Ok st' ∧ jobs_rep st' (foldl job_spec js es).
Proof.
  revert st js. induction es as [|e es IH]; intros st js R Hlen Ha; simpl in *; [by exists st|].
  destruct Ha as [He Ha]. destruct (job_step_rep st js e R Hlen He) as (st1 & -> & R1 & ?). simpl.
  by apply IH.
Qed.

Lemma list_jobs_from_ok bg (l : list cstr) pre post :
  bg = pre ++ l ++ post →
  list_jobs_from (length l) bg (Z.of_nat (length pre)) =
    Ok (imap (λ i c, (Z.of_nat (length pre + i), c)) l).
Proof.
  revert pre. induction l as [|c l IH]; intros pre Hbg; simpl; [done|].
  assert (job_at bg (Z.of_nat (length pre)) = Ok c) as -> by (rewrite Hbg; by apply job_at_middle). simpl.
  replace (Z.of_nat (length pre) + 1) with (Z.of_nat (length (pre ++ [c]))) by len.
  rewrite (IH (pre ++ [c])) by (rewrite Hbg; app_eq). simpl. rewrite Nat.add_0_r. do 2 f_equal.
  apply imap_ext. intros i x _. simpl. f_equal. len.
Qed.

Lemma list_jobs_rep st js :
  jobs_rep st js → list_jobs st = Ok (imap (λ i c, (Z.of_nat i, c)) js.*2).
Proof.
  intros R. unfold list_jobs. rewrite (jr_count _ _ R), Nat2Z.id.
  case_decide as Hz.
  - destruct js; [done|]. simpl in Hz. lia.
  - rewrite <- (length_fmap snd js).
    by apply (list_jobs_from_ok _ _ [] (replicate (10 - length js) [])), R.
Qed.

(** For any sequence of job starts and child ends in which at most nine
    jobs run at a time and running jobs have distinct pids, every access to
    the table is in bounds, the table holds exactly the jobs that run, in the
    order they were started, and [num_jobs] lists their commands numbered
    from 0; the end of a child that is not a job changes nothing. *)
Lemma job_table_refines es :
  jobs_allowed [] es →
  ∃ st, job_run jobs_init es = Ok st ∧ jobs_rep st (foldl job_spec [] es) ∧
        list_jobs st = Ok (imap (λ i c, (Z.of_nat i, c)) (foldl job_spec [] es).*2).
Proof.
  intros Ha. destruct (job_run_rep jobs_init [] es jobs_init_rep) as (st & ? & R); [simpl; lia|done|].
  exists st. split_and!; [done|done|by apply list_jobs_rep].
Qed.

(** With ten jobs in the table, the end of any of the first nine makes
    the handler read past the end of the table, while the end of the last one
    removes it; an eleventh job is written past the end. *)
Lemma full_table_overruns st js i pid c :
  jobs_rep st js → length js = 10%nat → js !! i = Some (pid, c) →
  (if decide (i = 9%nat)
   then ∃ st', sigchld_handler pid st = Ok st' ∧ jobs_rep st' (take 9 js)
   else sigchld_handler pid st = Undef OutOfBounds) ∧
  ∀ p cmd, add_job st p cmd = Undef OutOfBounds.
Proof.
  intros R Hlen Hi. apply take_drop_middle in Hi as Hjs.
  assert (length (take i js) = i ∧ i < 10)%nat as [Hti Hi10].
  { apply lookup_lt_Some in Hi. rewrite length_take. lia. }
  split.
  - rewrite <- Hjs in R, Hlen. case_decide as H9.
    + destruct (sigchld_last st _ _ _ _ R) as (st' & ? & R'); [lia|]. exists st'. split; [done|].
      subst i. rewrite drop_ge, app_nil_r in R'; [done|]. rewrite Hjs in Hlen. lia.
    + apply (sigchld_full st _ _ _ _ R); [done|lia].
  - intros p cmd. unfold add_job. rewrite (jr_count _ _ R), (jr_pids _ _ R), Hlen. unfold set_job.
    by rewrite decide_False by len.
Qed.

(** When [waitpid] reports that no child has ended (0), the handler takes
    the 0 in the unused last slot for it: with fewer than ten jobs it drops
    the last job from the count, so that the next job overwrites it; and with
    none it makes the count negative, so that the next job is written before
    the start of the table. *)
Lemma no_child_drops_job st js :
  jobs_rep st js → (length js < 10)%nat →
  ∃ st', sigchld_handler 0 st = Ok st' ∧
    num_jobs st' = num_jobs st ∧ count st' = count st - 1 ∧
    ¬ jobs_rep st' js ∧
    (js = [] → ∀ p cmd, add_job st' p cmd = Undef OutOfBounds).
Proof.
  intros R Hlen. pose proof (jr_count _ _ R) as Hc.
  assert (num_jobs st !! 9%nat = Some 0) as H9.
  { rewrite (jr_pids _ _ R), lookup_app_r by len. apply lookup_replicate. split; [done|len]. }
  assert (length (bg_cmds st) = 10%nat) as Hb by (rewrite (jr_cmds _ _ R); len).
  assert (length (num_jobs st) = 10%nat) as Hn by (rewrite (jr_pids _ _ R); len).
  unfold sigchld_handler. rewrite (job_at_nat _ 9 0 H9 : job_at _ 9 = _). cbn [mbind outcome_bind].
  rewrite decide_True by done. rewrite int_result_ok by (unfold INT_MIN, INT_MAX; lia).
  unfold set_job. rewrite Hb, Hn. simpl. eexists. split; [done|]. split_and!; simpl.
  - by apply list_insert_id.
  - done.
  - intros R'. pose proof (jr_count _ _ R'). simpl in *. lia.
  - intros -> p cmd. unfold add_job, set_job. simpl in *. rewrite Hc. done.
Qed.

(** C35: the limits of the table. With ten jobs, the end of any of the first
    nine makes the handler read past the end of the table, while the end of
    the last one removes it, and an eleventh job is written past the end. When
    waitpid reports that no child has ended, the handler takes the 0 in an
    unused last slot for it: with fewer than ten jobs it drops the last job
    from the count, so that the next job overwrites it, and with none the next
    job is written before the start of the table. *)
Theorem job_table_limits st js :
  jobs_rep st js →
  (length js = 10%nat → ∀ i pid c, js !! i = Some (pid, c) →
     (if decide (i = 9%nat)
      then ∃ st', sigchld_handler pid st = Ok st' ∧ jobs_rep st' (take 9 js)
      else sigchld_handler pid st = Undef OutOfBounds) ∧
     ∀ p cmd, add_job st p cmd = Undef OutOfBounds) ∧
  ((length js < 10)%nat → ∃ st', sigchld_handler 0 st = Ok st' ∧
     num_jobs st' = num_jobs st ∧ count st' = count st - 1 ∧ ¬ jobs_rep st' js ∧
     (js = [] → ∀ p cmd, add_job st' p cmd = Undef OutOfBounds)).
Proof.
  intros R. split; [|by apply no_child_drops_job].
  intros Hlen i pid c Hi. by apply (full_table_overruns st js i pid c).
Qed.

(** * At concrete tables *)
Definition demo_events : list job_event :=
  [Started 101 (lit "sleep 9 &"); Started 102 (lit "make &"); Ended 77; Started 103 (lit "du &"); Ended 102].

Lemma job_table_refines_witness :
  ∃ st, job_run jobs_init demo_events = Ok st ∧ jobs_rep st (foldl job_spec [] demo_events) ∧
        list_jobs st = Ok (imap (λ i c, (Z.of_nat i, c)) (foldl job_spec [] demo_events).*2).
Proof.
  apply (job_table_refines demo_events). simpl.
  repeat split; simpl; try lia; rewrite ?elem_of_cons, ?elem_of_nil; lia.
Defined.

Definition ten_jobs : list (Z * cstr) := (λ p, (p, lit "x &")) <$> seqZ 1 10.
Definition ten_table : jobs := MkJobs 10 ten_jobs.*1 ten_jobs.*2.
Lemma ten_rep : jobs_rep ten_table ten_jobs.
Proof. split; [simpl; lia|done|done|done|decide_now|decide_now|decide_now]. Qed.

Lemma job_table_limits_witness :
  sigchld_handler 4 ten_table = Undef OutOfBounds ∧
  ∃ st', sigchld_handler 0 jobs_init = Ok st' ∧ count st' = -1.
Proof.
  destruct (job_table_limits ten_table ten_jobs ten_rep) as [H _].
  destruct (job_table_limits jobs_init [] jobs_init_rep) as [_ H0]. split.
  - by destruct (H eq_refl 3%nat 4 (lit "x &") eq_refl) as [H4 _].
  - destruct H0 as (st' & Hs & _ & Hc & _); [simpl; lia|]. exists st'. split; [done|]. rewrite Hc. reflexivity.
Defined.

(** ** Interrupted entries *)
Lemma add_job_statements st pid c :
  add_job st pid c = (st1 ← set_pid st pid; st2 ← set_cmd st1 c; count_up st2).
Proof.
  unfold add_job, set_pid, set_cmd, count_up. destruct (set_job (num_jobs st) _ _); [|done..]. cbn [mbind outcome_bind].
  destruct (strcpy 5000 c); [|done..]. cbn [mbind outcome_bind count num_jobs bg_cmds].
  destruct (set_job (bg_cmds st) _ _); done.
Qed.
(** A job that ends before it is entered stays in the table. *)
Example ends_before_entry :
  (st ← job_run jobs_init [Ended 7; Started 7 (lit "true &")]; list_jobs st) = Ok [(0, lit "true &")].
Proof. reflexivity. Qed.
(** One that ends when its pid is entered and its command is not makes the
    count negative, and the command is written before the table. *)
Example ends_before_command : add_interrupted BeforeCmd 7 jobs_init 7 (lit "true &") = Undef OutOfBounds.
Proof. reflexivity. Qed.
(** When another job ends meanwhile, a second copy of the new pid stays behind
    the table. *)
Example stale_pid :
  (st ← job_run jobs_init [Started 5 (lit "du &")]; st ← add_interrupted BeforeCmd 5 st 7 (lit "make &");
   out ← list_jobs st; Ok (out, take 2 (num_jobs st))) = Ok ([(0, lit "make &")], [7; 7]).
Proof. reflexivity. Qed.
