(* ===== verification/JobsInterrupt.v ===== *)
(** The table of background jobs (Project2/shell.c) when the SIGCHLD handler
    runs in the middle of the entry of a job: which interruptions keep the
    table, and what the others do to it. *)
From Stdlib Require Import ZArith Lia Ascii.
From stdpp Require Import prelude gmap strings numbers list.
From S2P Require Import Prelude CString Jobs.
Open Scope Z_scope.
Import CInt.

(** * The table, with what earlier jobs left behind it *)
Abbreviation job := (Z * cstr)%type.
Definition fits (c : cstr) : Prop := (length c < 5000)%nat.

(** [used]: the pids of all jobs so far. The slots past the count may hold
    pids and commands of jobs that have ended; the last one is never used. *)
Record table (st : jobs) (js : list job) (used : list Z) (tn : list Z) (tb : list cstr) : Prop := {
  ta_count : count st = Z.of_nat (length js);
  ta_pids : num_jobs st = js.*1 ++ tn;
  ta_cmds : bg_cmds st = js.*2 ++ tb;
  ta_len : (length js + length tn = 10)%nat;
  ta_len' : length tb = length tn;
  ta_last : num_jobs st !! 9%nat = Some 0;
  ta_room : (length js < 10)%nat;
  ta_stale : Forall (λ x, x = 0 ∨ x ∈ used) tn;
  ta_fit : Forall fits (js.*2 ++ tb);
  ta_used : Forall (λ x, 0 < x ∧ x ∈ used) js.*1;
  ta_nodup : NoDup js.*1
}.
Definition holds (st : jobs) (js : list job) (used : list Z) : Prop := ∃ tn tb, table st js used tn tb.

Lemma init_holds : holds jobs_init [] [].
Proof.
  exists (replicate 10 0), (replicate 10 []). split; simpl; unfold fits; try done; try lia; try decide_now; constructor.
Qed.

(** ** The handler on such arrays *)
Section handler.
Context (st : jobs) (H9 : num_jobs st !! 9%nat = Some 0).

Lemma handler_search pid : 0 < pid →
  sigchld_handler pid st =
  (i ← find_job 10 (num_jobs st) pid 0;
    if decide (i = 9) then Ok st
    else '(nj, bg) ← shift_jobs (Z.to_nat (count st - i)) (num_jobs st) (bg_cmds st) i;
    cnt ← int_result (count st - 1); Ok (MkJobs cnt nj bg)).
Proof.
  intros Hp. unfold sigchld_handler. rewrite (job_at_nat _ 9 0 H9 : job_at _ 9 = _). cbn [mbind outcome_bind].
  by rewrite decide_False by lia.
Qed.

Lemma found_at l pid k :
  num_jobs st = l ++ pid :: k → pid ∉ l → (length l < 9)%nat →
  find_job 10 (num_jobs st) pid 0 = Ok (Z.of_nat (length l)).
Proof. intros Hn Hp Hl. by apply (find_job_first _ pid l pid k 10 Hn eq_refl Hp Hl [] l eq_refl); len. Qed.

(** The end of a job with others after it, or with the slot at the count. *)
Lemma handler_shift l1 pid c m z zc r rc :
  num_jobs st = l1.*1 ++ pid :: m.*1 ++ z :: r → bg_cmds st = l1.*2 ++ c :: m.*2 ++ zc :: rc →
  count st = Z.of_nat (length (l1 ++ (pid, c) :: m)) → (length l1 < 9)%nat → 0 < pid → pid ∉ l1.*1 →
  (length (l1 ++ (pid, c) :: m) < 10)%nat → Forall fits (m.*2 ++ [zc]) →
  sigchld_handler pid st =
  Ok (MkJobs (count st - 1) ((l1 ++ m).*1 ++ z :: z :: r) ((l1 ++ m).*2 ++ zc :: zc :: rc)).
Proof.
  intros Hn Hb Hc Hl Hp Hni Hlen Hf. rewrite handler_search by done.
  rewrite (found_at _ _ _ Hn Hni) by len. cbn [mbind outcome_bind]. rewrite length_fmap.
  rewrite decide_False by lia. rewrite Hn, Hb, Hc.
  replace (Z.to_nat (Z.of_nat (length (l1 ++ (pid, c) :: m)) - Z.of_nat (length l1))) with (S (length m.*1)) by len.
  rewrite <- (length_fmap fst l1). rewrite shift_jobs_ok by (done || by rewrite !length_fmap).
  cbn [mbind outcome_bind]. rewrite int_result_ok by (unfold INT_MIN, INT_MAX; lia). cbn [mbind outcome_bind].
  by rewrite !fmap_app, <- !app_assoc.
Qed.

(** The end of a job whose pid stands at the count or past it: nothing is moved. *)
Lemma handler_past_count l pid k :
  num_jobs st = l ++ pid :: k → pid ∉ l → (length l < 9)%nat → INT_MIN < count st ≤ Z.of_nat (length l) → 0 < pid →
  sigchld_handler pid st = Ok (MkJobs (count st - 1) (num_jobs st) (bg_cmds st)).
Proof.
  intros Hn Hni Hl Hc Hp. rewrite handler_search by done. rewrite (found_at _ _ _ Hn Hni Hl). cbn [mbind outcome_bind].
  rewrite decide_False by lia. replace (Z.to_nat (count st - Z.of_nat (length l))) with 0%nat by lia.
  cbn [shift_jobs mbind outcome_bind]. by rewrite int_result_ok by (unfold INT_MIN, INT_MAX in *; lia).
Qed.
Lemma handler_at_count l pid k :
  num_jobs st = l ++ pid :: k → pid ∉ l → (length l < 9)%nat → count st = Z.of_nat (length l) → 0 < pid →
  sigchld_handler pid st = Ok (MkJobs (count st - 1) (num_jobs st) (bg_cmds st)).
Proof. intros. eapply handler_past_count; try done. unfold INT_MIN. lia. Qed.

(** The end of a child that is not in the table. *)
Lemma handler_other pid :
  length (num_jobs st) = 10%nat → 0 < pid → pid ∉ num_jobs st → sigchld_handler pid st = Ok st.
Proof.
  intros Hl Hp Hni. rewrite handler_search by done. rewrite (find_job_none _ _ 10 0); [done|done|lia| |lia].
  intros i x _ Hx ->. by apply Hni, (list_elem_of_lookup_2 _ i).
Qed.
End handler.

(** ** The statements of an entry *)
Lemma set_pid_ok st l x k pid :
  num_jobs st = l ++ x :: k → count st = Z.of_nat (length l) →
  set_pid st pid = Ok (MkJobs (count st) (l ++ pid :: k) (bg_cmds st)).
Proof. intros Hn Hc. unfold set_pid. rewrite Hn, Hc. by rewrite set_job_middle by done. Qed.
Lemma set_cmd_ok st l x k c :
  bg_cmds st = l ++ x :: k → count st = Z.of_nat (length l) → fits c →
  set_cmd st c = Ok (MkJobs (count st) (num_jobs st) (l ++ c :: k)).
Proof.
  intros Hb Hc Hf. unfold set_cmd, strcpy. rewrite decide_True by done. cbn [mbind outcome_bind].
  rewrite Hb, Hc. by rewrite set_job_middle by done.
Qed.
Lemma count_up_ok cnt nj bg : INT_MIN ≤ cnt + 1 ≤ INT_MAX → count_up (MkJobs cnt nj bg) = Ok (MkJobs (cnt + 1) nj bg).
Proof. intros H. unfold count_up. simpl. by rewrite int_result_ok. Qed.

(** * The steps *)
Section steps.
Context (st : jobs) (js : list job) (used : list Z).

Lemma lookup_shifted (l l' : list Z) z r i :
  length l = S (length l') → (length l ≤ i)%nat → (l' ++ z :: z :: r) !! i = (l ++ z :: r) !! i.
Proof.
  intros Hl Hi. rewrite !lookup_app_r by lia. replace (i - length l')%nat with (S (i - length l)) by lia. done.
Qed.

(** The tails are not empty: the last slot is free. *)
Lemma table_tails tn tb : table st js used tn tb → ∃ z r zc rc, tn = z :: r ∧ tb = zc :: rc ∧ length r = length rc.
Proof.
  intros T. pose proof (ta_len _ _ _ _ _ T). pose proof (ta_len' _ _ _ _ _ T). pose proof (ta_room _ _ _ _ _ T).
  destruct tn as [|z r], tb as [|zc rc]; simpl in *; try lia. exists z, r, zc, rc. split_and!; [done|done|lia].
Qed.

Lemma fits_parts l x k : Forall fits (l ++ x :: k) → Forall fits l ∧ fits x ∧ Forall fits k.
Proof. intros [? [? ?]%Forall_cons]%Forall_app. done. Qed.

(** The job [p] of the table, and what is known of the others. *)
Lemma job_parts l1 p d m tn tb :
  js = l1 ++ (p, d) :: m → table st js used tn tb →
  ((p ∉ l1.*1) ∧ (p ∉ m.*1) ∧ 0 < p ∧ p ∈ used) ∧
  (NoDup (l1 ++ m).*1 ∧ Forall (λ x, 0 < x ∧ x ∈ used) (l1 ++ m).*1) ∧
  (Forall fits (l1 ++ m).*2 ∧ Forall fits m.*2 ∧ Forall fits tb).
Proof.
  intros Hjs T. pose proof (ta_used _ _ _ _ _ T) as Tu. pose proof (ta_nodup _ _ _ _ _ T) as Tn.
  pose proof (ta_fit _ _ _ _ _ T) as Tf. clear T.
  rewrite Hjs, fmap_app in Tu; rewrite Hjs, fmap_app in Tn; rewrite Hjs, fmap_app in Tf. rewrite !fmap_app.
  apply NoDup_app in Tn as (Hn1 & Hd & [Hm Hn2]%NoDup_cons).
  apply Forall_app in Tu as [Hu1 [[Hp Hpu] Hu2]%Forall_cons].
  apply Forall_app in Tf as [[Hf1 [_ Hf2]%Forall_cons]%Forall_app Hft]. split_and!; try done.
  - intros Hx. apply (Hd _ Hx). by left.
  - apply NoDup_app. split_and!; [done| |done]. intros x Hx. specialize (Hd x Hx). set_solver.
  - by apply Forall_app.
  - by apply Forall_app.
Qed.

(** A new last job, with any tails. *)
Lemma table_snoc js' pid c tn tb :
  Forall (λ x, 0 < x ∧ x ∈ used) js'.*1 → NoDup js'.*1 → 0 < pid → pid ∉ used →
  Forall fits (js'.*2 ++ c :: tb) → Forall (λ x, x = 0 ∨ x ∈ pid :: used) tn →
  (length js' + S (length tn) = 10)%nat → length tb = length tn → (length js' < 9)%nat →
  (js'.*1 ++ pid :: tn) !! 9%nat = Some 0 →
  table (MkJobs (Z.of_nat (length js') + 1) (js'.*1 ++ pid :: tn) (js'.*2 ++ c :: tb))
  (js' ++ [(pid, c)]) (pid :: used) tn tb.
Proof.
  intros Hu Hnd Hp Hn Hf Hs Hl Hl' H9 Hz. assert (pid ∉ js'.*1) as Hni.
  { intros Hin. rewrite Forall_forall in Hu. by destruct (Hu _ Hin). }
  split; simpl; rewrite ?fmap_app, ?length_app, <- ?app_assoc; simpl; try done; try lia.
  - apply Forall_app. split; [|by constructor; [set_solver|]].
    eapply Forall_impl; [exact Hu|]. intros x [? ?]. split; [done|set_solver].
  - apply NoDup_app. split_and!; [done|set_solver|apply NoDup_singleton].
Qed.

Context (H : holds st js used).

Lemma holds_list : list_jobs st = Ok (imap (λ i c, (Z.of_nat i, c)) js.*2).
Proof.
  destruct H as (tn & tb & T). unfold list_jobs. rewrite (ta_count _ _ _ _ _ T), Nat2Z.id. case_decide as Hz.
  - destruct js; [done|]. simpl in Hz. lia.
  - rewrite <- (length_fmap snd js). by apply (list_jobs_from_ok _ _ [] tb), T.
Qed.

Lemma enter_holds pid c :
  0 < pid → pid ∉ used → fits c → (length js < 9)%nat →
  ∃ st', add_job st pid c = Ok st' ∧ holds st' (js ++ [(pid, c)]) (pid :: used).
Proof.
  intros Hp Hn Hc Hl. destruct H as (tn & tb & T).
  destruct (table_tails tn tb T) as (z & r & zc & rc & -> & -> & Hr). pose proof T as [Tc Tp Tb Tl Tl' T9 _ Ts Tf Tu Tn].
  rewrite add_job_statements. rewrite (set_pid_ok st js.*1 z r) by (done || len). cbn [mbind outcome_bind].
  rewrite (set_cmd_ok _ js.*2 zc rc) by (done || len). cbn [mbind outcome_bind count num_jobs].
  rewrite count_up_ok by (unfold INT_MIN, INT_MAX; lia). eexists. split; [done|].
  exists r, rc. rewrite Tc. apply fits_parts in Tf as (? & ? & ?). apply Forall_cons in Ts as [_ Ts].
  apply table_snoc; try done; simpl in *; try lia.
  - apply Forall_app. split; [done|by constructor].
  - eapply Forall_impl; [exact Ts|]. intros x [?|?]; [by left|right; set_solver].
  - rewrite Tp in T9. rewrite lookup_app_r in * by len. rewrite length_fmap in *.
    destruct (9 - length js)%nat eqn:E; [lia|done].
Qed.

Lemma gone_holds pid :
  0 < pid → pid ∈ js.*1 ∨ pid ∉ used →
  ∃ st', sigchld_handler pid st = Ok st' ∧ holds st' (job_spec js (Ended pid)) used.
Proof.
  intros Hp Hin. destruct H as (tn & tb & T). pose proof T as [Tc Tp Tb Tl Tl' T9 Tr Ts Tf Tu Tn].
  destruct (decide (pid ∈ js.*1)) as [Hj|Hj].
  - clear Hin. apply list_elem_of_fmap_1 in Hj as ([p c] & -> & (l1 & m & Hjs)%list_elem_of_split). simpl in *.
    destruct (table_tails tn tb T) as (z & r & zc & rc & -> & -> & Hr).
    destruct (job_parts _ _ _ _ _ _ Hjs T) as ((Hp1 & Hm & _ & _) & (Hnd & Hu) & (Hf & Hf2 & [Hfz Hf3]%Forall_cons)).
    clear T. rewrite Hjs in Tc, Tp, Tb, Tl, Tr. rewrite Hjs.
    rewrite fmap_app in Tp; rewrite fmap_app in Tb. simpl in *.
    rewrite <- app_assoc in Tp; rewrite <- app_assoc in Tb. rewrite length_app in Tl, Tr, Tc. simpl in *.
    rewrite (handler_shift st T9 l1 p c m z zc r rc); try done; rewrite ?length_app; simpl; try lia; [|by apply Forall_app; split; [|constructor]].
    eexists. split; [done|]. rewrite filter_app, filter_cons. simpl. rewrite decide_False by tauto.
    rewrite !filter_all_pids by done. exists (z :: z :: r), (zc :: zc :: rc).
    split; simpl; rewrite ?fmap_app, ?length_app; try done; simpl; try lia.
    + rewrite (lookup_shifted (l1.*1 ++ p :: m.*1)) by (rewrite ?length_app; simpl; rewrite ?length_fmap; lia).
      rewrite <- app_assoc. rewrite Tp in T9. exact T9.
    + apply Forall_cons in Ts as [? ?]. by do 2 (constructor; [done|]).
    + rewrite <- fmap_app. apply Forall_app. split; [done|]. by do 2 (constructor; [done|]).
    + by rewrite <- fmap_app.
    + by rewrite <- fmap_app.
  - destruct Hin as [|Hu]; [done|]. rewrite (handler_other st T9).
    + exists st. split; [done|]. simpl. rewrite filter_all_pids by done. by exists tn, tb.
    + rewrite Tp. len.
    + done.
    + rewrite Tp. intros [?|Hs]%elem_of_app; [done|]. rewrite Forall_forall in Ts.
      destruct (Ts _ Hs) as [|?]; [lia|done].
Qed.

(** The entry of a job, cut in two by the handler. *)
Section interrupted.
Context (pid : Z) (c : cstr) (Hp : 0 < pid) (Hn : pid ∉ used) (Hc : fits c) (Hl : (length js < 9)%nat).

Lemma slot9 z r : num_jobs st = js.*1 ++ z :: r → num_jobs st !! 9%nat = Some 0 → (js.*1 ++ pid :: r) !! 9%nat = Some 0.
Proof.
  intros -> T9. rewrite lookup_app_r in * by len. rewrite length_fmap in *.
  destruct (9 - length js)%nat eqn:E; [lia|done].
Qed.

(** Another job ends. *)
Lemma interrupted_by_job point ended :
  ended ∈ js.*1 →
  ∃ st', add_interrupted point ended st pid c = Ok st' ∧
  holds st' (filter (λ j : job, j.1 ≠ ended) (js ++ [(pid, c)])) (pid :: used).
Proof.
  intros Hj. destruct H as (tn & tb & T). apply list_elem_of_fmap_1 in Hj as ([p d] & -> & (l1 & m & Hjs)%list_elem_of_split).
  destruct (table_tails tn tb T) as (z & r & zc & rc & -> & -> & Hr). pose proof T as [Tc Tp Tb Tl Tl' T9 Tr Ts Tf Tu Tn].
  pose proof (slot9 z r Tp T9) as T9'.
  destruct (job_parts _ _ _ _ _ _ Hjs T) as ((Hp1 & Hp2 & Hp0 & Hpu) & (Hnd & Hu) & (Hf1 & Hf2 & [Hfz Hfr]%Forall_cons)).
  clear T. simpl in *.
  unfold add_interrupted. rewrite (set_pid_ok st js.*1 z r) by (done || len). cbn [mbind outcome_bind].
  assert (p ≠ pid) as Hpp by (by intros ->).
  assert (filter (λ j : job, j.1 ≠ p) (js ++ [(pid, c)]) = (l1 ++ m) ++ [(pid, c)]) as ->.
  { rewrite Hjs, !filter_app, filter_cons. simpl. rewrite decide_False by tauto.
    rewrite !filter_all_pids by done. rewrite filter_cons, filter_nil. by rewrite decide_True by done. }
  assert (js.*1 ++ pid :: r = l1.*1 ++ p :: m.*1 ++ pid :: r) as Hnj by (rewrite Hjs, fmap_app, <- app_assoc; done).
  assert (length js = S (length (l1 ++ m)) ∧ (length l1 < 9)%nat) as [Hlen Hl1] by (rewrite Hjs in *; len).
  assert (Forall (λ x, x = 0 ∨ x ∈ pid :: used) (pid :: r)) as Hst.
  { constructor; [right; by left|]. apply Forall_cons in Ts as [_ Ts]. eapply Forall_impl; [exact Ts|].
    intros x [?|?]; [by left|right; by right]. }
  assert (∀ y, fits y → Forall fits (m.*2 ++ [y])) as Hfy by (intros y Hy; apply Forall_app; by split; [|constructor]).
  assert (∀ zt, fits zt → Forall fits ((l1 ++ m).*2 ++ c :: zt :: rc)) as Hft.
  { intros zt Hzt. apply Forall_app. by split; [|do 2 (constructor; [done|])]. }
  assert (((l1 ++ m).*1 ++ pid :: pid :: r) !! 9%nat = Some 0) as T9''.
  { rewrite (lookup_shifted js.*1) by (rewrite ?length_fmap; lia). exact T9'. }
  destruct point; cbn [mbind outcome_bind].
  - rewrite (handler_shift (MkJobs _ _ _) T9' l1 p d m pid zc r rc); try done; simpl;
    [|by rewrite Tb, Hjs, fmap_app, <- app_assoc|by rewrite Tc, Hjs|by rewrite <- Hjs|by apply Hfy].
    cbn [mbind outcome_bind]. rewrite (set_cmd_ok _ (l1 ++ m).*2 zc (zc :: rc)) by (done || simpl; rewrite ?length_fmap; lia).
    cbn [mbind outcome_bind count num_jobs]. rewrite count_up_ok by (unfold INT_MIN, INT_MAX; lia).
    eexists. split; [done|]. exists (pid :: r), (zc :: rc).
    replace (count st - 1 + 1) with (Z.of_nat (length (l1 ++ m)) + 1) by lia.
    apply table_snoc; try done; simpl in *; try lia. by apply Hft.
  - rewrite (set_cmd_ok _ js.*2 zc rc) by (done || simpl; rewrite ?length_fmap; lia). cbn [mbind outcome_bind count num_jobs].
    rewrite (handler_shift (MkJobs _ _ _) T9' l1 p d m pid c r rc); try done; simpl;
      [|by rewrite Hjs, fmap_app, <- app_assoc|by rewrite Tc, Hjs|by rewrite <- Hjs|by apply Hfy].
    cbn [mbind outcome_bind]. rewrite count_up_ok by (unfold INT_MIN, INT_MAX; lia).
    eexists. split; [done|]. exists (pid :: r), (c :: rc).
    replace (count st - 1 + 1) with (Z.of_nat (length (l1 ++ m)) + 1) by lia.
    apply table_snoc; try done; simpl in *; try lia. by apply Hft.
Qed.

(** A child that is no job ends. *)
Lemma interrupted_by_other point ended :
  0 < ended → ended ∉ pid :: used →
  ∃ st', add_interrupted point ended st pid c = Ok st' ∧ holds st' (js ++ [(pid, c)]) (pid :: used).
Proof.
  intros He Hne. destruct (enter_holds pid c Hp Hn Hc Hl) as (st' & Ha & Hh). exists st'. split; [|done].
  rewrite add_job_statements in Ha. destruct H as (tn & tb & T).
  destruct (table_tails tn tb T) as (z & r & zc & rc & -> & -> & _). pose proof T as [Tc Tp Tb Tl _ T9 _ Ts _ Tu _].
  pose proof (slot9 z r Tp T9) as T9'. clear T. simpl in Tl.
  assert (ended ∉ js.*1 ++ pid :: r) as Hno.
  { intros [Hin|[->|Hin]%elem_of_cons]%elem_of_app.
    - rewrite Forall_forall in Tu. apply Tu in Hin as [_ ?]. apply Hne. by right.
    - apply Hne. by left.
    - apply Forall_cons in Ts as [_ Ts]. rewrite Forall_forall in Ts. apply Ts in Hin as [?|?]; [lia|].
      apply Hne. by right. }
  unfold add_interrupted. rewrite (set_pid_ok st js.*1 z r) in * by (done || len). cbn [mbind outcome_bind] in *.
  destruct point; cbn [mbind outcome_bind].
  - rewrite (handler_other (MkJobs _ _ _) T9') by (done || simpl; rewrite ?length_app, ?length_fmap; simpl; lia). exact Ha.
  - rewrite (set_cmd_ok _ js.*2 zc rc) in * by (done || simpl; rewrite ?length_fmap; lia).
    cbn [mbind outcome_bind count num_jobs] in *.
    rewrite (handler_other (MkJobs _ _ _) T9') by (done || simpl; rewrite ?length_app, ?length_fmap; simpl; lia). exact Ha.
Qed.

(** The job itself ends when its pid and command are in place: it is not
    counted. *)
Lemma interrupted_by_itself :
  ∃ st', add_interrupted BeforeCount pid st pid c = Ok st' ∧ holds st' js (pid :: used).
Proof.
  destruct H as (tn & tb & T).
  destruct (table_tails tn tb T) as (z & r & zc & rc & -> & -> & Hr). pose proof T as [Tc Tp Tb Tl Tl' T9 Tr Ts Tf Tu Tn].
  pose proof (slot9 z r Tp T9) as T9'. clear T. simpl in Tl.
  unfold add_interrupted. rewrite (set_pid_ok st js.*1 z r) by (done || len). cbn [mbind outcome_bind].
  rewrite (set_cmd_ok _ js.*2 zc rc) by (done || simpl; rewrite ?length_fmap; lia). cbn [mbind outcome_bind count num_jobs].
  assert (pid ∉ js.*1) as Hni by (intros Hin; rewrite Forall_forall in Tu; by destruct (Tu _ Hin)).
  rewrite (handler_at_count (MkJobs _ _ _) T9' js.*1 pid r) by (done || simpl; rewrite ?length_fmap; lia).
  cbn [mbind outcome_bind count num_jobs bg_cmds]. rewrite count_up_ok by (unfold INT_MIN, INT_MAX; lia).
  eexists. split; [done|]. exists (pid :: r), (c :: rc). apply fits_parts in Tf as (? & ? & ?).
  split; simpl in *; try done; try lia.
  - constructor; [right; by left|]. apply Forall_cons in Ts as [_ Ts]. eapply Forall_impl; [exact Ts|].
    intros x [?|?]; [by left|right; by right].
  - apply Forall_app. by split; [|constructor].
  - eapply Forall_impl; [exact Tu|]. intros x [? ?]. split; [done|by right].
Qed.

(** The job itself ends when its pid is in place and its command is not: the
    command is written over that of the last job, or before the table. *)
Lemma interrupted_too_early :
  match last js with
  | None => add_interrupted BeforeCmd pid st pid c = Undef OutOfBounds
  | Some _ => ∃ st', add_interrupted BeforeCmd pid st pid c = Ok st' ∧
      list_jobs st' = Ok (imap (λ i c, (Z.of_nat i, c)) (take (length js - 1) js.*2 ++ [c]))
  end.
Proof.
  destruct H as (tn & tb & T).
  destruct (table_tails tn tb T) as (z & r & zc & rc & -> & -> & Hr). pose proof T as [Tc Tp Tb Tl Tl' T9 Tr Ts Tf Tu Tn].
  pose proof (slot9 z r Tp T9) as T9'. clear T. simpl in Tl.
  unfold add_interrupted. rewrite (set_pid_ok st js.*1 z r) by (done || len). cbn [mbind outcome_bind].
  assert (pid ∉ js.*1) as Hni by (intros Hin; rewrite Forall_forall in Tu; by destruct (Tu _ Hin)).
  rewrite (handler_at_count (MkJobs _ _ _) T9' js.*1 pid r) by (done || simpl; rewrite ?length_fmap; lia).
  cbn [mbind outcome_bind count num_jobs bg_cmds].
  destruct js as [|j l _] using rev_ind.
  { simpl. unfold set_cmd, strcpy. rewrite decide_True by done. cbn [mbind outcome_bind].
    unfold set_job. simpl. simpl in Tc. rewrite Tc. by rewrite decide_False by lia. }
  rewrite last_snoc. rewrite length_app in Tc; rewrite length_app in Hl; rewrite length_app.
  rewrite fmap_app in Tb; rewrite !fmap_app. simpl in *. rewrite <- app_assoc in Tb.
  rewrite (set_cmd_ok _ l.*2 j.2 (zc :: rc)) by (done || simpl; rewrite ?length_fmap; lia).
  cbn [mbind outcome_bind count num_jobs]. rewrite count_up_ok by (unfold INT_MIN, INT_MAX; lia).
  eexists. split; [done|]. unfold list_jobs. simpl. rewrite decide_False by lia.
  replace (length l + 1 - 1)%nat with (length l) by lia. rewrite take_app_length' by len.
  replace (Z.to_nat (count st - 1 + 1)) with (length (l.*2 ++ [c])) by (rewrite length_app, length_fmap; simpl; lia).
  apply (list_jobs_from_ok _ _ [] (zc :: rc)). by rewrite <- app_assoc.
Qed.
End interrupted.
End steps.

(** * Sequences of entries and ends *)
Inductive entry_event :=
  | Entered (pid : Z) (cmd : cstr)
  | Interrupted (point : add_point) (ended pid : Z) (cmd : cstr)
  | Gone (pid : Z).
Definition entry_step (st : jobs) (e : entry_event) : outcome jobs :=
  match e with
  | Entered pid c => add_job st pid c
  | Interrupted point ended pid c => add_interrupted point ended st pid c
  | Gone pid => sigchld_handler pid st
  end.
Fixpoint entry_run (st : jobs) (es : list entry_event) : outcome jobs :=
  match es with [] => Ok st | e :: es' => st' ← entry_step st e; entry_run st' es' end.

(** The running jobs, and the pids used so far. *)
Definition entry_spec (s : list job * list Z) (e : entry_event) : list job * list Z :=
  match e with
  | Entered pid c => (s.1 ++ [(pid, c)], pid :: s.2)
  | Interrupted _ ended pid c => (filter (λ j : job, j.1 ≠ ended) (s.1 ++ [(pid, c)]), pid :: s.2)
  | Gone pid => (filter (λ j : job, j.1 ≠ pid) s.1, s.2)
  end.
Definition new_job (s : list job * list Z) (pid : Z) (c : cstr) : Prop :=
  0 < pid ∧ (pid ∉ s.2) ∧ fits c ∧ (length s.1 < 9)%nat.
(** A child that ends is a running job, or was never one; a new job may end
    before it is counted, but not before its command is entered. *)
Definition entry_allowed (s : list job * list Z) (e : entry_event) : Prop :=
  match e with
  | Entered pid c => new_job s pid c
  | Interrupted point ended pid c =>
      new_job s pid c ∧ 0 < ended ∧
      (ended ∈ s.1.*1 ∨ ended ∉ pid :: s.2 ∨ ended = pid ∧ point = BeforeCount)
  | Gone pid => 0 < pid ∧ (pid ∈ s.1.*1 ∨ pid ∉ s.2)
  end.
Fixpoint entries_allowed (s : list job * list Z) (es : list entry_event) : Prop :=
  match es with [] => True | e :: es' => entry_allowed s e ∧ entries_allowed (entry_spec s e) es' end.

Lemma entry_step_holds st s e :
  holds st s.1 s.2 → entry_allowed s e →
  ∃ st', entry_step st e = Ok st' ∧ holds st' (entry_spec s e).1 (entry_spec s e).2.
Proof.
  destruct s as [js used]. intros H Ha. destruct e as [pid c|point ended pid c|pid]; simpl in *.
  - destruct Ha as (? & ? & ? & ?). by apply enter_holds.
  - destruct Ha as ((Hp & Hn & Hc & Hl) & He & Hcase). simpl in *.
    assert (pid ∉ js.*1) as Hni.
    { destruct H as (tn & tb & T). intros Hin. pose proof (ta_used _ _ _ _ _ T) as Hu. rewrite Forall_forall in Hu.
      by destruct (Hu _ Hin). }
    destruct (decide (ended ∈ js.*1)) as [Hj|Hj]; [by apply interrupted_by_job|].
    destruct Hcase as [|[Ho|[-> ->]]]; [done| |].
    + rewrite filter_all_pids; [by apply interrupted_by_other|]. rewrite fmap_app. simpl. set_solver.
    + rewrite filter_app, filter_all_pids by done. rewrite filter_cons, filter_nil. simpl.
      rewrite decide_False by tauto. rewrite app_nil_r. by apply interrupted_by_itself.
  - destruct Ha. by apply gone_holds.
Qed.

Lemma entry_run_holds es : ∀ st s,
  holds st s.1 s.2 → entries_allowed s es →
  ∃ st', entry_run st es = Ok st' ∧ holds st' (foldl entry_spec s es).1 (foldl entry_spec s es).2.
Proof.
  induction es as [|e es IH]; intros st s H Ha; [by exists st|]. destruct Ha as [He Ha].
  destruct (entry_step_holds st s e H He) as (st1 & Hs & H1). cbn [entry_run]. rewrite Hs. cbn [mbind outcome_bind].
  by apply IH.
Qed.

(** C9: when the SIGCHLD handler may run in the middle of the entry of a job:
    for any sequence of entries, interrupted entries and ends of children in
    which at most nine jobs run at a time and pids are not used again, every
    access to the table is in bounds and [num_jobs] lists exactly the jobs
    that run, in the order they were started, whichever other child ends and
    wherever the handler cuts the entry, and also when the new job itself ends
    after its command was entered. If it ends before that, its command is
    written over the one of the last job, or before the start of the table. *)
Theorem interrupted_entries es :
  entries_allowed ([], []) es →
  let s := foldl entry_spec ([], []) es in
  ∃ st, entry_run jobs_init es = Ok st ∧ count st = Z.of_nat (length s.1) ∧
    list_jobs st = Ok (imap (λ i c, (Z.of_nat i, c)) s.1.*2) ∧
    ∀ pid c, new_job s pid c →
      match last s.1 with
      | None => add_interrupted BeforeCmd pid st pid c = Undef OutOfBounds
      | Some _ => ∃ st', add_interrupted BeforeCmd pid st pid c = Ok st' ∧
          list_jobs st' = Ok (imap (λ i c, (Z.of_nat i, c)) (take (length s.1 - 1) s.1.*2 ++ [c]))
      end.
Proof.
  intros Ha s. destruct (entry_run_holds es jobs_init ([], []) init_holds Ha) as (st & Hr & H). fold s in H.
  exists st. split_and!; [done| |by eapply holds_list|].
  - destruct H as (tn & tb & T). apply T.
  - intros pid c (Hp & Hn & Hc & Hl). by apply (interrupted_too_early st s.1 s.2 H pid c Hp Hn Hc Hl).
Qed.

(** * At a concrete sequence *)
Definition demo_entries : list entry_event :=
  [Entered 101 (lit "sleep 9 &"); Interrupted BeforeCmd 101 102 (lit "make &"); Gone 77;
   Interrupted BeforeCount 103 103 (lit "true &"); Interrupted BeforeCount 88 104 (lit "du &")].

Lemma interrupted_entries_witness :
  ∃ st, entry_run jobs_init demo_entries = Ok st ∧ count st = 2 ∧
    list_jobs st = Ok [(0, lit "make &"); (1, lit "du &")] ∧
    ∃ st', add_interrupted BeforeCmd 105 st 105 (lit "ls &") = Ok st' ∧
      list_jobs st' = Ok [(0, lit "make &"); (1, lit "ls &")].
Proof.
  assert (∀ c, (length c <? 5000)%nat = true → fits c) as Hfit by (intros c; apply Nat.ltb_lt).
  destruct (interrupted_entries demo_entries) as (st & Hr & Hc & Hl & He).
  - simpl. unfold new_job. simpl. repeat split; try lia; try (by apply Hfit); try decide_now.
    + left. decide_now.
    + right. by right.
    + right. left. decide_now.
  - exists st. split_and!; [exact Hr|exact Hc|exact Hl|]. apply He.
    split_and!; [done|decide_now|by apply Hfit|simpl; lia].
Defined.
