(* ===== verification/JobSlots.v ===== *)
(** The table of background jobs (Project2/shell.c) whatever waitpid reports to
    the SIGCHLD handler: also 0, when the child that ended was reaped before
    (as that of a foreground command) and others still run, and -1, when there
    are no others.  A report of 0 takes the last job off the list that
    num_jobs shows, although it runs. *)
From Stdlib Require Import ZArith Lia Ascii.
From stdpp Require Import prelude gmap strings numbers list.
From S2P Require Import Prelude CString Jobs JobsInterrupt.
Open Scope Z_scope.
Import CInt.

(** * Slots *)

(** The jobs that num_jobs lists, the slots behind them, and how far below 0
    the count has been taken when none is listed. *)
Record slots := MkSlots { listed : list job; behind : list job; below : nat }.
Definition free_slot : job := (0, []).
Definition slots_init : slots := MkSlots [] (replicate 10 free_slot) 0.

(** A new job takes the first slot behind the list.  A report of [pid] takes
    the job of that pid off the list; of a pid behind the list (a slot that was
    never used has pid 0), the last job; any other report changes nothing. *)
Definition drop_last (s : slots) : slots :=
  match last (listed s) with
  | Some j => MkSlots (take (length (listed s) - 1) (listed s)) (j :: behind s) (below s)
  | None => MkSlots [] (behind s) (S (below s))
  end.
Definition slot_spec (s : slots) (e : job_event) : slots :=
  match e with
  | Started pid c => MkSlots (listed s ++ [(pid, c)]) (drop 1 (behind s)) (below s)
  | Ended pid =>
      if decide (pid ∈ (listed s).*1)
      then MkSlots (filter (λ j : job, j.1 ≠ pid) (listed s)) (default free_slot (head (behind s)) :: behind s) (below s)
      else if decide (pid ∈ (behind s).*1) then drop_last s else s
  end.
Definition slot_allowed (s : slots) (e : job_event) : Prop :=
  match e with
  | Started pid c => 0 < pid ∧ (pid ∉ (listed s).*1) ∧ fits c ∧ (length (listed s) < 9)%nat ∧ below s = 0%nat
  | Ended pid => -1 ≤ pid ∧ Z.of_nat (below s) < INT_MAX
  end.
Fixpoint slots_allowed (s : slots) (es : list job_event) : Prop :=
  match es with [] => True | e :: es' => slot_allowed s e ∧ slots_allowed (slot_spec s e) es' end.

Record slots_rep (st : jobs) (s : slots) : Prop := {
  sr_count : count st = Z.of_nat (length (listed s)) - Z.of_nat (below s);
  sr_pids : num_jobs st = (listed s ++ behind s).*1;
  sr_cmds : bg_cmds st = (listed s ++ behind s).*2;
  sr_len : length (listed s ++ behind s) = 10%nat;
  sr_last : (listed s ++ behind s) !! 9%nat = Some free_slot;
  sr_room : (length (listed s) ≤ 9)%nat;
  sr_below : below s = 0%nat ∨ listed s = [];
  sr_min : Z.of_nat (below s) ≤ INT_MAX;
  sr_fit : Forall fits (listed s ++ behind s).*2;
  sr_pos : Forall (λ p, 0 < p) (listed s).*1;
  sr_nonneg : Forall (λ p, 0 ≤ p) (behind s).*1;
  sr_nodup : NoDup (listed s).*1
}.

Lemma slots_init_rep : slots_rep jobs_init slots_init.
Proof.
  split; cbn [listed behind below slots_init app length fmap list_fmap]; try done; try lia; try (by left).
  - change (Forall fits (replicate 10 free_slot).*2). rewrite fmap_replicate. apply Forall_replicate. unfold fits. simpl. lia.
  - change (Forall (λ p, 0 ≤ p) (replicate 10 free_slot).*1). rewrite fmap_replicate. by apply Forall_replicate.
Qed.

(** * Steps *)
Section steps.
Context (st : jobs) (s : slots) (R : slots_rep st s).

Lemma slots_last : num_jobs st !! 9%nat = Some 0.
Proof. rewrite (sr_pids _ _ R), list_lookup_fmap, (sr_last _ _ R). done. Qed.

(** There is a slot behind the list; the last of all stays free. *)
Lemma slots_behind : ∃ z r, behind s = z :: r ∧ ((length (listed s) < 9)%nat → r !! (8 - length (listed s))%nat = Some free_slot).
Proof.
  pose proof (sr_len _ _ R) as Hl. pose proof (sr_room _ _ R) as Hr. pose proof (sr_last _ _ R) as H9.
  rewrite length_app in Hl. destruct (behind s) as [|z r]; [simpl in Hl; lia|]. exists z, r. split; [done|].
  intros Hlt. rewrite lookup_app_r in H9 by lia.
  by replace (9 - length (listed s))%nat with (S (8 - length (listed s))) in H9 by lia.
Qed.

Lemma start_rep pid c :
  slot_allowed s (Started pid c) → ∃ st', add_job st pid c = Ok st' ∧ slots_rep st' (slot_spec s (Started pid c)).
Proof.
  intros (Hp & Hn & Hc & Hl & Hb). destruct slots_behind as (z & r & Hz & H9). specialize (H9 Hl).
  cbn [slot_spec]. rewrite Hz. cbn [drop]. rewrite drop_0.
  destruct R as [Tc Tp Tb Tl T9 Tr Tw Tm Tf Tu Tz Tn]. rewrite Hz in *. rewrite !fmap_app in *. simpl in *.
  rewrite length_app in Tl. simpl in Tl.
  rewrite add_job_statements, (set_pid_ok st (listed s).*1 z.1 r.*1) by (done || rewrite length_fmap; lia).
  cbn [mbind outcome_bind]. rewrite (set_cmd_ok _ (listed s).*2 z.2 r.*2) by (done || simpl; rewrite ?length_fmap; lia).
  cbn [mbind outcome_bind count num_jobs]. rewrite count_up_ok by (unfold INT_MIN, INT_MAX; lia).
  eexists. split; [done|]. split; simpl; rewrite ?fmap_app, <- ?app_assoc; simpl; try done.
  - rewrite length_app. simpl. lia.
  - rewrite length_app. simpl. lia.
  - rewrite lookup_app_r by lia. by replace (9 - length (listed s))%nat with (S (8 - length (listed s))) by lia.
  - rewrite length_app. simpl. lia.
  - by left.
  - apply Forall_app in Tf as [? [_ ?]%Forall_cons]. apply Forall_app. by split; [|constructor].
  - apply Forall_app. by split; [|repeat constructor].
  - by apply Forall_cons in Tz as [_ ?].
  - apply NoDup_app. split_and!; [done|set_solver|apply NoDup_singleton].
Qed.

(** The end of a listed job. *)
Lemma listed_rep pid :
  pid ∈ (listed s).*1 → ∃ st', sigchld_handler pid st = Ok st' ∧ slots_rep st' (slot_spec s (Ended pid)).
Proof.
  intros Hin. simpl. rewrite decide_True by done.
  apply list_elem_of_fmap_1 in Hin as ([p c] & -> & (l1 & m & Hjs)%list_elem_of_split). simpl in *.
  destruct slots_behind as (z & r & Hz & _). pose proof slots_last as H9.
  destruct R as [Tc Tp Tb Tl T9 Tr Tw Tm Tf Tu Tz Tn]. rewrite Hz, Hjs in *. simpl.
  rewrite !fmap_app in *. simpl in *. rewrite <- !app_assoc in *. simpl in *.
  repeat (rewrite length_app in *; simpl in *).
  assert (below s = 0%nat) as Hb by (destruct Tw as [|Hw]; [done|by destruct l1]).
  apply NoDup_app in Tn as (Hn1 & Hd & [Hm Hn2]%NoDup_cons). apply Forall_app in Tu as [Hu1 [Hp Hu2]%Forall_cons].
  apply Forall_app in Tf as [Hf1 [_ Hf2]%Forall_cons].
  assert (p ∉ l1.*1) as Hp1 by (intros Hx; apply (Hd _ Hx); by left).
  rewrite (handler_shift st H9 l1 p c m z.1 z.2 r.*1 r.*2); try done; repeat (rewrite length_app; simpl); try lia.
  2: { apply Forall_app in Hf2 as [? [? _]%Forall_cons]. apply Forall_app. split; [done|]. by apply Forall_singleton. }
  eexists. split; [done|]. rewrite filter_app, filter_cons. simpl. rewrite decide_False by tauto.
  rewrite !filter_all_pids by done. split; simpl; repeat (rewrite length_app; simpl); rewrite ?fmap_app; simpl; try done; try lia.
  - rewrite <- T9. rewrite !lookup_app_r by (rewrite ?length_app; simpl; lia). rewrite length_app.
    destruct (9 - length l1)%nat as [|k] eqn:Hk; [lia|]. simpl. rewrite lookup_app_r by lia.
    replace (9 - (length l1 + length m))%nat with (S (k - length m)) by lia. done.
  - apply Forall_app in Hf2 as [? [? ?]%Forall_cons].
    apply Forall_app. split; [by apply Forall_app|]. by repeat (constructor; [done|]).
  - by apply Forall_app.
  - apply Forall_cons in Tz as [? ?]. by repeat (constructor; [done|]).
  - apply NoDup_app. split_and!; [done| |done]. intros x Hx. specialize (Hd x Hx). set_solver.
Qed.

(** A report that only takes one from the count. *)
Lemma drop_rep cnt nj bg :
  cnt = count st - 1 → nj = num_jobs st → bg = bg_cmds st → Z.of_nat (below s) < INT_MAX →
  slots_rep (MkJobs cnt nj bg) (drop_last s).
Proof.
  intros -> -> -> Hb. destruct R as [Tc Tp Tb Tl T9 Tr Tw Tm Tf Tu Tz Tn]. unfold drop_last.
  destruct (listed s) as [|j l _] eqn:Hl using rev_ind; simpl.
  - simpl in *. split; simpl; try done; try lia. by right.
  - rewrite last_snoc, length_app. replace (length l + length [j] - 1)%nat with (length l) by (simpl; lia).
    rewrite take_app_length. rewrite <- app_assoc in *. simpl in *. rewrite length_app in *. simpl in *.
    rewrite fmap_app in Tu, Tn. apply Forall_app in Tu as [? [? _]%Forall_cons]. apply NoDup_app in Tn as (? & _ & _).
    split; simpl; try done; try lia.
    + rewrite length_app. exact Tl.
    + left. destruct Tw as [|Hn]; [done|]. by apply app_nil in Hn as [_ ?].
    + constructor; [simpl in *; lia|done].
Qed.

Lemma behind_rep pid :
  -1 ≤ pid → Z.of_nat (below s) < INT_MAX → pid ∉ (listed s).*1 →
  ∃ st', sigchld_handler pid st = Ok st' ∧ slots_rep st' (slot_spec s (Ended pid)).
Proof.
  intros Hp Hb Hn. pose proof slots_last as H9. pose proof R as [Tc Tp Tb Tl T9 Tr Tw Tm Tf Tu Tz Tn].
  simpl. rewrite decide_False by done. assert (length (num_jobs st) = 10%nat) as Hln by (rewrite Tp; len).
  assert (length (bg_cmds st) = 10%nat) as Hlb by (rewrite Tb; len).
  assert (INT_MIN < count st) as Hmin by (unfold INT_MIN, INT_MAX in *; lia).
  destruct (decide (pid = 0)) as [->|Hp0].
  { assert (0 ∈ (behind s).*1) as Hin.
    { apply (list_elem_of_fmap_2' fst (behind s) free_slot 0); [|done].
      rewrite lookup_app_r in T9 by lia. by eapply list_elem_of_lookup_2. }
    rewrite decide_True by done. unfold sigchld_handler. rewrite (job_at_nat _ 9 0 H9 : job_at _ 9 = _).
    cbn [mbind outcome_bind]. rewrite decide_True by done. rewrite int_result_ok by (unfold INT_MIN, INT_MAX in *; lia).
    unfold set_job. rewrite Hlb, Hln. simpl. eexists. split; [done|].
    apply drop_rep; [done|by apply list_insert_id| |done]. apply list_insert_id.
    change (bg_cmds st !! 9%nat = Some []). by rewrite Tb, list_lookup_fmap, T9. }
  destruct (decide (pid ∈ (behind s).*1)) as [Hin|Hout].
  - assert (0 < pid) as Hpos by (rewrite Forall_forall in Tz; specialize (Tz _ Hin); lia).
    destruct (list_elem_of_split_l _ _ Hin) as (k1 & k2 & Hk & Hnk).
    assert (num_jobs st = ((listed s).*1 ++ k1) ++ pid :: k2) as Hnj by (rewrite Tp, fmap_app, Hk; app_eq).
    rewrite (handler_past_count st H9 ((listed s).*1 ++ k1) pid k2); try done.
    + eexists. split; [done|]. by apply drop_rep.
    + set_solver.
    + assert (((listed s).*1 ++ k1) ++ [pid] ++ k2 = num_jobs st) as Hx by done.
      rewrite Hnj in H9, Hln. destruct (decide (length ((listed s).*1 ++ k1) = 9%nat)) as [E|].
      * rewrite lookup_middle_eq in H9 by done. congruence.
      * rewrite !length_app in *. simpl in *. destruct k2; [|simpl in *; lia].
        simpl in Hln. lia.
    + rewrite length_app, length_fmap. lia.
  - exists st. split; [|done].
    assert (pid ∉ num_jobs st) as Hno by (rewrite Tp, fmap_app; set_solver).
    unfold sigchld_handler. rewrite (job_at_nat _ 9 0 H9 : job_at _ 9 = _). cbn [mbind outcome_bind].
    rewrite decide_False by done. rewrite (find_job_none _ _ 10 0); [done|done|lia| |lia].
    intros i x _ Hx ->. by apply Hno, (list_elem_of_lookup_2 _ i).
Qed.

Lemma slot_step_rep e :
  slot_allowed s e → ∃ st', job_step st e = Ok st' ∧ slots_rep st' (slot_spec s e).
Proof.
  intros Ha. destruct e as [pid c|pid]; [by apply start_rep|]. destruct Ha as [Hp Hb].
  destruct (decide (pid ∈ (listed s).*1)); [by apply listed_rep|by apply behind_rep].
Qed.

(** num_jobs prints the listed jobs. *)
Lemma slots_list : list_jobs st = Ok (imap (λ i c, (Z.of_nat i, c)) (listed s).*2).
Proof.
  destruct R as [Tc Tp Tb Tl T9 Tr Tw Tm Tf Tu Tz Tn]. unfold list_jobs. case_decide as Hz.
  - destruct Tw as [Hw|Hw]; [|by rewrite Hw]. assert (length (listed s) = 0%nat) as H0 by lia.
    apply nil_length_inv in H0. by rewrite H0.
  - destruct Tw as [Hw|Hw].
    + replace (Z.to_nat (count st)) with (length (listed s).*2) by (rewrite length_fmap; lia).
      apply (list_jobs_from_ok _ _ [] (behind s).*2). by rewrite Tb, fmap_app.
    + rewrite Hw in *. simpl in *. by replace (Z.to_nat (count st)) with 0%nat by lia.
Qed.
End steps.

Lemma slots_allowed_app s es es' :
  slots_allowed s (es ++ es') ↔ slots_allowed s es ∧ slots_allowed (foldl slot_spec s es) es'.
Proof. revert s. induction es as [|ev es IH]; intros s; simpl; [tauto|]. rewrite IH. tauto. Qed.

(** * Without reports of 0 *)

(** Then the slots behind the list are never used, and the list is that of the
    running jobs. *)
Definition unused (s : slots) : Prop := Forall (λ j, j = free_slot) (behind s) ∧ below s = 0%nat.

Lemma unused_step s e :
  unused s → e ≠ Ended 0 → unused (slot_spec s e) ∧ listed (slot_spec s e) = job_spec (listed s) e.
Proof.
  intros [Hu Hb] He. destruct e as [pid c|pid]; simpl.
  - split; [|done]. split; [by apply Forall_drop|done].
  - case_decide as Hin.
    + split; [|done]. split; [|done]. simpl. constructor; [|done]. by destruct Hu.
    + rewrite decide_False.
      * rewrite filter_all_pids by done. by split.
      * intros (j & -> & Hj)%list_elem_of_fmap_1. rewrite Forall_forall in Hu. rewrite (Hu _ Hj) in He. done.
Qed.

Lemma listed_running es :
  Forall (λ e, e ≠ Ended 0) es → listed (foldl slot_spec slots_init es) = foldl job_spec [] es.
Proof.
  assert (∀ s, unused s → Forall (λ e, e ≠ Ended 0) es → listed (foldl slot_spec s es) = foldl job_spec (listed s) es) as H.
  { induction es as [|e es IH]; intros s Hu Hes; [done|]. apply Forall_cons in Hes as [He Hes]. simpl.
    destruct (unused_step s e Hu He) as [Hu' Hl]. rewrite IH by done. by rewrite Hl. }
  intros Hes. apply H; [|done]. split; [|done]. apply Forall_replicate. done.
Qed.
