(* ===== verification/Pipeline.v ===== *)
(** Pipelines: the parsing of a token array into commands ([exec] of
    Project2/shell.c), their execution ([execute_pipeline] of the same file
    and of LabWork/Lab9/leetify.c) with the file descriptors of every process
    it creates, and the [main] of leetify. *)
From Stdlib Require Import ZArith Lia Ascii.
From stdpp Require Import prelude gmap strings numbers list.
From S2P Require Import Prelude CString.
Open Scope nat_scope.

(** * Parsing *)

(** [struct command_line]; NULL is [None], and [tokens] is the array up to its
    NULL. *)
Record command_line := MkCmd {
  tokens : option (list cstr);
  stdout_pipe : bool;
  stdout_file : option cstr
}.

(** [malloc(5000)] has room for this many pointers. *)
Definition ARGV_CAP : nat := 625.

(** The locals of the parsing loop; [cmds] holds the entries filled so far,
    [index] is its length. *)
Record parse_state := MkParse {
  last : nat;
  hasPipe : bool;
  cmds : list command_line
}.

(** The token array: its entries up to the last one that was written. *)
Abbreviation token_array := (list (option cstr)).
Definition token_at (toks : token_array) (i : nat) : outcome (option cstr) :=
  require Uninitialised (toks !! i).

(** [tokens[current]] to [tokens[t_count]], each passed to [strcmp]. *)
Definition token_slice (toks : token_array) (current t_count : nat) : outcome (list cstr) :=
  mapM (require NullDeref) (take (S t_count - current) (drop current toks)).

(** Copies the slice up to [stop] into a fresh array: the array, and the value
    of [current] after the loop. *)
Definition copy_argv (stop : option cstr) (current : nat) (slice : list cstr)
    : outcome (list cstr * nat) :=
  let argv := match stop with
              | Some s => take_while (λ t, negb (strcmp_eq t s)) slice
              | None => slice
              end in
  if decide (length argv < ARGV_CAP) then Ok (argv, current + length argv) else Undef OutOfBounds.

Definition seg_start (st : parse_state) : nat := if hasPipe st then S (last st) else last st.

Definition on_pipe (toks : token_array) (t_count : nat) (st : parse_state) : outcome parse_state :=
  slice ← token_slice toks (seg_start st) t_count;
  '(temp_tokens, _) ← copy_argv (Some (lit "|")) (seg_start st) slice;
  Ok (MkParse t_count true (cmds st ++ [MkCmd (Some temp_tokens) true None])).

Definition on_redirect (toks : token_array) (t_count : nat) (st : parse_state) : outcome parse_state :=
  slice ← token_slice toks (seg_start st) t_count;
  '(temp_tokens, current) ← copy_argv (Some (lit ">")) (seg_start st) slice;
  file ← token_at toks (current + 1);
  Ok (MkParse t_count true (cmds st ++ [MkCmd (Some temp_tokens) false file])).

Definition on_last (toks : token_array) (t_count : nat) (st : parse_state) : outcome parse_state :=
  slice ← token_slice toks (seg_start st) t_count;
  '(temp_end_tokens, _) ← copy_argv None (seg_start st) slice;
  Ok (MkParse (last st) (hasPipe st) (cmds st ++ [MkCmd (Some temp_end_tokens) false None])).

Fixpoint parse_loop (fuel : nat) (toks : token_array) (t_count : nat) (st : parse_state)
    : outcome parse_state :=
  match fuel with
  | 0 => OutOfFuel
  | S f =>
      t ← token_at toks t_count;
      match t with
      | None => Ok st
      | Some tok =>
          st1 ← (if strncmp_eq tok (lit "|") 1 then on_pipe toks t_count st else Ok st);
          st2 ← (if strncmp_eq tok (lit ">") 1 then on_redirect toks t_count st1 else Ok st1);
          next ← token_at toks (S t_count);
          st3 ← (match next with None => on_last toks t_count st2 | Some _ => Ok st2 end);
          parse_loop f toks (S t_count) st3
      end
  end.

(** The replacement of a variable in the first two tokens. *)
Definition expand_var (getenv : cstr → option cstr) (toks : token_array) : outcome token_array :=
  t0 ← token_at toks 0;
  match t0 with
  | None => Ok toks
  | Some tok =>
      if decide (head tok = Some "$"%char)
      then match getenv (drop 1 tok) with
           | None => Ok toks
           | Some check => if decide (1 < length toks) then Ok (<[1 := Some check]> toks)
                           else Ok (toks ++ [Some check])
           end
      else
        t1 ← token_at toks 1;
        match t1 with
        | Some tok1 =>
            if strncmp_eq tok1 (lit "$") 1
            then match getenv (drop 1 tok1) with
                 | None => Ok toks
                 | Some check => Ok (<[1 := Some check]> toks)
                 end
            else Ok toks
        | None => Ok toks
        end
  end.

(** The commands [exec] builds from its tokens. *)
Definition exec_cmds (getenv : cstr → option cstr) (toks : token_array) : outcome (list command_line) :=
  toks' ← expand_var getenv toks;
  st ← parse_loop (S (length toks')) toks' 0 (MkParse 0 false []);
  Ok (cmds st).

(** * Execution *)

(** What a descriptor refers to: one the shell started with, an end of the
    n-th pipe, or an opened file. *)
Inductive fdobj :=
  | Inherited (n : nat)
  | PipeR (n : nat)
  | PipeW (n : nat)
  | File (name : cstr).
Abbreviation fdtable := (gmap nat fdobj).

(** Which system calls succeed: the fork that starts the pipeline, and in it the
    n-th pipe and the fork after it. *)
Record kernel := MkKernel {
  start_ok : bool;
  pipe_ok : nat → bool;
  fork_ok : nat → bool;
  open_ok : cstr → bool;
  dup2_ok : bool;
  exec_ok : list cstr → bool
}.

(** What becomes of a process: it runs the program, or [execute_pipeline]
    returns in it to the caller. *)
Inductive fate := Execed | Returned.
Record proc := MkProc { argv : list cstr; fds : fdtable; ends : fate }.

(** The lowest free descriptor from [n] on. *)
Fixpoint lowest_free (fuel n : nat) (fd : fdtable) : nat :=
  match fuel with
  | 0 => n
  | S f => match fd !! n with None => n | Some _ => lowest_free f (S n) fd end
  end.
Definition fresh_fd (fd : fdtable) : nat := lowest_free (size fd) 0 fd.

Definition dup2 (old new : nat) (fd : fdtable) : fdtable :=
  match fd !! old with Some o => <[new := o]> fd | None => fd end.

(** [execvp(cmds->tokens[0], cmds->tokens)]; [close0] is whether stdin is
    closed on failure. *)
Definition execvp (k : kernel) (close0 : bool) (c : command_line) (fd : fdtable) : outcome proc :=
  av ← require NullDeref (tokens c);
  _ ← require NullDeref (head av);
  Ok (if exec_ok k av then MkProc av fd Execed
      else MkProc av (if close0 then delete 0 fd else fd) Returned).

Definition run_last (k : kernel) (close0 : bool) (c : command_line) (fd : fdtable) : outcome (list proc) :=
  match stdout_file c with
  | Some f =>
      if open_ok k f
      then
        let n := fresh_fd fd in
        let fd1 := <[n := File f]> fd in
        if dup2_ok k
        then p ← execvp k close0 c (dup2 n 1 fd1); Ok [p]
        else Ok [MkProc [] (delete n fd1) Returned]
      else Ok [MkProc [] fd Returned]
  | None => p ← execvp k close0 c fd; Ok [p]
  end.

(** The processes a call ends in, the one of the first command first; the
    commands past the end of the list are zero. [n] numbers the next pipe. *)
Fixpoint execute_pipeline (k : kernel) (close0 : bool) (cmds : list command_line) (fd : fdtable)
    (n : nat) : outcome (list proc) :=
  match cmds with
  | [] => Undef NullDeref
  | c :: cmds' =>
      if stdout_pipe c
      then
        if pipe_ok k n
        then
          let p0 := fresh_fd fd in
          let fd1 := <[p0 := PipeR n]> fd in
          let p1 := fresh_fd fd1 in
          let fd2 := <[p1 := PipeW n]> fd1 in
          if fork_ok k n
          then
            child ← execvp k false c (delete p0 (dup2 p1 1 fd2));
            rest ← execute_pipeline k close0 cmds' (delete p1 (dup2 p0 0 fd2)) (S n);
            Ok (child :: rest)
          else Ok [MkProc [] fd2 Returned]
        else Ok [MkProc [] fd Returned]
      else run_last k close0 c fd
  end.

(** The descriptors of a process that starts with the three standard ones. *)
Definition std_fds : fdtable := list_to_map [(0, Inherited 0); (1, Inherited 1); (2, Inherited 2)].

(** [exec]: what its child does, when one is forked; none is when nothing was
    parsed or [fork] failed. *)
Definition exec (k : kernel) (getenv : cstr → option cstr) (toks : token_array)
    : outcome (option (outcome (list proc))) :=
  cs ← exec_cmds getenv toks;
  match cs with
  | [] => Ok None
  | _ => if start_ok k then Ok (Some (execute_pipeline k true cs std_fds 0)) else Ok None
  end.

(** * leetify *)
Definition leetify_cmds (input_file : cstr) (output_file : option cstr) : list command_line :=
  [MkCmd (Some [lit "cat"; input_file]) true None;
   MkCmd (Some (map lit ["tr"; "[:upper:]"; "[:lower:]"])) true None;
   MkCmd (Some (map lit ["sed"; "s|the|teh|g; s|a|4|g; s|e|3|g; s|i|!|g; s|l|1|g; s|o|0|g; s|s|5|g;"]))
     false output_file].
(** The exit status of the parent, and the processes of the pipeline. *)
Definition leetify_main (k : kernel) (wait_ok : bool) (args : list cstr) : Z * outcome (list proc) :=
  match args with
  | [_; input] | [_; input; _] =>
      if start_ok k
      then ((if wait_ok then 0 else -1)%Z,
            execute_pipeline k false (leetify_cmds input (args !! 2)) std_fds 0)
      else ((-1)%Z, Ok [])
  | _ => (1%Z, Ok [])
  end.

(** * Parsing a well-formed line *)

(** A pipeline as it is typed: its stages, and the file of [>]. *)
Record pipeline := MkPipeline { stages : list (list cstr); out_file : option cstr }.

Definition plain (w : cstr) : Prop :=
  strncmp_eq w (lit "|") 1 = false ∧ strncmp_eq w (lit ">") 1 = false.
Record well_formed (p : pipeline) : Prop := {
  wf_stages : stages p ≠ [];
  wf_words : Forall (λ s, s ≠ [] ∧ length s < ARGV_CAP ∧ Forall plain s) (stages p);
  wf_file : ∀ f, out_file p = Some f → plain f
}.

Fixpoint join_stages (ss : list (list cstr)) : list cstr :=
  match ss with
  | [] => []
  | [s] => s
  | s :: ss' => s ++ lit "|" :: join_stages ss'
  end.
Definition words_of (p : pipeline) : list cstr :=
  join_stages (stages p) ++ match out_file p with Some f => [lit ">"; f] | None => [] end.

(** What the parser makes of it; after a redirection the file name is left as
    one more command, which is never reached. *)
Fixpoint stage_cmds (ss : list (list cstr)) (file : option cstr) : list command_line :=
  match ss with
  | [] => []
  | [s] => MkCmd (Some s) false file
             :: match file with Some f => [MkCmd (Some [f]) false None] | None => [] end
  | s :: ss' => MkCmd (Some s) true None :: stage_cmds ss' file
  end.

Section parsing.
Context (toks : token_array).

Lemma slice_ok pre (ws : list cstr) post :
  toks = pre ++ (Some <$> ws) ++ post →
  ws ≠ [] →
  token_slice toks (length pre) (length pre + length ws - 1) = Ok ws.
Proof.
  intros -> Hne. unfold token_slice. rewrite drop_app_length.
  replace (S (length pre + length ws - 1) - length pre) with (length ws) by (destruct ws; simpl in *; [done|lia]).
  rewrite <- (length_fmap Some ws), take_app_length. clear. induction ws as [|w ws IH]; csimpl; [done|].
  exact (f_equal (λ m, m ≫= λ k, Ok (w :: k)) IH).
Qed.

Lemma slice_empty i j : j < i → token_slice toks i j = Ok [].
Proof. intros. unfold token_slice. by replace (S j - i) with 0 by lia. Qed.

Lemma token_at_middle pre t post i : toks = pre ++ t :: post → i = length pre → token_at toks i = Ok t.
Proof. intros -> ->. unfold token_at. by rewrite lookup_middle_eq. Qed.

Lemma token_after pre (ws : list cstr) t post :
  toks = pre ++ (Some <$> ws) ++ t :: post → token_at toks (length pre + length ws) = Ok t.
Proof.
  intros Ht. apply (token_at_middle (pre ++ (Some <$> ws)) t post); [rewrite Ht; app_eq|len].
Qed.

Lemma take_while_plain (ws : list cstr) stop :
  Forall plain ws → stop = lit "|" ∨ stop = lit ">" →
  take_while (λ t, negb (strcmp_eq t stop)) ws = ws.
Proof.
  intros Hw Hs. induction Hw as [|w ws Hp _ IH]; simpl; [done|]. unfold strcmp_eq in *.
  rewrite bool_decide_eq_false_2; [simpl; by rewrite IH|].
  intros ->. destruct Hp. by destruct Hs as [-> | ->].
Qed.

Lemma copy_plain (ws : list cstr) stop cur :
  Forall plain ws → stop = lit "|" ∨ stop = lit ">" → length ws < ARGV_CAP →
  copy_argv (Some stop) cur (ws ++ [stop]) = Ok (ws, cur + length ws).
Proof.
  intros Hw Hs Hl. unfold copy_argv.
  assert (take_while (λ t, negb (strcmp_eq t stop)) (ws ++ [stop]) = ws) as ->; [|by rewrite decide_True].
  apply take_while_app_stop.
  - rewrite <- (take_while_plain ws stop) by done. apply take_while_all.
  - unfold strcmp_eq. by rewrite bool_decide_true.
Qed.

Lemma parse_loop_S f t_count st :
  parse_loop (S f) toks t_count st =
  t ← token_at toks t_count;
  match t with
  | None => Ok st
  | Some tok =>
      st1 ← (if strncmp_eq tok (lit "|") 1 then on_pipe toks t_count st else Ok st);
      st2 ← (if strncmp_eq tok (lit ">") 1 then on_redirect toks t_count st1 else Ok st1);
      next ← token_at toks (S t_count);
      st3 ← (match next with None => on_last toks t_count st2 | Some _ => Ok st2 end);
      parse_loop f toks (S t_count) st3
  end.
Proof. done. Qed.

(** A word that is followed by another one only advances the loop. *)
Lemma parse_words fuel pre (ws : list cstr) t post st :
  toks = pre ++ (Some <$> ws) ++ Some t :: post → Forall plain ws →
  parse_loop (length ws + fuel) toks (length pre) st =
  parse_loop fuel toks (length pre + length ws) st.
Proof.
  revert pre. induction ws as [|w ws IH]; intros pre Ht Hw.
  - simpl. by rewrite Nat.add_0_r.
  - apply Forall_cons in Hw as [[Hp Hr] Hw]. cbn [length Nat.add]. rewrite parse_loop_S.
    rewrite (token_at_middle pre (Some w) (fmap (M := list) Some ws ++ Some t :: post) _ Ht eq_refl).
    cbn [mbind outcome_bind]. rewrite Hp. cbn [mbind outcome_bind]. rewrite Hr. cbn [mbind outcome_bind].
    assert (∃ t', token_at toks (S (length pre)) = Ok (Some t')) as [t' ->].
    { destruct ws as [|w' ws']; eexists;
      (eapply (token_at_middle (pre ++ [Some w])); [rewrite Ht; app_eq|len]). }
    cbn [mbind outcome_bind]. replace (S (length pre)) with (length (pre ++ [Some w])) by len.
    rewrite IH; [f_equal; len|rewrite Ht; app_eq|done].
Qed.

(** The words of the current stage start here. *)
Definition at_stage (pre : token_array) (st : parse_state) : Prop := seg_start st = length pre.

Lemma parse_pipe fuel pre (ws : list cstr) t post st :
  toks = pre ++ (Some <$> ws) ++ Some (lit "|") :: Some t :: post →
  Forall plain ws → length ws < ARGV_CAP → at_stage pre st →
  let pre' := pre ++ (Some <$> ws) ++ [Some (lit "|")] in
  ∃ st', parse_loop (length ws + S fuel) toks (length pre) st = parse_loop fuel toks (length pre') st' ∧
  at_stage pre' st' ∧ cmds st' = cmds st ++ [MkCmd (Some ws) true None].
Proof.
  intros Ht Hw Hl Hst pre'. rewrite (parse_words _ _ ws (lit "|") (Some t :: post)) by done.
  rewrite parse_loop_S.
  rewrite (token_after pre ws (Some (lit "|")) (Some t :: post)) by done.
  cbn [mbind outcome_bind]. change (strncmp_eq (lit "|") (lit "|") 1) with true. cbv iota.
  unfold on_pipe. rewrite Hst.
  pose proof (slice_ok pre (ws ++ [lit "|"]) (Some t :: post)) as Hs.
  replace (length pre + length (ws ++ [lit "|"]) - 1) with (length pre + length ws) in Hs by len.
  rewrite Hs; [|rewrite Ht, fmap_app; app_eq|by destruct ws].
  cbn [mbind outcome_bind]. rewrite copy_plain by (done || by left). cbn [mbind outcome_bind].
  change (strncmp_eq (lit "|") (lit ">") 1) with false. cbv iota. cbn [mbind outcome_bind].
  rewrite (token_at_middle pre' (Some t) post) by (unfold pre'; rewrite ?Ht; app_eq || len).
  cbn [mbind outcome_bind]. eexists. split; [f_equal; unfold pre'; len|]. split; [|done].
  unfold at_stage, seg_start, pre'. simpl. len.
Qed.

(** The last word of the line. *)
Lemma parse_end fuel pre (ws : list cstr) post st :
  toks = pre ++ (Some <$> ws) ++ None :: post →
  ws ≠ [] → Forall plain ws → length ws < ARGV_CAP → at_stage pre st →
  ∃ st', parse_loop (length ws + S fuel) toks (length pre) st = Ok st' ∧
  cmds st' = cmds st ++ [MkCmd (Some ws) false None].
Proof.
  intros Ht Hne Hw Hl Hst. destruct (exists_last Hne) as (ws' & w & ->).
  apply Forall_app in Hw as [Hw' [[Hp Hr] _]%Forall_cons].
  assert (toks = pre ++ (Some <$> ws') ++ Some w :: None :: post) as Ht'
    by (rewrite Ht, fmap_app; app_eq).
  replace (length (ws' ++ [w]) + S fuel) with (length ws' + S (S fuel)) by len.
  rewrite (parse_words _ _ ws' w (None :: post)) by done. rewrite parse_loop_S.
  rewrite (token_after pre ws' (Some w) (None :: post)) by done.
  cbn [mbind outcome_bind]. rewrite Hp. cbn [mbind outcome_bind]. rewrite Hr. cbn [mbind outcome_bind].
  assert (token_at toks (S (length pre + length ws')) = Ok None) as Hend.
  { apply (token_at_middle (pre ++ (Some <$> ws') ++ [Some w]) None post); [rewrite Ht'; app_eq|len]. }
  rewrite Hend. cbn [mbind outcome_bind]. unfold on_last. rewrite Hst.
  pose proof (slice_ok pre (ws' ++ [w]) (None :: post) Ht ltac:(by destruct ws')) as Hs.
  replace (length pre + length (ws' ++ [w]) - 1) with (length pre + length ws') in Hs by len.
  rewrite Hs. cbn [mbind outcome_bind]. unfold copy_argv. rewrite decide_True by done.
  cbn [mbind outcome_bind]. rewrite parse_loop_S, Hend. eexists. split; [done|done].
Qed.

Lemma parse_redirect fuel pre (ws : list cstr) f post st :
  toks = pre ++ (Some <$> ws) ++ Some (lit ">") :: Some f :: None :: post →
  Forall plain ws → plain f → length ws < ARGV_CAP → at_stage pre st →
  ∃ st', parse_loop (length ws + S (S (S fuel))) toks (length pre) st = Ok st' ∧
  cmds st' = cmds st ++ [MkCmd (Some ws) false (Some f); MkCmd (Some [f]) false None].
Proof.
  intros Ht Hw Hf Hl Hst. set (pre' := pre ++ (Some <$> ws) ++ [Some (lit ">")]).
  assert (toks = pre' ++ Some f :: None :: post) as Ht' by (unfold pre'; rewrite Ht; app_eq).
  rewrite (parse_words _ _ ws (lit ">") (Some f :: None :: post)) by done.
  rewrite parse_loop_S.
  rewrite (token_after pre ws (Some (lit ">")) (Some f :: None :: post)) by done.
  cbn [mbind outcome_bind]. change (strncmp_eq (lit ">") (lit "|") 1) with false. cbv iota.
  cbn [mbind outcome_bind]. change (strncmp_eq (lit ">") (lit ">") 1) with true. cbv iota.
  unfold on_redirect. rewrite Hst.
  pose proof (slice_ok pre (ws ++ [lit ">"]) (Some f :: None :: post)) as Hs.
  replace (length pre + length (ws ++ [lit ">"]) - 1) with (length pre + length ws) in Hs by len.
  rewrite Hs; [|rewrite Ht, fmap_app; app_eq|by destruct ws].
  cbn [mbind outcome_bind]. rewrite copy_plain by (done || by right). cbn [mbind outcome_bind].
  assert (token_at toks (S (length pre + length ws)) = Ok (Some f)) as Hat.
  { apply (token_at_middle pre' (Some f) (None :: post) _ Ht'). unfold pre'. len. }
  replace (length pre + length ws + 1) with (S (length pre + length ws)) by lia.
  rewrite Hat. cbn [mbind outcome_bind].
  set (st1 := MkParse _ _ _).
  replace (S (length pre + length ws)) with (length pre') by (unfold pre'; len).
  destruct (parse_end fuel pre' [f] post st1) as (st' & Hrun & Hc); [done|done|by constructor| | |].
  - unfold ARGV_CAP. simpl. lia.
  - unfold at_stage, seg_start, st1, pre'. simpl. len.
  - exists st'. split; [exact Hrun|].
    rewrite Hc. unfold st1. simpl. by rewrite <- app_assoc.
Qed.
End parsing.

Lemma parse_stages p toks fuel pre post st :
  well_formed p → toks = pre ++ (Some <$> words_of p) ++ None :: post →
  length (words_of p) < fuel → at_stage pre st →
  ∃ st', parse_loop fuel toks (length pre) st = Ok st' ∧
         cmds st' = cmds st ++ stage_cmds (stages p) (out_file p).
Proof.
  intros [Hne Hw Hf]. destruct p as [ss file]. simpl in *. unfold words_of. simpl.
  revert pre st fuel. induction ss as [|s ss IH]; intros pre st fuel Ht Hfu Hst; [done|].
  apply Forall_cons in Hw as [(Hs & Hlen & Hws) Hw]. destruct ss as [|s' ss].
  - simpl in *. destruct file as [f|]; simpl in *.
    + destruct (parse_redirect toks (fuel - length s - 3) pre s f post st) as (st' & Hr & Hc);
        [rewrite Ht, fmap_app; app_eq|done|by apply Hf|done|done|].
      exists st'. split; [|done]. rewrite <- Hr. f_equal. len.
    + rewrite app_nil_r in *. destruct (parse_end toks (fuel - length s - 1) pre s post st) as (st' & Hr & Hc);
        [done..|]. exists st'. split; [|done]. rewrite <- Hr. f_equal. lia.
  - assert (∃ t r, join_stages (s' :: ss) = t :: r) as (t & r & Hj).
    { apply Forall_cons in Hw as [(Hs' & _) _]. destruct s' as [|t s']; [done|].
      exists t. destruct ss; simpl; eauto. }
    set (sep := pre ++ (Some <$> s) ++ [Some (lit "|")]).
    assert (join_stages (s :: s' :: ss) = s ++ lit "|" :: join_stages (s' :: ss)) as Hjs by done.
    rewrite Hjs in *. cbn [stage_cmds].
    destruct (parse_pipe toks (fuel - length s - 1) pre s t
                ((Some <$> r ++ match file with Some f => [lit ">"; f] | None => [] end) ++ None :: post) st)
      as (st1 & Hr & Hst1 & Hc1); [rewrite Ht, Hj, !fmap_app; app_eq|done|done|done|].
    fold sep in Hr, Hst1.
    destruct (IH ltac:(done) Hw sep st1 (fuel - length s - 1)) as (st' & Hr' & Hc').
    + unfold sep. rewrite Ht, !fmap_app. app_eq.
    + len.
    + done.
    + exists st'. rewrite Hc', Hc1, <- app_assoc. split; [|done]. rewrite <- Hr', <- Hr. f_equal. len.
Qed.

(** * The descriptors of a pipeline *)
Lemma lowest_free_range fuel n (fd : fdtable) :
  n ≤ lowest_free fuel n fd ≤ n + fuel ∧
  (∀ i, n ≤ i < lowest_free fuel n fd → is_Some (fd !! i)) ∧
  (lowest_free fuel n fd < n + fuel → fd !! lowest_free fuel n fd = None).
Proof.
  revert n. induction fuel as [|f IH]; intros n; simpl; [split_and!; [lia..|intros; lia|lia]|].
  destruct (fd !! n) eqn:Hn; [|split_and!; [lia..|intros; lia|done]].
  destruct (IH (S n)) as (? & Hb & Hf). split_and!; [lia..| |intros; apply Hf; lia].
  intros i Hi. destruct (decide (i = n)) as [->|]; [by rewrite Hn|]. apply Hb. lia.
Qed.

Lemma fresh_fd_free (fd : fdtable) : fd !! fresh_fd fd = None.
Proof.
  unfold fresh_fd. destruct (lowest_free_range (size fd) 0 fd) as (Hr & Hb & Hf).
  destruct (decide (lowest_free (size fd) 0 fd < size fd)); [apply Hf; lia|].
  assert (lowest_free (size fd) 0 fd = size fd) as Heq by lia. rewrite Heq in *.
  destruct (fd !! size fd) eqn:Hs; [exfalso|done].
  assert (set_seq 0 (S (size fd)) ⊆ dom fd) as Hsub.
  { intros i Hi%elem_of_set_seq. apply elem_of_dom.
    destruct (decide (i = size fd)) as [->|]; [by rewrite Hs|]. apply Hb. lia. }
  apply subseteq_size in Hsub. rewrite size_set_seq, size_dom in Hsub. lia.
Qed.

(** A descriptor is fresh, so not one of those in use. *)
Lemma fresh_fd_ne (fd : fdtable) i : is_Some (fd !! i) → i ≠ fresh_fd fd.
Proof. intros [o Hi] ->. by rewrite fresh_fd_free in Hi. Qed.

(** Every call succeeds but [execvp], which runs the programs [e] accepts. *)
Definition running (e : list cstr → bool) : kernel := MkKernel true (λ _, true) (λ _, true) (λ _, true) true e.

(** No end of a pipe from the [n]-th on, and no write end, is open. *)
Definition no_writer (fd : fdtable) (n : nat) : Prop :=
  ∀ i o, fd !! i = Some o → (∀ j, o ≠ PipeW j) ∧ (∀ j, o = PipeR j → j < n).

(** The process of stage [k] of [ss]; pipes are numbered from [n]; [fd] is the
    table the pipeline started with. *)
Section wired.
Context (e : list cstr → bool) (close0 : bool).

Record wired (ss : list (list cstr)) (file : option cstr) (fd : fdtable) (n k : nat) (p : proc) : Prop := {
  w_runs : ss !! k = Some (argv p) ∧ ends p = if e (argv p) then Execed else Returned;
  w_stdin : fds p !! 0 = if decide (close0 = true ∧ S k = length ss ∧ e (argv p) = false) then None
  else if decide (k = 0) then fd !! 0 else Some (PipeR (n + k - 1));
  w_stdout : fds p !! 1 = if decide (S k = length ss)
  then match file with Some f => Some (File f) | None => fd !! 1 end
  else Some (PipeW (n + k));
  w_writers i j : fds p !! i = Some (PipeW j) → j = n + k ∧ S k ≠ length ss;
  w_leaks j : j < k → ∃ i, 2 ≤ i ∧ fds p !! i = Some (PipeR (n + j));
  w_keeps i o : 2 ≤ i → fd !! i = Some o → fds p !! i = Some o
}.
End wired.

Section execution.
Context (k : kernel) (close0 : bool).
Abbreviation e := (exec_ok k).

(** The process in which [execvp] is called. *)
Definition started (close0 : bool) (av : list cstr) (fd : fdtable) : proc :=
  if e av then MkProc av fd Execed else MkProc av (if close0 then delete 0 fd else fd) Returned.

Lemma execvp_ok c0 c av fd :
  tokens c = Some av → av ≠ [] → execvp k c0 c fd = Ok (started c0 av fd).
Proof. intros Ht Hne. unfold execvp. rewrite Ht. by destruct av. Qed.

Lemma started_facts c0 av fd :
  argv (started c0 av fd) = av ∧ ends (started c0 av fd) = (if e av then Execed else Returned) ∧
  (fds (started c0 av fd) !! 0 = if decide (c0 = true ∧ e av = false) then None else fd !! 0) ∧
  ∀ i, i ≠ 0 → fds (started c0 av fd) !! i = fd !! i.
Proof.
  unfold started. destruct (e av) eqn:He, c0; simpl; split_and!; try done.
  - by rewrite lookup_delete_eq.
  - intros i Hi. by rewrite lookup_delete_ne.
Qed.

Lemma last_wired s file fd n :
  (∀ f, file = Some f → open_ok k f = true ∧ dup2_ok k = true) → s ≠ [] → no_writer fd n → is_Some (fd !! 0) → is_Some (fd !! 1) →
  ∃ p, run_last k close0 (MkCmd (Some s) false file) fd = Ok [p] ∧
  wired e close0 [s] file fd n 0 p.
Proof.
  intros Hok Hs Hw H0 H1.
  set (fd' := match file with
  | Some f => dup2 (fresh_fd fd) 1 (<[fresh_fd fd := File f]> fd) | None => fd end).
  exists (started close0 s fd'). split.
  { unfold run_last, fd'. simpl. destruct file as [f|]; [destruct (Hok f eq_refl) as [-> ->]|]; by rewrite (execvp_ok _ _ s). }
  destruct (started_facts close0 s fd') as (Ha & He & Hf0 & Hfi).
  assert (fd' !! 0 = fd !! 0 ∧ fd' !! 1 = match file with Some f => Some (File f) | None => fd !! 1 end ∧
    (∀ i o, fd' !! i = Some o → (∃ f, o = File f) ∨ fd !! i = Some o) ∧
    ∀ i o, 2 ≤ i → fd !! i = Some o → fd' !! i = Some o) as (H'0 & H'1 & H'w & H'k).
  { unfold fd'. destruct file as [f|]; [|split_and!; eauto].
    pose proof (fresh_fd_ne _ _ H0). pose proof (fresh_fd_ne _ _ H1).
    unfold dup2. rewrite lookup_insert_eq. split_and!.
    - by rewrite !lookup_insert_ne by lia.
    - by rewrite lookup_insert_eq.
    - intros i o. rewrite !lookup_insert. repeat case_decide; naive_solver.
    - intros i o Hi Ho. rewrite lookup_insert_ne by lia.
      rewrite lookup_insert_ne; [done|]. intros <-. by rewrite fresh_fd_free in Ho. }
  split; simpl.
  - by rewrite Ha, He.
  - rewrite Hf0, Ha, H'0. repeat case_decide; naive_solver.
  - by rewrite Hfi, H'1.
  - intros i j Hi. assert (fd' !! i = Some (PipeW j)) as Hij.
    { destruct (decide (i = 0)) as [->|]; [|by rewrite <- Hfi]. rewrite Hf0 in Hi. by case_decide. }
    destruct (H'w _ _ Hij) as [[f ?]|Hij']; [done|]. by destruct (proj1 (Hw _ _ Hij') j).
  - lia.
  - intros i o Hi Ho. rewrite Hfi by lia. by apply H'k.
Qed.

(** The tables of the two processes after a [fork] between stages. *)
Section fork.
Context (fd : fdtable) (n : nat).
Let p0 := fresh_fd fd.
Let fd1 : fdtable := <[p0 := PipeR n]> fd.
Let p1 := fresh_fd fd1.
Let fd2 : fdtable := <[p1 := PipeW n]> fd1.
Context (Hw : no_writer fd n) (H0 : is_Some (fd !! 0)) (H1 : is_Some (fd !! 1)).

Lemma pipe_fds : 2 ≤ p0 ∧ 2 ≤ p1 ∧ p0 ≠ p1 ∧ fd !! p0 = None ∧ fd !! p1 = None.
Proof.
  assert (∀ i, is_Some (fd !! i) → i ≠ p0 ∧ i ≠ p1) as Hne.
  { intros i Hi. pose proof (fresh_fd_ne _ _ Hi) as Hi0. split; [done|]. apply fresh_fd_ne.
    unfold fd1. by rewrite lookup_insert_ne. }
  assert (p0 ≠ p1) as H01 by (apply fresh_fd_ne; unfold fd1; by rewrite lookup_insert_eq).
  destruct (Hne _ H0), (Hne _ H1). split_and!; [lia|lia|done|apply fresh_fd_free|].
  assert (fd1 !! p1 = None) as <- by apply fresh_fd_free. unfold fd1. by rewrite lookup_insert_ne.
Qed.

Definition writer_fds : fdtable := delete p0 (dup2 p1 1 fd2).
Definition reader_fds : fdtable := delete p1 (dup2 p0 0 fd2).

Lemma writer_lookup i :
  writer_fds !! i = if decide (i = p0) then None
  else if decide (i = 1 ∨ i = p1) then Some (PipeW n) else fd !! i.
Proof.
  destruct pipe_fds as (? & ? & ? & _). unfold writer_fds, dup2, fd2 at 1. rewrite lookup_insert_eq.
  unfold fd2, fd1. rewrite lookup_delete, !lookup_insert. by repeat case_decide; try lia.
Qed.
Lemma reader_lookup i :
  reader_fds !! i = if decide (i = p1) then None
  else if decide (i = 0 ∨ i = p0) then Some (PipeR n) else fd !! i.
Proof.
  destruct pipe_fds as (? & ? & ? & _). unfold reader_fds, dup2, fd2 at 1.
  rewrite lookup_insert_ne by done. unfold fd1 at 1. rewrite lookup_insert_eq.
  unfold fd2, fd1. rewrite lookup_delete, !lookup_insert. by repeat case_decide; try lia.
Qed.

Lemma writer_wired s ss file :
  ss ≠ [] → wired e close0 (s :: ss) file fd n 0 (started false s writer_fds).
Proof.
  intros Hss. destruct pipe_fds as (? & ? & ? & Hf0 & Hf1).
  destruct (started_facts false s writer_fds) as (Ha & He & H0' & Hi').
  assert (∀ i, fds (started false s writer_fds) !! i = writer_fds !! i) as Hl.
  { intros [|i]; [rewrite H0'; by case_decide; naive_solver|by apply Hi']. }
  assert (1 ≠ S (length ss)) as Hlen by (destruct ss; [done|simpl; lia]).
  split; simpl; rewrite ?Hl, ?writer_lookup.
  - by rewrite Ha, He.
  - rewrite (decide_False (P := close0 = true ∧ _)) by tauto. by repeat case_decide; try lia.
  - repeat case_decide; try lia; try done. by rewrite Nat.add_0_r.
  - intros i j. rewrite Hl, writer_lookup.
    destruct (decide (i = p0)); [done|]. destruct (decide (i = 1 ∨ i = p1)).
    + intros [= <-]. lia.
    + intros Hi. by destruct (proj1 (Hw _ _ Hi) j).
  - lia.
  - intros i o Hi Ho. rewrite Hl, writer_lookup.
    rewrite decide_False by congruence. rewrite decide_False by (intros [|]; [lia|congruence]). done.
Qed.

Lemma reader_ready :
  no_writer reader_fds (S n) ∧ is_Some (reader_fds !! 0) ∧ is_Some (reader_fds !! 1).
Proof.
  destruct pipe_fds as (? & ? & ? & _). split_and!.
  - intros i o. rewrite reader_lookup. repeat case_decide; try done.
    + intros [= <-]. split; [done|]. intros j [= <-]. lia.
    + intros Hi. destruct (Hw _ _ Hi) as [? Hr]. split; [done|]. intros j Hj. specialize (Hr j Hj). lia.
  - rewrite reader_lookup. by repeat case_decide; try lia.
  - rewrite reader_lookup. by repeat case_decide; try lia.
Qed.

Lemma reader_wired s ss file m p :
  wired e close0 ss file reader_fds (S n) m p → wired e close0 (s :: ss) file fd n (S m) p.
Proof.
  intros [Hr Hi Ho Hwr Hl Hk]. destruct pipe_fds as (? & ? & ? & Hf0 & Hf1).
  split; simpl.
  - done.
  - rewrite Hi, (decide_ext (close0 = true ∧ S m = length ss ∧ e (argv p) = false)
    (close0 = true ∧ S (S m) = S (length ss) ∧ e (argv p) = false)) by naive_solver.
    destruct (decide (close0 = true ∧ S (S m) = S (length ss) ∧ e (argv p) = false)); [done|].
    destruct m as [|m]; simpl.
    + rewrite reader_lookup, (decide_False (P := 0 = p1)), decide_True by lia. do 2 f_equal. lia.
    + do 2 f_equal. lia.
  - rewrite Ho. destruct (decide (S m = length ss)).
    + rewrite (decide_True (P := S (S m) = _)) by lia. destruct file; [done|].
      by rewrite reader_lookup, !decide_False by lia.
    + rewrite (decide_False (P := S (S m) = _)) by lia. do 2 f_equal. lia.
  - intros i j Hij. destruct (Hwr _ _ Hij). lia.
  - intros [|j] Hj.
    + exists p0. split; [done|]. rewrite Nat.add_0_r. apply Hk; [done|].
      rewrite reader_lookup. repeat case_decide; try lia; done.
    + destruct (Hl j) as (i & ? & Hij); [lia|]. exists i. split; [done|]. rewrite Hij. do 2 f_equal. lia.
  - intros i o Hi2 Hfd. apply Hk; [done|]. rewrite reader_lookup.
    rewrite decide_False by congruence. rewrite decide_False by (intros [|]; [lia|congruence]). done.
Qed.
End fork.

(** The stages that run: up to the first failing call. *)
Definition redirect_ok (file : option cstr) : bool :=
  match file with Some f => open_ok k f && dup2_ok k | None => true end.
Fixpoint stages_run (ss : list (list cstr)) (file : option cstr) (n : nat) : nat :=
  match ss with
  | [] => 0
  | [_] => if redirect_ok file then 1 else 0
  | _ :: ss' => if pipe_ok k n && fork_ok k n then S (stages_run ss' file (S n)) else 0
  end.

(** One process for each stage that runs, and then the one in which a call
    failed. *)
Record pipeline_result (ss : list (list cstr)) (file : option cstr) (fd : fdtable) (n : nat) (ps : list proc) : Prop := {
  pr_length : length ps = if decide (stages_run ss file n = length ss) then length ss else S (stages_run ss file n);
  pr_wired i p : i < stages_run ss file n → ps !! i = Some p → wired e close0 ss file fd n i p;
  pr_failed p : stages_run ss file n < length ss → ps !! stages_run ss file n = Some p → argv p = [] ∧ ends p = Returned
}.

Lemma failed_result ss file fd n fd' :
  ss ≠ [] → stages_run ss file n = 0 → pipeline_result ss file fd n [MkProc [] fd' Returned].
Proof.
  intros Hne Hr. split; rewrite Hr.
  - rewrite decide_False; [done|]. by destruct ss.
  - lia.
  - by intros p _ [= <-].
Qed.

Lemma last_result s file fd n :
  s ≠ [] → no_writer fd n → is_Some (fd !! 0) → is_Some (fd !! 1) →
  ∃ ps, run_last k close0 (MkCmd (Some s) false file) fd = Ok ps ∧ pipeline_result [s] file fd n ps.
Proof.
  intros Hs Hw H0 H1. destruct (redirect_ok file) eqn:Hok.
  - destruct (last_wired s file fd n) as (p & Hr & Hp); [|done..|].
    + intros f ->. by apply andb_true_iff.
    + exists [p]. split; [done|]. assert (stages_run [s] file n = 1) as Hm by (simpl; by rewrite Hok).
      split; rewrite Hm; [done| |simpl; lia]. intros [|i] q ? Hq; [by simplify_eq/=|lia].
  - assert (stages_run [s] file n = 0) as Hm by (simpl; by rewrite Hok). unfold run_last. simpl.
    destruct file as [f|]; [|done]. simpl in Hok.
    destruct (open_ok k f); [destruct (dup2_ok k); [done|]|]; (eexists; split; [done|by apply failed_result]).
Qed.

Lemma pipeline_runs ss file fd n :
  ss ≠ [] → Forall (λ s, s ≠ []) ss → no_writer fd n → is_Some (fd !! 0) → is_Some (fd !! 1) →
  ∃ ps, execute_pipeline k close0 (stage_cmds ss file) fd n = Ok ps ∧ pipeline_result ss file fd n ps.
Proof.
  intros Hne Hs. revert fd n. induction Hs as [|s ss Hs Hss IH]; intros fd n Hw H0 H1; [done|].
  destruct ss as [|s' ss]; [by apply last_result|].
  change (stage_cmds (s :: s' :: ss) file) with (MkCmd (Some s) true None :: stage_cmds (s' :: ss) file).
  cbn [execute_pipeline stdout_pipe].
  destruct (pipe_ok k n && fork_ok k n) eqn:Hok; last first.
  { destruct (pipe_ok k n) eqn:Hp; [destruct (fork_ok k n) eqn:Hf; [done|]|];
    (eexists; split; [done|]; apply failed_result; [done|]; simpl; by rewrite Hp, ?Hf). }
  assert (stages_run (s :: s' :: ss) file n = S (stages_run (s' :: ss) file (S n))) as Hm by (cbn [stages_run]; by rewrite Hok).
  apply andb_true_iff in Hok as [-> ->]. destruct (reader_ready fd n Hw H0 H1) as (Hw' & H0' & H1').
  destruct (IH ltac:(done) (reader_fds fd n) (S n) Hw' H0' H1') as (ps & Hr & Hps).
  fold (writer_fds fd n). fold (reader_fds fd n). rewrite (execvp_ok false _ s), Hr by done. cbn [mbind outcome_bind].
  eexists. split; [done|]. destruct Hps as [Hlen Hwi Hfa]. split; rewrite Hm.
  - change (length (s :: s' :: ss)) with (S (length (s' :: ss))).
    change (length (started false s (writer_fds fd n) :: ps)) with (S (length ps)). rewrite Hlen. repeat case_decide; lia.
  - intros [|i] p Hi Hp; [injection Hp as <-; by apply writer_wired|]. apply reader_wired; [done..|]. apply Hwi; [lia|exact Hp].
  - intros p Hlt Hp. apply Hfa; [cbn [length] in *; lia|exact Hp].
Qed.
End execution.

(** When every call succeeds all stages run. *)
Lemma running_stages e ss file n : stages_run (running e) ss file n = length ss.
Proof. revert n. induction ss as [|s [|s' ss] IH]; intros n; [done|by destruct file|].
  exact (f_equal S (IH (S n))). Qed.
Lemma pipeline_wired e close0 ss file fd n :
  ss ≠ [] → Forall (λ s, s ≠ []) ss → no_writer fd n → is_Some (fd !! 0) → is_Some (fd !! 1) →
  ∃ ps, execute_pipeline (running e) close0 (stage_cmds ss file) fd n = Ok ps ∧
    length ps = length ss ∧ ∀ i p, ps !! i = Some p → wired e close0 ss file fd n i p.
Proof.
  intros Hne Hs Hw H0 H1. destruct (pipeline_runs (running e) close0 ss file fd n) as (ps & Hr & [Hl Hp _]); [done..|].
  rewrite running_stages in *. rewrite decide_True in Hl by done. exists ps. split_and!; [done|done|].
  intros i p Hi. apply Hp; [|done]. rewrite <- Hl. by eapply lookup_lt_Some.
Qed.

(** * The commands of the shell and of leetify *)

(** The first two words name no variable. *)
Definition no_vars (p : pipeline) : Prop :=
  Forall (λ w, w ≠ [] ∧ head w ≠ Some "$"%char) (take 2 (words_of p)).

Lemma words_nonempty p : well_formed p → ∃ w ws, words_of p = w :: ws.
Proof.
  intros [Hne Hw _]. destruct p as [[|s ss] file]; [done|]. simpl in *.
  apply Forall_cons in Hw as [(Hs & _) _]. destruct s as [|w s]; [done|]. unfold words_of. simpl.
  destruct ss; simpl; eauto.
Qed.

Lemma expand_no_vars getenv p post :
  well_formed p → no_vars p →
  let toks := (Some <$> words_of p) ++ None :: post in expand_var getenv toks = Ok toks.
Proof.
  intros Hp Hv toks. unfold toks, no_vars in *. destruct (words_nonempty _ Hp) as (w & ws & Hws).
  rewrite Hws in *. simpl in Hv. apply Forall_cons in Hv as [[_ Hw] Hv]. unfold expand_var. simpl.
  rewrite decide_False by done. destruct ws as [|w1 ws]; simpl; [done|].
  simpl in Hv. apply Forall_cons in Hv as [[Hne Hw1] _].
  assert (strncmp_eq w1 ["$"%char] 1 = false) as Hd; [|by rewrite Hd].
  unfold strncmp_eq. apply bool_decide_eq_false_2. destruct w1 as [|c w1]; [done|].
  simpl in *. congruence.
Qed.

(** The parser takes the words of a pipeline apart into exactly its stages, each
    but the last marked as piped, with the file of a redirection on the last;
    every read and write of its arrays is in bounds. *)
Lemma exec_cmds_ok getenv p post :
  well_formed p → no_vars p →
  exec_cmds getenv ((Some <$> words_of p) ++ None :: post) = Ok (stage_cmds (stages p) (out_file p)).
Proof.
  intros Hp Hv. unfold exec_cmds. rewrite expand_no_vars by done. cbn [mbind outcome_bind].
  set (toks := (Some <$> words_of p) ++ None :: post).
  destruct (parse_stages p toks (S (length toks)) [] post (MkParse 0 false [])) as (st & Hr & Hc);
    [done|done|unfold toks; len|done|].
  simpl in Hc. rewrite <- Hc. cbn [length] in Hr. by rewrite Hr.
Qed.

Lemma std_fds_ready :
  no_writer std_fds 0 ∧ is_Some (std_fds !! 0) ∧ is_Some (std_fds !! 1).
Proof.
  split; [|by split; eexists]. intros i o Hi. apply elem_of_list_to_map_2 in Hi.
  repeat (apply elem_of_cons in Hi as [[= -> ->]|Hi]; [done|]). by apply not_elem_of_nil in Hi.
Qed.

(** What the words of a pipeline start: nothing when the first [fork] fails. *)
Lemma exec_runs k getenv p post :
  well_formed p → no_vars p →
  ∃ ps, exec k getenv ((Some <$> words_of p) ++ None :: post) = Ok (if start_ok k then Some (Ok ps) else None) ∧
    execute_pipeline k true (stage_cmds (stages p) (out_file p)) std_fds 0 = Ok ps ∧
    pipeline_result k true (stages p) (out_file p) std_fds 0 ps.
Proof.
  intros Hp Hv. destruct std_fds_ready as (Hw & H0 & H1).
  destruct (pipeline_runs k true (stages p) (out_file p) std_fds 0) as (ps & Hr & Hps); [apply Hp| |done..|].
  { eapply Forall_impl; [apply Hp|]. by intros s (? & _). }
  exists ps. split_and!; [|done|done]. unfold exec. rewrite exec_cmds_ok by done. cbn [mbind outcome_bind].
  rewrite <- Hr. pose proof (wf_stages _ Hp). destruct (stages p) as [|s [|s' ss]]; [done|..]; by destruct (start_ok k).
Qed.

(** C5: the parser takes the words of a pipeline apart into exactly its stages,
    each but the last marked as piped, with the file of a redirection on the
    last, within its arrays; after a redirection one more command is left
    behind, which holds the file name.  Whatever system calls fail, executing
    them starts the processes of its stages in order, up to the first stage at which a
    call fails; there one more process is left, which runs no program and
    returns to the caller, and no later stage is started.  When none fails all
    stages run.  Process [i] reads from pipe [i-1] and writes to pipe [i], the
    first reading the shell's input and the last writing to the redirection
    file or to the shell's output; the write end of each pipe is held by the
    stage that writes to it and by no other, so that the reader sees the end
    of its input, while the read end stays open in every later stage.  A
    process whose program cannot be run returns to the caller, and only the
    last one has then closed its input. *)
Theorem pipeline_executes k getenv p post :
  well_formed p → no_vars p →
  let m := stages_run k (stages p) (out_file p) 0 in
  exec_cmds getenv ((Some <$> words_of p) ++ None :: post) = Ok (stage_cmds (stages p) (out_file p)) ∧
  (∀ e, k = running e → m = length (stages p)) ∧
  exec k getenv ((Some <$> words_of p) ++ None :: post) =
    (if start_ok k
     then Ok (Some (execute_pipeline k true (stage_cmds (stages p) (out_file p)) std_fds 0)) else Ok None) ∧
  ∃ ps, execute_pipeline k true (stage_cmds (stages p) (out_file p)) std_fds 0 = Ok ps ∧
    length ps = (if decide (m = length (stages p)) then m else S m) ∧
    (∀ i q, i < m → ps !! i = Some q → wired (exec_ok k) true (stages p) (out_file p) std_fds 0 i q) ∧
    (∀ q, m < length (stages p) → ps !! m = Some q → argv q = [] ∧ ends q = Returned).
Proof.
  intros Hp Hv m. destruct (exec_runs k getenv p post Hp Hv) as (ps & Hx & Hr & [Hl Hwi Hfa]). split_and!.
  - by apply exec_cmds_ok.
  - intros e ->. apply running_stages.
  - rewrite Hx, Hr. by destruct (start_ok k).
  - exists ps. split_and!; [done| |done|done]. rewrite Hl. fold m. by destruct (decide (m = length (stages p))).
Qed.

(** leetify with one or two arguments runs cat on the input, tr and sed,
    connected by pipes, the last writing to the second argument when there is
    one, and exits with status 0 when the child could be waited for; with
    another number of arguments it starts nothing and exits with 1. *)
Lemma leetify_main_correct e wait_ok args :
  (length args = 2 ∨ length args = 3 →
   ∃ input ps, args !! 1 = Some input ∧
     leetify_main (running e) wait_ok args = ((if wait_ok then 0 else -1)%Z, Ok ps) ∧
     ∀ k q, ps !! k = Some q →
       wired e false [[lit "cat"; input]; map lit ["tr"; "[:upper:]"; "[:lower:]"];
         map lit ["sed"; "s|the|teh|g; s|a|4|g; s|e|3|g; s|i|!|g; s|l|1|g; s|o|0|g; s|s|5|g;"]]
         (args !! 2) std_fds 0 k q) ∧
  (length args ≠ 2 ∧ length args ≠ 3 → leetify_main (running e) wait_ok args = (1%Z, Ok [])).
Proof.
  destruct std_fds_ready as (Hw & H0 & H1). split.
  - intros Hlen. destruct args as [|prog [|input args]]; simpl in Hlen; [lia..|].
    set (ss := [[lit "cat"; input]; map lit ["tr"; "[:upper:]"; "[:lower:]"];
      map lit ["sed"; "s|the|teh|g; s|a|4|g; s|e|3|g; s|i|!|g; s|l|1|g; s|o|0|g; s|s|5|g;"]]).
    destruct (pipeline_wired e false ss (args !! 0) std_fds 0) as (ps & Hr & _ & Hps); [done| |done..|].
    { by repeat constructor. }
    exists input, ps. split_and!; [done| |done].
    destruct args as [|o [|]]; simpl in Hlen; [| |lia]; unfold leetify_main; f_equal; exact Hr.
  - intros [? ?]. by destruct args as [|? [|? [|? [|]]]].
Qed.

(** * At concrete command lines *)
Definition demo_pipeline : pipeline :=
  MkPipeline [map lit ["cat"; "notes.txt"]; map lit ["sort"; "-r"]; [lit "head"]] (Some (lit "top.txt")).
Lemma demo_well_formed : well_formed demo_pipeline.
Proof.
  split; [done| |].
  - assert (3 < ARGV_CAP) by (unfold ARGV_CAP; lia). repeat constructor; simpl; lia || done.
  - by intros f [= <-].
Qed.
Lemma demo_no_vars : no_vars demo_pipeline.
Proof. by repeat constructor. Qed.

Definition no_sort (av : list cstr) : bool := negb (bool_decide (head av = Some (lit "sort"))).
(** A kernel whose second fork in a pipeline fails. *)
Definition out_of_processes : kernel := MkKernel true (λ _, true) (λ n, n =? 0) (λ _, true) true no_sort.
Lemma pipeline_executes_witness :
  stages_run out_of_processes (stages demo_pipeline) (out_file demo_pipeline) 0 = 1 ∧
  ∃ ps, execute_pipeline out_of_processes true (stage_cmds (stages demo_pipeline) (out_file demo_pipeline)) std_fds 0 = Ok ps ∧
    length ps = 2 ∧
    (∀ q, ps !! 0 = Some q → wired no_sort true (stages demo_pipeline) (out_file demo_pipeline) std_fds 0 0 q) ∧
    (∀ q, ps !! 1 = Some q → argv q = [] ∧ ends q = Returned).
Proof.
  destruct (pipeline_executes out_of_processes (λ _, None) demo_pipeline [] demo_well_formed demo_no_vars)
    as (_ & _ & _ & ps & Hr & Hl & Hw & Hf).
  split; [reflexivity|]. exists ps. split_and!; [exact Hr|exact Hl| |].
  - intros q Hq. apply (Hw 0 q); [vm_compute; lia|exact Hq].
  - intros q Hq. apply (Hf q); [vm_compute; lia|exact Hq].
Defined.

Lemma leetify_main_correct_witness :
  ∃ input ps, map lit ["leetify"; "in.txt"; "out.txt"] !! 1 = Some input ∧
    leetify_main (running no_sort) true (map lit ["leetify"; "in.txt"; "out.txt"]) = (0%Z, Ok ps) ∧
    ∀ k q, ps !! k = Some q →
      wired no_sort false [[lit "cat"; input]; map lit ["tr"; "[:upper:]"; "[:lower:]"];
        map lit ["sed"; "s|the|teh|g; s|a|4|g; s|e|3|g; s|i|!|g; s|l|1|g; s|o|0|g; s|s|5|g;"]]
        (Some (lit "out.txt")) std_fds 0 k q.
Proof.
  apply (proj1 (leetify_main_correct no_sort true (map lit ["leetify"; "in.txt"; "out.txt"]))).
  by right.
Defined.

(** A [>] without a file redirects nothing, and leaves an empty command; a
    variable alone on its line leaves the array without its NULL. *)
Example redirect_without_file :
  exec_cmds (λ _, None) (map (Some ∘ lit) ["ls"; ">"] ++ [None]) =
    Ok [MkCmd (Some [lit "ls"]) false None; MkCmd (Some []) false None].
Proof. by vm_compute. Qed.
Example variable_alone :
  exec_cmds (λ _, Some (lit "/bin")) [Some (lit "$HOME"); None] = Undef Uninitialised.
Proof. by vm_compute. Qed.
