(* ===== verification/Shell.v ===== *)
(** The main loop of the shell (Project2/shell.c): the prompt, one iteration
    over a line of input with history expansion, background jobs, built-in
    commands and quote removal, and its composition with the tokenizer, the
    history, the job table and the pipeline. *)
From Stdlib Require Import ZArith Lia Ascii.
From stdpp Require Import prelude gmap strings numbers list.
From S2P Require Import Prelude CString Tokenizer History ShellTokenizer Jobs Pipeline.
Open Scope Z_scope.
Import CInt.

(** * The prompt *)

(** [get_info]: the host name, the user name and the home directory. The
    buffer of the latter is [sizeof(username) + sizeof(hostname) + 9] long. *)
Record info := MkInfo { hostname : cstr; username : cstr; nameDir : cstr }.
Definition get_info (gethostname : option cstr) (pw_name : cstr) : outcome info :=
  let hostname := default (lit "Unknown") gethostname in
  dir ← strcpy (8 + 8 + 9) (lit "/home/" ++ pw_name);
  Ok (MkInfo hostname pw_name dir).

(** What [print_prompt] prints, and then the [free] of the directory string,
    which is on the heap only if it was abbreviated. *)
Definition prompt_line (i : info) (n : Z) (dir : cstr) : cstr :=
  lit "--[" ++ print_int n ++ lit "|" ++ username i ++ lit "@" ++ hostname i ++ lit ":" ++ dir ++ lit "]--$ ".
Definition print_prompt (i : info) (n : Z) (cwd : cstr) : cstr * outcome () :=
  if strncmp_eq (nameDir i) cwd (length (nameDir i))
  then (prompt_line i n (lit "~" ++ drop (length (nameDir i)) cwd), Ok ())
  else (prompt_line i n cwd, Undef BadFree).

(** * One iteration *)
Record shell := MkShell {
  vars : shell_vars;
  job_table : jobs;
  env : cstr → option cstr
}.

(** What an iteration does besides changing its state. *)
Inductive event :=
  | EvExit
  | EvHistory (lines : list (Z * cstr))
  | EvCd (dir : option cstr)
  | EvJobs (lines : list (Z * cstr))
  | EvUsage
  | EvNotSet (name : cstr)
  | EvExec (background : bool) (child : outcome (list proc)).

(** The tokens of a string, as [tokenizer] leaves them in the array. *)
Definition read_tokens (v : shell_vars) (line : cstr) : outcome (shell_vars * list cstr) :=
  '(v', buf, toks) ← tokenizer v (line ++ [nul]);
  ws ← mapM (string_at buf) toks;
  Ok (v', ws).
(** The token array after they are stored over the entries of [old]. *)
Definition as_array (old : token_array) (ws : list cstr) : token_array :=
  (Some <$> ws) ++ None :: drop (S (length ws)) old.

(** A string is copied into [malloc(sizeof(char * ))]. *)
Definition PTR_CAP : nat := 8.

(** The [!] branch: the variables, the new token array and what is added to
    the history. *)
Definition expand_history (v : shell_vars) (toks : token_array) (tok : cstr)
    : outcome (shell_vars * token_array * cstr) :=
  let recall (hisStr : cstr) :=
    hisTemp ← strcpy PTR_CAP hisStr;
    '(v', ws) ← read_tokens v hisStr;
    Ok (v', as_array toks ws, hisTemp) in
  if bool_decide (tok !! 1%nat = Some "!"%char)
  then
    hisStr ← get_cmd (hist_of v) (num_cmds v - 2);
    s ← require NullDeref hisStr;
    recall s
  else if default false (isdigit <$> tok !! 1%nat)
  then
    number ← atoi (drop 1 tok);
    hisStr ← get_cmd (hist_of v) number;
    match hisStr with Some s => recall s | None => Undef Uninitialised end
  else
    hisStr ← find_cmd (hist_of v) (drop 1 tok);
    match hisStr with Some s => recall s | None => Undef Uninitialised end.

(** [if (tokens[0] != 0 && tokens[1] != 0 && tokens[1][0] == q) ...]. *)
Definition strip_quote (q : ascii) (toks : token_array) : outcome token_array :=
  t0 ← token_at toks 0;
  match t0 with
  | None => Ok toks
  | Some _ =>
      t1 ← token_at toks 1;
      match t1 with
      | Some t =>
          if bool_decide (head t = Some q)
          then
            temp ← strcpy 500 (drop 1 t);
            if decide (temp = []) then Undef OutOfBounds
            else Ok (<[1%nat := Some (take (length temp - 1) temp)]> toks)
          else Ok toks
      | None => Ok toks
      end
  end.

(** [setenv(name, value, 1)]: [None] when it fails, for a name that is empty or
    has an =; it is taken to have memory. *)
Definition set_env (name value : cstr) (e : cstr → option cstr) : option (cstr → option cstr) :=
  if decide (name = [] ∨ "="%char ∈ name) then None
  else Some (λ x, if decide (x = name) then Some value else e x).

(** The built-in commands: the state, the events, and whether the command is
    not to be executed as a program. *)
Definition run_builtin (sh : shell) (toks : token_array) (cmd : cstr)
    : outcome (shell * list event * bool) :=
  if strcmp_eq cmd (lit "history") then
    out ← print_history (hist_of (vars sh)); Ok (sh, [EvHistory out], true)
  else if strcmp_eq cmd (lit "cd") then
    dir ← token_at toks 1; Ok (sh, [EvCd dir], true)
  else if strcmp_eq cmd (lit "num_jobs") then
    out ← list_jobs (job_table sh); Ok (sh, [EvJobs out], true)
  else if strcmp_eq cmd (lit "setenv") then
    t1 ← token_at toks 1;
    match t1 with
    | None => Ok (sh, [EvUsage], false)
    | Some name =>
        t2 ← token_at toks 2;
        match t2 with
        | None => Ok (sh, [EvUsage], false)
        | Some value =>
            n ← strcpy 256 name; v ← strcpy 256 value;
            match set_env n v (env sh) with
            | Some e => Ok (MkShell (vars sh) (job_table sh) e, [], false)
            | None => Ok (sh, [EvNotSet n], false)
            end
        end
    end
  else Ok (sh, [], false).

(** [exec] in the parent: a background job is entered in the table. *)
Definition launch (k : kernel) (pid : Z) (sh : shell) (background : bool) (line : cstr)
    (toks : token_array) : outcome (shell * list event) :=
  child ← exec k (env sh) toks;
  match child with
  | None => Ok (sh, [])
  | Some c =>
      if background
      then jt ← add_job (job_table sh) pid line; Ok (MkShell (vars sh) jt (env sh), [EvExec true c])
      else Ok (sh, [EvExec false c])
  end.

(** The rest of an iteration once the tokens stand in [toks1]. *)
Definition dispatch (k : kernel) (pid : Z) (sh1 : shell) (background : bool) (line : cstr)
    (toks1 : token_array) : outcome (shell * list event) :=
  t0' ← token_at toks1 0;
  cmd ← require NullDeref t0';
  if strcmp_eq cmd (lit "exit") then Ok (sh1, [EvExit])
  else
    '(sh2, out, isBIn) ← run_builtin sh1 toks1 cmd;
    toks2 ← strip_quote "034"%char toks1;
    toks3 ← strip_quote "'"%char toks2;
    if isBIn : bool then Ok (sh2, out)
    else '(sh3, out') ← launch k pid sh2 background line toks3; Ok (sh3, out ++ out').

(** A line with tokens, the background mark replaced by NULL. *)
Definition run_tokens (k : kernel) (pid : Z) (sh : shell) (background : bool) (line : cstr)
    (toks : token_array) : outcome (shell * list event) :=
  n ← int_result (num_cmds (vars sh) + 1);
  let v := MkVars n (hist_of (vars sh)) in
  t0 ← token_at toks 0;
  tok ← require NullDeref t0;
  '(v1, toks1, entry) ← (if bool_decide (head tok = Some "!"%char)
                         then expand_history v toks tok else Ok (v, toks, line));
  h ← add_history (hist_of v1) entry;
  dispatch k pid (MkShell (MkVars (num_cmds v1) h) (job_table sh) (env sh)) background line toks1.

(** One iteration of the loop of [main] on a line of input. *)
Definition run_line (k : kernel) (pid : Z) (sh : shell) (line : cstr) : outcome (shell * list event) :=
  '(v, ws) ← read_tokens (vars sh) line;
  let sh := MkShell v (job_table sh) (env sh) in
  match ws with
  | [] => Ok (sh, [])
  | _ =>
      let background := bool_decide (ws !! (length ws - 1)%nat = Some (lit "&")) in
      let toks := if background then <[(length ws - 1)%nat := None]> (as_array [] ws)
                  else as_array [] ws in
      run_tokens k pid sh background line toks
  end.

(** * The numbering of commands

    The shell counts its commands in [num_cmds], the history in [cmd_count]:
    [!!] relies on their agreement. *)
Definition drift (v : shell_vars) : Z := num_cmds v - cmd_count (hist_of v).

Lemma add_history_count h c h' : add_history h c = Ok h' → cmd_count h' = cmd_count h + 1.
Proof.
  unfold add_history. intros H. inv_ok.
  match goal with H : int_result _ = Ok _ |- _ => unfold int_result in H; case_decide; simplify_eq/= end.
  done.
Qed.

Lemma note_comment_drift v s v' : note_comment v s = Ok v' → drift v' = drift v.
Proof.
  unfold note_comment. destruct (strncmp_eq _ _ _); intros H; inv_ok; [|done].
  match goal with H : int_result _ = Ok _ |- _ => unfold int_result in H; case_decide; simplify_eq/= end.
  match goal with H : add_history _ _ = Ok _ |- _ => apply add_history_count in H end.
  unfold drift. simpl. lia.
Qed.

Lemma tokenizer_drift v buf v' buf' toks : ShellTokenizer.tokenizer v buf = Ok (v', buf', toks) → drift v' = drift v.
Proof.
  unfold ShellTokenizer.tokenizer. intros H. inv_ok.
  match goal with H : note_comment _ _ = Ok _ |- _ => apply note_comment_drift in H end.
  case_decide; by simplify_eq.
Qed.

Lemma read_tokens_drift v line v' ws : read_tokens v line = Ok (v', ws) → drift v' = drift v.
Proof.
  unfold read_tokens. intros H. inv_ok. by eapply tokenizer_drift.
Qed.

Lemma expand_history_drift v toks tok v' toks' c :
  expand_history v toks tok = Ok (v', toks', c) → drift v' = drift v.
Proof.
  unfold expand_history. intros H.
  repeat (case_bool_decide || case_match); inv_ok; try done;
    repeat (case_match; inv_ok; try done); by eapply read_tokens_drift.
Qed.

Lemma run_builtin_vars sh toks cmd sh' out b :
  run_builtin sh toks cmd = Ok (sh', out, b) → vars sh' = vars sh.
Proof.
  unfold run_builtin. intros H. repeat (case_match; inv_ok; try done).
Qed.

Lemma launch_vars k pid sh bg line toks sh' out :
  launch k pid sh bg line toks = Ok (sh', out) → vars sh' = vars sh.
Proof.
  unfold launch. intros H. inv_ok. repeat (case_match; inv_ok; try done).
Qed.

Lemma dispatch_vars k pid sh bg line toks sh' out :
  dispatch k pid sh bg line toks = Ok (sh', out) → vars sh' = vars sh.
Proof.
  unfold dispatch. intros H.
  apply bind_Ok in H as (t0' & _ & H). apply bind_Ok in H as (cmd & _ & H).
  destruct (strcmp_eq cmd (lit "exit")); [by simplify_eq|].
  apply bind_Ok in H as ([[sh2 evs] isBIn] & Hb & H). apply run_builtin_vars in Hb.
  apply bind_Ok in H as (toks2 & _ & H). apply bind_Ok in H as (toks3 & _ & H).
  destruct isBIn; [simplify_eq; by rewrite Hb|].
  apply bind_Ok in H as ([sh3 evs3] & Hl & H). apply launch_vars in Hl. simplify_eq.
  by rewrite Hl, Hb.
Qed.

Lemma run_tokens_drift k pid sh bg line toks sh' out :
  run_tokens k pid sh bg line toks = Ok (sh', out) → drift (vars sh') = drift (vars sh).
Proof.
  unfold run_tokens. intros H. apply bind_Ok in H as (n & Hn & H).
  assert (n = num_cmds (vars sh) + 1) as -> by (unfold int_result in Hn; case_decide; by simplify_eq).
  apply bind_Ok in H as (t0 & _ & H). apply bind_Ok in H as (tok & _ & H).
  apply bind_Ok in H as ([[v1 toks1] entry] & Hx & H). apply bind_Ok in H as (h & Hh & H).
  apply dispatch_vars in H. rewrite H. apply add_history_count in Hh.
  assert (drift v1 = num_cmds (vars sh) + 1 - cmd_count (hist_of (vars sh))) as Hv1.
  { case_bool_decide; [|by simplify_eq]. by apply expand_history_drift in Hx. }
  unfold drift in *. simpl. lia.
Qed.

(** Whatever the line, an iteration of the shell that completes moves the
    number of commands of the shell and that of the history by the same
    amount: comment lines, recalled commands and empty lines included. *)
Lemma numbering_agrees k pid sh line sh' out :
  run_line k pid sh line = Ok (sh', out) →
  num_cmds (vars sh') - cmd_count (hist_of (vars sh')) =
  num_cmds (vars sh) - cmd_count (hist_of (vars sh)).
Proof.
  intros H. fold (drift (vars sh')) (drift (vars sh)). unfold run_line in H.
  apply bind_Ok in H as ([v ws] & Hr & H). apply read_tokens_drift in Hr. rewrite <- Hr.
  destruct ws; [by simplify_eq|]. by apply run_tokens_drift in H.
Qed.

(** * Reading a line *)
Lemma read_tokens_ok v s :
  nul ∉ s → no_quotes s → strncmp_eq s (lit "#") 1 = false →
  Z.of_nat (length (line_tokens s)) < MAX_TOKENS →
  read_tokens v s = Ok (v, line_tokens s).
Proof.
  intros Hs Hq Hc Hlen. unfold read_tokens.
  pose proof (tokenizer_line v v s [] Hs Hq) as Ht. unfold note_comment in Ht. rewrite Hc in Ht.
  specialize (Ht eq_refl). simpl in Ht. rewrite decide_True in Ht by done.
  destruct Ht as (buf & toks & -> & Hm). simpl. by rewrite Hm.
Qed.

Lemma split_elem delim s t c : t ∈ split delim s → c ∈ t → c ∈ s.
Proof.
  remember (length s) as n eqn:Hn. revert s Hn. induction (lt_wf n) as [n _ IH]. intros s ->.
  rewrite split_unfold. destruct (first_tok delim s) as [|d u] eqn:Ef; [set_solver|].
  intros [->|Hin]%elem_of_cons Hc.
  - apply (parts_elem delim). right. left. by rewrite Ef.
  - apply (parts_elem delim). right. right.
    pose proof (f_equal length (parts delim s)) as Hp. rewrite Ef in Hp.
    repeat (rewrite length_app in Hp; simpl in Hp).
    destruct (after_tok delim s) as [|x r] eqn:Ea; simpl in *; [by apply not_elem_of_nil in Hin|].
    right. exact (IH (length r) ltac:(lia) r eq_refl Hin Hc).
Qed.

Lemma line_tokens_elem s t c : t ∈ line_tokens s → c ∈ t → c ∈ s.
Proof.
  intros Ht. apply split_elem with (delim := SEPARATORS). unfold line_tokens in Ht.
  rewrite <- (take_drop_while (negb ∘ comment_token)). set_solver.
Qed.

Lemma strip_none q toks :
  (∀ i, i = 0%nat ∨ i = 1%nat → is_Some (toks !! i)) →
  (∀ t, toks !! 1%nat = Some (Some t) → head t ≠ Some q) → strip_quote q toks = Ok toks.
Proof.
  intros Hi Hq. unfold strip_quote, token_at.
  destruct (Hi 0%nat (or_introl eq_refl)) as [t0 ->]. simpl. destruct t0; [|done].
  destruct (Hi 1%nat (or_intror eq_refl)) as [t1 Ht1]. rewrite Ht1. simpl. destruct t1; [|done].
  by rewrite bool_decide_false by (by apply Hq).
Qed.

Definition builtins : list cstr := map lit ["exit"; "history"; "cd"; "num_jobs"; "setenv"].

Lemma not_builtin sh toks cmd :
  cmd ∉ builtins → strcmp_eq cmd (lit "exit") = false ∧ run_builtin sh toks cmd = Ok (sh, [], false).
Proof.
  intros Hn. unfold builtins in Hn. unfold run_builtin, strcmp_eq.
  rewrite !bool_decide_false by (intros ->; apply Hn; simpl; set_solver). done.
Qed.

(** A line of a pipeline, perhaps in the background. *)
Record command_text (s : cstr) (p : pipeline) (bg : bool) : Prop := {
  ct_nul : nul ∉ s;
  ct_quotes : no_quotes s;
  ct_comment : strncmp_eq s (lit "#") 1 = false;
  ct_tokens : line_tokens s = words_of p ++ (if bg then [lit "&"] else []);
  ct_short : Z.of_nat (length (line_tokens s)) < MAX_TOKENS;
  ct_wf : well_formed p;
  ct_vars : no_vars p;
  ct_first : ∀ w, head (words_of p) = Some w → (head w ≠ Some "!"%char) ∧ (w ∉ builtins);
  ct_last : words_of p !! (length (words_of p) - 1)%nat ≠ Some (lit "&")
}.

(** The token array after the check for a background mark. *)
Lemma background_tokens s p bg :
  command_text s p bg →
  let ws := line_tokens s in
  bool_decide (ws !! (length ws - 1)%nat = Some (lit "&")) = bg ∧
  (if bg then <[(length ws - 1)%nat := None]> (as_array [] ws) else as_array [] ws) =
    (Some <$> words_of p) ++ None :: (if bg then [None] else []).
Proof.
  intros C ws. unfold ws. rewrite (ct_tokens _ _ _ C). destruct bg.
  - replace (length (words_of p ++ [lit "&"]) - 1)%nat with (length (words_of p)) by len. split.
    + apply bool_decide_true. by apply lookup_middle_eq.
    + unfold as_array. rewrite fmap_app, drop_nil, <- app_assoc. simpl.
      apply insert_middle. by rewrite length_fmap.
  - rewrite app_nil_r. split; [|by unfold as_array; rewrite drop_nil].
    apply bool_decide_false. apply (ct_last _ _ _ C).
Qed.

Lemma words_in_line s p bg w c : command_text s p bg → w ∈ words_of p → c ∈ w → c ∉ quotes.
Proof.
  intros C Hw Hc. apply (ct_quotes _ _ _ C), (line_tokens_elem s w); [|done].
  rewrite (ct_tokens _ _ _ C). set_solver.
Qed.

Lemma no_strip s p bg post q :
  command_text s p bg → q ∈ quotes →
  let toks := (Some <$> words_of p) ++ None :: post in strip_quote q toks = Ok toks.
Proof.
  intros C Hq toks. apply strip_none.
  - intros i Hi. apply lookup_lt_is_Some_2.
    destruct (words_nonempty _ (ct_wf _ _ _ C)) as (w & ws & Hws). unfold toks. rewrite Hws.
    destruct Hi as [-> | ->]; len.
  - intros t Ht Hh. destruct (words_nonempty _ (ct_wf _ _ _ C)) as (w & ws & Hws).
    unfold toks in Ht. rewrite Hws in Ht. destruct ws as [|w1 ws]; [done|]. simplify_eq/=.
    destruct t as [|c t]; simplify_eq/=. apply (words_in_line s p bg (q :: t) q C); [|set_solver|done].
    rewrite Hws. set_solver.
Qed.

(** The shell's rest after a command: one more command, and its line in the
    history. *)
Definition recorded (sh : shell) (h : hist) : shell :=
  MkShell (MkVars (num_cmds (vars sh) + 1) h) (job_table sh) (env sh).

(** A line that holds a pipeline and perhaps a background mark, without
    quotes, variables or a built-in command, is entered in the history and
    counted.  Unless the [fork] fails, the processes of its stages are started,
    wired as the pipeline says, up to the stage at which a call fails; in the
    background the line is also entered in the job table. *)
Lemma command_line_runs k pid sh s p bg h :
  command_text s p bg →
  num_cmds (vars sh) < INT_MAX → INT_MIN ≤ num_cmds (vars sh) →
  add_history (hist_of (vars sh)) s = Ok h →
  ∃ ps, pipeline_result k true (stages p) (out_file p) std_fds 0 ps ∧
    run_line k pid sh s =
      if start_ok k then
        if bg then jt ← add_job (job_table sh) pid s;
                   Ok (MkShell (MkVars (num_cmds (vars sh) + 1) h) jt (env sh), [EvExec true (Ok ps)])
        else Ok (recorded sh h, [EvExec false (Ok ps)])
      else Ok (recorded sh h, []).
Proof.
  intros C Hn Hn' Hh. pose proof C as [Hs Hq Hc Hts Hlen Hp Hv Hf _].
  destruct (exec_runs k (env sh) p (if bg then [None] else []) Hp Hv) as (ps & Hex & _ & Hps).
  exists ps. split; [done|].
  destruct (background_tokens s p bg C) as [Hbg Htoks].
  destruct (words_nonempty _ Hp) as (w & ws & Hws).
  unfold run_line. rewrite read_tokens_ok by done. cbn [mbind outcome_bind].
  rewrite Hbg, Htoks. assert (∃ x l, line_tokens s = x :: l) as (x & l & ->) by (rewrite Hts, Hws; simpl; eauto).
  destruct (Hf w) as [Hw Hnb]; [by rewrite Hws|].
  set (toks := (Some <$> words_of p) ++ None :: (if bg then [None] else [])).
  assert (token_at toks 0 = Ok (Some w)) as Ht0 by (unfold toks; by rewrite Hws).
  unfold run_tokens. cbn [vars]. rewrite int_result_ok by lia. cbn [mbind outcome_bind].
  rewrite Ht0. cbn [mbind outcome_bind require]. rewrite bool_decide_false by done.
  cbn [mbind outcome_bind hist_of]. rewrite Hh. cbn [mbind outcome_bind].
  unfold dispatch. rewrite Ht0. cbn [mbind outcome_bind require].
  match goal with |- context [run_builtin ?s' ?t w] => destruct (not_builtin s' t w Hnb) as [-> ->] end.
  cbn [mbind outcome_bind]. unfold toks. rewrite (no_strip s p bg) by (done || decide_now).
  cbn [mbind outcome_bind]. rewrite (no_strip s p bg) by (done || decide_now). cbn [mbind outcome_bind].
  unfold launch. cbn [env]. rewrite Hex. cbn [mbind outcome_bind job_table vars num_cmds].
  destruct (start_ok k); [|done]. destruct bg; [|done]. by destruct (add_job (job_table sh) pid s).
Qed.

(** * Recalling the last command *)
Definition bang_line : cstr := lit "!!" ++ ["010"%char].

Lemma bang_tokens v : read_tokens v bang_line = Ok (v, [lit "!!"]).
Proof.
  rewrite read_tokens_ok; [by vm_compute|decide_now| |done|by vm_compute].
  refine (proj1 (Forall_forall (λ c : ascii, c ∉ quotes) bang_line) _). decide_now.
Qed.

(** The line is looked at only when a background job is entered. *)
Lemma dispatch_foreground k pid sh line line' toks :
  dispatch k pid sh false line toks = dispatch k pid sh false line' toks.
Proof. done. Qed.

Section recall.
Context (k : kernel) (pid : Z) (sh : shell) (cs : list cstr).
Context (R : hist_rep (hist_of (vars sh)) cs) (Hn : num_cmds (vars sh) = entered cs) (Hi : entered cs + 2 ≤ INT_MAX).

(** What the loop does with [!!]: the last command is copied into the space of
    one pointer and read. *)
Lemma bang_run :
  run_line k pid sh bang_line =
  let v := MkVars (entered cs + 1) (hist_of (vars sh)) in
  match cs !! (length cs - 1)%nat with
  | None => Undef NullDeref
  | Some c =>
      if decide (length c < 8)%nat then
      '(v1, ws) ← read_tokens v c;
      h ← add_history (hist_of v1) c;
      dispatch k pid (MkShell (MkVars (num_cmds v1) h) (job_table sh) (env sh)) false bang_line
        (as_array [Some (lit "!!"); None] ws)
      else Undef OutOfBounds
  end.
Proof.
  assert (0 ≤ entered cs) as H0 by (unfold entered; lia).
  assert (run_line k pid sh bang_line = run_tokens k pid sh false bang_line [Some (lit "!!"); None]) as ->.
  { unfold run_line. rewrite bang_tokens. by destruct sh. }
  unfold run_tokens. cbn [vars job_table env]. rewrite Hn, int_result_ok by (unfold INT_MIN; lia).
  cbn [mbind outcome_bind]. change (token_at [Some (lit "!!"); None] 0) with (Ok (A := option cstr) (Some (lit "!!"))).
  cbn [mbind outcome_bind require].
  rewrite (bool_decide_true (head (lit "!!") = Some "!"%char)) by done.
  unfold expand_history. rewrite (bool_decide_true (lit "!!" !! 1%nat = Some "!"%char)) by done.
  cbn [hist_of num_cmds]. replace (entered cs + 1 - 2) with (entered cs - 1) by lia.
  rewrite (get_cmd_correct _ _ _ R).
  destruct (decide (cs = [])) as [->|Hne]; [done|].
  assert (0 < length cs)%nat by (destruct cs; [done|simpl; lia]).
  assert (0 < entered cs) by (unfold entered; lia).
  rewrite decide_True by (unfold max; lia).
  destruct (lookup_lt_is_Some_2 cs (length cs - 1)) as [c Hc]; [lia|]. rewrite Hc.
  assert (entry cs (entered cs - 1) = c) as ->.
  { unfold entry, entered in *. rewrite decide_True by lia.
    replace (Z.to_nat (Z.of_nat (length cs) - 1)) with (length cs - 1)%nat by lia. by rewrite Hc. }
  cbn [mbind outcome_bind require]. unfold strcpy, PTR_CAP. cbn zeta.
  destruct (decide (length c < 8)%nat); [|done]. cbn [mbind outcome_bind].
  by destruct (read_tokens _ c) as [[v1 ws]| |].
Qed.

Context (c : cstr) (Hc : cs !! (length cs - 1)%nat = Some c) (Hl : (length c < 8)%nat) (Hs : nul ∉ c) (Hq : no_quotes c).

Lemma short_tokens : Z.of_nat (length (line_tokens c)) < MAX_TOKENS.
Proof.
  assert (length (line_tokens c) ≤ length c)%nat; [|unfold MAX_TOKENS; lia].
  unfold line_tokens. etrans; [|apply (split_count SEPARATORS)].
  rewrite <- (take_drop_while (negb ∘ comment_token) (split SEPARATORS c)) at 2. rewrite length_app. lia.
Qed.

Lemma short_fits : (length c < ROW)%nat.
Proof. enough (8 < ROW)%nat by lia. apply Nat.ltb_lt. by vm_compute. Qed.

(** A comment cannot be run, nor can a line without words. *)
Lemma bang_empty : line_tokens c = [] → run_line k pid sh bang_line = Undef NullDeref.
Proof.
  intros Ht. assert (0 ≤ entered cs) as H0 by (unfold entered; lia). rewrite bang_run, Hc. cbn zeta. rewrite decide_True by done.
  set (v := MkVars (entered cs + 1) (hist_of (vars sh))).
  destruct (note_comment_rep v cs c R short_fits) as (v' & Hv & Hv'); [lia|simpl; unfold INT_MIN; lia|].
  unfold read_tokens. pose proof (tokenizer_line v v' c [] Hs Hq Hv) as H. cbn zeta in H.
  rewrite decide_True in H by apply short_tokens. destruct H as (buf & toks & -> & Hm). cbn [mbind outcome_bind].
  rewrite Hm, Ht. cbn [mbind outcome_bind].
  assert (∃ cs', hist_rep (hist_of v') cs' ∧ entered cs' < INT_MAX) as (cs' & R' & Hi').
  { case_decide; [destruct Hv' as [_ R']|subst v'].
    - eexists. split; [exact R'|]. rewrite count_snoc. lia.
    - exists cs. split; [done|lia]. }
  destruct (add_history_rep _ cs' c R' short_fits Hi') as (h & -> & _). done.
Qed.

(** Otherwise its words are run in the foreground, a final [&] among them. *)
Lemma bang_words :
  line_tokens c ≠ [] →
  ∃ h, add_history (hist_of (vars sh)) c = Ok h ∧ hist_rep h (cs ++ [c]) ∧
  run_line k pid sh bang_line = dispatch k pid (recorded sh h) false bang_line (as_array [] (line_tokens c)).
Proof.
  intros Ht. assert (0 ≤ entered cs) as H0 by (unfold entered; lia).
  destruct (add_history_rep _ cs c R short_fits) as (h & Hh & R'); [lia|]. exists h. split_and!; [done|done|].
  rewrite bang_run, Hc. cbn zeta. rewrite decide_True by done. rewrite read_tokens_ok; [|done|done| |apply short_tokens].
  - cbn [mbind outcome_bind hist_of num_cmds]. rewrite Hh. cbn [mbind outcome_bind]. unfold recorded. rewrite Hn.
    unfold as_array. rewrite drop_ge, drop_nil; [done|]. destruct (line_tokens c); [done|simpl; lia].
  - unfold strncmp_eq. apply bool_decide_eq_false. intros E. destruct c as [|x c']; [done|].
    assert (x = "#"%char) as -> by (injection E as E; exact E).
    apply Ht. unfold line_tokens. rewrite split_unfold. unfold first_tok, body. simpl. done.
Qed.

(** Typing it again does the same when its last word is not [&]. *)
Lemma bang_retyped :
  line_tokens c ≠ [] → line_tokens c !! (length (line_tokens c) - 1)%nat ≠ Some (lit "&") →
  (∀ w, head (line_tokens c) = Some w → head w ≠ Some "!"%char) →
  run_line k pid sh bang_line = run_line k pid sh c.
Proof.
  intros Ht Hb Hw. assert (0 ≤ entered cs) as H0 by (unfold entered; lia).
  destruct (bang_words Ht) as (h & Hh & _ & ->). unfold run_line.
  rewrite read_tokens_ok; [|done|done| |apply short_tokens].
  - cbn [mbind outcome_bind]. destruct (line_tokens c) as [|w ws] eqn:E; [done|]. cbn iota.
    rewrite bool_decide_false by exact Hb.
    cbn iota. unfold run_tokens. cbn [vars]. rewrite Hn, int_result_ok by (unfold INT_MIN; lia). cbn [mbind outcome_bind].
    change (token_at (as_array [] (w :: ws)) 0) with (Ok (A := option cstr) (Some w)). cbn [mbind outcome_bind require].
    rewrite bool_decide_false by (by apply Hw). cbn [mbind outcome_bind hist_of num_cmds]. rewrite Hh.
    cbn [mbind outcome_bind]. unfold recorded. rewrite Hn. by apply dispatch_foreground.
  - unfold strncmp_eq. apply bool_decide_eq_false. intros E. destruct c as [|x c']; [done|].
    assert (x = "#"%char) as -> by (injection E as E; exact E).
    apply Ht. unfold line_tokens. rewrite split_unfold. unfold first_tok, body. simpl. done.
Qed.
End recall.

(** C33: [!!] with an empty history copies from NULL, and a last command of 8
    characters or more, its newline included, overruns the space of one pointer
    it is copied to.  A shorter one, without quotes, is entered in the history
    again and its words are run in the foreground: this is what typing it again
    does, built-in commands included, unless its last word is [&], which then
    starts no job and is an argument (or its first word starts with [!], which
    is then not expanded); a comment has no words, and NULL is dereferenced. *)
Theorem bang_bang_correct k pid sh cs :
  hist_rep (hist_of (vars sh)) cs → num_cmds (vars sh) = entered cs → entered cs + 2 ≤ INT_MAX →
  match cs !! (length cs - 1)%nat with
  | None => run_line k pid sh bang_line = Undef NullDeref
  | Some c =>
      if decide (length c < 8)%nat
      then nul ∉ c → no_quotes c →
        if decide (line_tokens c = []) then run_line k pid sh bang_line = Undef NullDeref
        else
          (∃ h, add_history (hist_of (vars sh)) c = Ok h ∧ hist_rep h (cs ++ [c]) ∧
             run_line k pid sh bang_line = dispatch k pid (recorded sh h) false bang_line (as_array [] (line_tokens c))) ∧
          (line_tokens c !! (length (line_tokens c) - 1)%nat ≠ Some (lit "&") → (∀ w, head (line_tokens c) = Some w → head w ≠ Some "!"%char) →
             run_line k pid sh bang_line = run_line k pid sh c)
      else run_line k pid sh bang_line = Undef OutOfBounds
  end.
Proof.
  intros R Hn Hi. pose proof (bang_run k pid sh cs R Hn Hi) as Hb. cbn zeta in Hb.
  destruct (cs !! (length cs - 1)%nat) as [c|] eqn:Hc; [|done]. destruct (decide (length c < 8)%nat); [|done].
  intros Hs Hq. case_decide; [by eapply bang_empty|]. split; [by eapply bang_words|intros; by eapply bang_retyped].
Qed.

(** * At concrete lines *)
Definition demo_shell : shell := MkShell (MkVars 4 demo_hist) jobs_init (λ _, None).
Definition nl : cstr := ["010"%char].
Definition demo_text : cstr := lit "cat notes.txt | sort -r | head > top.txt &" ++ nl.

Lemma plain_text (s : cstr) : Forall (λ c : ascii, c ∉ quotes) s → no_quotes s.
Proof. intros H. exact (proj1 (Forall_forall (λ c : ascii, c ∉ quotes) s) H). Qed.

Lemma demo_command : command_text demo_text demo_pipeline true.
Proof.
  split; [decide_now|apply plain_text; decide_now|done|by vm_compute|by vm_compute|
    apply demo_well_formed|apply demo_no_vars| |by vm_compute].
  intros w [= <-]. split; [done|decide_now].
Qed.

Lemma pwd_command : command_text (lit "pwd") (MkPipeline [[lit "pwd"]] None) false.
Proof.
  split; [decide_now|apply plain_text; decide_now|done|by vm_compute|by vm_compute| |
    by repeat constructor| |by vm_compute].
  - assert (1 < ARGV_CAP)%nat by (unfold ARGV_CAP; lia). split; [done|by repeat constructor|done].
  - intros w [= <-]. split; [done|decide_now].
Qed.

Definition demo_step : shell * list event :=
  get (demo_shell, []) (run_line (running no_sort) 501 demo_shell demo_text).

Lemma numbering_agrees_witness :
  num_cmds (vars demo_step.1) - cmd_count (hist_of (vars demo_step.1)) =
  num_cmds (vars demo_shell) - cmd_count (hist_of (vars demo_shell)).
Proof.
  apply (numbering_agrees (running no_sort) 501 demo_shell demo_text demo_step.1 demo_step.2).
  rewrite <- surjective_pairing. apply is_ok_get. by vm_compute.
Defined.

Definition demo_after : hist := get demo_hist (add_history demo_hist demo_text).
Lemma command_line_runs_witness :
  ∃ ps, pipeline_result (running no_sort) true (stages demo_pipeline) (out_file demo_pipeline) std_fds 0 ps ∧
    run_line (running no_sort) 501 demo_shell demo_text =
      (jt ← add_job jobs_init 501 demo_text;
       Ok (MkShell (MkVars (4 + 1) demo_after) jt (λ _, None), [EvExec true (Ok ps)])).
Proof.
  apply (command_line_runs (running no_sort) 501 demo_shell demo_text demo_pipeline true demo_after);
    [apply demo_command|done|done|]. apply is_ok_get. by vm_compute.
Defined.

(** After pwd, [!!] is pwd again; after a job its [&] is an argument; after a
    comment it crashes. *)
Definition shell_after (line : cstr) : shell :=
  MkShell (MkVars 1 (get hist_init (add_history hist_init line))) jobs_init (λ _, None).
Lemma after_rep line : (length line < ROW)%nat → hist_rep (hist_of (vars (shell_after line))) [line].
Proof. intros Hl. by destruct (add_history_rep hist_init [] line hist_init_rep Hl) as (h & Hh & R); [done|unfold shell_after; simpl; rewrite Hh]. Qed.
Lemma bang_bang_correct_witness :
  run_line (running no_sort) 501 demo_shell bang_line = run_line (running no_sort) 501 demo_shell (lit "pwd") ∧
  (∃ h, hist_rep h [lit "ls &"; lit "ls &"] ∧ run_line (running no_sort) 501 (shell_after (lit "ls &")) bang_line =
     dispatch (running no_sort) 501 (recorded (shell_after (lit "ls &")) h) false bang_line [Some (lit "ls"); Some (lit "&"); None]) ∧
  run_line (running no_sort) 501 (shell_after (lit "# a")) bang_line = Undef NullDeref.
Proof.
  assert (∀ line, (length line <? ROW)%nat = true → hist_rep (hist_of (vars (shell_after line))) [line]) as Ha.
  { intros line Hl. by apply after_rep, Nat.ltb_lt. }
  split_and!.
  - pose proof (bang_bang_correct (running no_sort) 501 demo_shell demo_cmds demo_rep eq_refl ltac:(done)) as H.
    destruct (H ltac:(decide_now) ltac:(apply plain_text; decide_now)) as [_ Hr]. apply Hr; [by vm_compute|by intros w [= <-]].
  - pose proof (bang_bang_correct (running no_sort) 501 (shell_after (lit "ls &")) [lit "ls &"] (Ha (lit "ls &") ltac:(by vm_compute)) eq_refl ltac:(done)) as H.
    destruct (H ltac:(decide_now) ltac:(apply plain_text; decide_now)) as [(h & _ & R & Hr) _]. by exists h.
  - pose proof (bang_bang_correct (running no_sort) 501 (shell_after (lit "# a")) [lit "# a"] (Ha (lit "# a") ltac:(by vm_compute)) eq_refl ltac:(done)) as H.
    apply H; [decide_now|apply plain_text; decide_now].
Defined.

(** A lone background mark is dereferenced; [setenv] is also run as a
    program; a number that is not in the history adds an uninitialised string
    to it; the directory string of the prompt is freed though it is not on
    the heap. *)
Example lone_ampersand :
  run_line (running no_sort) 501 demo_shell (lit "&" ++ nl) = Undef NullDeref.
Proof. by vm_compute. Qed.
Example setenv_is_run :
  match run_line (running no_sort) 501 demo_shell (lit "setenv A b" ++ nl) with
  | Ok (sh, [EvExec false (Ok [p])]) =>
      env sh (lit "A") = Some (lit "b") ∧ argv p = map lit ["setenv"; "A"; "b"]
  | _ => False
  end.
Proof. by vm_compute. Qed.
Example unknown_number :
  run_line (running no_sort) 501 demo_shell (lit "!99" ++ nl) = Undef Uninitialised.
Proof. by vm_compute. Qed.
Example prompts :
  let i := MkInfo (lit "box") (lit "al") (lit "/home/al") in
  print_prompt i 3 (lit "/home/al/src") = (lit "--[3|al@box:~/src]--$ ", Ok ()) ∧
  print_prompt i 3 (lit "/tmp") = (lit "--[3|al@box:/tmp]--$ ", Undef BadFree).
Proof. by vm_compute. Qed.
