(* ===== verification/ShellSession.v ===== *)
(** Sessions of the shell (Project2/shell.c): the loop of main over lines of
    input, with the SIGCHLD handler run while it waits for a line or for a
    foreground command. *)
From Stdlib Require Import ZArith Lia Ascii.
From stdpp Require Import prelude gmap strings numbers list.
From S2P Require Import Prelude CString Tokenizer History ShellTokenizer Jobs JobsInterrupt JobSlots Pipeline Shell.
Open Scope Z_scope.
Import CInt.

(** * The loop *)

(** What main waits for: a line, with the system calls that will succeed, the
    pid its [fork] will return and what waitpid will report to each run of the
    handler while main waits for a foreground command (at least one, for that
    command: its own pid, 0 or -1); or a run of the handler meanwhile. *)
Inductive shell_input := Line (k : kernel) (pid : Z) (line : cstr) (reports : list Z) | Child (report : Z).
Definition shell_init (env : cstr → option cstr) : shell := MkShell (MkVars 0 hist_init) jobs_init env.
Definition exits (evs : list event) : bool := existsb (λ e, match e with EvExit => true | _ => false end) evs.
(** Whether main waited for a foreground command. *)
Definition waited (evs : list event) : bool := existsb (λ e, match e with EvExec false _ => true | _ => false end) evs.

Fixpoint handle_reports (reports : list Z) (jt : jobs) : outcome jobs :=
  match reports with [] => Ok jt | r :: reports' => jt' ← sigchld_handler r jt; handle_reports reports' jt' end.
Definition signalled (sh : shell) (reports : list Z) : outcome shell :=
  jt ← handle_reports reports (job_table sh); Ok (MkShell (vars sh) jt (env sh)).
Definition react (sh : shell) (i : shell_input) : outcome (shell * list event) :=
  match i with
  | Line k pid line reports =>
      '(sh', evs) ← run_line k pid sh line;
      sh'' ← signalled sh' (if waited evs then reports else []);
      Ok (sh'', evs)
  | Child report => sh' ← signalled sh [report]; Ok (sh', [])
  end.
(** Until [exit] or the end of the input. *)
Fixpoint session (sh : shell) (ins : list shell_input) : outcome (shell * list event) :=
  match ins with
  | [] => Ok (sh, [])
  | i :: ins' =>
      '(sh1, evs) ← react sh i;
      if exits evs then Ok (sh1, evs)
      else '(sh2, evs') ← session sh1 ins'; Ok (sh2, evs ++ evs')
  end.

(** * Lines of built-in commands, and lines without a command *)
Record builtin_text (s cmd : cstr) (args : list cstr) : Prop := {
  bt_nul : nul ∉ s;
  bt_quotes : no_quotes s;
  bt_comment : strncmp_eq s (lit "#") 1 = false;
  bt_tokens : line_tokens s = cmd :: args;
  bt_short : Z.of_nat (length (line_tokens s)) < MAX_TOKENS;
  bt_last : (cmd :: args) !! length args ≠ Some (lit "&")
}.

Lemma builtin_no_strip s cmd args q :
  builtin_text s cmd args → q ∈ quotes →
  strip_quote q (as_array [] (cmd :: args)) = Ok (as_array [] (cmd :: args)).
Proof.
  intros [_ Hq _ Ht _ _] Hin. apply strip_none.
  - intros i Hi. unfold as_array. apply lookup_lt_is_Some_2. destruct Hi as [-> | ->]; len.
  - intros t Hl Hh. unfold as_array in Hl. destruct args as [|a args]; [done|]. simplify_eq/=.
    destruct t as [|c t]; simplify_eq/=. apply (Hq q); [|done].
    apply (line_tokens_elem s (q :: t)); rewrite ?Ht; set_solver.
Qed.

Lemma builtin_stays sh toks cmd sh2 out b :
  cmd ∈ map lit ["exit"; "history"; "cd"; "num_jobs"] → strcmp_eq cmd (lit "exit") = false →
  run_builtin sh toks cmd = Ok (sh2, out, b) → b = true.
Proof.
  unfold strcmp_eq, run_builtin. intros Hc He%bool_decide_eq_false H. unfold strcmp_eq in H.
  repeat (case_bool_decide; [inv_ok; done|]). exfalso. cbn [map] in Hc. set_solver.
Qed.

(** Such a line is counted and entered in the history; then the command is
    carried out, and not executed as a program. *)
Lemma builtin_runs k pid sh s cmd args h :
  builtin_text s cmd args → cmd ∈ map lit ["exit"; "history"; "cd"; "num_jobs"] →
  num_cmds (vars sh) < INT_MAX → INT_MIN ≤ num_cmds (vars sh) →
  add_history (hist_of (vars sh)) s = Ok h →
  run_line k pid sh s =
    if strcmp_eq cmd (lit "exit") then Ok (recorded sh h, [EvExit])
    else '(sh2, out, _) ← run_builtin (recorded sh h) (as_array [] (cmd :: args)) cmd; Ok (sh2, out).
Proof.
  intros B Hc Hn Hn' Hh. pose proof B as [Hs Hq Hcm Ht Hl Hb].
  unfold run_line. rewrite read_tokens_ok by done. cbn [mbind outcome_bind]. rewrite Ht. cbn iota.
  replace (length (cmd :: args) - 1)%nat with (length args) by (simpl; lia).
  rewrite bool_decide_false by done. cbn iota. set (toks := as_array [] (cmd :: args)).
  assert (token_at toks 0 = Ok (Some cmd)) as Ht0 by done.
  assert (head cmd ≠ Some "!"%char) as Hne by (simpl in Hc; set_solver).
  unfold run_tokens. cbn [vars]. rewrite int_result_ok by lia. cbn [mbind outcome_bind].
  rewrite Ht0. cbn [mbind outcome_bind require]. rewrite bool_decide_false by done.
  cbn [mbind outcome_bind hist_of num_cmds job_table env]. rewrite Hh. cbn [mbind outcome_bind].
  unfold dispatch. rewrite Ht0. cbn [mbind outcome_bind require].
  change (MkShell (MkVars (num_cmds (vars sh) + 1) h) (job_table sh) (env sh)) with (recorded sh h).
  destruct (strcmp_eq cmd (lit "exit")) eqn:He; [done|].
  destruct (run_builtin (recorded sh h) toks cmd) as [[[sh2 out] b]| |] eqn:Hr; [|done|done].
  rewrite (builtin_stays _ _ _ _ _ _ Hc He Hr). cbn [mbind outcome_bind]. unfold toks.
  rewrite (builtin_no_strip s) by (done || decide_now). cbn [mbind outcome_bind].
  by rewrite (builtin_no_strip s) by (done || decide_now).
Qed.

(** A comment is counted and recorded; a blank line is not. *)
Record quiet_text (s : cstr) : Prop := {
  qt_nul : nul ∉ s;
  qt_quotes : no_quotes s;
  qt_tokens : line_tokens s = []
}.
Lemma quiet_runs k pid sh s v :
  quiet_text s → note_comment (vars sh) s = Ok v →
  run_line k pid sh s = Ok (MkShell v (job_table sh) (env sh), []).
Proof.
  intros [Hs Hq Ht] Hv. unfold run_line, read_tokens.
  pose proof (tokenizer_line (vars sh) v s [] Hs Hq Hv) as H. cbn zeta in H. rewrite Ht in H.
  rewrite decide_True in H by done. destruct H as (buf & toks & -> & Hm). cbn [mbind outcome_bind].
  by rewrite Hm.
Qed.

(** * Items of a session *)

(** A typed command with the pipeline it is the text of; one of the built-in
    commands that only look at the state; a comment or a blank line; a run of
    the SIGCHLD handler. *)
Inductive item :=
  | Typed (k : kernel) (pid : Z) (line : cstr) (p : pipeline) (bg : bool) (reports : list Z)
  | Asked (k : kernel) (pid : Z) (line cmd : cstr) (args : list cstr)
  | Quiet (k : kernel) (pid : Z) (line : cstr)
  | Signal (report : Z).
Definition input_of (i : item) : shell_input :=
  match i with
  | Typed k pid line _ _ reports => Line k pid line reports
  | Asked k pid line _ _ | Quiet k pid line => Line k pid line []
  | Signal report => Child report
  end.
Definition item_ok (i : item) : Prop :=
  match i with
  | Typed _ _ line p bg _ => command_text line p bg ∧ (length line < ROW)%nat
  | Asked _ _ line cmd args =>
      builtin_text line cmd args ∧ cmd ∈ map lit ["history"; "cd"; "num_jobs"] ∧ (length line < ROW)%nat
  | Quiet _ _ line => quiet_text line ∧ (length line < ROW)%nat
  | Signal _ => True
  end.

(** The line an item adds to the history, and what the job table sees. *)
Definition entry_of (i : item) : list cstr :=
  match i with
  | Typed _ _ line _ _ _ | Asked _ _ line _ _ => [line]
  | Quiet _ _ line => if strncmp_eq line (lit "#") 1 then [line] else []
  | Signal _ => []
  end.
Definition job_events (i : item) : list job_event :=
  match i with
  | Typed k pid line _ bg reports => if start_ok k then if bg then [Started pid line] else Ended <$> reports else []
  | Signal report => [Ended report]
  | _ => []
  end.
Definition lines_of (items : list item) : list cstr := concat (entry_of <$> items).
Definition jobs_of (items : list item) : list job_event := concat (job_events <$> items).

(** What the user sees of the commands [cs] typed so far, and of the jobs that
    are listed. *)
Definition history_shown (cs : list cstr) : list (Z * cstr) := filter (λ p : Z * cstr, p.2 ≠ []) (numbered cs).
Definition jobs_shown (js : list (Z * cstr)) : list (Z * cstr) := imap (λ i c, (Z.of_nat i, c)) js.*2.

(** The events of an item: the processes of a pipeline, or the answer of a
    built-in command. *)
Definition answered (cs : list cstr) (s : slots) (i : item) (evs : list event) : Prop :=
  match i with
  | Typed k _ _ p bg _ =>
      if start_ok k
      then ∃ ps, evs = [EvExec bg (Ok ps)] ∧ pipeline_result k true (stages p) (out_file p) std_fds 0 ps
      else evs = []
  | Asked _ _ _ cmd args =>
      evs = if strcmp_eq cmd (lit "history") then [EvHistory (history_shown cs)]
            else if strcmp_eq cmd (lit "num_jobs") then [EvJobs (jobs_shown (listed s))]
            else [EvCd (args !! 0%nat)]
  | Quiet _ _ _ | Signal _ => evs = []
  end.
Fixpoint transcript (cs : list cstr) (s : slots) (items : list item) (evss : list (list event)) : Prop :=
  match items, evss with
  | [], [] => True
  | i :: items', evs :: evss' =>
      answered (cs ++ entry_of i) s i evs ∧
      transcript (cs ++ entry_of i) (foldl slot_spec s (job_events i)) items' evss'
  | _, _ => False
  end.

(** The state of the shell after the lines [cs], with the job slots [s]. *)
Record tracks (sh : shell) (cs : list cstr) (s : slots) : Prop := {
  tr_count : num_cmds (vars sh) = entered cs;
  tr_hist : hist_rep (hist_of (vars sh)) cs;
  tr_jobs : slots_rep (job_table sh) s
}.

Lemma init_tracks env : tracks (shell_init env) [] slots_init.
Proof. split; [done|apply hist_init_rep|apply slots_init_rep]. Qed.

Lemma reports_run reports : ∀ jt s, slots_rep jt s → slots_allowed s (Ended <$> reports) →
  ∃ jt', handle_reports reports jt = Ok jt' ∧ slots_rep jt' (foldl slot_spec s (Ended <$> reports)).
Proof.
  induction reports as [|r reports IH]; intros jt s Hs Ha; [by exists jt|]. destruct Ha as [Hr Ha].
  destruct (slot_step_rep jt s Hs (Ended r) Hr) as (jt1 & Hj & H1). simpl in Hj. cbn [handle_reports]. rewrite Hj.
  by apply IH.
Qed.

Lemma entered_snoc cs c : entered (cs ++ [c]) = entered cs + 1.
Proof. unfold entered. rewrite length_app. simpl. lia. Qed.

Section step.
Context (sh : shell) (cs : list cstr) (s : slots) (T : tracks sh cs s).

Lemma signalled_tracks sh' cs' reports :
  tracks sh' cs' s → slots_allowed s (Ended <$> reports) →
  ∃ sh'', signalled sh' reports = Ok sh'' ∧ tracks sh'' cs' (foldl slot_spec s (Ended <$> reports)).
Proof.
  intros [Hn Hh Hj] Ha. destruct (reports_run reports _ s Hj Ha) as (jt & Hr & Hj'). unfold signalled.
  rewrite Hr. cbn [mbind outcome_bind]. eexists. split; [done|]. by split.
Qed.

Lemma recorded_tracks line :
  (length line < ROW)%nat → entered cs < INT_MAX →
  ∃ h, add_history (hist_of (vars sh)) line = Ok h ∧ tracks (recorded sh h) (cs ++ [line]) s.
Proof.
  destruct T as [Hn Hh Hj]. intros Hl Hi. destruct (add_history_rep _ cs line Hh Hl Hi) as (h & Hadd & Hh').
  exists h. split; [done|]. split; [simpl; rewrite entered_snoc; lia|done|done].
Qed.

Lemma counted : 0 ≤ num_cmds (vars sh) ∧ (entered cs < INT_MAX → num_cmds (vars sh) < INT_MAX).
Proof. rewrite (tr_count _ _ _ T). unfold entered. lia. Qed.

Lemma typed_step k pid line p bg reports :
  command_text line p bg → (length line < ROW)%nat → entered cs < INT_MAX →
  slots_allowed s (job_events (Typed k pid line p bg reports)) →
  ∃ sh' evs, react sh (Line k pid line reports) = Ok (sh', evs) ∧
  answered (cs ++ [line]) s (Typed k pid line p bg reports) evs ∧ exits evs = false ∧
  tracks sh' (cs ++ [line]) (foldl slot_spec s (job_events (Typed k pid line p bg reports))).
Proof.
  intros C Hl Hi Ha. destruct counted as [H0 H1]. destruct (recorded_tracks line Hl Hi) as (h & Hadd & T').
  destruct (command_line_runs k pid sh line p bg h C) as (ps & Hps & Hrun); [auto|unfold INT_MIN; lia|done|].
  unfold react. rewrite Hrun. unfold answered, job_events in *. destruct (start_ok k); [destruct bg|].
  - destruct Ha as [Ha _]. destruct T as [Hn Hh Hj]. destruct T' as [Hn' Hh' _].
    destruct (slot_step_rep _ s Hj _ Ha) as (jt & Hjt & Hj'). simpl in Hjt.
    rewrite Hjt. cbn [mbind outcome_bind waited existsb orb signalled handle_reports]. unfold signalled.
    cbn [mbind outcome_bind handle_reports]. do 2 eexists. split; [done|]. split_and!; [by exists ps|done|]. by split.
  - cbn [mbind outcome_bind waited existsb orb]. destruct (signalled_tracks _ _ reports T' Ha) as (sh' & -> & T'').
    cbn [mbind outcome_bind]. do 2 eexists. split; [done|]. split_and!; [by exists ps|done|done].
  - do 2 eexists. split; [done|]. split_and!; [done|done|]. by destruct T'; split.
Qed.

Lemma asked_step k pid line cmd args :
  item_ok (Asked k pid line cmd args) → entered cs < INT_MAX →
  ∃ sh' evs, react sh (Line k pid line []) = Ok (sh', evs) ∧
  answered (cs ++ [line]) s (Asked k pid line cmd args) evs ∧ exits evs = false ∧ tracks sh' (cs ++ [line]) s.
Proof.
  intros (B & Hc & Hl) Hi. destruct counted as [H0 H1]. destruct (recorded_tracks line Hl Hi) as (h & Hadd & T').
  enough (∃ evs, run_line k pid sh line = Ok (recorded sh h, evs) ∧
    answered (cs ++ [line]) s (Asked k pid line cmd args) evs ∧ exits evs = false ∧ waited evs = false) as (evs & Hr & Ha & He & Hw).
  { unfold react. rewrite Hr. cbn [mbind outcome_bind]. rewrite Hw. cbn. do 2 eexists. split; [done|].
    split_and!; [done|done|]. by destruct T'; split. }
  rewrite (builtin_runs _ pid sh line cmd args h B) by
    (try done; try (unfold INT_MIN; lia); try auto; cbn [map] in *; set_solver).
  cbn [map] in Hc. repeat (apply elem_of_cons in Hc as [->|Hc]); [..|by apply not_elem_of_nil in Hc].
  - unfold run_builtin. cbn -[print_history history_shown as_array].
    rewrite (print_history_rep h _ (tr_hist _ _ _ T')). eexists. split_and!; done.
  - exists [EvCd (args !! 0%nat)]. split_and!; [|done..]. cbn. by destruct args.
  - unfold run_builtin. cbn -[list_jobs jobs_shown as_array]. change (job_table (recorded sh h)) with (job_table sh).
    rewrite (slots_list _ _ (tr_jobs _ _ _ T)). eexists. split_and!; done.
Qed.

Lemma quiet_step k pid line :
  item_ok (Quiet k pid line) → entered (cs ++ entry_of (Quiet k pid line)) ≤ INT_MAX →
  ∃ sh', react sh (Line k pid line []) = Ok (sh', []) ∧ tracks sh' (cs ++ entry_of (Quiet k pid line)) s.
Proof.
  intros [Q Hl] Hi. destruct counted as [H0 H1]. unfold react. cbn [entry_of] in *.
  destruct (strncmp_eq line (lit "#") 1) eqn:Hc.
  - rewrite entered_snoc in *. destruct (recorded_tracks line Hl) as (h & Hadd & T'); [lia|].
    eexists. rewrite (quiet_runs _ pid sh line (MkVars (num_cmds (vars sh) + 1) h) Q).
    + split; [done|]. by destruct T'; split.
    + unfold note_comment. rewrite Hc, int_result_ok by (pose proof (H1 ltac:(lia)); unfold INT_MIN; lia).
      cbn [mbind outcome_bind]. by rewrite Hadd.
  - rewrite app_nil_r. eexists. rewrite (quiet_runs _ pid sh line (vars sh) Q).
    + split; [done|]. by destruct T; split.
    + unfold note_comment. by rewrite Hc.
Qed.

Lemma item_step i :
  item_ok i → entered (cs ++ entry_of i) ≤ INT_MAX → slots_allowed s (job_events i) →
  ∃ sh' evs, react sh (input_of i) = Ok (sh', evs) ∧ answered (cs ++ entry_of i) s i evs ∧
  exits evs = false ∧ tracks sh' (cs ++ entry_of i) (foldl slot_spec s (job_events i)).
Proof.
  intros Hi Hn Ha. destruct i as [k pid line p bg reports|k pid line cmd args|k pid line|report].
  - destruct Hi. cbn [entry_of] in *. rewrite entered_snoc in Hn. apply typed_step; [done|done|lia|done].
  - cbn [entry_of] in *. rewrite entered_snoc in Hn. apply asked_step; [done|lia].
  - destruct (quiet_step k pid line Hi Hn) as (sh' & ? & ?). by exists sh', [].
  - destruct (signalled_tracks sh cs [report] T Ha) as (sh' & Hr & T'). exists sh', []. cbn [react input_of entry_of].
    rewrite Hr. cbn [mbind outcome_bind]. rewrite app_nil_r. by split_and!.
Qed.
End step.

Lemma session_tracks items : ∀ sh cs s rest,
  tracks sh cs s → Forall item_ok items → slots_allowed s (jobs_of items) →
  entered (cs ++ lines_of items) ≤ INT_MAX →
  ∃ sh' evss, session sh ((input_of <$> items) ++ rest) =
    ('(sh2, evs2) ← session sh' rest; Ok (sh2, concat evss ++ evs2)) ∧
    transcript cs s items evss ∧ tracks sh' (cs ++ lines_of items) (foldl slot_spec s (jobs_of items)).
Proof.
  induction items as [|i items IH]; intros sh cs s rest T Hok Ha Hn.
  { exists sh, []. unfold lines_of. simpl. rewrite app_nil_r. split_and!; [|done|done].
    by destruct (session sh rest) as [[? ?]| |]. }
  apply Forall_cons in Hok as [Hi Hok]. change (lines_of (i :: items)) with (entry_of i ++ lines_of items) in *.
  change (jobs_of (i :: items)) with (job_events i ++ jobs_of items) in *.
  apply slots_allowed_app in Ha as [Ha1 Ha2]. rewrite app_assoc in Hn.
  destruct (item_step sh cs s T i Hi) as (sh1 & evs & Hr & Hx & He & T1); [|done|].
  { unfold entered in *. rewrite length_app in Hn. lia. }
  destruct (IH sh1 _ _ rest T1 Hok Ha2 Hn) as (sh2 & evss & Hs & Hxs & T2).
  exists sh2, (evs :: evss). rewrite fmap_cons, <- app_comm_cons. cbn [session]. rewrite Hr. cbn [mbind outcome_bind]. rewrite He.
  rewrite Hs. split_and!; [|done|by rewrite app_assoc, foldl_app].
  destruct (session sh2 rest) as [[? ?]| |]; [|done|done]. cbn [mbind outcome_bind concat].
  by rewrite app_assoc.
Qed.

(** How a session ends: the input does, or a line says [exit]; then the rest of
    the input is not read. *)
Inductive ending := EndOfInput | Exit (k : kernel) (pid : Z) (line : cstr) (rest : list shell_input).
Definition ending_input (f : ending) : list shell_input :=
  match f with EndOfInput => [] | Exit k pid line rest => Line k pid line [] :: rest end.
Definition ending_ok (f : ending) : Prop :=
  match f with EndOfInput => True | Exit _ _ line _ => builtin_text line (lit "exit") [] ∧ (length line < ROW)%nat end.
Definition ending_lines (f : ending) : list cstr := match f with EndOfInput => [] | Exit _ _ line _ => [line] end.
Definition ending_events (f : ending) : list event := match f with EndOfInput => [] | Exit _ _ _ _ => [EvExit] end.

Lemma session_ends f sh cs s :
  tracks sh cs s → ending_ok f → entered (cs ++ ending_lines f) ≤ INT_MAX →
  ∃ sh', session sh (ending_input f) = Ok (sh', ending_events f) ∧ tracks sh' (cs ++ ending_lines f) s.
Proof.
  intros T Hf Hn. destruct f as [|k pid line rest]; [exists sh; by rewrite app_nil_r|].
  destruct Hf as [B Hl]. simpl in Hn. rewrite entered_snoc in Hn. destruct (counted sh cs s T) as [H0 H1].
  destruct (recorded_tracks sh cs s T line Hl) as (h & Hadd & T'); [lia|].
  cbn [ending_input session react]. rewrite (builtin_runs _ pid sh line (lit "exit") [] h B) by
    (try done; try (unfold INT_MIN; lia); try (pose proof (H1 ltac:(lia)); lia); cbn [map]; set_solver).
  eexists. split; [done|]. by destruct T'; split.
Qed.

(** C4: a session from the start of the shell, over lines that hold pipelines
    (perhaps in the background), the commands [history], [cd] and [num_jobs],
    comments, blank lines and runs of the SIGCHLD handler, whatever waitpid
    reports to it (the end of a job, of another child, 0 or -1), up to [exit]
    or the end of the input; a background job is started while fewer than nine
    are listed, with a pid none of them has, and not after the count has gone
    below 0.  No array is overrun; every pipeline starts its processes, wired
    as it says, in order, up to the first stage at which a system call fails,
    and nothing when the first [fork] fails (then it is no job either);
    [history] prints the last 100 of the lines typed so far with their numbers,
    itself included; nothing after [exit] is read; and the prompt's number, the
    history and the job table are those of all the lines.  [num_jobs] prints
    the listed jobs ([slot_spec]): exactly the background jobs that still run
    as long as no report is 0, while each report of 0, as after a foreground
    command that ends while jobs run, takes the last one off the list. *)
Theorem session_correct env items f :
  Forall item_ok items → ending_ok f → slots_allowed slots_init (jobs_of items) →
  let lines := lines_of items ++ ending_lines f in
  let s := foldl slot_spec slots_init (jobs_of items) in
  entered lines ≤ INT_MAX →
  ∃ sh evss, session (shell_init env) ((input_of <$> items) ++ ending_input f) =
      Ok (sh, concat evss ++ ending_events f) ∧
    transcript [] slots_init items evss ∧
    num_cmds (vars sh) = entered lines ∧
    print_history (hist_of (vars sh)) = Ok (history_shown lines) ∧
    list_jobs (job_table sh) = Ok (jobs_shown (listed s)) ∧
    (Forall (λ e, e ≠ Ended 0) (jobs_of items) → listed s = foldl job_spec [] (jobs_of items)).
Proof.
  intros Hok Hf Ha lines s Hn.
  destruct (session_tracks items _ [] slots_init (ending_input f) (init_tracks env) Hok Ha) as (sh & evss & Hs & Hx & T).
  { unfold lines, entered in *. rewrite length_app in Hn. simpl. lia. }
  destruct (session_ends f sh _ _ T Hf Hn) as (sh' & He & T'). rewrite Hs, He. cbn [mbind outcome_bind].
  exists sh', evss. split_and!; [done|done|apply (tr_count _ _ _ T')| | |apply listed_running].
  - apply print_history_rep, (tr_hist _ _ _ T').
  - apply slots_list, (tr_jobs _ _ _ T').
Qed.

(** * At a concrete session *)
Definition no_fork : kernel := MkKernel false (λ _, true) (λ _, true) (λ _, true) true no_sort.
Definition demo_items : list item :=
  let k := running no_sort in
  let pwd := MkPipeline [[lit "pwd"]] None in
  [Typed out_of_processes 501 demo_text demo_pipeline true []; Asked k 502 (lit "num_jobs") (lit "num_jobs") [];
   Typed no_fork (-1) demo_text demo_pipeline true [];
   Quiet k 502 (lit "# a note"); Typed k 502 (lit "pwd") pwd false [502]; Signal 0;
   Asked k 503 (lit "num_jobs") (lit "num_jobs") []; Quiet k 503 []; Signal 501;
   Typed k 504 (lit "pwd") pwd false [-1]; Asked k 505 (lit "history 5") (lit "history") [lit "5"]].
Definition demo_ending : ending := Exit (running no_sort) 505 (lit "exit") [Line no_fork 505 (lit "pwd") []].

Ltac text := split; [decide_now|apply plain_line; decide_now|by vm_compute ..].
Ltac short := apply Nat.ltb_lt; by vm_compute.

Lemma demo_items_ok : Forall item_ok demo_items.
Proof.
  unfold demo_items. repeat (apply Forall_cons; split); simpl; try done.
  all: split_and?; try short; try (apply demo_command || apply pwd_command); try text; set_solver.
Qed.

(** The job of the first line is listed, and then no longer, although it runs,
    after the handler ran once more for the foreground command. *)
Lemma session_correct_witness :
  ∃ sh evss, session (shell_init (λ _, None)) ((input_of <$> demo_items) ++ ending_input demo_ending) =
      Ok (sh, concat evss ++ [EvExit]) ∧
    transcript [] slots_init demo_items evss ∧
    num_cmds (vars sh) = 9 ∧
    print_history (hist_of (vars sh)) =
      Ok [(0, demo_text); (1, lit "num_jobs"); (2, demo_text); (3, lit "# a note"); (4, lit "pwd");
          (5, lit "num_jobs"); (6, lit "pwd"); (7, lit "history 5"); (8, lit "exit")] ∧
    list_jobs (job_table sh) = Ok [] ∧
    map (λ n, listed (foldl slot_spec slots_init (jobs_of (take n demo_items)))) [5; 6; 11]%nat = [[(501, demo_text)]; []; []].
Proof.
  destruct (session_correct (λ _, None) demo_items demo_ending) as (sh & evss & H1 & H2 & H3 & H4 & H5 & _).
  - apply demo_items_ok.
  - split; [text|short].
  - simpl. repeat split; try (simpl; lia); rewrite ?elem_of_nil; try lia; try (intros []). short.
  - done.
  - exists sh, evss. split_and!; [exact H1|exact H2|exact H3|exact H4|exact H5|reflexivity].
Defined.
