(* ===== verification/Scheduler.v ===== *)
(** The user-level scheduler (LabWork/Lab7/scheduler.c): process control
    blocks, the scheduling algorithms, context switches between the main loop
    and the processes, and the completion order.

    A context is where its computation resumes.  A wall clock time is kept as
    the reading of the clock, in microseconds, that get_time computes it from. *)
From Stdlib Require Import ZArith Lia Ascii SpecFloat.
From stdpp Require Import prelude gmap strings numbers list.
From S2P Require Import Prelude CString CFloat Clock.
Open Scope Z_scope.
Import CInt.

(** * Data (scheduler.h) *)
Definition NUM_PROCESSES : nat := 100.

Inductive process_state := CREATED | WAITING | RUNNING | TERMINATED.
#[export] Instance process_state_eq_dec : EqDecision process_state.
Proof. solve_decision. Defined.

(** Where a saved context resumes: at the start of [process], or in the loop of
    the [process] of PCB [i] after the [interrupt_handler] of its inner
    iteration [k], or in [main] after [interrupt_handler]. *)
Inductive context :=
  | Fresh
  | AfterTick (i : nat) (k : nat)
  | MainCheck.

Record process_ctl_block := MkPcb {
  pid : Z;
  name : cstr;
  state : process_state;
  ctx : option context;
  creation_quantum : Z;
  workload : Z;
  executed_work : Z;
  priority_of : Z;
  arrival_time : Z;
  start_time : Z;
  completion_time : Z
}.
Definition empty_pcb : process_ctl_block := MkPcb 0 [] CREATED None 0 0 0 0 0 0 0.

(** The [num_processes] PCBs in use, the other fields, and the saved context
    of [main]. *)
Record scheduler_state := MkSched {
  pcbs : list process_ctl_block;
  current_quantum : Z;
  current_process : nat;
  g_main_ctx : context
}.
Definition num_processes (st : scheduler_state) : nat := length (pcbs st).

(** Field updates. *)
Definition set_state (s : process_state) (p : process_ctl_block) : process_ctl_block :=
  MkPcb (pid p) (name p) s (ctx p) (creation_quantum p) (workload p) (executed_work p)
    (priority_of p) (arrival_time p) (start_time p) (completion_time p).
Definition set_ctx (c : context) (p : process_ctl_block) : process_ctl_block :=
  MkPcb (pid p) (name p) (state p) (Some c) (creation_quantum p) (workload p) (executed_work p)
    (priority_of p) (arrival_time p) (start_time p) (completion_time p).
Definition set_arrival (t : Z) (p : process_ctl_block) : process_ctl_block :=
  MkPcb (pid p) (name p) WAITING (Some Fresh) (creation_quantum p) (workload p) (executed_work p)
    (priority_of p) t (start_time p) (completion_time p).
Definition set_start (t : Z) (p : process_ctl_block) : process_ctl_block :=
  MkPcb (pid p) (name p) (state p) (ctx p) (creation_quantum p) (workload p) (executed_work p)
    (priority_of p) (arrival_time p) t (completion_time p).
(** When [process] returns, the stack its context is on is no longer in use:
    there is nothing left to resume. *)
Definition set_done (t : Z) (p : process_ctl_block) : process_ctl_block :=
  MkPcb (pid p) (name p) TERMINATED None (creation_quantum p) (workload p) (executed_work p)
    (priority_of p) (arrival_time p) (start_time p) t.
Definition add_work (p : process_ctl_block) : process_ctl_block :=
  MkPcb (pid p) (name p) (state p) (ctx p) (creation_quantum p) (workload p)
    (wrap32 (executed_work p + 1)) (priority_of p) (arrival_time p) (start_time p) (completion_time p).

Definition update_pcb (i : nat) (f : process_ctl_block → process_ctl_block) (st : scheduler_state)
    : scheduler_state :=
  MkSched (alter f i (pcbs st)) (current_quantum st) (current_process st) (g_main_ctx st).
Definition pcb_at (st : scheduler_state) (i : nat) : outcome process_ctl_block :=
  require OutOfBounds (pcbs st !! i).
(** The array has room for all PCBs; the unused ones are empty. *)
Definition current_pcb (st : scheduler_state) : process_ctl_block :=
  default empty_pcb (pcbs st !! current_process st).

(** * The scheduling algorithms

    An algorithm ends in one call of [context_switch], or in none: its result
    is the chosen PCB. The clock reading is for [insanity]. *)
Abbreviation algorithm := (Z → scheduler_state → outcome (option nat)).

(** The first PCB from index [i] on that satisfies [f]. *)
Fixpoint first_pcb (f : nat → process_ctl_block → bool) (i : nat) (l : list process_ctl_block)
    : option nat :=
  match l with
  | [] => None
  | p :: l' => if f i p then Some i else first_pcb f (S i) l'
  end.
Definition waiting (p : process_ctl_block) : bool := bool_decide (state p = WAITING).

Definition basic : algorithm := λ _ sched_state,
  Ok (first_pcb (λ _ p, waiting p) 0 (pcbs sched_state)).

(** The loops that look for a smallest key below [best]: the key of the best
    waiting PCB so far, and its index. *)
Fixpoint smallest (key : process_ctl_block → Z) (i : nat) (l : list process_ctl_block)
    (best : Z) (pid : option nat) : option nat :=
  match l with
  | [] => pid
  | p :: l' =>
      if waiting p && bool_decide (key p < best)
      then smallest key (S i) l' (key p) (Some i)
      else smallest key (S i) l' best pid
  end.

(** [pid] is not initialised here. *)
Definition fifo : algorithm := λ _ sched_state,
  if decide (current_quantum sched_state > 0 ∧ state (current_pcb sched_state) = RUNNING)
  then Ok (Some (current_process sched_state))
  else
    i ← require Uninitialised (smallest creation_quantum 0 (pcbs sched_state) INT_MAX None);
    Ok (Some i).

Definition sjf : algorithm := λ _ sched_state,
  Ok (smallest workload 0 (pcbs sched_state) INT_MAX (Some 0%nat)).

Definition psjf : algorithm := λ _ sched_state,
  if decide (current_quantum sched_state > 0 ∧ state (current_pcb sched_state) = WAITING)
  then Ok (Some (current_process sched_state))
  else Ok (smallest workload 0 (pcbs sched_state) INT_MAX (Some 0%nat)).

Definition remaining (p : process_ctl_block) : Z := wrap32 (workload p - executed_work p).
Definition sctf : algorithm := λ _ sched_state,
  if decide (current_quantum sched_state > 0 ∧ state (current_pcb sched_state) = WAITING)
  then Ok (Some (current_process sched_state))
  else Ok (smallest remaining 0 (pcbs sched_state) INT_MAX (Some 0%nat)).

Definition rr : algorithm := λ _ sched_state,
  match first_pcb (λ i p, waiting p && bool_decide (current_process sched_state < i)%nat) 0
          (pcbs sched_state) with
  | Some i => Ok (Some i)
  | None => Ok (first_pcb (λ _ p, waiting p) 0 (pcbs sched_state))
  end.

Fixpoint highest (i : nat) (l : list process_ctl_block) (top : Z) (pid : nat) : nat :=
  match l with
  | [] => pid
  | p :: l' =>
      if waiting p && bool_decide (priority_of p > top)
      then highest (S i) l' (priority_of p) i
      else highest (S i) l' top pid
  end.
Definition priority : algorithm := λ _ sched_state,
  Ok (Some (highest 0 (pcbs sched_state) 0 0)).

(** The loop draws until one hits. *)
Fixpoint draw (st : scheduler_state) (rands : list Z) : outcome (option nat) :=
  match rands with
  | [] => OutOfFuel
  | r :: rands' =>
      let pid := Z.to_nat (r `mod` Z.of_nat (num_processes st)) in
      p ← pcb_at st pid;
      if waiting p then Ok (Some pid) else draw st rands'
  end.
(** [rands seed] is what [rand] returns after [srand(seed)]; the seed is the
    time in seconds. *)
Definition insanity (rands : Z → list Z) : algorithm := λ now sched_state,
  if decide (num_processes sched_state = 0%nat) then Undef IntOverflow else draw sched_state (rands (now / 1000000)).

(** The selection in [main]; any other word is [basic]. *)
Definition select_algorithm (rands : Z → list Z) (arg : cstr) : algorithm :=
  if strcmp_eq arg (lit "basic") then basic
  else if strcmp_eq arg (lit "fifo") then fifo
  else if strcmp_eq arg (lit "sjf") then sjf
  else if strcmp_eq arg (lit "psjf") then psjf
  else if strcmp_eq arg (lit "sctf") then sctf
  else if strcmp_eq arg (lit "rr") then rr
  else if strcmp_eq arg (lit "priority") then priority
  else if strcmp_eq arg (lit "insanity") then insanity rands
  else basic.

(** * Context switches *)

(** The progress line of a process: pointers into the two constants, of 20
    characters each, and the percentage. *)
Definition hashes : cstr := replicate 20 "#"%char.
Definition spaces : cstr := replicate 20 " "%char.
Definition string_from (s : cstr) (i : Z) : outcome cstr :=
  if decide (0 ≤ i ≤ Z.of_nat (length s)) then Ok (drop (Z.to_nat i) s) else Undef OutOfBounds.
Definition status_bar (name : cstr) (perc : Z) : outcome cstr :=
  h ← string_from hashes (20 - Z.quot perc 5);
  s ← string_from spaces (Z.quot perc 5);
  Ok (name ++ lit " [" ++ h ++ s ++ lit "] " ++ pad_left 3 (print_int perc) ++ lit "%").
Definition progress (pcb : process_ctl_block) : outcome cstr :=
  perc ← float_to_int (percent (executed_work pcb) (workload pcb));
  status_bar (name pcb) perc.

(** Control: [main] is about to test whether all is done; the process of PCB
    [i] is about to run its inner iteration [k]; it is past the interrupt
    check of that iteration; [main] has left its loop. *)
Inductive control :=
  | AtMain
  | InLoop (i k : nat)
  | PastTick (i k : nat)
  | Halted.

(** The context a running computation is saved as. *)
Definition here (c : control) : context :=
  match c with
  | InLoop i k | PastTick i k => AfterTick i k
  | AtMain | Halted => MainCheck
  end.

Section run.
Context (algo : algorithm).

(** Resuming a context after [swapcontext]; [process] starts by reading the
    clock. *)
Definition resume (now : Z) (st : scheduler_state) (c : option context)
  : outcome (scheduler_state * control) :=
  match c with
  | None => Undef Unmapped
  | Some Fresh =>
      Ok (update_pcb (current_process st) (set_start now) st, InLoop (current_process st) 0)
  | Some (AfterTick i k) => Ok (st, PastTick i k)
  | Some MainCheck => Ok (st, AtMain)
  end.

(** Returning from [interrupt_handler] to its caller. *)
Definition return_to (c : control) : control :=
  match c with InLoop i k => PastTick i k | c => c end.

Definition context_switch (now : Z) (st : scheduler_state) (from : control) (pid : nat)
  : outcome (scheduler_state * control) :=
  pcb ← require AssertFailure (pcbs st !! pid);
  if decide (pid = current_process st ∧ current_quantum st > 0)
  then
  let st1 := update_pcb pid (set_state RUNNING) st in
  Ok (MkSched (pcbs st1) (wrap32 (current_quantum st + 1)) (current_process st) (g_main_ctx st),
    return_to from)
  else
  let old := current_process st in
  let no_old := bool_decide (current_quantum st = 0 ∨ state (current_pcb st) = TERMINATED) in
  let st1 := if no_old then st else update_pcb old (set_ctx (here from)) st in
  let main_ctx := if no_old then here from else g_main_ctx st in
  let st2 := update_pcb pid (set_state RUNNING) st1 in
  let st3 := MkSched (pcbs st2) (wrap32 (current_quantum st + 1)) pid main_ctx in
  resume now st3 (ctx pcb).

Definition handle_arrivals (now : Z) (st : scheduler_state) : scheduler_state :=
  MkSched ((λ p, if decide (creation_quantum p = current_quantum st) then set_arrival now p else p)
    <$> pcbs st)
  (current_quantum st) (current_process st) (g_main_ctx st).

Definition interrupt_handler (now : Z) (st : scheduler_state) (from : control)
  : outcome (scheduler_state * control) :=
  let st1 := if decide (state (current_pcb st) = RUNNING)
  then update_pcb (current_process st) (set_state WAITING) st else st in
  let st2 := handle_arrivals now st1 in
  choice ← algo now st2;
  match choice with
  | Some pid => context_switch now st2 from pid
  | None => Ok (st2, return_to from)
  end.

Definition finished (st : scheduler_state) : bool :=
  bool_decide (0 < num_processes st)%nat && forallb (λ p, bool_decide (state p = TERMINATED)) (pcbs st).

(** One step: [now] is the clock, [g_interrupt] whether the alarm went off
    during the inner iteration. *)
Definition step (now : Z) (g_interrupt : bool) (st : scheduler_state) (c : control)
  : outcome (scheduler_state * control) :=
  match c with
  | AtMain => if finished st then Ok (st, Halted) else interrupt_handler now st AtMain
  | InLoop i k =>
      p ← pcb_at st i;
      if decide (k = 0%nat ∧ executed_work p >= workload p)
      then _ ← status_bar (name p) 100; resume now (update_pcb i (set_done now) st) (Some (g_main_ctx st))
      else _ ← progress p; if g_interrupt then interrupt_handler now st (InLoop i k) else Ok (st, PastTick i k)
  | PastTick i k =>
      if decide (S k = 20)%nat then Ok (update_pcb i add_work st, InLoop i 0)
      else Ok (st, InLoop i (S k))
  | Halted => Ok (st, Halted)
  end.

(** The steps for given clock readings and alarms. *)
Fixpoint run (inputs : list (Z * bool)) (st : scheduler_state) (c : control)
  : outcome (scheduler_state * control) :=
  match inputs with
  | [] => Ok (st, c)
  | (now, b) :: inputs' => '(st', c') ← step now b st c; run inputs' st' c'
  end.
End run.

(** * The completion order *)

(** One pass over adjacent pairs of (time, name), carrying the left one. *)
Fixpoint bubble_from (a : Z * cstr) (l : list (Z * cstr)) : list (Z * cstr) :=
  match l with
  | [] => [a]
  | b :: l' => if decide (b.1 < a.1) then b :: bubble_from a l' else a :: bubble_from b l'
  end.
Definition bubble_pass (l : list (Z * cstr)) : list (Z * cstr) :=
  match l with [] => [] | a :: l' => bubble_from a l' end.

(** [int compTime = completion_time]. *)
Definition completions (st : scheduler_state) : outcome (list (Z * cstr)) :=
  mapM (λ p, compTime ← float_to_int (get_time (completion_time p)); Ok (compTime, name p)) (pcbs st).
Definition completion_order (st : scheduler_state) : outcome (list (Z * cstr)) :=
  l ← completions st; Ok (Nat.iter (num_processes st - 1) bubble_pass l).

(** * The summary *)
Definition turn (p : process_ctl_block) : float := elapsed (completion_time p) (arrival_time p).
Definition resp (p : process_ctl_block) : float := elapsed (start_time p) (arrival_time p).
Definition time_lines (time : process_ctl_block → float) (ps : list process_ctl_block) : list cstr :=
  (λ p, lit " - " ++ name p ++ lit " " ++ print_float 2 (time p) ++ lit "s") <$> ps.
Definition total (time : process_ctl_block → float) (ps : list process_ctl_block) : float :=
  foldl (λ t p, fadd t (time p)) (of_int 0) ps.
Definition average (time : process_ctl_block → float) (ps : list process_ctl_block) : float :=
  fdiv (total time ps) (of_int (Z.of_nat (length ps))).
Definition summary (st : scheduler_state) : outcome (list cstr) :=
  order ← completion_order st;
  Ok ([[]; []; lit "Execution complete. Summary:"; lit "-----------------------Turnaround Times:"] ++
      time_lines turn (pcbs st) ++
      [lit "Average Turnaround Time: " ++ print_float 2 (average turn (pcbs st)) ++ lit "s"; []; lit "Response Times:"] ++
      time_lines resp (pcbs st) ++
      [lit "Average Response time: " ++ print_float 2 (average resp (pcbs st)) ++ lit "s"; []; lit "Completion Order:"] ++
      imap (λ i x, lit " " ++ print_int (Z.of_nat i) ++ lit ".) " ++ x.2) order).

(** * The progress line *)
Lemma status_bar_ok nm perc :
  0 ≤ perc ≤ 100 →
  status_bar nm perc = Ok (nm ++ lit " [" ++ replicate (Z.to_nat (perc / 5)) "#"%char ++
    replicate (Z.to_nat (20 - perc / 5)) " "%char ++ lit "] " ++ pad_left 3 (print_int perc) ++ lit "%").
Proof.
  intros Hp. unfold status_bar, string_from, hashes, spaces. rewrite Z.quot_div_nonneg, !length_replicate by lia.
  assert (0 ≤ perc / 5 ≤ 20) as Hd by (split; [apply Z.div_pos; lia|apply Z.div_le_upper_bound; lia]).
  rewrite !decide_True by lia. cbn [mbind outcome_bind]. rewrite !drop_replicate.
  do 7 f_equal; [|f_equal]; f_equal; lia.
Qed.
Lemma progress_ok p :
  0 ≤ executed_work p ≤ workload p → 0 < workload p < INT_MAX →
  ∃ perc, 0 ≤ perc ≤ 100 ∧ progress p = status_bar (name p) perc.
Proof.
  intros He Hw. destruct (percent_range (executed_work p) (workload p) He Hw) as (n & Hn & Hr).
  exists n. split; [done|]. unfold progress. by rewrite Hn.
Qed.
(** Drawing the line lets the step go on. *)
Lemma progress_next {B} p (k : outcome B) :
  0 ≤ executed_work p < workload p → workload p < INT_MAX → (_ ← progress p; k) = k.
Proof. intros. destruct (progress_ok p) as (perc & Hp & ->); [lia|lia|]. by rewrite status_bar_ok. Qed.
