(* ===== verification/SchedSelect.v ===== *)
(** The choices of the scheduling algorithms (LabWork/Lab7/scheduler.c), and
    the interface through which the main loop uses them: given a process that
    waits, the chosen one waits. *)
From Stdlib Require Import ZArith Lia Ascii.
From stdpp Require Import prelude gmap strings numbers list.
From S2P Require Import Prelude CString Scheduler.
Open Scope Z_scope.
Import CInt.

(** Index [i] holds a waiting PCB. *)
Definition waits (st : scheduler_state) (i : nat) : Prop :=
  ∃ p, pcbs st !! i = Some p ∧ waiting p = true.
(** The numbers of a PCB are below INT_MAX, and its priority is one the
    algorithm handles. *)
Definition in_range (ok : Z → Prop) (p : process_ctl_block) : Prop :=
  0 ≤ creation_quantum p < INT_MAX ∧ 0 ≤ executed_work p ≤ workload p ∧ workload p < INT_MAX ∧
  ok (priority_of p).

(** What the main loop needs of an algorithm, for [n] processes with priorities
    in [ok]. *)
Class Selector (n : nat) (ok : Z → Prop) (f : algorithm) : Prop :=
  select_waiting now st i :
    num_processes st = n → Forall (in_range ok) (pcbs st) → Forall (λ p, state p ≠ RUNNING) (pcbs st) → waits st i →
    ∃ j, f now st = Ok (Some j) ∧ waits st j.

(** * The loops *)
Lemma first_pcb_spec f n (l : list process_ctl_block) :
  match first_pcb f n l with
  | Some i => ∃ k p, i = (n + k)%nat ∧ l !! k = Some p ∧ f i p = true ∧
                     ∀ j q, (j < k)%nat → l !! j = Some q → f (n + j)%nat q = false
  | None => ∀ j q, l !! j = Some q → f (n + j)%nat q = false
  end.
Proof.
  revert n. induction l as [|p l IH]; intros n; simpl; [done|].
  destruct (f n p) eqn:Hf.
  - exists 0%nat, p. split_and!; [lia|done|done|intros; lia].
  - specialize (IH (S n)). destruct (first_pcb f (S n) l) as [i|].
    + destruct IH as (k & q & -> & Hk & Hq & Hlt). exists (S k), q.
      split_and!; [lia|done|done|]. intros [|j] r Hj Hr; simplify_eq/=; [by rewrite Nat.add_0_r|].
      rewrite Nat.add_succ_r. apply (Hlt j); [lia|done].
    + intros [|j] r Hr; simplify_eq/=; [by rewrite Nat.add_0_r|]. rewrite Nat.add_succ_r. by apply IH.
Qed.

(** The least key among the waiting PCBs, the lowest index on ties; the
    initial choice when no key is below the initial bound. *)
Lemma smallest_spec key n (l : list process_ctl_block) best init :
  (smallest key n l best init = init ∧ ∀ p, p ∈ l → waiting p = true → best ≤ key p) ∨
  ∃ k p, smallest key n l best init = Some (n + k)%nat ∧ l !! k = Some p ∧ waiting p = true ∧
         key p < best ∧
         ∀ j q, l !! j = Some q → waiting q = true → key p ≤ key q ∧ ((j < k)%nat → key p < key q).
Proof.
  revert n best init. induction l as [|p l IH]; intros n best init; simpl.
  { left. split; [done|]. by intros p ?%not_elem_of_nil. }
  destruct (waiting p) eqn:Hw; simpl; [destruct (decide (key p < best)) as [Hk|Hk]|].
  - rewrite bool_decide_true by done. right.
    destruct (IH (S n) (key p) (Some n)) as [[-> Hall]|(k & q & -> & Hq & Hwq & Hlt & Hall)].
    + exists 0%nat, p. rewrite Nat.add_0_r. split_and!; try done. intros [|j] r Hr Hwr; simplify_eq/=; [lia|].
      split; [|lia]. apply Hall; [by eapply list_elem_of_lookup_2|done].
    + exists (S k), q. rewrite Nat.add_succ_r. split_and!; try done; [lia|].
      intros [|j] r Hr Hwr; simplify_eq/=; [lia|]. destruct (Hall j r Hr Hwr). split; [done|]. intros. lia.
  - rewrite bool_decide_false by done.
    destruct (IH (S n) best init) as [[-> Hall]|(k & q & -> & Hq & Hwq & Hlt & Hall)]; [left|right].
    + split; [done|]. intros r [->|Hr]%elem_of_cons Hwr; [lia|by apply Hall].
    + exists (S k), q. rewrite Nat.add_succ_r. split_and!; try done.
      intros [|j] r Hr Hwr; simplify_eq/=; [lia|]. destruct (Hall j r Hr Hwr). split; [done|]. intros. lia.
  - destruct (IH (S n) best init) as [[-> Hall]|(k & q & -> & Hq & Hwq & Hlt & Hall)]; [left|right].
    + split; [done|]. intros r [->|Hr]%elem_of_cons Hwr; [congruence|by apply Hall].
    + exists (S k), q. rewrite Nat.add_succ_r. split_and!; try done.
      intros [|j] r Hr Hwr; simplify_eq/=; [congruence|]. destruct (Hall j r Hr Hwr). split; [done|]. intros. lia.
Qed.

(** The scan for the highest priority is the one for the smallest opposite. *)
Lemma highest_smallest n (l : list process_ctl_block) top pid :
  Some (highest n l top pid) = smallest (λ p, - priority_of p) n l (- top) (Some pid).
Proof.
  revert n top pid. induction l as [|p l IH]; intros n top pid; simpl; [done|].
  rewrite (bool_decide_ext (priority_of p > top) (- priority_of p < - top)) by lia.
  by destruct (_ && _).
Qed.

(** [f] chooses the waiting PCB with the least key, the first one on ties. *)
Definition chooses_least (key : process_ctl_block → Z) (f : scheduler_state → outcome (option nat)) (st : scheduler_state) : Prop :=
  ∃ i p, f st = Ok (Some i) ∧ pcbs st !! i = Some p ∧ waiting p = true ∧
    ∀ j q, pcbs st !! j = Some q → waiting q = true → key p ≤ key q ∧ ((j < i)%nat → key p < key q).

Section select.
Context (ok : Z → Prop) (now : Z) (st : scheduler_state).
Context (Hr : Forall (in_range ok) (pcbs st)) (i : nat) (Hi : waits st i).

Lemma waiting_in_range : ∃ p, p ∈ pcbs st ∧ waiting p = true ∧ in_range ok p.
Proof.
  destruct Hi as (p & Hp & Hw). exists p. apply list_elem_of_lookup_2 in Hp.
  split_and!; [done|done|]. by eapply Forall_forall in Hr.
Qed.

(** The scan with a bound that every waiting PCB is below. *)
Lemma smallest_chooses key best init (f : scheduler_state → outcome (option nat)) :
  f st = Ok (smallest key 0 (pcbs st) best init) →
  (∀ p, in_range ok p → key p < best) → chooses_least key f st.
Proof.
  intros Hf Hb. destruct waiting_in_range as (p & Hp & Hw & Hrp).
  destruct (smallest_spec key 0 (pcbs st) best init) as [[_ Hall]|(k & q & Hs & Hq & Hwq & _ & Hall)].
  - specialize (Hall p Hp Hw). specialize (Hb p Hrp). lia.
  - exists k, q. rewrite Hf, Hs. by split_and!.
Qed.

Lemma remaining_eq p : in_range ok p → remaining p = workload p - executed_work p.
Proof. unfold in_range, INT_MAX. intros (_ & ? & ? & _). unfold remaining. apply wrap32_small. unfold UINT_MAX. lia. Qed.

Lemma sjf_chooses : chooses_least workload (sjf now) st.
Proof. eapply smallest_chooses; [done|]. intros p (_ & _ & ? & _). done. Qed.

Lemma fifo_chooses :
  ¬ (current_quantum st > 0 ∧ state (current_pcb st) = RUNNING) → chooses_least creation_quantum (fifo now) st.
Proof.
  intros Hc. assert (chooses_least creation_quantum
    (λ s, Ok (smallest creation_quantum 0 (pcbs s) INT_MAX None)) st) as (j & p & Hs & H).
  { eapply smallest_chooses; [done|]. intros p (? & _). lia. }
  injection Hs as Hs. exists j, p. split; [|done]. unfold fifo. by rewrite decide_False, Hs by done.
Qed.

Lemma psjf_chooses :
  ¬ (current_quantum st > 0 ∧ state (current_pcb st) = WAITING) →
  chooses_least workload (psjf now) st ∧ chooses_least remaining (sctf now) st.
Proof.
  intros Hc. split; eapply smallest_chooses.
  - unfold psjf. by rewrite decide_False.
  - intros p (_ & _ & ? & _). done.
  - unfold sctf. by rewrite decide_False.
  - intros p Hp. rewrite remaining_eq by done. destruct Hp as (_ & ? & ? & _). lia.
Qed.

Lemma priority_chooses : (∀ z, ok z → 0 < z) → chooses_least (λ p, - priority_of p) (priority now) st.
Proof.
  intros Hok. eapply (smallest_chooses _ (- 0) (Some 0%nat)).
  - unfold priority. by rewrite highest_smallest.
  - intros p (_ & _ & _ & ?%Hok). lia.
Qed.

Lemma chooses_waits key f : chooses_least key f st → ∃ j, f st = Ok (Some j) ∧ waits st j.
Proof. intros (j & p & ? & ? & ? & _). exists j. split; [done|]. by exists p. Qed.

Lemma current_waits : state (current_pcb st) = WAITING → waits st (current_process st).
Proof.
  unfold current_pcb, waits. destruct (pcbs st !! current_process st) as [p|]; simpl; [|done].
  intros Hs. exists p. split; [done|]. unfold waiting. by apply bool_decide_true.
Qed.
End select.

#[export] Instance sjf_selector n ok : Selector n ok sjf.
Proof. intros now st i _ Hr _ Hi. by eapply chooses_waits, sjf_chooses. Qed.
#[export] Instance fifo_selector n ok : Selector n ok fifo.
Proof.
  intros now st i _ Hr Hn Hi. eapply chooses_waits, fifo_chooses; [done..|]. intros [_ Hs].
  unfold current_pcb in Hs. destruct (pcbs st !! current_process st) as [p|] eqn:Hp; [|done].
  by apply (Forall_lookup_1 _ _ _ _ Hn Hp).
Qed.
#[export] Instance psjf_selector n ok : Selector n ok psjf.
Proof.
  intros now st i _ Hr _ Hi. destruct (decide (current_quantum st > 0 ∧ state (current_pcb st) = WAITING)) as [Hc|Hc].
  - exists (current_process st). unfold psjf. rewrite decide_True by done.
    split; [done|]. by apply current_waits, Hc.
  - eapply chooses_waits. by apply (psjf_chooses ok now st Hr i Hi Hc).
Qed.
#[export] Instance sctf_selector n ok : Selector n ok sctf.
Proof.
  intros now st i _ Hr _ Hi. destruct (decide (current_quantum st > 0 ∧ state (current_pcb st) = WAITING)) as [Hc|Hc].
  - exists (current_process st). unfold sctf. rewrite decide_True by done.
    split; [done|]. by apply current_waits, Hc.
  - eapply chooses_waits. by apply (psjf_chooses ok now st Hr i Hi Hc).
Qed.
#[export] Instance priority_selector n : Selector n (λ z, 0 < z) priority.
Proof. intros now st i _ Hr _ Hi. eapply chooses_waits, (priority_chooses (λ z, 0 < z)); [done..|]. done. Qed.

Lemma basic_first now st i : waits st i → ∃ j, basic now st = Ok (Some j) ∧ waits st j ∧ ∀ k, (k < j)%nat → ¬ waits st k.
Proof.
  intros (p & Hp & Hw). unfold basic.
  pose proof (first_pcb_spec (λ _ p, waiting p) 0 (pcbs st)) as H.
  destruct (first_pcb _ _ _) as [j|].
  - destruct H as (k & q & -> & Hq & Hwq & Hlt). simpl. exists k. split_and!; [done|by exists q|].
    intros m Hm (r & Hr & Hwr). by rewrite (Hlt m r Hm Hr) in Hwr.
  - by rewrite (H _ _ Hp) in Hw.
Qed.
#[export] Instance basic_selector n ok : Selector n ok basic.
Proof. intros now st i _ _ _ Hi. destruct (basic_first now st i Hi) as (j & ? & ? & _). eauto. Qed.

(** Round robin goes to the next waiting PCB after the current one, in cyclic
    order. *)
Definition next_in_turn (st : scheduler_state) (i : nat) : Prop :=
  waits st i ∧
  ((current_process st < i)%nat ∧ (∀ k, (current_process st < k < i)%nat → ¬ waits st k) ∨
   (i ≤ current_process st)%nat ∧ ∀ k, (current_process st < k)%nat ∨ (k < i)%nat → ¬ waits st k).

Lemma rr_next now st i : waits st i → ∃ j, rr now st = Ok (Some j) ∧ next_in_turn st j.
Proof.
  intros Hi. unfold rr.
  pose proof (first_pcb_spec (λ i p, waiting p && bool_decide (current_process st < i)%nat) 0 (pcbs st)) as H.
  destruct (first_pcb _ _ _) as [j|].
  - destruct H as (k & q & -> & Hq & [Hwq Hck]%andb_true_iff & Hlt). simpl in *.
    apply bool_decide_eq_true in Hck. exists k. split; [done|]. split; [by exists q|]. left.
    split; [done|]. intros m Hm (r & Hr & Hwr). specialize (Hlt m r ltac:(lia) Hr).
    rewrite Hwr in Hlt. simpl in Hlt. apply bool_decide_eq_false in Hlt. lia.
  - destruct (basic_first now st i Hi) as (j & Hj & Hwj & Hlt). exists j. split; [done|]. split; [done|].
    assert (∀ k, (current_process st < k)%nat → ¬ waits st k) as Hno.
    { intros k Hk (r & Hr & Hwr). specialize (H k r Hr). rewrite Hwr in H. simpl in H.
      apply bool_decide_eq_false in H. lia. }
    right. split.
    + destruct (decide (j ≤ current_process st)%nat); [done|]. destruct (Hno j); [lia|done].
    + intros k [Hk|Hk]; [by apply Hno|by apply Hlt].
Qed.
#[export] Instance rr_selector n ok : Selector n ok rr.
Proof. intros now st i _ _ _ Hi. destruct (rr_next now st i Hi) as (j & ? & ? & _). eauto. Qed.

Lemma selector_weaken n (ok ok' : Z → Prop) f : (∀ z, ok' z → ok z) → Selector n ok f → Selector n ok' f.
Proof.
  intros Ho Hs now st i Hn Hr. apply Hs; [done|]. eapply Forall_impl; [exact Hr|]. unfold in_range. intros p (? & ? & ? & ?). auto.
Qed.

(** ** insanity *)

(** After every seed, [rand] sooner or later hits each of [n] processes. *)
Definition hits (n : nat) (rands : Z → list Z) : Prop :=
  ∀ seed i, (i < n)%nat → Exists (λ r, Z.to_nat (r `mod` Z.of_nat n) = i) (rands seed).

Lemma hits_seq n : hits n (λ _, Z.of_nat <$> seq 0 n).
Proof.
  intros seed i Hi. apply Exists_exists. exists (Z.of_nat i). split.
  - apply list_elem_of_fmap. exists i. split; [done|]. by apply elem_of_seq; lia.
  - rewrite Z.mod_small; lia.
Qed.

Lemma draw_waits st rands i :
  waits st i → Exists (λ r, Z.to_nat (r `mod` Z.of_nat (num_processes st)) = i) rands →
  ∃ j, draw st rands = Ok (Some j) ∧ waits st j.
Proof.
  intros Hi. assert (0 < num_processes st)%nat as Hn.
  { destruct Hi as (p & Hp & _). apply lookup_lt_Some in Hp. unfold num_processes. lia. }
  induction rands as [|r rands IH]; intros Hr; [by apply Exists_nil in Hr|]. cbn [draw].
  set (j := Z.to_nat (r `mod` _)) in *. pose proof (Z.mod_pos_bound r (Z.of_nat (num_processes st)) ltac:(lia)).
  destruct (lookup_lt_is_Some_2 (pcbs st) j) as [p Hp]; [unfold num_processes in *; lia|].
  unfold pcb_at. rewrite Hp. cbn [mbind outcome_bind require]. destruct (waiting p) eqn:Hw; [by exists j; split; [|exists p]|].
  apply IH. apply Exists_cons in Hr as [Hj|Hr]; [|done]. change (j = i) in Hj. destruct Hi as (q & Hq & Hwq). congruence.
Qed.
#[export] Instance insanity_selector n ok rands : hits n rands → Selector n ok (insanity rands).
Proof.
  intros Hh now st i Hn _ _ Hi. unfold insanity. rewrite decide_False.
  - apply (draw_waits st _ i Hi). rewrite Hn. apply Hh. destruct Hi as (p & Hp & _). apply lookup_lt_Some in Hp. by rewrite <- Hn.
  - destruct Hi as (p & Hp & _). apply lookup_lt_Some in Hp. unfold num_processes. lia.
Qed.
(** No draw hits when no process waits. *)
Lemma draw_for_ever st rands : pcbs st ≠ [] → Forall (λ p, waiting p = false) (pcbs st) → draw st rands = OutOfFuel.
Proof.
  intros Hne Hw. assert (0 < num_processes st)%nat by (unfold num_processes; destruct (pcbs st); [done|simpl; lia]).
  induction rands as [|r rands IH]; [done|]. cbn [draw].
  set (j := Z.to_nat (r `mod` _)). pose proof (Z.mod_pos_bound r (Z.of_nat (num_processes st)) ltac:(lia)).
  destruct (lookup_lt_is_Some_2 (pcbs st) j) as [p Hp]; [unfold num_processes in *; lia|].
  unfold pcb_at. rewrite Hp. cbn [mbind outcome_bind require]. by rewrite (Forall_lookup_1 _ _ _ _ Hw Hp).
Qed.

(** Every algorithm main can select, for positive priorities under priority
    and draws that hit under insanity. *)
Lemma select_selector n rands arg :
  (arg = lit "insanity" → hits n rands) →
  Selector n (λ z, arg = lit "priority" → 0 < z) (select_algorithm rands arg).
Proof.
  intros Hi. unfold select_algorithm, strcmp_eq. repeat case_bool_decide; try apply _.
  - apply (selector_weaken _ (λ z, 0 < z)); [auto|apply _].
  - by apply insanity_selector, Hi.
Qed.
