(* ===== verification/SchedRun.v ===== *)
(** Whole runs of the scheduler (LabWork/Lab7/scheduler.c) when the arrivals
    leave no gap: the invariant of the main loop and the processes, a measure
    that every step decreases, and from them the completion of all processes
    whatever the algorithm and the alarms. *)
From Stdlib Require Import ZArith Lia Ascii.
From stdpp Require Import prelude gmap strings numbers list.
From S2P Require Import Prelude CString Scheduler SchedSelect.
Open Scope Z_scope.
Import CInt.

(** * Sums over indexed lists *)
Fixpoint isum (f : nat → process_ctl_block → Z) (n : nat) (l : list process_ctl_block) : Z :=
  match l with [] => 0 | p :: l' => f n p + isum f (S n) l' end.

Lemma isum_le f g n (l l' : list process_ctl_block) :
  length l = length l' →
  (∀ i p p', l !! i = Some p → l' !! i = Some p' → g (n + i)%nat p' ≤ f (n + i)%nat p) →
  isum g n l' ≤ isum f n l.
Proof.
  revert n l'. induction l as [|p l IH]; intros n [|p' l'] Hlen Hle; simplify_eq/=; [lia|].
  pose proof (Hle 0%nat p p' eq_refl eq_refl) as H0. rewrite Nat.add_0_r in H0.
  enough (isum g (S n) l' ≤ isum f (S n) l) by lia. apply IH; [done|].
  intros i q q' Hq Hq'. pose proof (Hle (S i) q q' Hq Hq'). by rewrite Nat.add_succ_r in *.
Qed.

(** A drop of [d] at one index, and no rise elsewhere. *)
Lemma isum_drop f g d i n (l l' : list process_ctl_block) :
  length l = length l' → (i < length l)%nat →
  (∀ j p p', j ≠ i → l !! j = Some p → l' !! j = Some p' → g (n + j)%nat p' ≤ f (n + j)%nat p) →
  (∀ p p', l !! i = Some p → l' !! i = Some p' → g (n + i)%nat p' + d ≤ f (n + i)%nat p) →
  isum g n l' + d ≤ isum f n l.
Proof.
  revert n i l'. induction l as [|p l IH]; intros n i [|p' l'] Hlen Hi Hle Hd; simplify_eq/=; [lia|].
  destruct i as [|i].
  - specialize (Hd p p' eq_refl eq_refl). rewrite Nat.add_0_r in Hd.
    enough (isum g (S n) l' ≤ isum f (S n) l) by lia. apply isum_le; [done|].
    intros j q q' Hq Hq'. pose proof (Hle (S j) q q' ltac:(lia) Hq Hq'). by rewrite Nat.add_succ_r in *.
  - pose proof (Hle 0%nat p p' ltac:(lia) eq_refl eq_refl) as H0. rewrite Nat.add_0_r in H0.
    enough (isum g (S n) l' + d ≤ isum f (S n) l) by lia. apply (IH (S n) i); [done|lia|..].
    + intros j q q' Hne Hq Hq'. pose proof (Hle (S j) q q' ltac:(lia) Hq Hq'). by rewrite Nat.add_succ_r in *.
    + intros q q' Hq Hq'. pose proof (Hd q q' Hq Hq'). by rewrite Nat.add_succ_r in *.
Qed.

Lemma isum_nonneg f n (l : list process_ctl_block) :
  (∀ i p, l !! i = Some p → 0 ≤ f (n + i)%nat p) → 0 ≤ isum f n l.
Proof.
  revert n. induction l as [|p l IH]; intros n Hf; simpl; [lia|].
  pose proof (Hf 0%nat p eq_refl) as H0. rewrite Nat.add_0_r in H0.
  enough (0 ≤ isum f (S n) l) by lia. apply IH. intros i q Hq.
  specialize (Hf (S i) q Hq). by rewrite Nat.add_succ_r in Hf.
Qed.

Lemma isum_elem f n (l : list process_ctl_block) i p :
  l !! i = Some p → (∀ j q, l !! j = Some q → 0 ≤ f (n + j)%nat q) → f (n + i)%nat p ≤ isum f n l.
Proof.
  revert n i. induction l as [|q l IH]; intros n i Hp Hf; [done|]. simpl.
  assert (∀ j r, l !! j = Some r → 0 ≤ f (S n + j)%nat r) as Hf'.
  { intros j r Hr. specialize (Hf (S j) r Hr). by rewrite Nat.add_succ_r in Hf. }
  destruct i as [|i]; simplify_eq/=.
  - rewrite Nat.add_0_r. pose proof (isum_nonneg f (S n) l Hf'). lia.
  - specialize (IH (S n) i Hp Hf'). specialize (Hf 0%nat q eq_refl). rewrite Nat.add_0_r in Hf.
    rewrite Nat.add_succ_r. simpl in IH. lia.
Qed.

(** * The measure *)

(** Inner iterations a process has left, [k] of the current round done. *)
Definition ticks (p : process_ctl_block) (k : nat) : Z :=
  20 * (workload p - executed_work p) - Z.of_nat k.

Definition saved_steps (p : process_ctl_block) : Z :=
  match ctx p with Some (AfterTick _ k) => 2 * ticks p k | _ => 2 * ticks p 0 + 1 end.
(** Steps the process of PCB [i] has left, and two for its end. *)
Definition steps_left (c : control) (i : nat) (p : process_ctl_block) : Z :=
  if decide (state p = TERMINATED) then 0
  else 2 + match c with
           | InLoop j k => if decide (i = j) then 2 * ticks p k + 1 else saved_steps p
           | PastTick j k => if decide (i = j) then 2 * ticks p k else saved_steps p
           | _ => saved_steps p
           end.
Definition main_step (c : control) : Z := match c with AtMain => 1 | _ => 0 end.
Definition measure (st : scheduler_state) (c : control) : Z :=
  isum (steps_left c) 0 (pcbs st) + main_step c.

(** * The invariant *)

(** A PCB that does not run: it has not arrived, or has ended, or its context
    is one of its own. *)
Definition idle_ok (i : nat) (p : process_ctl_block) : Prop :=
  match state p with
  | CREATED => ctx p = None ∧ executed_work p = 0
  | TERMINATED => ctx p = None ∧ executed_work p = workload p
  | WAITING =>
      (ctx p = Some Fresh ∧ executed_work p = 0) ∨
      ∃ k, (k < 20)%nat ∧ ctx p = Some (AfterTick i k) ∧ executed_work p < workload p
  | _ => False
  end.
Definition running_ok (c : control) (p : process_ctl_block) : Prop :=
  state p = RUNNING ∧
  match c with
  | InLoop _ k => (k < 20)%nat ∧ ((0 < k)%nat → executed_work p < workload p)
  | PastTick _ k => (k < 20)%nat ∧ executed_work p < workload p
  | _ => False
  end.
(** The PCB whose process has control. *)
Definition runner (c : control) : option nat :=
  match c with InLoop i _ | PastTick i _ => Some i | _ => None end.

(** What does not change during a run. *)
Definition identity (p : process_ctl_block) : Z * cstr * Z * Z * Z :=
  (pid p, name p, creation_quantum p, workload p, priority_of p).

Definition pcb_ok (c : control) (i : nat) (p : process_ctl_block) : Prop :=
  if decide (runner c = Some i) then running_ok c p else idle_ok i p.

#[export] Instance control_eq_dec : EqDecision control.
Proof. solve_decision. Defined.

(** The processes that ended, and those that come up to quantum [q]. *)
Definition ended (st : scheduler_state) : Z :=
  isum (λ _ p, if decide (state p = TERMINATED) then 1 else 0) 0 (pcbs st).
Definition due (q : Z) (ps : list process_ctl_block) : Z :=
  isum (λ _ p, if decide (creation_quantum p ≤ q) then 1 else 0) 0 ps.
(** While processes are still to come after quantum [q], more than [q] have
    come by then: every dispatch finds one that has not ended. *)
Definition dense (ps : list process_ctl_block) : Prop :=
  ∀ q, 0 ≤ q → Exists (λ p, q < creation_quantum p) ps → q < due q ps.

Definition running (c : control) : Z := match runner c with Some _ => 1 | None => 0 end.

(** [a] is the first quantum whose processes have not arrived. *)
Record inv (ok : Z → Prop) (ps : list process_ctl_block) (a : Z) (st : scheduler_state) (c : control) : Prop := {
  i_same : identity <$> pcbs st = identity <$> ps;
  i_range : Forall (in_range ok) (pcbs st);
  i_created i p : pcbs st !! i = Some p → state p = CREATED ↔ a ≤ creation_quantum p;
  i_quantum : 0 < current_quantum st;
  i_used : ended st + running c ≤ current_quantum st;
  i_bound : current_quantum st + measure st c < 4294967296;
  i_main : g_main_ctx st = MainCheck;
  i_current : ∃ p, pcbs st !! current_process st = Some p ∧
                   match runner c with Some i => i = current_process st | None => state p = TERMINATED end;
  i_pcbs i p : pcbs st !! i = Some p → pcb_ok c i p;
  i_halted : c = Halted → Forall (λ p, state p = TERMINATED) (pcbs st)
}.
(** Between interrupts, the processes of the quanta before the current one have
    arrived. *)
Definition settled (ok : Z → Prop) (ps : list process_ctl_block) (st : scheduler_state) (c : control) : Prop :=
  inv ok ps (current_quantum st) st c.

Lemma steps_idle c i p :
  runner c ≠ Some i →
  steps_left c i p = if decide (state p = TERMINATED) then 0 else 2 + saved_steps p.
Proof.
  intros Hn. unfold steps_left. case_decide; [done|].
  destruct c; simpl in *; try case_decide; subst; done.
Qed.
Lemma steps_in_loop i k p : state p = RUNNING → steps_left (InLoop i k) i p = 2 + (2 * ticks p k + 1).
Proof. intros Hs. unfold steps_left. rewrite Hs. simpl. by rewrite decide_True. Qed.
Lemma steps_past_tick i k p : state p = RUNNING → steps_left (PastTick i k) i p = 2 + 2 * ticks p k.
Proof. intros Hs. unfold steps_left. rewrite Hs. simpl. by rewrite decide_True. Qed.

Lemma steps_left_nonneg ok c i p : in_range ok p → pcb_ok c i p → 0 ≤ steps_left c i p.
Proof.
  intros (_ & ? & _) Hok. unfold pcb_ok in Hok. case_decide as Hr.
  - destruct Hok as [Hs Hc]. unfold ticks in *. destruct c; simpl in *; simplify_eq.
    + rewrite steps_in_loop by done. unfold ticks. lia.
    + rewrite steps_past_tick by done. unfold ticks. lia.
  - rewrite steps_idle by done. case_decide; [lia|]. unfold idle_ok, saved_steps, ticks in *.
    destruct (state p); [destruct Hok as [-> ?]; lia| |done|done].
    destruct Hok as [[-> ?]|(k & ? & -> & ?)]; lia.
Qed.

(** A step that moves from one configuration to another: what it must do to
    each PCB. *)
Record moves (ok : Z → Prop) (st : scheduler_state) (c : control) (st' : scheduler_state) (c' : control) : Prop := {
  mv_len : length (pcbs st') = length (pcbs st);
  mv_pcb i p p' : pcbs st !! i = Some p → pcbs st' !! i = Some p' →
    identity p' = identity p ∧ in_range ok p' ∧ pcb_ok c' i p' ∧ steps_left c' i p' ≤ steps_left c i p;
  mv_created i p p' : pcbs st !! i = Some p → pcbs st' !! i = Some p' → state p' = CREATED ↔ state p = CREATED;
  mv_ended i p p' : pcbs st !! i = Some p → pcbs st' !! i = Some p' → state p' = TERMINATED →
    state p = TERMINATED ∨ (runner c = Some i ∧ runner c' = None);
  mv_drop : ∃ i p p' d, pcbs st !! i = Some p ∧ pcbs st' !! i = Some p' ∧
    steps_left c' i p' + d ≤ steps_left c i p ∧ main_step c' < main_step c + d;
  mv_quantum : 0 < current_quantum st' ∧ current_quantum st ≤ current_quantum st' ≤ current_quantum st + 1;
  mv_dispatch : runner c = None → runner c' ≠ None → current_quantum st' = current_quantum st + 1;
  mv_main : g_main_ctx st' = MainCheck;
  mv_current : ∃ p, pcbs st' !! current_process st' = Some p ∧
    match runner c' with Some i => i = current_process st' | None => state p = TERMINATED end;
  mv_halted : c' = Halted → Forall (λ p, state p = TERMINATED) (pcbs st')
}.

Lemma pointwise_fmap (l l' : list process_ctl_block) :
  length l' = length l → (∀ i p p', l !! i = Some p → l' !! i = Some p' → identity p' = identity p) →
  identity <$> l' = identity <$> l.
Proof.
  intros Hlen Hp. apply list_eq_same_length with (length l); [by rewrite length_fmap|by rewrite length_fmap|].
  intros i x y _ Hx Hy. apply list_lookup_fmap_Some in Hx as (p' & -> & ?), Hy as (p & -> & ?). by apply Hp with i.
Qed.

Lemma moves_used ok st c st' c' :
  moves ok st c st' c' → ended st + running c ≤ current_quantum st → ended st' + running c' ≤ current_quantum st'.
Proof.
  intros M Hu. pose proof (mv_quantum _ _ _ _ _ M) as Hq. pose proof (mv_dispatch _ _ _ _ _ M) as Hd.
  assert (length (pcbs st) = length (pcbs st')) as Hlen by (by rewrite (mv_len _ _ _ _ _ M)).
  enough (ended st' + running c' ≤ ended st + running c + (current_quantum st' - current_quantum st)) by lia.
  destruct (decide (runner c ≠ None ∧ runner c' = None)) as [[Hs Hn]|Hno].
  - destruct (runner c) as [i|] eqn:Hi; [|done]. unfold running. rewrite Hi, Hn. destruct (decide (i < length (pcbs st))%nat) as [Hlt|Hge].
    + enough (ended st' + -1 ≤ ended st) by lia. apply (isum_drop _ _ _ i); [done|done|..].
      * intros j p p' Hj Hp Hp'. simpl. destruct (decide (state p' = TERMINATED)) as [Ht|]; [|case_decide; lia].
        destruct (mv_ended _ _ _ _ _ M j p p' Hp Hp' Ht) as [->|[? _]]; [done|congruence].
      * intros p p' _ _. repeat case_decide; lia.
    + enough (ended st' ≤ ended st) by lia. apply isum_le; [done|]. intros j p p' Hp Hp'. simpl.
      destruct (decide (state p' = TERMINATED)) as [Ht|]; [|case_decide; lia].
      destruct (mv_ended _ _ _ _ _ M j p p' Hp Hp' Ht) as [->|[? _]]; [done|].
      apply lookup_lt_Some in Hp. assert (i = j) as -> by congruence. lia.
  - assert (ended st' ≤ ended st) as He.
    { apply isum_le; [done|]. intros j p p' Hp Hp'. simpl.
      destruct (decide (state p' = TERMINATED)) as [Ht|]; [|case_decide; lia].
      destruct (mv_ended _ _ _ _ _ M j p p' Hp Hp' Ht) as [->|[? ?]]; [done|]. destruct Hno. split; congruence. }
    unfold running in *. destruct (runner c) as [i|] eqn:Hi, (runner c') as [i'|] eqn:Hi'; try lia.
    specialize (Hd eq_refl ltac:(done)). lia.
Qed.

Lemma moves_inv ok ps a st c st' c' :
  inv ok ps a st c → moves ok st c st' c' → inv ok ps a st' c' ∧ measure st' c' < measure st c.
Proof.
  intros I M. assert (measure st' c' < measure st c) as Hm.
  { destruct (mv_drop _ _ _ _ _ M) as (i & p & p' & d & Hp & Hp' & Hd & Hmain). unfold measure.
    enough (isum (steps_left c') 0 (pcbs st') + d ≤ isum (steps_left c) 0 (pcbs st)) by lia.
    apply (isum_drop _ _ _ i); [by rewrite (mv_len _ _ _ _ _ M)|by eapply lookup_lt_Some| |].
    - intros j q q' _ Hq Hq'. by apply (mv_pcb _ _ _ _ _ M).
    - intros q q' Hq Hq'. by simplify_eq. }
  split; [|done]. pose proof (moves_used _ _ _ _ _ M (i_used _ _ _ _ _ I)) as Hu.
  destruct M as [Hlen Hpcb Hcr _ _ Hq _ Hmain Hcur Hh].
  assert (∀ i p', pcbs st' !! i = Some p' → ∃ p, pcbs st !! i = Some p) as Hback.
  { intros i p' Hp'. apply lookup_lt_is_Some_2. rewrite <- Hlen. by eapply lookup_lt_Some. }
  split; try done; try lia.
  - rewrite <- (i_same _ _ _ _ _ I). apply pointwise_fmap; [done|]. intros i p p' Hp Hp'. by apply (Hpcb i).
  - apply Forall_lookup_2. intros i p' Hp'. destruct (Hback i p' Hp') as [p Hp]. by apply (Hpcb i p p').
  - intros i p' Hp'. destruct (Hback i p' Hp') as [p Hp].
    rewrite (Hcr i p p' Hp Hp'), (i_created _ _ _ _ _ I i p Hp).
    destruct (Hpcb i p p' Hp Hp') as (Hid & _). unfold identity in Hid. by injection Hid as _ _ -> _ _.
  - pose proof (i_bound _ _ _ _ _ I). lia.
  - intros i p' Hp'. destruct (Hback i p' Hp') as [p Hp]. by apply (Hpcb i p p').
Qed.

(** * Steps within a process *)
Section step.
Context (ok : Z → Prop) (algo : algorithm) (ps : list process_ctl_block) `{!Selector (length ps) ok algo}.
Context (a : Z) (st : scheduler_state).

Lemma inv_count c : inv ok ps a st c → num_processes st = length ps.
Proof. intros I. pose proof (f_equal length (i_same _ _ _ _ _ I)) as Hl. by rewrite !length_fmap in Hl. Qed.

Lemma update_lookup i f j :
  pcbs (update_pcb i f st) !! j = if decide (i = j) then f <$> pcbs st !! i else pcbs st !! j.
Proof. apply list_lookup_alter. Qed.

(** The other PCBs are idle before and after. *)
Lemma other_pcb c c' j p :
  inv ok ps a st c → pcbs st !! j = Some p → runner c ≠ Some j → runner c' ≠ Some j →
  identity p = identity p ∧ in_range ok p ∧ pcb_ok c' j p ∧ steps_left c' j p ≤ steps_left c j p.
Proof.
  intros I Hp Hr Hr'. pose proof (i_pcbs _ _ _ _ _ I _ _ Hp) as Hok.
  pose proof (Forall_lookup_1 _ _ _ _ (i_range _ _ _ _ _ I) Hp) as ?.
  unfold pcb_ok in *. rewrite decide_False in Hok by done. rewrite decide_False by done.
  split_and!; [done|done|done|]. by rewrite !steps_idle by done.
Qed.

Lemma runner_facts c i :
  inv ok ps a st c → runner c = Some i →
  i = current_process st ∧ ∃ p, pcbs st !! i = Some p ∧ running_ok c p ∧ in_range ok p.
Proof.
  intros I Hr. destruct (i_current _ _ _ _ _ I) as (p & Hp & Hc). rewrite Hr in Hc. subst i.
  split; [done|]. exists p. split; [done|].
  pose proof (i_pcbs _ _ _ _ _ I _ _ Hp) as Hok. unfold pcb_ok in Hok. rewrite decide_True in Hok by done.
  split; [done|]. by apply (Forall_lookup_1 _ _ _ _ (i_range _ _ _ _ _ I) Hp).
Qed.

(** A step that changes only the PCB of the running process. *)
Lemma own_step c i f c' :
  inv ok ps a st c → runner c = Some i → runner c' = Some i ∨ (runner c' = None ∧ c' ≠ Halted) →
  (∀ p, pcbs st !! i = Some p → running_ok c p → in_range ok p →
    identity (f p) = identity p ∧ in_range ok (f p) ∧ pcb_ok c' i (f p) ∧
    (runner c' = None → state (f p) = TERMINATED) ∧
    steps_left c' i (f p) + main_step c' + 1 ≤ steps_left c i p) →
  moves ok st c (update_pcb i f st) c'.
Proof.
  intros I Hr Hr' Hf. destruct (runner_facts c i I Hr) as (Hi & p & Hp & Hrun & Hin).
  destruct (Hf p Hp Hrun Hin) as (Hid & Hin' & Hok & Ht & Hd).
  assert (0 ≤ main_step c' ∧ main_step c = 0) as [? Hm] by (destruct c, c'; simpl in *; simplify_eq; lia).
  split.
  - apply length_alter.
  - intros j q q' Hq Hq'. rewrite update_lookup in Hq'. case_decide.
    + subst j. rewrite Hp in Hq, Hq'. simpl in Hq'.
      assert (q = p) as -> by congruence. assert (q' = f p) as -> by congruence.
      split_and!; [done|done|done|lia].
    + assert (q' = q) as -> by congruence. apply other_pcb; [done|done|congruence|]. destruct Hr' as [-> | [-> _]]; congruence.
  - intros j q q' Hq Hq'. rewrite update_lookup in Hq'. case_decide; [|by assert (q' = q) as -> by congruence]. subst j. rewrite Hp in Hq, Hq'.
    simpl in Hq'. assert (q = p) as -> by congruence. assert (q' = f p) as -> by congruence. destruct Hrun as [Hs _].
    rewrite Hs. split; [|done]. intros Hcr. unfold pcb_ok, running_ok, idle_ok in Hok. case_decide; [by destruct Hok as [? _]; congruence|].
    destruct Hr' as [|[Hn _]]; [done|]. specialize (Ht Hn). congruence.
  - intros j q q' Hq Hq' Hte. rewrite update_lookup in Hq'. case_decide; [|left; congruence]. subst j. rewrite Hp in Hq, Hq'.
    simpl in Hq'. assert (q' = f p) as -> by congruence. destruct Hr' as [Hr'|[Hn _]]; [|by right].
    unfold pcb_ok, running_ok in Hok. rewrite decide_True in Hok by done. destruct Hok as [? _]. congruence.
  - exists i, p, (f p), (main_step c' + 1). rewrite update_lookup, decide_True, Hp by done.
    split_and!; [done|done|lia|lia].
  - simpl. pose proof (i_quantum _ _ _ _ _ I). lia.
  - congruence.
  - apply I.
  - exists (f p). simpl. rewrite list_lookup_alter, <- Hi, decide_True, Hp by done. split; [done|].
    destruct Hr' as [-> | [Hn _]]; [done|]. rewrite Hn. by apply Ht.
  - intros ->. by destruct Hr' as [|[_ ?]].
Qed.

Lemma tick_without_interrupt i k :
  inv ok ps a st (InLoop i k) → (∀ p, pcbs st !! i = Some p → executed_work p < workload p) →
  moves ok st (InLoop i k) (update_pcb i (λ p, p) st) (PastTick i k).
Proof.
  intros I Hlt. apply (own_step _ i); [done|done|by left|].
  intros p Hp [Hs [Hk _]] Hin. specialize (Hlt p Hp). split_and!; [done|done| |done|].
  - unfold pcb_ok. simpl. rewrite decide_True by done. by split.
  - rewrite steps_past_tick, steps_in_loop by done. simpl. lia.
Qed.

Lemma tick_done i k :
  inv ok ps a st (PastTick i k) →
  (S k = 20%nat → moves ok st (PastTick i k) (update_pcb i add_work st) (InLoop i 0)) ∧
  (S k ≠ 20%nat → moves ok st (PastTick i k) (update_pcb i (λ p, p) st) (InLoop i (S k))).
Proof.
  intros I. split; intros Hk; (apply (own_step _ i); [done|done|by left|]);
    intros p Hp [Hs [Hk' Hlt]] Hin; pose proof Hin as (? & ? & ? & ?).
  - assert (wrap32 (executed_work p + 1) = executed_work p + 1) as Hw.
    { apply wrap32_small. unfold UINT_MAX, INT_MAX in *. lia. }
    split_and!; [done|unfold in_range; simpl; rewrite Hw; by split_and!; try lia| |done|].
    + unfold pcb_ok. simpl. rewrite decide_True by done. split; [done|]. split; lia.
    + rewrite steps_past_tick, steps_in_loop by done. unfold ticks. simpl. rewrite Hw. lia.
  - split_and!; [done|exact Hin| |done|].
    + unfold pcb_ok. simpl. rewrite decide_True by done. split; [done|]. split; [lia|done].
    + rewrite steps_past_tick, steps_in_loop by done. unfold ticks. simpl (main_step _). lia.
Qed.

Lemma process_ends now i :
  inv ok ps a st (InLoop i 0) → (∀ p, pcbs st !! i = Some p → executed_work p >= workload p) →
  moves ok st (InLoop i 0) (update_pcb i (set_done now) st) AtMain.
Proof.
  intros I Hge. apply (own_step _ i); [done|done|by right|].
  intros p Hp [Hs _] Hin. specialize (Hge p Hp). pose proof Hin as (? & ? & ? & ?).
  split_and!; [done|exact Hin| |done|].
  - unfold pcb_ok, idle_ok. simpl. split; [done|lia].
  - rewrite steps_in_loop by done. unfold steps_left, ticks. simpl. lia.
Qed.

(** * Switches *)

Lemma update_id i (s : scheduler_state) : update_pcb i (λ p, p) s = s.
Proof.
  destruct s as [l q cur mc]. unfold update_pcb. simpl. f_equal.
  apply list_eq. intros j. rewrite list_lookup_alter. case_decide; [subst|done].
  by destruct (l !! j).
Qed.

(** The chosen process takes over where its context says. *)
Lemma resume_idle now s j p :
  idle_ok j p → waiting p = true → in_range ok p → current_process s = j →
  ∃ g c', resume now s (ctx p) = Ok (update_pcb j g s, c') ∧ runner c' = Some j ∧
  let p' := g (set_state RUNNING p) in
  identity p' = identity p ∧ in_range ok p' ∧ running_ok c' p' ∧ steps_left c' j p' = 2 + saved_steps p.
Proof.
  intros Hok Hw Hin Hcur. apply bool_decide_eq_true in Hw. unfold idle_ok in Hok. rewrite Hw in Hok.
  destruct Hok as [[Hc He]|(k & Hk & Hc & He)]; unfold saved_steps; rewrite Hc; simpl.
  - exists (set_start now), (InLoop j 0). rewrite Hcur. split_and!; [done|done|done|done|split; [done|split; lia]|].
    rewrite steps_in_loop by done. done.
  - exists (λ p, p), (PastTick j k). rewrite update_id. split_and!; [done|done|done|done|done|].
    rewrite steps_past_tick by done. done.
Qed.

Lemma measure_pos c : inv ok ps a st c → c ≠ Halted → 0 < measure st c.
Proof.
  intros I Hc. unfold measure.
  assert (∀ j q, pcbs st !! j = Some q → 0 ≤ steps_left c (0 + j) q) as Hnn.
  { intros j q Hq. simpl. apply (steps_left_nonneg ok).
    - by apply (Forall_lookup_1 _ _ _ _ (i_range _ _ _ _ _ I) Hq).
    - by apply (i_pcbs _ _ _ _ _ I). }
  pose proof (isum_nonneg _ 0 _ Hnn) as H0. destruct (runner c) as [i|] eqn:Hr; last first.
  { destruct c; simpl in *; try done. lia. }
  destruct (runner_facts c i I Hr) as (_ & p & Hp & Hrun & Hin).
  pose proof (isum_elem (steps_left c) 0 _ i p Hp Hnn) as Hle. simpl in Hle.
  enough (0 < steps_left c i p) by (destruct c; simpl in *; lia).
  destruct Hrun as [Hs Hcc]. destruct Hin as (_ & ? & _).
  destruct c as [|j k|j k|]; simpl in *; simplify_eq;
    [rewrite steps_in_loop by done|rewrite steps_past_tick by done]; unfold ticks; lia.
Qed.

Lemma quantum_small c :
  inv ok ps a st c → c ≠ Halted → wrap32 (current_quantum st + 1) = current_quantum st + 1.
Proof.
  intros I Hc. pose proof (i_quantum _ _ _ _ _ I). pose proof (i_bound _ _ _ _ _ I).
  pose proof (measure_pos c I Hc). apply wrap32_small. unfold UINT_MAX. lia.
Qed.

(** ** Arrivals *)
Lemma arrive_lookup now (s : scheduler_state) j :
  pcbs (handle_arrivals now s) !! j =
  (λ p, if decide (creation_quantum p = current_quantum s) then set_arrival now p else p) <$> pcbs s !! j.
Proof. apply list_lookup_fmap. Qed.

(** A PCB whose quantum has come is neither running nor done. *)
Lemma arriving c j p :
  settled ok ps st c → pcbs st !! j = Some p → creation_quantum p = current_quantum st →
  state p = CREATED ∧ ctx p = None ∧ executed_work p = 0 ∧ runner c ≠ Some j.
Proof.
  intros I Hp Hq. assert (state p = CREATED) as Hs by (apply (i_created _ _ _ _ _ I j p Hp); lia).
  pose proof (i_pcbs _ _ _ _ _ I _ _ Hp) as Hok. unfold pcb_ok in Hok. case_decide as Hr.
  - destruct Hok as [Hs' _]. congruence.
  - unfold idle_ok in Hok. rewrite Hs in Hok. destruct Hok. done.
Qed.

Lemma arrive_inv now c :
  settled ok ps st c →
  inv ok ps (current_quantum st + 1) (handle_arrivals now st) c ∧
  measure (handle_arrivals now st) c = measure st c.
Proof.
  intros I. pose proof (arriving c) as Harr. set (st' := handle_arrivals now st).
  assert (∀ j p', pcbs st' !! j = Some p' → ∃ p, pcbs st !! j = Some p ∧
    p' = (if decide (creation_quantum p = current_quantum st) then set_arrival now p else p)) as Hl.
  { intros j p' Hp'. unfold st' in Hp'. rewrite arrive_lookup in Hp'. destruct (pcbs st !! j) as [p|]; [|done].
    injection Hp' as <-. by exists p. }
  assert (length (pcbs st') = length (pcbs st)) as Hlen by apply length_fmap.
  assert (∀ j p p', pcbs st !! j = Some p → pcbs st' !! j = Some p' →
    identity p' = identity p ∧ steps_left c j p' = steps_left c j p ∧ pcb_ok c j p' ∧
    (state p' = TERMINATED ↔ state p = TERMINATED)) as Hsame.
  { intros j p p' Hp Hp'. destruct (Hl j p' Hp') as (q & Hq & ->). assert (q = p) as -> by congruence.
    pose proof (i_pcbs _ _ _ _ _ I _ _ Hp) as Hok. case_decide as Hd; [|done].
    destruct (Harr j p I Hp Hd) as (Hs & Hc & He & Hr). unfold pcb_ok in *. rewrite !decide_False by done.
    split_and!; [done| |by left|by rewrite Hs].
    rewrite !steps_idle by done. rewrite Hs. unfold saved_steps. by rewrite Hc. }
  assert (measure st' c = measure st c) as Hm.
  { unfold measure. f_equal. apply Z.le_antisymm; apply isum_le; try done;
    intros j p p' Hp Hp'; simpl; [destruct (Hsame j p p' Hp Hp')|destruct (Hsame j p' p Hp' Hp)]; lia. }
  split; [|done]. split.
  - rewrite <- (i_same _ _ _ _ _ I). apply pointwise_fmap; [done|]. intros j p p' Hp Hp'. by apply (Hsame j).
  - apply Forall_fmap. eapply Forall_impl; [apply (i_range _ _ _ _ _ I)|]. intros p Hp. simpl. by case_decide.
  - intros j p' Hp'. destruct (Hl j p' Hp') as (p & Hp & ->). pose proof (i_created _ _ _ _ _ I j p Hp) as Hc.
    case_decide; simpl; [split; [done|lia]|]. rewrite Hc. lia.
  - apply (i_quantum _ _ _ _ _ I).
  - pose proof (i_used _ _ _ _ _ I) as Hu. enough (ended st' ≤ ended st) by (simpl; lia).
    apply isum_le; [done|]. intros j p p' Hp Hp'. simpl. destruct (Hsame j p p' Hp Hp') as (_ & _ & _ & Ht).
    repeat case_decide; try lia. tauto.
  - rewrite Hm. apply (i_bound _ _ _ _ _ I).
  - apply I.
  - destruct (i_current _ _ _ _ _ I) as (p & Hp & Hc).
    destruct (lookup_lt_is_Some_2 (pcbs st') (current_process st)) as [p' Hp'];
      [rewrite Hlen; by eapply lookup_lt_Some|].
    exists p'. split; [done|]. destruct (runner c); [done|]. by apply (Hsame _ p p' Hp Hp').
  - intros j p' Hp'. destruct (Hl j p' Hp') as (p & Hp & _). by apply (Hsame j p p').
  - intros Hc. pose proof (i_halted _ _ _ _ _ I Hc) as Hh. apply Forall_lookup_2. intros j p' Hp'.
    destruct (Hl j p' Hp') as (p & Hp & _). apply (Hsame j p p' Hp Hp'). by apply (Forall_lookup_1 _ _ _ _ Hh Hp).
Qed.

(** The interrupted process is not among the arrivals. *)
Lemma arrive_interrupted now i k :
  settled ok ps st (InLoop i k) →
  handle_arrivals now (update_pcb i (set_state WAITING) st) = update_pcb i (set_state WAITING) (handle_arrivals now st).
Proof.
  intros I. unfold handle_arrivals, update_pcb. simpl. f_equal. apply list_eq. intros j.
  rewrite list_lookup_alter, !list_lookup_fmap, list_lookup_alter. case_decide as Hj; [|done]. subst j.
  destruct (pcbs st !! i) as [p|] eqn:Hp; [|done]. simpl.
  case_decide as Hd; [|done]. by destruct (arriving _ i p I Hp Hd) as (_ & _ & _ & []).
Qed.

Lemma finished_arrive now c : settled ok ps st c → finished (handle_arrivals now st) = finished st.
Proof.
  intros I. unfold finished, num_processes. simpl. rewrite length_fmap. f_equal.
  assert (∀ j p, pcbs st !! j = Some p → creation_quantum p = current_quantum st → state p ≠ TERMINATED) as Ha.
  { intros j p Hp Hd. destruct (arriving c j p I Hp Hd) as (-> & _). done. }
  clear I. induction (pcbs st) as [|p l IH]; [done|]. rewrite fmap_cons. cbn [forallb]. rewrite IH by (intros j q Hq; apply (Ha (S j) q Hq)).
  f_equal. case_decide as Hd; [|done]. by rewrite (bool_decide_false (state p = TERMINATED)) by (by apply (Ha 0%nat p)).
Qed.

(** What the handler does after the arrivals. *)
Definition dispatch (now : Z) (s : scheduler_state) (from : control) : outcome (scheduler_state * control) :=
  choice ← algo now s;
  match choice with
  | Some pid => context_switch now s from pid
  | None => Ok (s, return_to from)
  end.

Lemma pcb_facts c j p :
  inv ok ps a st c → pcbs st !! j = Some p → in_range ok p ∧ pcb_ok c j p.
Proof.
  intros I Hp. split; [|by apply (i_pcbs _ _ _ _ _ I)].
  by apply (Forall_lookup_1 _ _ _ _ (i_range _ _ _ _ _ I) Hp).
Qed.

Section interrupt.
Context (now : Z) (i k : nat) (I : inv ok ps a st (InLoop i k)) (p : process_ctl_block).
Context (Hp : pcbs st !! i = Some p) (Hlt : executed_work p < workload p).
Let st1 := update_pcb i (set_state WAITING) st.

Lemma interrupted_facts : i = current_process st ∧ state p = RUNNING ∧ in_range ok p ∧ (k < 20)%nat.
Proof.
  destruct (runner_facts _ i I eq_refl) as (Hi & q & Hq & [Hs [Hk _]] & Hin).
  rewrite Hp in Hq. injection Hq as <-. done.
Qed.

Lemma waiting_range : Forall (in_range ok) (pcbs st1).
Proof. pose proof (i_range _ _ _ _ _ I) as Hr. by apply Forall_alter. Qed.

Lemma interrupted_count : num_processes st1 = length ps.
Proof. rewrite <- (inv_count _ I). unfold num_processes, st1. simpl. apply length_alter. Qed.

Lemma none_running : Forall (λ p, state p ≠ RUNNING) (pcbs st1).
Proof.
  apply Forall_lookup_2. intros j q Hq. unfold st1 in Hq. rewrite update_lookup in Hq. case_decide.
  - rewrite Hp in Hq. by injection Hq as <-.
  - pose proof (i_pcbs _ _ _ _ _ I _ _ Hq) as Hok. unfold pcb_ok, idle_ok in Hok. simpl in Hok.
    rewrite decide_False in Hok by congruence. intros Hs. by rewrite Hs in Hok.
Qed.

Lemma interrupted_waits : waits st1 i.
Proof.
  exists (set_state WAITING p). split; [|done]. unfold st1. by rewrite update_lookup, decide_True, Hp.
Qed.

(** The chosen process, seen before the interrupt. *)
Lemma chosen_other j q :
  j ≠ i → pcbs st1 !! j = Some q → waiting q = true → pcbs st !! j = Some q ∧ idle_ok j q ∧ in_range ok q.
Proof.
  intros Hne Hq Hw. unfold st1 in Hq. rewrite update_lookup, decide_False in Hq by done.
  destruct (pcb_facts _ _ _ I Hq) as (? & Hok). unfold pcb_ok in Hok. simpl in Hok.
  by rewrite decide_False in Hok by congruence.
Qed.

Lemma same_moves :
  moves ok st (InLoop i k)
  (MkSched (pcbs (update_pcb i (set_state RUNNING) st1)) (current_quantum st + 1) i (g_main_ctx st))
  (PastTick i k).
Proof.
  destruct interrupted_facts as (Hi & Hs & Hin & Hk).
  assert (moves ok st (InLoop i k) (update_pcb i (λ p, set_state RUNNING (set_state WAITING p)) st) (PastTick i k))
    as [Hlen Hpcb Hcr He Hdrop Hq _ Hmain Hcur Hh].
  { apply (own_step _ i); [done|done|by left|]. intros q Hq _ Hinq. rewrite Hp in Hq. injection Hq as <-.
    split_and!; [done|exact Hin| |done|].
    - unfold pcb_ok. simpl. rewrite decide_True by done. by split.
    - rewrite steps_past_tick, steps_in_loop by done. unfold ticks. simpl. lia. }
  assert (pcbs (update_pcb i (set_state RUNNING) st1) =
    pcbs (update_pcb i (λ p, set_state RUNNING (set_state WAITING p)) st)) as Heq.
  { unfold st1. simpl. apply list_eq. intros j. rewrite !list_lookup_alter. repeat case_decide; try done.
    by destruct (pcbs st !! i). }
  rewrite Heq. split; [exact Hlen|exact Hpcb|exact Hcr|exact He|exact Hdrop| |done|exact Hmain| |done].
  - simpl. pose proof (i_quantum _ _ _ _ _ I). lia.
  - destruct Hcur as (r & Hr & _). exists r. split; [|done]. simpl in *. rewrite <- Hi in Hr. exact Hr.
Qed.

Lemma other_moves j q g c' :
  j ≠ i → pcbs st !! j = Some q → runner c' = Some j →
  (let q' := g (set_state RUNNING q) in
    identity q' = identity q ∧ in_range ok q' ∧ running_ok c' q' ∧ steps_left c' j q' = 2 + saved_steps q) →
  state q = WAITING →
  let st2 := update_pcb j (set_state RUNNING) (update_pcb i (set_ctx (AfterTick i k)) st1) in
  moves ok st (InLoop i k)
  (update_pcb j g (MkSched (pcbs st2) (current_quantum st + 1) j (g_main_ctx st))) c'.
Proof.
  intros Hne Hq Hr (Hid & Hin & Hrun & Hst) Hw st2.
  destruct interrupted_facts as (Hi & Hs & Hinp & Hk).
  set (st3 := update_pcb j g _).
  assert (∀ m, pcbs st3 !! m = if decide (m = j) then Some (g (set_state RUNNING q))
    else if decide (m = i) then Some (set_ctx (AfterTick i k) (set_state WAITING p)) else pcbs st !! m) as Hl.
  { intros m. unfold st3, st2, st1. simpl. rewrite !list_lookup_alter.
    repeat case_decide; subst; try done; rewrite ?Hq, ?Hp; done. }
  assert (steps_left c' i (set_ctx (AfterTick i k) (set_state WAITING p)) + 1 ≤
    steps_left (InLoop i k) i p) as Hd.
  { rewrite steps_idle by (rewrite Hr; congruence). rewrite steps_in_loop by done.
    unfold saved_steps, ticks. simpl. lia. }
  split.
  - unfold st3, st2, st1. simpl. by rewrite !length_alter.
  - intros m r r' Hm Hm'. rewrite Hl in Hm'. destruct (decide (m = j)) as [->|Hmj].
    + rewrite Hq in Hm. injection Hm as <-. injection Hm' as <-. split_and!; [done|done| |].
      * unfold pcb_ok. by rewrite decide_True.
      * rewrite Hst, steps_idle by (simpl; congruence). by rewrite Hw.
    + destruct (decide (m = i)) as [->|Hmi].
      * rewrite Hp in Hm. injection Hm as <-. injection Hm' as <-. split_and!; [done|done| |lia].
        unfold pcb_ok. rewrite decide_False by (rewrite Hr; congruence). unfold idle_ok. simpl.
        right. exists k. done.
      * assert (r' = r) as -> by congruence.
        apply other_pcb; [done|done|simpl; congruence|rewrite Hr; congruence].
  - intros m r r' Hm Hm'. rewrite Hl in Hm'. destruct (decide (m = j)) as [->|Hmj].
    + assert (r = q) as -> by congruence. injection Hm' as <-. destruct Hrun as [-> _]. by rewrite Hw.
    + destruct (decide (m = i)) as [->|Hmi]; [|by assert (r' = r) as -> by congruence].
      assert (r = p) as -> by congruence. injection Hm' as <-. simpl. by rewrite Hs.
  - intros m r r' Hm Hm' Ht. left. rewrite Hl in Hm'. destruct (decide (m = j)) as [->|Hmj].
    + injection Hm' as <-. destruct Hrun as [? _]. congruence.
    + destruct (decide (m = i)) as [->|Hmi]; [|congruence]. by injection Hm' as <-.
  - exists i, p, (set_ctx (AfterTick i k) (set_state WAITING p)), 1.
    rewrite Hl, decide_False, decide_True by done. split_and!; [done|done|done|].
    destruct c'; simpl in *; done || lia.
  - simpl. pose proof (i_quantum _ _ _ _ _ I). lia.
  - done.
  - apply I.
  - exists (g (set_state RUNNING q)). rewrite Hr. rewrite Hl, decide_True; done.
  - intros ->. done.
Qed.

Lemma interrupt_moves :
  ∃ st' c', dispatch now st1 (InLoop i k) = Ok (st', c') ∧ moves ok st (InLoop i k) st' c' ∧
  current_quantum st' = current_quantum st + 1.
Proof.
  destruct interrupted_facts as (Hi & Hs & Hin & Hk). pose proof waiting_range as Hr.
  pose proof (i_quantum _ _ _ _ _ I) as Hq. unfold dispatch.
  destruct (select_waiting (f := algo) now st1 i interrupted_count Hr none_running interrupted_waits) as (j & -> & q & Hj & Hw).
  cbn [mbind outcome_bind]. unfold context_switch. rewrite Hj. cbn [mbind outcome_bind require].
  change (current_process st1) with (current_process st). rewrite <- Hi.
  change (current_quantum st1) with (current_quantum st). rewrite (quantum_small _ I) by done.
  destruct (decide (j = i)) as [->|Hne].
  - rewrite decide_True by (split; [done|lia]). do 2 eexists. split; [done|]. split; [apply same_moves|done].
  - rewrite decide_False by tauto.
    destruct (chosen_other j q Hne Hj Hw) as (Hqj & Hok & Hinq).
    assert (state (current_pcb st1) = WAITING) as Hcur.
    { unfold current_pcb. change (current_process st1) with (current_process st). rewrite <- Hi.
      unfold st1. by rewrite update_lookup, decide_True, Hp. }
    rewrite (bool_decide_false (current_quantum st = 0 ∨ _)) by (rewrite Hcur; intros [|]; [lia|done]).
    cbn [here].
    set (st2 := update_pcb j (set_state RUNNING) (update_pcb i (set_ctx (AfterTick i k)) st1)).
    change (g_main_ctx st1) with (g_main_ctx st).
    destruct (resume_idle now (MkSched (pcbs st2) (current_quantum st + 1) j (g_main_ctx st)) j q Hok Hw Hinq
      eq_refl) as (g & c' & -> & Hrun & Hg).
    do 2 eexists. split; [done|]. split; [|done]. apply (other_moves j q g c'); try done.
    by apply bool_decide_eq_true in Hw.
Qed.
End interrupt.

(** A process that is neither to come nor done waits, as long as there is one
    in the list: by the density of the arrivals there always is. *)
Lemma due_same q (l l' : list process_ctl_block) : identity <$> l = identity <$> l' → due q l' ≤ due q l.
Proof.
  intros Hid. assert (length l = length l') as Hlen by (apply (f_equal length) in Hid; by rewrite !length_fmap in Hid).
  apply isum_le; [done|]. intros i p p' Hp Hp'.
  assert (Some (identity p) = Some (identity p')) as He.
  { rewrite <- (list_lookup_fmap_Some_2 identity l i p Hp), Hid. by rewrite list_lookup_fmap, Hp'. }
  unfold identity in He. injection He as _ _ -> _ _. lia.
Qed.

Lemma not_finished_waits :
  dense ps → inv ok ps (current_quantum st + 1) st AtMain → pcbs st ≠ [] → finished st = false → ∃ j, waits st j.
Proof.
  intros Hdense I Hne Hf. unfold finished in Hf.
  assert (0 < num_processes st)%nat as Hn by (unfold num_processes; destruct (pcbs st); [done|simpl; lia]).
  rewrite bool_decide_true in Hf by done. simpl in Hf.
  destruct (decide (Exists (λ q, waiting q = true) (pcbs st))) as [(q & Hq & Hw)%Exists_exists|Hnone].
  { apply list_elem_of_lookup in Hq as [j Hj]. by exists j, q. }
  exfalso. assert (∀ j q, pcbs st !! j = Some q → state q = TERMINATED ∨ current_quantum st + 1 ≤ creation_quantum q) as Hst.
  { intros j q Hj. destruct (decide (state q = TERMINATED)) as [|Ht]; [by left|right].
    apply (i_created _ _ _ _ _ I j q Hj). pose proof (i_pcbs _ _ _ _ _ I j q Hj) as Hok.
    unfold pcb_ok, idle_ok in Hok. simpl in Hok. destruct (state q) eqn:Hs; try done.
    destruct Hnone. apply Exists_exists. exists q. split; [by eapply list_elem_of_lookup_2|].
    unfold waiting. by rewrite bool_decide_true. }
  assert (due (current_quantum st) (pcbs st) ≤ ended st) as Hdue.
  { apply isum_le; [done|]. intros j q q' Hq Hq'. assert (q' = q) as -> by congruence.
    destruct (Hst j q Hq) as [->|?]; repeat case_decide; done || lia. }
  assert (Exists (λ q, state q ≠ TERMINATED) (pcbs st)) as (q & Hq & Ht)%Exists_exists.
  { destruct (decide (Exists (λ q, state q ≠ TERMINATED) (pcbs st))) as [|Hall]; [done|exfalso].
    assert (forallb (λ p, bool_decide (state p = TERMINATED)) (pcbs st) = true); [|congruence].
    apply Is_true_true, forallb_True, Forall_forall. intros q Hq. apply bool_decide_pack.
    destruct (decide (state q = TERMINATED)); [done|]. destruct Hall. apply Exists_exists. eauto. }
  apply list_elem_of_lookup in Hq as [j Hj]. destruct (Hst j q Hj) as [|Hlate]; [done|].
  pose proof (i_quantum _ _ _ _ _ I). pose proof (i_used _ _ _ _ _ I) as Hu. cbn in Hu.
  assert (current_quantum st < due (current_quantum st) ps) as Hd.
  { apply Hdense; [lia|]. apply Exists_exists.
    pose proof (list_lookup_fmap_Some_2 identity (pcbs st) j q Hj) as Hid. rewrite (i_same _ _ _ _ _ I) in Hid.
    apply list_lookup_fmap_Some in Hid as (p & Hid & Hp). exists p. split; [by eapply list_elem_of_lookup_2|].
    unfold identity in Hid. injection Hid as _ _ Hc _ _. lia. }
  pose proof (due_same (current_quantum st) _ _ (i_same _ _ _ _ _ I)). lia.
Qed.

Lemma main_moves now j0 :
  inv ok ps a st AtMain → waits st j0 →
  ∃ st' c', dispatch now st AtMain = Ok (st', c') ∧ moves ok st AtMain st' c' ∧
  current_quantum st' = current_quantum st + 1.
Proof.
  intros I Hj0. destruct (i_current _ _ _ _ _ I) as (p0 & Hp0 & Ht). simpl in Ht.
  pose proof (i_range _ _ _ _ _ I) as Hr. pose proof (i_quantum _ _ _ _ _ I) as Hq.
  assert (Forall (λ p, state p ≠ RUNNING) (pcbs st)) as Hnr.
  { apply Forall_lookup_2. intros j q Hj. pose proof (i_pcbs _ _ _ _ _ I _ _ Hj) as Hok.
    unfold pcb_ok, idle_ok in Hok. simpl in Hok. intros Hs. by rewrite Hs in Hok. }
  unfold dispatch. assert (state (current_pcb st) = TERMINATED) as Hcur
    by (unfold current_pcb; by rewrite Hp0).
  destruct (select_waiting (f := algo) now st j0 (inv_count _ I) Hr Hnr Hj0) as (j & -> & q & Hj & Hw).
  cbn [mbind outcome_bind]. unfold context_switch. rewrite Hj. cbn [mbind outcome_bind require].
  destruct (pcb_facts _ _ _ I Hj) as (Hin & Hok). unfold pcb_ok in Hok. simpl in Hok.
  assert (state q = WAITING) as Hws by (by apply bool_decide_eq_true in Hw).
  assert (j ≠ current_process st) as Hne by (intros ->; congruence).
  rewrite decide_False by tauto. rewrite (quantum_small _ I) by done.
  rewrite bool_decide_true by (by right). cbn [here].
  destruct (resume_idle now (MkSched (pcbs (update_pcb j (set_state RUNNING) st))
    (current_quantum st + 1) j MainCheck) j q Hok Hw Hin eq_refl)
    as (g & c' & -> & Hrun & Hid & Hin' & Hrok & Hst).
  do 2 eexists. split; [done|]. split; [|done]. set (st3 := update_pcb j g _).
  assert (∀ m, pcbs st3 !! m = if decide (m = j) then Some (g (set_state RUNNING q)) else pcbs st !! m) as Hl.
  { intros m. unfold st3. simpl. rewrite !list_lookup_alter. repeat case_decide; subst; try done. by rewrite Hj. }
  split.
  - unfold st3. simpl. by rewrite !length_alter.
  - intros m r r' Hm Hm'. rewrite Hl in Hm'. destruct (decide (m = j)) as [->|Hmj].
    + rewrite Hj in Hm. injection Hm as <-. injection Hm' as <-. split_and!; [done|done| |].
      * unfold pcb_ok. by rewrite decide_True.
      * rewrite Hst, steps_idle by done. by rewrite Hws.
    + assert (r' = r) as -> by congruence. apply other_pcb; [done|done|done|rewrite Hrun; congruence].
  - intros m r r' Hm Hm'. rewrite Hl in Hm'. destruct (decide (m = j)) as [->|Hmj]; [|by assert (r' = r) as -> by congruence].
    assert (r = q) as -> by congruence. injection Hm' as <-. destruct Hrok as [-> _]. by rewrite Hws.
  - intros m r r' Hm Hm' Hte. left. rewrite Hl in Hm'. destruct (decide (m = j)) as [->|Hmj]; [|congruence].
    injection Hm' as <-. destruct Hrok as [? _]. congruence.
  - exists j, q, (g (set_state RUNNING q)), 0. rewrite Hl, decide_True by done.
    split_and!; [done|done|rewrite Hst, steps_idle by done; rewrite Hws; simpl; lia|].
    destruct c'; simpl in *; done || lia.
  - simpl. lia.
  - done.
  - done.
  - exists (g (set_state RUNNING q)). rewrite Hrun. rewrite Hl, decide_True; done.
  - intros ->. done.
Qed.

Lemma halt_moves : inv ok ps a st AtMain → finished st = true → moves ok st AtMain st Halted.
Proof.
  intros I Hf. destruct (i_current _ _ _ _ _ I) as (p0 & Hp0 & Ht). simpl in Ht.
  assert (Forall (λ p, state p = TERMINATED) (pcbs st)) as Hall.
  { unfold finished in Hf. apply andb_true_iff in Hf as [_ Hf].
    apply Is_true_true, forallb_True in Hf. eapply Forall_impl; [exact Hf|].
    intros q Hq. by apply bool_decide_unpack in Hq. }
  split; try done.
  - intros j q q' Hq Hq'. assert (q' = q) as -> by congruence. by apply (other_pcb AtMain).
  - intros j q q' Hq Hq'. by assert (q' = q) as -> by congruence.
  - intros j q q' Hq Hq' Hte. left. congruence.
  - exists (current_process st), p0, p0, 0. split_and!; [done|done| |simpl; lia].
    rewrite !steps_idle by done. lia.
  - pose proof (i_quantum _ _ _ _ _ I). lia.
  - apply I.
  - by exists p0.
Qed.

End step.

(** * Gaps *)

(** Not all is done, and no process waits or arrives. *)
Definition gap (st : scheduler_state) : Prop :=
  finished st = false ∧ Forall (λ q, waiting q = false ∧ creation_quantum q ≠ current_quantum st) (pcbs st).
#[export] Instance gap_dec st : Decision (gap st).
Proof. unfold gap. apply _. Defined.

Lemma no_gap_waits now st : finished st = false → ¬ gap st → ∃ j, waits (handle_arrivals now st) j.
Proof.
  intros Hf Hg. destruct (decide (Forall (λ q, waiting q = false ∧ creation_quantum q ≠ current_quantum st) (pcbs st)))
    as [|Hn]; [by destruct Hg|].
  apply not_Forall_Exists, Exists_exists in Hn as (q & Hq & Hn); [|apply _].
  apply list_elem_of_lookup in Hq as [j Hj]. exists j. unfold waits. setoid_rewrite arrive_lookup. rewrite Hj. simpl.
  eexists. split; [done|]. case_decide; [done|]. destruct (waiting q) eqn:Hw; [done|]. by destruct Hn; split.
Qed.

(** * Runs *)
Section runs.
Context (ok : Z → Prop) (algo : algorithm) (ps : list process_ctl_block) `{!Selector (length ps) ok algo}.

Lemma dense_no_gap st : dense ps → settled ok ps st AtMain → ¬ gap st.
Proof.
  intros Hdense I [Hf Hn]. destruct (arrive_inv ok ps st 0 AtMain I) as [IA _].
  destruct (not_finished_waits ok ps (handle_arrivals 0 st) Hdense IA) as (j & q & Hj & Hw).
  - destruct (i_current _ _ _ _ _ IA) as (p & Hp & _). by intros Hnil; rewrite Hnil in Hp.
  - by rewrite (finished_arrive ok ps st 0 AtMain I).
  - rewrite arrive_lookup in Hj. destruct (pcbs st !! j) as [r|] eqn:Hr; [|done]. simpl in Hj.
    pose proof (Forall_lookup_1 _ _ _ _ Hn Hr) as [? ?]. rewrite decide_False in Hj by done. congruence.
Qed.

(** The handler, from main or from a process, makes a move after the arrivals. *)
Lemma handler_progress now st c :
  settled ok ps st c → c ≠ Halted → runner c = None ∨ (∃ i k p, c = InLoop i k ∧ pcbs st !! i = Some p ∧ executed_work p < workload p) →
  (c = AtMain → ∃ j, waits (handle_arrivals now st) j) →
  ∃ st' c', interrupt_handler algo now st c = Ok (st', c') ∧ settled ok ps st' c' ∧ measure st' c' < measure st c.
Proof.
  intros I Hc Hcase Hw. destruct (arrive_inv ok ps st now c I) as [IA HmA].
  set (stA := handle_arrivals now st) in *.
  enough (∃ st' c', interrupt_handler algo now st c = Ok (st', c') ∧ moves ok stA c st' c' ∧
    current_quantum st' = current_quantum st + 1) as (st' & c' & Hs & HM & Hq).
  { exists st', c'. split; [done|]. destruct (moves_inv ok ps _ stA c st' c' IA HM) as [I' Hm].
    unfold settled. rewrite Hq. split; [exact I'|lia]. }
  destruct Hcase as [Hr|(i & k & p & -> & Hp & Hlt)].
  - destruct c; try done. destruct (i_current _ _ _ _ _ I) as (p0 & Hp0 & Ht). simpl in Ht.
    assert (interrupt_handler algo now st AtMain = dispatch algo now stA AtMain) as ->.
    { unfold interrupt_handler. rewrite decide_False; [done|]. unfold current_pcb. rewrite Hp0. simpl. congruence. }
    destruct (Hw eq_refl) as [j Hj].
    destruct (main_moves ok algo ps (current_quantum st + 1) stA now j IA Hj) as (st' & c' & ? & ? & ?). eauto.
  - destruct (runner_facts ok ps _ st _ i I eq_refl) as (Hi & q & Hq & [Hs _] & _).
    assert (q = p) as -> by congruence.
    assert (interrupt_handler algo now st (InLoop i k) = dispatch algo now (update_pcb i (set_state WAITING) stA) (InLoop i k)) as ->.
    { unfold interrupt_handler, current_pcb. rewrite <- Hi, Hp. simpl. rewrite decide_True by done.
      unfold stA. by rewrite <- (arrive_interrupted ok ps st now i k I). }
    assert (pcbs stA !! i = Some p) as HpA.
    { unfold stA. rewrite arrive_lookup, Hp. simpl. rewrite decide_False; [done|]. intros Hd.
      destruct (arriving ok ps st _ i p I Hp Hd) as (? & _). congruence. }
    destruct (interrupt_moves ok algo ps (current_quantum st + 1) stA now i k IA p HpA Hlt) as (st' & c' & ? & ? & ?). eauto.
Qed.

(** Out of gaps every step succeeds, keeps the invariant, and decreases the
    measure. *)
Lemma step_no_gap now b st c :
  settled ok ps st c → c ≠ Halted → (c = AtMain → ¬ gap st) →
  ∃ st' c', step algo now b st c = Ok (st', c') ∧ settled ok ps st' c' ∧ measure st' c' < measure st c.
Proof.
  intros I Hc Hg.
  assert (∀ st' c', moves ok st c st' c' → current_quantum st' = current_quantum st →
    settled ok ps st' c' ∧ measure st' c' < measure st c) as Hmove.
  { intros st' c' HM Hq. unfold settled. rewrite Hq. by apply moves_inv. }
  destruct c as [|i k|i k|]; [| | |done]; cbn [step].
  - destruct (finished st) eqn:Hf; [|apply handler_progress; auto using no_gap_waits].
    do 2 eexists. split; [done|]. apply Hmove; [by eapply halt_moves|done].
  - destruct (runner_facts _ _ _ _ _ i I eq_refl) as (_ & p & Hp & [_ [_ Hlt]] & Hin).
    unfold pcb_at. rewrite Hp. cbn [mbind outcome_bind require].
    case_decide as Hd.
    + destruct Hd as [-> Hge]. rewrite status_bar_ok by lia. cbn [mbind outcome_bind]. rewrite (i_main _ _ _ _ _ I). do 2 eexists. split; [done|].
      apply Hmove; [|done]. eapply process_ends; [done|]. intros q Hq. rewrite Hp in Hq. by injection Hq as <-.
    + assert (executed_work p < workload p) as Hl.
      { destruct k; [|apply Hlt; lia]. destruct (decide (executed_work p < workload p)); [done|].
        destruct Hd. split; [done|lia]. }
      pose proof Hin as (_ & ? & ? & _). rewrite progress_next by lia.
      destruct b; [apply handler_progress; [done|done|right; by exists i, k, p|done]|].
      do 2 eexists. split; [done|]. apply Hmove; [|done]. rewrite <- (update_id i st) at 2.
      eapply tick_without_interrupt; [done|]. intros q Hq. rewrite Hp in Hq. by injection Hq as <-.
  - destruct (tick_done ok ps _ st i k I) as [H1 H2]. case_decide as Hd.
    + do 2 eexists. split; [done|]. apply Hmove; [by apply H1|done].
    + do 2 eexists. split; [done|]. apply Hmove; [|done]. rewrite <- (update_id i st) at 2. by apply H2.
Qed.

Lemma run_halted inputs st : run algo inputs st Halted = Ok (st, Halted).
Proof. induction inputs as [|[now b] inputs IH]; [done|exact IH]. Qed.

(** Up to the first gap every stage of a run satisfies the invariant. *)
Lemma run_to_gap_safe inputs st c :
  settled ok ps st c →
  ∃ before after, inputs = before ++ after ∧
  (∀ front, front `prefix_of` before → ∃ st' c', run algo front st c = Ok (st', c') ∧ settled ok ps st' c') ∧
  (after = [] ∨ ∃ st', run algo before st c = Ok (st', AtMain) ∧ settled ok ps st' AtMain ∧ gap st').
Proof.
  revert st c. induction inputs as [|[now b] inputs IH]; intros st c I.
  - exists [], []. split_and!; [done| |by left]. intros front ->%prefix_nil_inv. by exists st, c.
  - destruct (decide (c = AtMain ∧ gap st)) as [[-> Hg]|Hg].
    + exists [], ((now, b) :: inputs). split_and!; [done| |right; by exists st]. intros front ->%prefix_nil_inv. by exists st, AtMain.
    + assert (∃ st1 c1, step algo now b st c = Ok (st1, c1) ∧ settled ok ps st1 c1) as (st1 & c1 & Hs & I1).
      { destruct (decide (c = Halted)) as [->|Hc]; [by exists st, Halted|].
        destruct (step_no_gap now b st c I Hc ltac:(tauto)) as (st1 & c1 & ? & ? & _). by exists st1, c1. }
      destruct (IH st1 c1 I1) as (before & after & -> & Hall & Hend).
      exists ((now, b) :: before), after. cbn [run]. rewrite Hs. split_and!; [done| |exact Hend].
      intros [|x front] Hp; [by exists st, c|]. pose proof (prefix_cons_inv_1 _ _ _ _ Hp) as ->.
      apply prefix_cons_inv_2 in Hp. cbn [run]. rewrite Hs. by apply Hall.
Qed.

(** A run goes on to a gap, or to its end. *)
Lemma run_to_gap inputs st c :
  settled ok ps st c →
  ∃ before after st' c', inputs = before ++ after ∧ run algo before st c = Ok (st', c') ∧ settled ok ps st' c' ∧
  ((c' = AtMain ∧ gap st') ∨ (after = [] ∧ (measure st c ≤ Z.of_nat (length inputs) → c' = Halted))).
Proof.
  revert st c. induction inputs as [|[now b] inputs IH]; intros st c I;
    (destruct (decide (c = AtMain ∧ gap st)) as [Hg|Hg]; [by eexists [], _, st, c; split_and!; [done|done|done|left]|]).
  - exists [], [], st, c. split_and!; [done|done|done|right]. split; [done|]. simpl. intros Hm. destruct (decide (c = Halted)); [done|].
    pose proof (measure_pos ok ps _ st c I ltac:(done)). lia.
  - destruct (decide (c = Halted)) as [->|Hc].
    + exists ((now, b) :: inputs), [], st, Halted. rewrite app_nil_r. split_and!; [done|apply run_halted|done|by right].
    + destruct (step_no_gap now b st c I Hc ltac:(tauto)) as (st1 & c1 & Hs & I1 & Hm).
      destruct (IH st1 c1 I1) as (before & after & st' & c' & -> & Hr & I' & Hd).
      exists ((now, b) :: before), after, st', c'. cbn [run]. rewrite Hs. split_and!; [done|exact Hr|done|].
      destruct Hd as [|[-> Hh]]; [by left|right]. split; [done|]. intros Hle. apply Hh. simpl in Hle. lia.
Qed.

(** Without gaps, a run goes on to its end. *)
Context (Hdense : dense ps).

Lemma step_progress now b st c :
  settled ok ps st c → c ≠ Halted →
  ∃ st' c', step algo now b st c = Ok (st', c') ∧ settled ok ps st' c' ∧ measure st' c' < measure st c.
Proof. intros I Hc. apply step_no_gap; [done|done|]. intros ->. by apply dense_no_gap. Qed.

Lemma run_inv inputs st c :
  settled ok ps st c →
  ∃ st' c', run algo inputs st c = Ok (st', c') ∧ settled ok ps st' c' ∧
  (measure st c ≤ Z.of_nat (length inputs) → c' = Halted).
Proof.
  intros I. destruct (run_to_gap inputs st c I) as (before & after & st' & c' & -> & Hr & I' & [[-> Hg]|[-> Hh]]).
  - by destruct (dense_no_gap st' Hdense I').
  - exists st', c'. by rewrite app_nil_r in *.
Qed.
End runs.
