(* ===== verification/SchedSpec.v ===== *)
(** What the scheduler (LabWork/Lab7/scheduler.c) guarantees: completion and
    safety of whole runs, the choices of the algorithms, and what happens when
    no process waits. *)
From Stdlib Require Import ZArith Lia Ascii.
From stdpp Require Import prelude gmap strings numbers list.
From S2P Require Import Prelude CString Scheduler SchedSelect SchedRun.
Open Scope Z_scope.
Import CInt.

(** * Whole runs *)

(** The state [read_spec] leaves. *)
Definition initial (ps : list process_ctl_block) : scheduler_state := MkSched ps 0 0 MainCheck.
(** A process that has not arrived. *)
Definition fresh (ok : Z → Prop) (p : process_ctl_block) : Prop :=
  state p = CREATED ∧ ctx p = None ∧ executed_work p = 0 ∧ in_range ok p.
(** The steps of all processes: two for each of the 20 inner iterations of a
    unit of work, and three for its start and end. *)
Fixpoint total_steps (ps : list process_ctl_block) : Z :=
  match ps with [] => 0 | p :: ps' => 40 * workload p + 3 + total_steps ps' end.

Lemma total_steps_nonneg ok ps : Forall (fresh ok) ps → 0 ≤ total_steps ps.
Proof. induction 1 as [|p l (_ & _ & _ & _ & ? & _) _ IH]; simpl; lia. Qed.

(** Arrivals that leave no gap include one in the first quantum. *)
Lemma dense_first ok ps :
  ps ≠ [] → Forall (fresh ok) ps → dense ps → Exists (λ p, creation_quantum p = 0) ps.
Proof.
  intros Hne Hf Hdense. destruct (decide (Exists (λ p, creation_quantum p = 0) ps)) as [|Hno]; [done|].
  exfalso. assert (Forall (λ p, 0 < creation_quantum p) ps) as Hpos.
  { apply Forall_forall. intros p Hp. rewrite Forall_forall in Hf. destruct (Hf p Hp) as (_ & _ & _ & Hr & _).
    destruct (decide (creation_quantum p = 0)); [|lia]. destruct Hno. apply Exists_exists. eauto. }
  assert (0 < due 0 ps) as Hd.
  { apply Hdense; [done|]. clear -Hne Hpos. destruct Hpos; [done|]. by left. }
  enough (due 0 ps ≤ 0) by lia. clear -Hpos. unfold due. generalize 0%nat as n.
  induction Hpos as [|p l Hp _ IH]; intros n; simpl; [lia|]. rewrite decide_False by lia. specialize (IH (S n)). lia.
Qed.

Section start.
Context (ok : Z → Prop) (algo : algorithm) (ps : list process_ctl_block) `{!Selector (length ps) ok algo}.
Context (Hf : Forall (fresh ok) ps) (Hfirst : Exists (λ p, creation_quantum p = 0) ps).
Context (Hb : total_steps ps + 1 < 4294967296).

Lemma isum_total f n (l : list process_ctl_block) :
  (∀ i p, l !! i = Some p → f (n + i)%nat p = 40 * workload p + 3) → isum f n l = total_steps l.
Proof.
  revert n. induction l as [|p l IH]; intros n Hl; simpl; [done|].
  rewrite <- (Nat.add_0_r n) at 1. rewrite (Hl 0%nat p eq_refl). rewrite (IH (S n)); [lia|].
  intros i q Hq. rewrite <- (Hl (S i) q Hq). f_equal. lia.
Qed.

Lemma total_alter f i (l : list process_ctl_block) :
  (∀ p, workload (f p) = workload p) → total_steps (alter f i l) = total_steps l.
Proof.
  intros Hw. revert i. induction l as [|p l IH]; intros [|i]; try done.
  - simpl. by rewrite Hw.
  - change (alter f (S i) (p :: l)) with (p :: alter f i l). cbn [total_steps]. by rewrite IH.
Qed.

Lemma total_fmap f (l : list process_ctl_block) :
  (∀ p, workload (f p) = workload p) → total_steps (f <$> l) = total_steps l.
Proof.
  intros Hw. induction l as [|p l IH]; [done|]. rewrite fmap_cons. cbn [total_steps]. by rewrite Hw, IH.
Qed.

(** The arrivals of the first quantum. *)
Let first_arrival (now : Z) (p : process_ctl_block) : process_ctl_block :=
  if decide (creation_quantum p = 0) then set_arrival now p else p.
Let arrived (now : Z) := handle_arrivals now (initial ps).

Lemma arrived_count now : num_processes (arrived now) = length ps.
Proof. unfold num_processes, arrived, handle_arrivals. simpl. apply length_fmap. Qed.

Lemma first_waits now : Forall (in_range ok) (pcbs (arrived now)) ∧
  Forall (λ p, state p ≠ RUNNING) (pcbs (arrived now)) ∧ ∃ i, waits (arrived now) i.
Proof.
  assert (∀ P, (∀ p, fresh ok p → P (first_arrival now p)) → Forall P (pcbs (arrived now))) as Hall.
  { intros P HP. apply Forall_fmap. eapply Forall_impl; [exact Hf|]. exact HP. }
  split_and!.
  - apply Hall. intros p (_ & _ & _ & Hr). unfold first_arrival. by case_decide.
  - apply Hall. intros p (Hs & _). unfold first_arrival. case_decide; simpl; congruence.
  - apply Exists_exists in Hfirst as (p & [i Hp]%list_elem_of_lookup & Hc). exists i, (set_arrival now p). split; [|done].
    unfold arrived, handle_arrivals. simpl. rewrite list_lookup_fmap, Hp. simpl. by rewrite decide_True.
Qed.

Lemma not_finished : finished (initial ps) = false.
Proof.
  unfold finished, initial. simpl. clear -Hf. destruct Hf as [|p l (Hs & _) _]; [done|].
  simpl. rewrite (bool_decide_false (state p = TERMINATED)) by congruence. done.
Qed.

(** The state after the first switch, to process [j]. *)
Let started (now : Z) (j : nat) : scheduler_state :=
  update_pcb j (set_start now)
  (MkSched (pcbs (update_pcb j (set_state RUNNING) (arrived now))) (wrap32 1) j MainCheck).

Lemma started_pcb now j m r :
  pcbs (started now j) !! m = Some r →
  ∃ p, ps !! m = Some p ∧ identity r = identity p ∧ executed_work r = 0 ∧ fresh ok p ∧
  if decide (m = j) then state r = RUNNING
  else if decide (creation_quantum p = 0) then state r = WAITING ∧ ctx r = Some Fresh
  else state r = CREATED ∧ ctx r = None.
Proof.
  unfold started, arrived, handle_arrivals. simpl. rewrite !list_lookup_alter, list_lookup_fmap. intros Hr.
  destruct (ps !! m) as [p|] eqn:Hm; [|by repeat case_decide; subst; rewrite ?list_lookup_fmap, Hm in Hr].
  pose proof (Forall_lookup_1 _ _ _ _ Hf Hm) as Hfr. pose proof Hfr as (Hs & Hc & He & _).
  exists p. destruct (decide (m = j)) as [->|Hmj].
  - rewrite !decide_True in Hr by done. rewrite ?list_lookup_alter, ?decide_True, ?list_lookup_fmap, ?Hm in Hr by done.
    simpl in Hr. injection Hr as <-. by destruct (decide (creation_quantum p = 0)).
  - rewrite !decide_False in Hr by congruence. rewrite ?list_lookup_fmap, ?Hm in Hr. simpl in Hr.
    destruct (decide (creation_quantum p = 0)); injection Hr as <-; by split_and!.
Qed.

Lemma started_measure now j : measure (started now j) (InLoop j 0) = total_steps ps.
Proof.
  unfold measure. simpl main_step. rewrite (isum_total _ 0).
  - unfold started, arrived, handle_arrivals. simpl. rewrite !total_alter, total_fmap by (done || (intros p; by case_decide)). lia.
  - intros m r Hr. destruct (started_pcb now j m r Hr) as (p & _ & _ & He & (_ & _ & _ & _ & ? & _) & Hs). simpl.
    destruct (decide (m = j)) as [->|].
    + rewrite steps_in_loop by done. unfold ticks. lia.
    + rewrite steps_idle by (simpl; congruence). unfold saved_steps, ticks.
      case_decide; destruct Hs as [Hs Hc]; rewrite Hs, Hc; simpl; lia.
Qed.

Lemma started_inv now j : waits (arrived now) j → settled ok ps (started now j) (InLoop j 0).
Proof.
  intros (pj & Hpj & Hwj). unfold arrived, handle_arrivals in Hpj. simpl in Hpj.
  apply list_lookup_fmap_Some in Hpj as (pj0 & -> & Hpj). pose proof (started_pcb now j) as Hl.
  assert (creation_quantum pj0 = 0) as Hj0.
  { pose proof (Forall_lookup_1 _ _ _ _ Hf Hpj) as (Hs & _). apply bool_decide_eq_true in Hwj.
    destruct (decide (creation_quantum pj0 = 0)); [done|]. congruence. }
  assert (length (pcbs (started now j)) = length ps) as Hlen.
  { unfold started, arrived, handle_arrivals. simpl. by rewrite !length_alter, length_fmap. }
  unfold settled. change (current_quantum (started now j)) with 1. split.
  - apply pointwise_fmap; [done|]. intros m p r Hp Hr. destruct (Hl m r Hr) as (p' & ? & ? & _). congruence.
  - apply Forall_lookup_2. intros m r Hr. destruct (Hl m r Hr) as (p & Hp & Hid & He & (_ & _ & Hx & Hin) & _).
    unfold identity in Hid. injection Hid as _ _ Hc' Hw' Hpr. unfold in_range in *. rewrite Hx in Hin. by rewrite Hc', Hw', Hpr, He.
  - intros m r Hr. destruct (Hl m r Hr) as (p & Hp & Hid & He & (_ & _ & _ & Hin & _) & Hs).
    unfold identity in Hid. injection Hid as _ _ Hc _ _. rewrite Hc. case_decide as Hmj.
    + subst m. assert (p = pj0) as -> by congruence. rewrite Hs, Hj0. split; [done|intros ?; lia].
    + case_decide; destruct Hs as [-> _]; (split; [intros ?|intros ?]); first [done|lia|exfalso; lia].
  - done.
  - enough (ended (started now j) ≤ 0) as He by (change (ended (started now j) + 1 ≤ 1); lia). unfold ended.
    assert (∀ m r, pcbs (started now j) !! m = Some r → state r ≠ TERMINATED) as Hnt.
    { intros m r Hr. destruct (Hl m r Hr) as (p & _ & _ & _ & _ & Hs). destruct (decide (m = j)); [congruence|].
      destruct (decide (creation_quantum p = 0)); destruct Hs; congruence. }
    clear -Hnt. revert Hnt. generalize 0%nat as n. induction (pcbs (started now j)) as [|r l IH]; intros n Hnt; simpl; [lia|].
    rewrite decide_False by apply (Hnt 0%nat r eq_refl). specialize (IH (S n) (λ m, Hnt (S m))). lia.
  - rewrite started_measure. change (1 + total_steps ps < 4294967296). lia.
  - done.
  - destruct (lookup_lt_is_Some_2 (pcbs (started now j)) j) as [r Hr];
    [rewrite Hlen; by eapply lookup_lt_Some|by exists r].
  - intros m r Hr. destruct (Hl m r Hr) as (p & Hp & Hid & He & (_ & _ & _ & _ & ? & _) & Hs).
    unfold pcb_ok. simpl. destruct (decide (m = j)) as [->|Hmj].
    + rewrite decide_True by done. split; [done|]. split; lia.
    + rewrite decide_False by congruence. unfold idle_ok. case_decide; destruct Hs as [-> ->]; [by left|done].
  - done.
Qed.

(** The first step starts a process and establishes the invariant. *)
Lemma first_step now b :
  ∃ st c, step algo now b (initial ps) AtMain = Ok (st, c) ∧ settled ok ps st c ∧ measure st c = total_steps ps.
Proof.
  destruct (first_waits now) as (Hr & Hn & i & Hw). cbn [step]. rewrite not_finished.
  unfold interrupt_handler.
  assert (state (current_pcb (initial ps)) ≠ RUNNING) as Hcur.
  { unfold current_pcb, initial. simpl. clear -Hf. by destruct Hf as [|p l (Hs & _) _]; simpl; rewrite ?Hs. }
  rewrite decide_False by done. fold (arrived now).
  destruct (select_waiting (f := algo) now (arrived now) i (arrived_count now) Hr Hn Hw) as (j & -> & Hj). pose proof Hj as (q & Hq & Hwq).
  cbn [mbind outcome_bind]. unfold context_switch. rewrite Hq. cbn [mbind outcome_bind require].
  rewrite decide_False by (simpl; lia). rewrite bool_decide_true by (left; done). cbn [here].
  assert (ctx q = Some Fresh) as ->.
  { unfold arrived, handle_arrivals in Hq. simpl in Hq. apply list_lookup_fmap_Some in Hq as (p & -> & Hp).
    pose proof (Forall_lookup_1 _ _ _ _ Hf Hp) as (Hs & _). apply bool_decide_eq_true in Hwq.
    destruct (decide (creation_quantum p = 0)); [done|]. congruence. }
  cbn [resume]. exists (started now j), (InLoop j 0). split_and!; [done|by apply started_inv|apply started_measure].
Qed.

(** Any non-empty run keeps the invariant; without gaps a long one ends. *)
Lemma run_from_start inputs :
  dense ps → inputs ≠ [] →
  ∃ st c, run algo inputs (initial ps) AtMain = Ok (st, c) ∧ settled ok ps st c ∧
  (total_steps ps + 1 ≤ Z.of_nat (length inputs) → c = Halted).
Proof.
  intros Hdense. destruct inputs as [|[now b] inputs]; [done|]. intros _. cbn [run].
  destruct (first_step now b) as (st1 & c1 & -> & I & Hm). cbn [mbind outcome_bind].
  destruct (run_inv ok algo ps Hdense inputs st1 c1 I) as (st & c & -> & I' & Hh).
  exists st, c. split_and!; [done|done|]. intros Hl. apply Hh. simpl in Hl. lia.
Qed.
End start.

Lemma run_completes (ok : Z → Prop) (algo : algorithm) (ps : list process_ctl_block) inputs :
  Selector (length ps) ok algo → ps ≠ [] → Forall (fresh ok) ps → dense ps → total_steps ps + 1 < 4294967296 →
  total_steps ps + 1 ≤ Z.of_nat (length inputs) →
  ∃ st, run algo inputs (initial ps) AtMain = Ok (st, Halted) ∧
    identity <$> pcbs st = identity <$> ps ∧
    Forall (λ p, state p = TERMINATED ∧ executed_work p = workload p) (pcbs st).
Proof.
  intros Hs Hne Hf Hd Hb Hl. destruct (run_from_start ok algo ps Hf (dense_first ok ps Hne Hf Hd) Hb inputs Hd) as (st & c & Hr & I & Hh).
  { intros ->. pose proof (total_steps_nonneg ok ps Hf). simpl in Hl. lia. }
  rewrite (Hh Hl) in Hr, I. exists st. split_and!; [done|apply I|].
  apply Forall_lookup_2. intros i p Hp.
  pose proof (Forall_lookup_1 _ _ _ _ (i_halted _ _ _ _ _ I eq_refl) Hp) as Ht. split; [done|].
  pose proof (i_pcbs _ _ _ _ _ I i p Hp) as Hok. unfold pcb_ok, idle_ok in Hok. simpl in Hok.
  rewrite Ht in Hok. apply Hok.
Qed.

(** C6: with any algorithm that picks a waiting process when there is one,
    processes whose arrivals leave no gap (while some are to come after a
    quantum, more have come by then than the quantum's number; all four
    specification files of the repository are of this kind) run to completion
    whatever the alarms and clock readings: every run succeeds, keeps the
    processes' names and workloads, and after total_steps + 1 steps has left
    the loop of main with every process TERMINATED and its whole workload
    executed. *)
Theorem sched_completes (ok : Z → Prop) (algo : algorithm) (ps : list process_ctl_block) inputs :
  Selector (length ps) ok algo → ps ≠ [] → Forall (fresh ok) ps → dense ps → total_steps ps + 1 < 4294967296 →
  total_steps ps + 1 ≤ Z.of_nat (length inputs) →
  ∃ st, run algo inputs (initial ps) AtMain = Ok (st, Halted) ∧
    identity <$> pcbs st = identity <$> ps ∧
    Forall (λ p, state p = TERMINATED ∧ executed_work p = workload p) (pcbs st).
Proof. apply run_completes. Qed.

(** The arrivals that leave no gap, checked up to the last one. *)
Definition denseb (ps : list process_ctl_block) : bool :=
  forallb (λ p, forallb (λ q, Z.of_nat q <? due (Z.of_nat q) ps) (seq 0 (Z.to_nat (creation_quantum p)))) ps.
Lemma denseb_ok ps : denseb ps = true → dense ps.
Proof.
  intros Hd q Hq (p & Hp & Hlt)%Exists_exists. unfold denseb in Hd. rewrite forallb_forall in Hd.
  apply list_elem_of_In, Hd in Hp. rewrite forallb_forall in Hp.
  specialize (Hp (Z.to_nat q)). rewrite Z2Nat.id in Hp by done. apply Z.ltb_lt, Hp, in_seq. lia.
Qed.
Lemma dense_at_start ps : Forall (λ p, creation_quantum p = 0) ps → dense ps.
Proof. intros Hc q Hq (p & Hp & Hlt)%Exists_exists. rewrite Forall_forall in Hc. specialize (Hc p Hp). lia. Qed.

(** The processes of LabWork/Lab7/processes1.txt. *)
Definition demo_process (n : Z) (s : string) (q w prio : Z) : process_ctl_block :=
  MkPcb n (lit s) CREATED None q w 0 prio 0 0 0.
Definition demo_ps : list process_ctl_block :=
  [demo_process 0 "Process_A" 0 10 60; demo_process 1 "Process_B" 1 3 20; demo_process 2 "Process_C" 1 10 40;
   demo_process 3 "Process_D" 2 5 100].
Lemma demo_fresh ok : (∀ z, 0 < z → ok z) → Forall (fresh ok) demo_ps.
Proof. intros Hok. repeat constructor; simpl; unfold INT_MAX; try done; try lia; apply Hok; lia. Qed.
Lemma demo_dense : dense demo_ps.
Proof. apply denseb_ok. reflexivity. Qed.

Lemma sched_completes_witness :
  ∃ st, run rr (replicate 1200 (5, true)) (initial demo_ps) AtMain = Ok (st, Halted) ∧
    identity <$> pcbs st = identity <$> demo_ps ∧
    Forall (λ p, state p = TERMINATED ∧ executed_work p = workload p) (pcbs st).
Proof.
  apply (sched_completes (λ _, True)); [apply _|done|by apply demo_fresh|apply demo_dense|done|].
  vm_compute. discriminate.
Defined.

(** Where the invariant holds, the process in control is RUNNING and no other. *)
Lemma settled_safe (ok : Z → Prop) ps st c :
  settled ok ps st c → ∀ i p, pcbs st !! i = Some p →
  (state p = RUNNING ↔ runner c = Some i) ∧ (state p = CREATED ↔ current_quantum st ≤ creation_quantum p) ∧
  0 ≤ executed_work p ≤ workload p ∧ (state p = TERMINATED → executed_work p = workload p).
Proof.
  intros I i p Hp.
  pose proof (Forall_lookup_1 _ _ _ _ (i_range _ _ _ _ _ I) Hp) as (_ & Hw & _).
  pose proof (i_created _ _ _ _ _ I i p Hp) as Hc. split_and!; [|done|lia|lia|].
  - pose proof (i_pcbs _ _ _ _ _ I i p Hp) as Hok. unfold pcb_ok in Hok. case_decide as Hrun.
    + destruct Hok as [-> _]. done.
    + unfold idle_ok in Hok. by destruct (state p).
  - intros Ht. pose proof (i_pcbs _ _ _ _ _ I i p Hp) as Hok. unfold pcb_ok, running_ok, idle_ok in Hok.
    rewrite Ht in Hok. case_decide; [by destruct Hok|apply Hok].
Qed.

(** C13: with any algorithm that picks a waiting process when there is one, and
    a process that arrives in the first quantum, a run goes safely up to the
    first gap, the point in main where processes are left and none waits or
    arrives; when the arrivals leave no gap, to its end. At every point on the
    way after the first step, exactly the process in control is RUNNING, a
    process is CREATED exactly until its quantum has come, none has executed
    more than its workload, and a TERMINATED one has executed all of it. (The
    steps of all processes are below 2^32. What happens after a gap is
    C32.) *)
Theorem sched_safe (ok : Z → Prop) (algo : algorithm) (ps : list process_ctl_block) inputs :
  Selector (length ps) ok algo → Forall (fresh ok) ps → Exists (λ p, creation_quantum p = 0) ps →
  total_steps ps + 1 < 4294967296 → inputs ≠ [] →
  ∃ before after, inputs = before ++ after ∧
    (∀ front, front ≠ [] → front `prefix_of` before →
     ∃ st c, run algo front (initial ps) AtMain = Ok (st, c) ∧
       ∀ i p, pcbs st !! i = Some p →
         (state p = RUNNING ↔ runner c = Some i) ∧ (state p = CREATED ↔ current_quantum st ≤ creation_quantum p) ∧
         0 ≤ executed_work p ≤ workload p ∧ (state p = TERMINATED → executed_work p = workload p)) ∧
    (after = [] ∨ (¬ dense ps ∧ ∃ st, run algo before (initial ps) AtMain = Ok (st, AtMain) ∧ gap st)).
Proof.
  intros Hs Hf Hfirst Hb Hn. destruct inputs as [|[now b] inputs]; [done|].
  destruct (first_step ok algo ps Hf Hfirst Hb now b) as (st1 & c1 & H1 & I1 & _).
  destruct (run_to_gap_safe ok algo ps inputs st1 c1 I1) as (before & after & -> & Hall & Hend).
  exists ((now, b) :: before), after. split_and!; [done| |].
  - intros front Hne Hp. destruct front as [|x front]; [done|].
    pose proof (prefix_cons_inv_1 _ _ _ _ Hp) as ->. apply prefix_cons_inv_2 in Hp.
    destruct (Hall front Hp) as (st & c & Hr & I). exists st, c. cbn [run]. rewrite H1. split; [exact Hr|].
    by apply (settled_safe ok ps).
  - destruct Hend as [|(st & Hr & I & G)]; [by left|right]. split.
    + intros Hd. by apply (dense_no_gap ok ps st Hd I).
    + exists st. cbn [run]. rewrite H1. by split.
Qed.

(** Under rr without gaps, to the end; with Process_B in quantum 5, up to the gap
    after Process_A, at the latest. *)
Definition late_ps : list process_ctl_block := [demo_process 0 "Process_A" 0 1 10; demo_process 1 "Process_B" 5 2 20].
Lemma sched_safe_witness :
  (∃ before after, replicate 30 (5, true) = before ++ after ∧
    (∀ front, front ≠ [] → front `prefix_of` before →
     ∃ st c, run rr front (initial demo_ps) AtMain = Ok (st, c) ∧
       ∀ i p, pcbs st !! i = Some p →
         (state p = RUNNING ↔ runner c = Some i) ∧ (state p = CREATED ↔ current_quantum st ≤ creation_quantum p) ∧
         0 ≤ executed_work p ≤ workload p ∧ (state p = TERMINATED → executed_work p = workload p)) ∧
    after = []) ∧
  (∃ before after, replicate 60 (5, false) = before ++ after ∧
    (after = [] ∨ (¬ dense late_ps ∧ ∃ st, run sjf before (initial late_ps) AtMain = Ok (st, AtMain) ∧ gap st))).
Proof.
  split.
  - destruct (sched_safe (λ _, True) rr demo_ps (replicate 30 (5, true))) as (before & after & H1 & H2 & [->|[Hd _]]);
      [apply _|by apply demo_fresh|by left|done|done| |].
    + by exists before, [].
    + by destruct Hd; apply demo_dense.
  - destruct (sched_safe (λ _, True) sjf late_ps (replicate 60 (5, false))) as (before & after & H1 & _ & H2);
      [apply _| |by left|done|done|by exists before, after].
    repeat constructor; simpl; unfold INT_MAX; done || lia.
Defined.
