(* ===== verification/SchedChoice.v ===== *)
(** The choices of the scheduling algorithms (LabWork/Lab7/scheduler.c) in
    single steps: which process is next, whether a running one is preempted,
    and what each algorithm does when no process waits. *)
From Stdlib Require Import ZArith Lia Ascii.
From stdpp Require Import prelude gmap strings numbers list.
From S2P Require Import Prelude CString Scheduler SchedSelect SchedRun.
Open Scope Z_scope.
Import CInt.

(** * Which process is next *)

Lemma chooses_least_ext key key' f (st : scheduler_state) :
  (∀ p, p ∈ pcbs st → key p = key' p) → chooses_least key f st → chooses_least key' f st.
Proof.
  intros He (i & p & Hf & Hp & Hw & Hall). exists i, p. split_and!; [done..|].
  intros j q Hq Hwq. rewrite <- (He p), <- (He q) by (by eapply list_elem_of_lookup_2). by apply Hall.
Qed.

Definition no_lower (z : Z) : Prop := 0 < z.

(** C14: when a process waits, with numbers below INT_MAX and priorities above
    0, each algorithm picks the waiting process its rule names, the one with the lowest index on ties: sjf the least workload,
    priority the highest priority, basic the lowest index. fifo keeps the
    current process if that is RUNNING after quantum 0, and otherwise picks the
    earliest creation quantum. psjf and sctf keep the current process if that
    waits after quantum 0, as the interrupted one does at every alarm, and
    otherwise pick the least workload and the least remaining work. insanity
    picks one that waits, if its draws hit each. *)
Theorem algorithms_choose (now : Z) (st : scheduler_state) (i : nat) :
  Forall (in_range no_lower) (pcbs st) → waits st i →
  chooses_least workload (sjf now) st ∧
  chooses_least (λ p, - priority_of p) (priority now) st ∧
  (∃ j, basic now st = Ok (Some j) ∧ waits st j ∧ ∀ k, (k < j)%nat → ¬ waits st k) ∧
  (if decide (0 < current_quantum st ∧ state (current_pcb st) = RUNNING)
   then fifo now st = Ok (Some (current_process st))
   else chooses_least creation_quantum (fifo now) st) ∧
  (if decide (0 < current_quantum st ∧ state (current_pcb st) = WAITING)
   then psjf now st = Ok (Some (current_process st)) ∧ sctf now st = Ok (Some (current_process st))
   else chooses_least workload (psjf now) st ∧
        chooses_least (λ p, workload p - executed_work p) (sctf now) st) ∧
  (∀ rands, hits (num_processes st) rands → ∃ j, insanity rands now st = Ok (Some j) ∧ waits st j).
Proof.
  intros Hr Hi. split_and!.
  - by apply (sjf_chooses no_lower now _ Hr i).
  - by apply (priority_chooses no_lower now _ Hr i).
  - by apply (basic_first now st i).
  - case_decide as Hc; [unfold fifo; rewrite decide_True; [done|split; [lia|tauto]]|].
    apply (fifo_chooses no_lower now _ Hr i Hi). intros [? ?]. apply Hc. split; [lia|done].
  - case_decide as Hc; [unfold psjf, sctf; rewrite !decide_True; [done| |]; split; (lia || tauto)|].
    destruct (psjf_chooses no_lower now _ Hr i Hi) as [H1 H2]; [intros [? ?]; apply Hc; split; [lia|done]|].
    split; [done|]. eapply chooses_least_ext, H2. intros p Hp. apply (remaining_eq no_lower).
    by eapply Forall_forall in Hr.
  - intros rands Hh. destruct Hi as (p & Hp & Hw). assert (i < num_processes st)%nat as Hn by (by apply lookup_lt_Some in Hp).
    unfold insanity. rewrite decide_False by lia. apply (draw_waits st _ i); [by exists p|by apply Hh].
Qed.

Definition waiting_pcb (n : Z) (s : string) (w e pr : Z) : process_ctl_block :=
  MkPcb n (lit s) WAITING (Some Fresh) 0 w e pr 0 0 0.
Definition demo_pcbs : list process_ctl_block :=
  [waiting_pcb 0 "Process_A" 7 0 10; waiting_pcb 1 "Process_B" 3 0 40; waiting_pcb 2 "Process_C" 3 1 40].
(** In quantum 0, and at an alarm in quantum 4 that interrupts Process_A. *)
Definition demo_waiting : scheduler_state := MkSched demo_pcbs 0 0 MainCheck.
Definition demo_alarm : scheduler_state := MkSched demo_pcbs 4 0 MainCheck.
Lemma demo_waiting_range : Forall (in_range no_lower) demo_pcbs.
Proof. repeat constructor; simpl; unfold no_lower, INT_MAX; done || lia. Qed.
Lemma demo_waits : waits demo_waiting 0.
Proof. by eexists. Qed.

Lemma algorithms_choose_witness :
  (chooses_least workload (sjf 0) demo_waiting ∧ chooses_least (λ p, - priority_of p) (priority 0) demo_waiting ∧
   chooses_least workload (psjf 0) demo_waiting ∧
   ∃ j, insanity (λ _, [7; 5; 3]) 0 demo_waiting = Ok (Some j) ∧ waits demo_waiting j) ∧
  (chooses_least creation_quantum (fifo 0) demo_alarm ∧ psjf 0 demo_alarm = Ok (Some 0%nat) ∧
   sctf 0 demo_alarm = Ok (Some 0%nat)).
Proof.
  split.
  - destruct (algorithms_choose 0 demo_waiting 0 demo_waiting_range demo_waits) as (H1 & H2 & _ & _ & H4 & H3).
    rewrite decide_False in H4 by (simpl; lia). split_and!; [done|done|by destruct H4|].
    apply H3. intros seed i Hi. apply Exists_exists.
    destruct i as [|[|[|i]]]; [exists 3|exists 7|exists 5|exfalso; revert Hi; cbn; lia]; (split; [set_solver|reflexivity]).
  - destruct (algorithms_choose 0 demo_alarm 0 demo_waiting_range) as (_ & _ & _ & H1 & H2 & _); [by eexists|].
    rewrite decide_False in H1 by (intros [_ ?]; done). by rewrite decide_True in H2 by (simpl; split; [lia|done]).
Defined.
Example demo_choices :
  (sjf 0 demo_waiting, basic 0 demo_waiting, priority 0 demo_waiting, rr 0 demo_waiting) =
  (Ok (Some 1%nat), Ok (Some 0%nat), Ok (Some 1%nat), Ok (Some 1%nat)).
Proof. reflexivity. Qed.

(** Turns process [j] has to wait after one of [i], among [n] processes. *)
Definition turns (n i j : nat) : nat := if decide (i < j)%nat then j - i - 1 else n - i + j - 1.

(** C15: round robin picks a waiting process; it is the next one in cyclic
    order after the current one, and every other process that waits comes
    strictly closer to its turn. *)
Theorem rr_fair (now : Z) (st : scheduler_state) (i : nat) :
  waits st i → (current_process st < num_processes st)%nat →
  ∃ j, rr now st = Ok (Some j) ∧ next_in_turn st j ∧
    (j = i ∨ (turns (num_processes st) j i < turns (num_processes st) (current_process st) i)%nat).
Proof.
  intros Hi Hc. destruct (rr_next now st i Hi) as (j & Hj & Hn). exists j. split_and!; [done|done|].
  destruct (decide (j = i)) as [->|Hne]; [by left|right].
  destruct Hn as ((q & Hq & _) & Hcase). destruct Hi as (p & Hp & Hw).
  pose proof (lookup_lt_Some _ _ _ Hq) as Hjn. pose proof (lookup_lt_Some _ _ _ Hp) as Hin.
  assert (waits st i) as Hi by (by exists p).
  unfold num_processes, turns in *. destruct Hcase as [[Hlt Hno]|[Hle Hno]].
  - assert (¬ (current_process st < i < j)%nat) by (intros H; by apply (Hno i)).
    repeat case_decide; lia.
  - assert (¬ ((current_process st < i)%nat ∨ (i < j)%nat)) by (intros H; by apply (Hno i)).
    repeat case_decide; lia.
Qed.

Lemma rr_fair_witness :
  ∃ j, rr 0 demo_waiting = Ok (Some j) ∧ next_in_turn demo_waiting j ∧
    (j = 2%nat ∨ (turns (num_processes demo_waiting) j 2 <
                  turns (num_processes demo_waiting) (current_process demo_waiting) 2)%nat).
Proof. apply (rr_fair 0 demo_waiting 2); [by eexists|decide_now]. Defined.

(** * Preemption *)

(** an alarm does not preempt a process under psjf and sctf: whatever
    processes wait or arrive, the interrupted process runs on and only the
    quantum advances. *)
Lemma psjf_runs_on now (st : scheduler_state) (i k : nat) p :
  pcbs st !! i = Some p → current_process st = i → state p = RUNNING → 0 ≤ executed_work p < workload p →
  workload p < INT_MAX → 0 < current_quantum st < UINT_MAX → creation_quantum p ≠ current_quantum st →
  ∀ algo, algo = psjf ∨ algo = sctf →
  ∃ st', step algo now true st (InLoop i k) = Ok (st', PastTick i k) ∧
    pcbs st' = pcbs (handle_arrivals now st) ∧ current_process st' = i ∧
    current_quantum st' = current_quantum st + 1.
Proof.
  intros Hp Hi Hs Hlt Hmax Hq Hc algo Ha. cbn [step]. unfold pcb_at. rewrite Hp. cbn [mbind outcome_bind require].
  rewrite decide_False, progress_next by lia. unfold interrupt_handler, current_pcb. rewrite Hi, Hp. cbn [default].
  rewrite decide_True by done.
  set (st2 := handle_arrivals now (update_pcb i (set_state WAITING) st)).
  assert (pcbs st2 !! i = Some (set_state WAITING p)) as Hp2.
  { unfold st2. simpl. rewrite list_lookup_fmap, list_lookup_alter_eq, Hp. simpl.
    by rewrite decide_False by done. }
  assert (algo now st2 = Ok (Some i)) as ->.
  { assert (current_quantum st2 > 0 ∧ state (current_pcb st2) = WAITING) as Hw.
    { split; [simpl; lia|]. unfold current_pcb. change (current_process st2) with (current_process st).
      by rewrite Hi, Hp2. }
    destruct Ha as [-> | ->]; unfold psjf, sctf; rewrite decide_True by done; simpl; by rewrite Hi. }
  cbn [mbind outcome_bind]. unfold context_switch. rewrite Hp2. cbn [mbind outcome_bind require].
  rewrite decide_True by (simpl; rewrite Hi; split; [done|lia]).
  eexists. split; [done|]. split_and!; [|done|simpl; apply wrap32_small; lia].
  unfold st2. simpl. apply list_eq. intros j. rewrite list_lookup_alter, !list_lookup_fmap.
  destruct (decide (i = j)) as [<-|]; [|by rewrite list_lookup_alter_ne].
  rewrite list_lookup_alter_eq, Hp. simpl. repeat case_decide; simplify_eq/=; try done.
  destruct p. simpl in *. by subst.
Qed.

(** The PCBs an algorithm chooses from after an alarm. *)
Definition due (st : scheduler_state) (q : process_ctl_block) : Prop :=
  state q = WAITING ∨ creation_quantum q = current_quantum st.

(** A waiting process resumes where it was saved, or at its start. *)
Definition own_context (j : nat) (q : process_ctl_block) : Prop :=
  ctx q = Some Fresh ∨ ∃ k, ctx q = Some (AfterTick j k).
Definition own_contexts (st : scheduler_state) : Prop :=
  ∀ j q, pcbs st !! j = Some q → state q = WAITING → own_context j q.

Section preempt.
Context (now : Z) (st : scheduler_state) (i : nat) (p : process_ctl_block).
Context (Hp : pcbs st !! i = Some p) (Hs : state p = RUNNING).
Context (Hc : creation_quantum p ≠ current_quantum st).
Let st2 := handle_arrivals now (update_pcb i (set_state WAITING) st).

Lemma interrupted_lookup j :
  pcbs st2 !! j =
  if decide (j = i) then Some (set_state WAITING p)
  else (λ q, if decide (creation_quantum q = current_quantum st) then set_arrival now q else q) <$> pcbs st !! j.
Proof.
  unfold st2. simpl. rewrite list_lookup_fmap, list_lookup_alter.
  destruct (decide (j = i)) as [->|]; [|by rewrite decide_False].
  rewrite decide_True, Hp by done. simpl. by rewrite decide_False.
Qed.

Lemma interrupted_range ok : Forall (in_range ok) (pcbs st) → Forall (in_range ok) (pcbs st2).
Proof.
  intros Hr. unfold st2. simpl. apply Forall_fmap. apply Forall_alter.
  - eapply Forall_impl; [exact Hr|]. intros q Hq. unfold compose. by case_decide.
  - intros q _ Hq. unfold compose in *. simpl. by repeat case_decide.
Qed.

Lemma due_waits j q :
  j ≠ i → pcbs st !! j = Some q → due st q →
  ∃ q', pcbs st2 !! j = Some q' ∧ waiting q' = true ∧ workload q' = workload q.
Proof.
  intros Hne Hq Hd. rewrite interrupted_lookup, decide_False, Hq by done. simpl.
  eexists. split; [done|]. unfold waiting. case_decide; [done|]. split; [|done].
  apply bool_decide_true. by destruct Hd.
Qed.

Lemma waiting_ctx j q' :
  own_contexts st → j ≠ i → pcbs st2 !! j = Some q' → waiting q' = true → own_context j q'.
Proof.
  intros Hctx Hne Hq' Hw. rewrite interrupted_lookup, decide_False in Hq' by done.
  apply fmap_Some in Hq' as (q & Hq & ->). case_decide; [by left|].
  apply (Hctx j q Hq). by apply bool_decide_eq_true in Hw.
Qed.
End preempt.

(** an alarm does preempt a process under sjf: when a process with a
    smaller workload waits or arrives, another process than the interrupted
    one takes over, and the interrupted one waits where it was. *)
Lemma sjf_switches now (st : scheduler_state) (i k j : nat) p q :
  Forall (in_range no_lower) (pcbs st) → own_contexts st →
  pcbs st !! i = Some p → current_process st = i → state p = RUNNING → executed_work p < workload p →
  creation_quantum p ≠ current_quantum st → 0 < current_quantum st →
  pcbs st !! j = Some q → due st q → workload q < workload p →
  ∃ st' c', step sjf now true st (InLoop i k) = Ok (st', c') ∧ current_process st' ≠ i ∧
    runner c' = Some (current_process st') ∧
    pcbs st' !! i = Some (set_ctx (AfterTick i k) (set_state WAITING p)).
Proof.
  intros Hr Hctx Hp Hi Hs Hlt Hc Hq Hj Hd Hw.
  assert (j ≠ i) as Hji by (intros ->; simplify_eq; lia).
  cbn [step]. unfold pcb_at. rewrite Hp. cbn [mbind outcome_bind require].
  pose proof (Forall_lookup_1 _ _ _ _ Hr Hp) as (_ & Hexec & Hmax & _).
  rewrite decide_False, progress_next by lia. unfold interrupt_handler, current_pcb. rewrite Hi, Hp. cbn [default].
  rewrite decide_True by done.
  pose proof (interrupted_lookup now st i p Hp Hc) as Hl.
  destruct (due_waits now st i p Hp Hc j q Hji Hj Hd) as (q' & Hq' & Hwq & Hwl).
  pose proof (waiting_ctx now st i p Hp Hc) as Hres.
  pose proof (interrupted_range now st i no_lower Hr) as Hr2.
  set (st2 := handle_arrivals now _) in *.
  destruct (sjf_chooses no_lower now st2 Hr2 j) as (m & r & -> & Hm & Hwm & Hall); [by exists q'|].
  destruct (Hall j q' Hq' Hwq) as [Hle _].
  assert (m ≠ i) as Hmi.
  { intros ->. rewrite Hl, decide_True in Hm by done. injection Hm as <-. simpl in Hle. lia. }
  specialize (Hres m r Hctx Hmi Hm Hwm).
  cbn [mbind outcome_bind]. unfold context_switch. rewrite Hm. cbn [mbind outcome_bind require].
  rewrite decide_False by (simpl; rewrite Hi; tauto).
  rewrite bool_decide_false by (unfold current_pcb; change (current_process st2) with (current_process st);
    rewrite Hi, Hl, decide_True by done; simpl; intros [|]; [lia|done]).
  change (current_process st2) with (current_process st). rewrite Hi. cbn [here].
  destruct Hres as [Hcx|(b & Hcx)]; rewrite Hcx; cbn [resume];
    do 2 eexists; (split; [done|]); simpl; split_and!; try done;
    rewrite ?list_lookup_alter_ne by done; rewrite list_lookup_alter_eq;
    by rewrite Hl, decide_True.
Qed.

(** What an alarm does to the running process. Under psjf and sctf it is
    never preempted: whatever processes wait or arrive, it runs on and only the
    quantum advances. Under sjf it is preempted: when a process with a smaller
    workload waits or arrives, another process than the interrupted one takes
    over, and the interrupted one waits where it was. *)
Lemma alarm_preempts now (st : scheduler_state) (i k : nat) p :
  pcbs st !! i = Some p → current_process st = i → state p = RUNNING → 0 ≤ executed_work p < workload p →
  workload p < INT_MAX → 0 < current_quantum st < UINT_MAX → creation_quantum p ≠ current_quantum st →
  (∀ algo, algo = psjf ∨ algo = sctf →
   ∃ st', step algo now true st (InLoop i k) = Ok (st', PastTick i k) ∧
     pcbs st' = pcbs (handle_arrivals now st) ∧ current_process st' = i ∧
     current_quantum st' = current_quantum st + 1) ∧
  (Forall (in_range no_lower) (pcbs st) → own_contexts st →
   ∀ j q, pcbs st !! j = Some q → due st q → workload q < workload p →
   ∃ st' c', step sjf now true st (InLoop i k) = Ok (st', c') ∧ current_process st' ≠ i ∧
     runner c' = Some (current_process st') ∧
     pcbs st' !! i = Some (set_ctx (AfterTick i k) (set_state WAITING p))).
Proof.
  intros Hp Hi Hs Hlt Hmax Hq Hc. split.
  - by apply (psjf_runs_on now st i k p).
  - intros Hr Ho j q Hj Hd Hw. apply (sjf_switches now st i k j p q); try done; lia.
Qed.

(** Process_A runs, and the shorter Process_B waits. *)
Definition demo_preempt : scheduler_state :=
  MkSched [MkPcb 0 (lit "Process_A") RUNNING None 0 7 2 10 0 0 0; waiting_pcb 1 "Process_B" 1 0 40]
    3 0 MainCheck.
Lemma alarm_preempts_witness :
  (∃ st', step psjf 9 true demo_preempt (InLoop 0 4) = Ok (st', PastTick 0 4)) ∧
  (∃ st' c', step sjf 9 true demo_preempt (InLoop 0 4) = Ok (st', c') ∧ current_process st' ≠ 0%nat).
Proof.
  edestruct (alarm_preempts 9 demo_preempt 0 4) as [H1 H2];
    [reflexivity|done|done|simpl; lia|done|simpl; unfold UINT_MAX; lia|done|]. split.
  - destruct (H1 psjf) as (st' & H & _); [by left|by exists st'].
  - destruct (H2) with (j := 1%nat) (q := waiting_pcb 1 "Process_B" 1 0 40) as (st' & c' & H & Hne & _);
      [| |reflexivity|by left|simpl; lia|by exists st', c'].
    + repeat constructor; simpl; unfold no_lower, INT_MAX; done || lia.
    + intros [|[|j]] q Hq Hs; simplify_eq/=; by left.
Defined.
