(* ===== verification/SchedIdle.v ===== *)
(** The scheduler (LabWork/Lab7/scheduler.c) when main has control, processes
    are still to come, and none waits: what each algorithm then does. *)
From Stdlib Require Import ZArith Lia Ascii.
From stdpp Require Import prelude gmap strings numbers list.
From S2P Require Import Prelude CString Scheduler SchedSelect SchedRun SchedSpec.
Open Scope Z_scope.
Import CInt.

(** * Choices when nothing waits *)
Lemma no_pcb f n (l : list process_ctl_block) :
  Forall (λ p, waiting p = false) l → (∀ i p, f i p = true → waiting p = true) → first_pcb f n l = None.
Proof.
  intros Hl Hf. revert n. induction Hl as [|p l Hp Hl IH]; intros n; simpl; [done|].
  destruct (f n p) eqn:He; [|apply IH]. apply Hf in He. congruence.
Qed.

Lemma no_smallest key n (l : list process_ctl_block) best init :
  Forall (λ p, waiting p = false) l → smallest key n l best init = init.
Proof. intros Hl. revert n. induction Hl as [|p l Hp Hl IH]; intros n; simpl; [done|]. by rewrite Hp, IH. Qed.

(** The algorithms with a default of 0. insanity draws for ever, and basic and
    rr make no choice. *)
Definition defaults_to_0 : list cstr := [lit "sjf"; lit "psjf"; lit "sctf"; lit "priority"].
Definition idle_choice (arg : cstr) : outcome (option nat) :=
  if decide (arg = lit "fifo") then Undef Uninitialised
  else if decide (arg = lit "insanity") then OutOfFuel
  else if decide (arg ∈ defaults_to_0) then Ok (Some 0%nat) else Ok None.

Lemma idle_choice_ok rands arg now st :
  pcbs st ≠ [] → Forall (λ p, waiting p = false) (pcbs st) → state (current_pcb st) ≠ RUNNING → waiting (current_pcb st) = false →
  select_algorithm rands arg now st = idle_choice arg.
Proof.
  intros Hne Hw Hr Hc. assert (state (current_pcb st) ≠ WAITING) as Hc'.
  { intros Hs. unfold waiting in Hc. by rewrite bool_decide_true in Hc. }
  unfold idle_choice, select_algorithm, strcmp_eq, defaults_to_0.
  repeat case_bool_decide; subst; try done;
    unfold basic, fifo, sjf, psjf, sctf, rr, priority;
    rewrite ?decide_False by tauto; rewrite ?highest_smallest; rewrite ?no_smallest by done;
    rewrite ?no_pcb by (done || by intros i p [? _]%andb_true_iff); try done.
  - unfold insanity. rewrite decide_False by (unfold num_processes; by destruct (pcbs st)). by rewrite draw_for_ever.
  - rewrite decide_False; [done|]. rewrite !elem_of_cons, elem_of_nil. tauto.
Qed.

(** * An idle main *)

(** Processes are left; each has ended or is still to come, and not now. *)
Definition to_come (q : Z) (p : process_ctl_block) : Prop :=
  (state p = CREATED ∨ state p = TERMINATED) ∧ ctx p = None ∧ creation_quantum p ≠ q.
Definition idle (st : scheduler_state) : Prop :=
  pcbs st ≠ [] ∧ finished st = false ∧ Forall (to_come (current_quantum st)) (pcbs st).

Section idle.
Context (st : scheduler_state) (I : idle st).

Lemma idle_waiting : Forall (λ p, waiting p = false) (pcbs st).
Proof.
  destruct I as (_ & _ & Hl). eapply Forall_impl; [exact Hl|]. intros p ([Hs|Hs] & _); unfold waiting; by rewrite Hs.
Qed.
Lemma idle_current : state (current_pcb st) = CREATED ∨ state (current_pcb st) = TERMINATED.
Proof.
  unfold current_pcb. destruct (pcbs st !! current_process st) as [p|] eqn:Hp; [|by left].
  destruct I as (_ & _ & Hl). by destruct (Forall_lookup_1 _ _ _ _ Hl Hp).
Qed.

(** The handler changes nothing before the choice. *)
Lemma idle_handler rands arg now b :
  step (select_algorithm rands arg) now b st AtMain =
  (choice ← idle_choice arg;
    match choice with
    | Some pid => context_switch now st AtMain pid
    | None => Ok (st, AtMain)
  end).
Proof.
  cbn [step]. destruct I as (Hne & -> & Hl). unfold interrupt_handler. pose proof idle_current as Hc.
  rewrite decide_False by (intros Hr; destruct Hc; congruence).
  replace (handle_arrivals now st) with st.
  - rewrite idle_choice_ok; [done|done|apply idle_waiting|destruct Hc; congruence|].
    unfold waiting. apply bool_decide_false. destruct Hc; congruence.
  - destruct st as [l q cur mc]. unfold handle_arrivals. f_equal. rewrite <- (list_fmap_id l) at 1.
    apply Forall_fmap_ext_1. eapply Forall_impl; [exact Hl|]. intros p (_ & _ & Hc'). by rewrite decide_False.
Qed.

(** Process 0 has nothing to resume, unless it is current and need not be. *)
Lemma idle_switch now :
  current_process st ≠ 0%nat ∨ current_quantum st = 0 → context_switch now st AtMain 0 = Undef Unmapped.
Proof.
  intros Hc. destruct I as (Hne & _ & Hl). unfold context_switch.
  destruct (pcbs st) as [|p l] eqn:Hp; [done|]. apply Forall_cons in Hl as [(_ & Hctx & _) _].
  cbn [lookup list_lookup mbind outcome_bind require]. rewrite decide_False by (intros [? ?]; destruct Hc; [congruence|lia]).
  by rewrite Hctx.
Qed.

(** basic and rr leave main in its loop for ever, as only switches advance the
    quantum; fifo switches to an uninitialised process number; insanity never
    gets to a switch. *)
Lemma idle_for_ever rands arg inputs :
  idle_choice arg = Ok None → run (select_algorithm rands arg) inputs st AtMain = Ok (st, AtMain).
Proof.
  intros Hc. induction inputs as [|[now b] inputs IH]; [done|]. cbn [run]. by rewrite idle_handler, Hc.
Qed.
Lemma idle_undefined rands arg inputs :
  inputs ≠ [] →
  (∀ w, idle_choice arg = Undef w → run (select_algorithm rands arg) inputs st AtMain = Undef w) ∧
  (idle_choice arg = OutOfFuel → run (select_algorithm rands arg) inputs st AtMain = OutOfFuel) ∧
  (idle_choice arg = Ok (Some 0%nat) → current_process st ≠ 0%nat ∨ current_quantum st = 0 →
    run (select_algorithm rands arg) inputs st AtMain = Undef Unmapped).
Proof.
  intros Hn. destruct inputs as [|[now b] inputs]; [done|]. cbn [run]. rewrite idle_handler.
  split_and!; [by intros w ->|by intros ->|]. intros -> Hc. cbn [mbind outcome_bind]. by rewrite idle_switch.
Qed.
End idle.

(** No arrival in the first quantum. *)
Lemma idle_initial ok ps :
  ps ≠ [] → Forall (fresh ok) ps → ¬ Exists (λ p, creation_quantum p = 0) ps → idle (initial ps).
Proof.
  intros Hne Hf Hn. split_and!; [done|by eapply not_finished|].
  apply Forall_forall. intros p Hp. rewrite Forall_forall in Hf. destruct (Hf p Hp) as (? & ? & _).
  split_and!; [by left|done|]. intros Hc. apply Hn, Exists_exists. by exists p.
Qed.

(** A gap of a run. *)
Lemma idle_gap ok ps st : settled ok ps st AtMain → gap st → idle st.
Proof.
  intros I [Hf Hg]. destruct (i_current _ _ _ _ _ I) as (p0 & Hp0 & _).
  split_and!; [by intros Hn; rewrite Hn in Hp0|done|]. apply Forall_lookup_2. intros i p Hp.
  destruct (Forall_lookup_1 _ _ _ _ Hg Hp) as [Hw Hc]. pose proof (i_pcbs _ _ _ _ _ I i p Hp) as Hok.
  unfold pcb_ok, idle_ok in Hok. simpl in Hok. unfold to_come. destruct (state p) eqn:Hs.
  - destruct Hok. auto.
  - unfold waiting in Hw. by rewrite bool_decide_true in Hw.
  - done.
  - destruct Hok. auto.
Qed.
