(* ===== verification/SchedGap.v ===== *)
(** Runs of the scheduler (LabWork/Lab7/scheduler.c) whose arrivals may leave
    gaps: such a run completes or reaches a gap, and the algorithms that then
    default to process 0 revive it, after which main never leaves its loop. *)
From Stdlib Require Import ZArith Lia Ascii.
From stdpp Require Import prelude gmap strings numbers list.
From S2P Require Import Prelude CString Scheduler SchedSelect SchedRun SchedSpec SchedIdle.
Open Scope Z_scope.
Import CInt.

(** * A revived process

    Process 0 is RUNNING although main has control: its context, once it is
    saved, is in main. *)

(** A context that suits PCB [i]. *)
Definition ctx_of (i : nat) (p : process_ctl_block) (c : context) : Prop :=
  match c with
  | Fresh => i ≠ 0%nat
  | AfterTick j k => i ≠ 0%nat ∧ j = i ∧ (k < 20)%nat ∧ executed_work p < workload p
  | MainCheck => i = 0%nat
  end.
(** The control of the RUNNING process. *)
Definition control_of (i : nat) (p : process_ctl_block) (c : control) : Prop :=
  match c with
  | AtMain => i = 0%nat
  | InLoop j k => i ≠ 0%nat ∧ j = i ∧ (k < 20)%nat ∧ ((0 < k)%nat → executed_work p < workload p)
  | PastTick j k => i ≠ 0%nat ∧ j = i ∧ (k < 20)%nat ∧ executed_work p < workload p
  | Halted => False
  end.

Definition revived_pcb (cur : nat) (c : control) (i : nat) (p : process_ctl_block) : Prop :=
  match state p with
  | CREATED | TERMINATED => i ≠ 0%nat
  | WAITING => i ≠ cur ∧ ∃ x, ctx p = Some x ∧ ctx_of i p x
  | RUNNING => i = cur ∧ control_of i p c
  end.
Record revived (n : nat) (ok : Z → Prop) (st : scheduler_state) (c : control) : Prop := {
  rv_count : num_processes st = n;
  rv_range : Forall (in_range ok) (pcbs st);
  rv_created i p : pcbs st !! i = Some p → state p = CREATED ↔ current_quantum st ≤ creation_quantum p;
  rv_quantum : 0 < current_quantum st;
  rv_main : g_main_ctx st = MainCheck;
  rv_zero : is_Some (pcbs st !! 0%nat);
  rv_current : ∃ p, pcbs st !! current_process st = Some p ∧ (state p = RUNNING ∨ state p = TERMINATED ∧ c = AtMain);
  rv_pcbs i p : pcbs st !! i = Some p → revived_pcb (current_process st) c i p
}.

(** Within the handler, after the arrivals: the interrupted process, or process
    0 in main, waits. *)
Definition caught_pcb (cur : nat) (from : control) (i : nat) (p : process_ctl_block) : Prop :=
  match state p with
  | CREATED | TERMINATED => i ≠ 0%nat
  | WAITING => ∃ x, (if decide (i = cur) then Some (here from) else ctx p) = Some x ∧ ctx_of i p x
  | RUNNING => False
  end.
Record caught (n : nat) (ok : Z → Prop) (st : scheduler_state) (from : control) : Prop := {
  ct_count : num_processes st = n;
  ct_range : Forall (in_range ok) (pcbs st);
  ct_created i p : pcbs st !! i = Some p → state p = CREATED ↔ current_quantum st < creation_quantum p;
  ct_quantum : 0 < current_quantum st < UINT_MAX;
  ct_main : g_main_ctx st = MainCheck;
  ct_zero : is_Some (pcbs st !! 0%nat);
  ct_current : ∃ p, pcbs st !! current_process st = Some p ∧ (state p = WAITING ∨ state p = TERMINATED ∧ from = AtMain);
  ct_from : from = AtMain ∨ ∃ i k, from = InLoop i k;
  ct_pcbs i p : pcbs st !! i = Some p → caught_pcb (current_process st) from i p
}.

Section revived.
Context (n : nat) (ok : Z → Prop).

(** ** Switches *)

(** Process 0 waits, or is current and about to. *)
Lemma caught_waits st from : caught n ok st from → waits st 0 ∧ Forall (λ p, state p ≠ RUNNING) (pcbs st).
Proof.
  intros C. split.
  - destruct (ct_zero _ _ _ _ C) as [p Hp]. exists p. split; [done|]. pose proof (ct_pcbs _ _ _ _ C _ _ Hp) as Hc.
    unfold caught_pcb in Hc. unfold waiting. apply bool_decide_true. by destruct (state p).
  - apply Forall_lookup_2. intros i p Hp Hs. pose proof (ct_pcbs _ _ _ _ C _ _ Hp) as Hc. unfold caught_pcb in Hc. by rewrite Hs in Hc.
Qed.

(** A new RUNNING process, the others saved or ended. *)
Lemma revive_running st c' l j p f :
  length l = n →
  (∀ i r, l !! i = Some r → in_range ok r ∧ (state r = CREATED ↔ current_quantum st < creation_quantum r) ∧
    (i ≠ j → match state r with CREATED | TERMINATED => i ≠ 0%nat | WAITING => ∃ x, ctx r = Some x ∧ ctx_of i r x | RUNNING => False end)) →
  0 < current_quantum st < UINT_MAX → is_Some (l !! 0%nat) → l !! j = Some p → state p ≠ CREATED →
  identity (f p) = identity p → state (f p) = RUNNING → executed_work (f p) = executed_work p →
  control_of j (f p) c' →
  revived n ok (MkSched (alter f j l) (wrap32 (current_quantum st + 1)) j MainCheck) c'.
Proof.
  intros Hlen Hl Hq Hz Hj Hw Hid Hs He Hc. rewrite wrap32_small by lia.
  assert (∀ i r, alter f j l !! i = Some r → (i = j ∧ r = f p) ∨ i ≠ j ∧ l !! i = Some r) as Ha.
  { intros i r. rewrite list_lookup_alter. case_decide as Hi; [|by right; split; [congruence|]]. subst i. rewrite Hj. simpl. intros [= <-]. by left. }
  split; simpl; [unfold num_processes; simpl; by rewrite length_alter| | |lia|done| | |].
  - apply Forall_lookup_2. intros i r [[-> ->]|[_ Hr]]%Ha; [|by apply (Hl i r Hr)]. destruct (Hl j p Hj) as (Hin & _).
    unfold in_range, identity in *. injection Hid as _ _ -> -> ->. by rewrite He.
  - intros i r [[-> ->]|[_ Hr]]%Ha.
    + destruct (Hl j p Hj) as (_ & Hcr & _). unfold identity in Hid. injection Hid as _ _ -> _ _.
      rewrite Hs. split; [done|]. intros ?. destruct Hw. apply Hcr. lia.
    + destruct (Hl i r Hr) as (_ & -> & _). lia.
  - rewrite list_lookup_alter. case_decide; [subst j; rewrite Hj; by eexists|done].
  - exists (f p). rewrite list_lookup_alter, decide_True, Hj by done. auto.
  - intros i r [[-> ->]|[Hne Hr]]%Ha; unfold revived_pcb; [by rewrite Hs|].
    destruct (Hl i r Hr) as (_ & _ & Ho). specialize (Ho Hne). by destruct (state r).
Qed.

(** The saved context of a waiting process puts it in control. *)
Lemma revive_resume now st l j p x :
  length l = n →
  (∀ i r, l !! i = Some r → in_range ok r ∧ (state r = CREATED ↔ current_quantum st < creation_quantum r) ∧
    (i ≠ j → match state r with CREATED | TERMINATED => i ≠ 0%nat | WAITING => ∃ x, ctx r = Some x ∧ ctx_of i r x | RUNNING => False end)) →
  0 < current_quantum st < UINT_MAX → is_Some (l !! 0%nat) → l !! j = Some p → state p = WAITING → ctx_of j p x →
  ∃ st' c', resume now (MkSched (alter (set_state RUNNING) j l) (wrap32 (current_quantum st + 1)) j MainCheck) (Some x) = Ok (st', c') ∧
  revived n ok st' c' ∧ current_quantum st' = current_quantum st + 1.
Proof.
  intros Hlen Hl Hq Hz Hj Hw Hx. assert (wrap32 (current_quantum st + 1) = current_quantum st + 1) as Hwr by (apply wrap32_small; lia).
  assert (∀ f c', identity (f (set_state RUNNING p)) = identity p → state (f (set_state RUNNING p)) = RUNNING →
    executed_work (f (set_state RUNNING p)) = executed_work p → control_of j (f (set_state RUNNING p)) c' →
    revived n ok (update_pcb j f (MkSched (alter (set_state RUNNING) j l) (wrap32 (current_quantum st + 1)) j MainCheck)) c') as Hgo.
  { intros f c' H1 H2 H3 H4. unfold update_pcb. cbn [pcbs current_quantum current_process g_main_ctx].
    rewrite list_alter_alter_eq. eapply (revive_running st c' l j p (f ∘ set_state RUNNING)); try done. by rewrite Hw. }
  destruct x as [|i k|]; simpl in Hx |- *.
  - do 2 eexists. split; [done|]. split; [|done]. apply Hgo; try done. simpl. split_and!; [done|done|lia|lia].
  - destruct Hx as (? & -> & ?). do 2 eexists. split; [done|]. split; [|done]. rewrite <- (update_id j (MkSched _ _ _ _)). by apply (Hgo (λ p, p)).
  - do 2 eexists. split; [done|]. split; [|done]. rewrite <- (update_id j (MkSched _ _ _ _)). by apply (Hgo (λ p, p)).
Qed.

Lemma caught_switch now st from j :
  caught n ok st from → waits st j →
  ∃ st' c', context_switch now st from j = Ok (st', c') ∧ revived n ok st' c' ∧ current_quantum st' = current_quantum st + 1.
Proof.
  intros C (p & Hj & Hw). apply bool_decide_eq_true in Hw. pose proof (ct_quantum _ _ _ _ C) as Hq.
  assert (∀ i r, pcbs st !! i = Some r → in_range ok r ∧ (state r = CREATED ↔ current_quantum st < creation_quantum r)) as Hall.
  { intros i r Hr. split; [by apply (Forall_lookup_1 _ _ _ _ (ct_range _ _ _ _ C) Hr)|by apply (ct_created _ _ _ _ C i)]. }
  assert (wrap32 (current_quantum st + 1) = current_quantum st + 1) as Hwr by (apply wrap32_small; lia).
  pose proof (ct_pcbs _ _ _ _ C _ _ Hj) as Hc. unfold caught_pcb in Hc. rewrite Hw in Hc. destruct Hc as (x & Hx & Hok).
  unfold context_switch. rewrite Hj. cbn [mbind outcome_bind require].
  destruct (decide (j = current_process st ∧ current_quantum st > 0)) as [Hsame|Hsame].
  - destruct Hsame as [-> _]. rewrite decide_True in Hx by done. injection Hx as <-.
    do 2 eexists. split; [done|]. split; [|done]. rewrite (ct_main _ _ _ _ C).
    eapply (revive_running st _ (pcbs st)); try done; [apply (ct_count _ _ _ _ C)| |apply C|by rewrite Hw|].
    + intros i r Hr. destruct (Hall i r Hr) as [? ?]. split_and!; [done|done|]. intros Hne.
      pose proof (ct_pcbs _ _ _ _ C _ _ Hr) as Ho. unfold caught_pcb in Ho. by rewrite decide_False in Ho.
    + destruct (ct_from _ _ _ _ C) as [-> | (i & k & ->)]; [done|exact Hok].
  - assert (j ≠ current_process st) as Hne by (intros ->; apply Hsame; split; [done|lia]). clear Hsame.
    rewrite decide_False in Hx by done. destruct (ct_current _ _ _ _ C) as (q & Hcur & Hcs).
    assert (current_pcb st = q) as -> by (unfold current_pcb; by rewrite Hcur).
    assert (∀ i r, i ≠ current_process st → pcbs st !! i = Some r →
      match state r with CREATED | TERMINATED => i ≠ 0%nat | WAITING => ∃ x, ctx r = Some x ∧ ctx_of i r x | RUNNING => False end) as Hoth.
    { intros i r Hi Hr. pose proof (ct_pcbs _ _ _ _ C _ _ Hr) as Ho. unfold caught_pcb in Ho. by rewrite decide_False in Ho. }
    pose proof (ct_pcbs _ _ _ _ C _ _ Hcur) as Hcq. unfold caught_pcb in Hcq.
    destruct Hcs as [Hcs|[Hcs ->]]; rewrite Hcs in Hcq.
    + rewrite bool_decide_false by (rewrite Hcs; intros [|]; [lia|done]). rewrite decide_True in Hcq by done.
      destruct Hcq as (y & [= <-] & Hy). rewrite (ct_main _ _ _ _ C), Hx.
      apply (revive_resume now st (pcbs (update_pcb (current_process st) (set_ctx (here from)) st)) j p);
        [simpl; rewrite length_alter; apply (ct_count _ _ _ _ C)| |done| | |done|done].
      * intros i r. rewrite update_lookup. case_decide as Hi.
        -- subst i. rewrite Hcur. simpl. intros [= <-]. destruct (Hall _ _ Hcur) as [? ?]. split_and!; [done|done|]. simpl. rewrite Hcs. eauto.
        -- intros Hr. destruct (Hall i r Hr) as [? ?]. split_and!; [done|done|]. intros _. apply Hoth; [congruence|done].
      * rewrite update_lookup. case_decide; [by rewrite Hcur|apply C].
      * rewrite update_lookup, decide_False by congruence. done.
    + rewrite bool_decide_true by (by right). rewrite Hx.
      apply (revive_resume now st (pcbs st) j p); [apply (ct_count _ _ _ _ C)| |done|apply C|done|done|done].
      intros i r Hr. destruct (Hall i r Hr) as [? ?]. split_and!; [done|done|]. intros _.
      destruct (decide (i = current_process st)) as [->|]; [|by apply Hoth]. assert (r = q) as -> by congruence. by rewrite Hcs.
Qed.

(** ** The handler *)

(** The state before the arrivals. *)
Definition paused (st : scheduler_state) : scheduler_state :=
  if decide (state (current_pcb st) = RUNNING) then update_pcb (current_process st) (set_state WAITING) st else st.

(** A PCB arrives, or is interrupted, or is left alone. *)
Lemma handled_pcb now st c i r' :
  revived n ok st c → pcbs (handle_arrivals now (paused st)) !! i = Some r' →
  ∃ r, pcbs st !! i = Some r ∧
  ((state r = CREATED ∧ creation_quantum r = current_quantum st ∧ r' = set_arrival now r) ∨
    (creation_quantum r ≠ current_quantum st ∧ ((i = current_process st ∧ state r = RUNNING ∧ r' = set_state WAITING r) ∨
      (state r ≠ RUNNING ∧ r' = r)))).
Proof.
  intros R. destruct (rv_current _ _ _ _ R) as (q & Hcur & Hcs).
  assert (current_pcb st = q) as Hq by (unfold current_pcb; by rewrite Hcur).
  rewrite arrive_lookup. unfold paused. rewrite Hq. intros Hr'.
  replace (current_quantum (if decide _ then _ else _)) with (current_quantum st) in Hr' by (by case_decide).
  destruct (pcbs st !! i) as [r|] eqn:Hr.
  - exists r. split; [done|]. pose proof (rv_created _ _ _ _ R _ _ Hr) as Hcr. pose proof (rv_pcbs _ _ _ _ R _ _ Hr) as Hok. unfold revived_pcb in Hok.
    assert (i = current_process st → r = q) as Hrq by (intros ->; congruence).
    assert (state r = RUNNING → i = current_process st) as Hrun by (intros Hs; rewrite Hs in Hok; apply Hok).
    assert (creation_quantum r = current_quantum st → state r = CREATED) as Hnew by (intros; apply Hcr; lia).
    destruct (decide (state q = RUNNING)); [rewrite update_lookup in Hr'; destruct (decide (current_process st = i)) as [Hi|Hi]|];
      rewrite ?Hi, ?Hr in Hr'; simpl in Hr'; injection Hr' as <-; case_decide.
    + specialize (Hrq (eq_sym Hi)). naive_solver congruence.
    + right. split; [done|left]. specialize (Hrq (eq_sym Hi)). by subst r.
    + left. auto.
    + right. split; [done|right]. split; [|done]. intros Hs. by destruct Hi; rewrite Hrun.
    + left. auto.
    + right. split; [done|right]. split; [|done]. naive_solver congruence.
  - case_decide; [rewrite update_lookup in Hr'|]; [case_decide as Hi; [rewrite Hi in Hr'|]|]; by rewrite Hr in Hr'.
Qed.

Lemma revived_handled now st from :
  revived n ok st from → current_quantum st < UINT_MAX →
  from = AtMain ∨ (∃ i k p, from = InLoop i k ∧ pcbs st !! i = Some p ∧ executed_work p < workload p) →
  caught n ok (handle_arrivals now (paused st)) from.
Proof.
  intros R Hq Hfrom. destruct (rv_current _ _ _ _ R) as (q & Hcur & Hcs).
  assert (current_process (paused st) = current_process st ∧ current_quantum (paused st) = current_quantum st ∧
    g_main_ctx (paused st) = MainCheck) as (Hs1 & Hs2 & Hs3)
    by (unfold paused; pose proof (rv_main _ _ _ _ R); by case_decide).
  pose proof (λ i r', handled_pcb now st from i r' R) as Hl.
  assert (length (pcbs (handle_arrivals now (paused st))) = length (pcbs st)) as Hlen.
  { unfold handle_arrivals, paused. simpl. rewrite length_fmap. case_decide; [apply length_alter|done]. }
  split; rewrite ?Hs1, ?Hs2; cbn [current_quantum current_process g_main_ctx handle_arrivals]; rewrite ?Hs1, ?Hs2, ?Hs3; try done.
  - unfold num_processes. rewrite Hlen. apply (rv_count _ _ _ _ R).
  - apply Forall_lookup_2. intros i r' (r & Hr & Hc)%Hl. pose proof (Forall_lookup_1 _ _ _ _ (rv_range _ _ _ _ R) Hr).
    destruct Hc as [(? & ? & ->)|(? & [(? & ? & ->)|(? & ->)])]; done.
  - intros i r' (r & Hr & Hc)%Hl. pose proof (rv_created _ _ _ _ R _ _ Hr) as Hcr.
    destruct Hc as [(? & ? & ->)|(? & [(? & Hs & ->)|(? & ->)])]; simpl.
    + split; [done|lia].
    + split; [done|]. intros ?. rewrite Hs in Hcr. destruct Hcr as [_ Hcr]. by specialize (Hcr ltac:(lia)).
    + rewrite Hcr. lia.
  - split; [apply R|done].
  - apply lookup_lt_is_Some. rewrite Hlen. apply lookup_lt_is_Some, (rv_zero _ _ _ _ R).
  - destruct (lookup_lt_is_Some_2 (pcbs (handle_arrivals now (paused st))) (current_process st)) as [r' Hr'];
    [rewrite Hlen; by eapply lookup_lt_Some|].
    exists r'. split; [done|]. destruct (Hl _ _ Hr') as (r & Hr & Hc). assert (r = q) as -> by congruence.
    destruct Hc as [(Hs & _ & ->)|(_ & [(_ & _ & ->)|(Hn & ->)])]; [by left|by left|right]. by destruct Hcs as [|[? ?]].
  - destruct Hfrom as [-> |(i & k & _ & -> & _)]; [by left|right; eauto].
  - intros i r' (r & Hr & Hc)%Hl. pose proof (rv_pcbs _ _ _ _ R _ _ Hr) as Hok. unfold revived_pcb in Hok.
    destruct Hc as [(Hs & _ & ->)|(_ & [(-> & Hs & ->)|(Hn & ->)])]; unfold caught_pcb; simpl.
    + rewrite Hs in Hok. exists Fresh. rewrite decide_False; [done|]. intros ->. assert (r = q) as -> by congruence. destruct Hcs as [|[? _]]; congruence.
    + rewrite Hs in Hok. rewrite decide_True by done. exists (here from). split; [done|]. destruct Hok as [_ Hok].
      destruct Hfrom as [-> |(i & k & p & -> & Hp & Hlt)]; [exact Hok|]. simpl in Hok |- *. destruct Hok as (? & -> & ? & _).
      assert (r = p) as -> by congruence. done.
    + destruct (state r) eqn:Hs; [done| |done|done]. destruct Hok as (? & x & ? & ?). exists x. by rewrite decide_False.
Qed.

Context (algo : algorithm) `{!Selector n ok algo}.
Lemma revived_handler now st from :
  revived n ok st from → current_quantum st < UINT_MAX →
  from = AtMain ∨ (∃ i k p, from = InLoop i k ∧ pcbs st !! i = Some p ∧ executed_work p < workload p) →
  ∃ st' c', interrupt_handler algo now st from = Ok (st', c') ∧ revived n ok st' c' ∧ current_quantum st' = current_quantum st + 1.
Proof.
  intros R Hq Hfrom. pose proof (revived_handled now st from R Hq Hfrom) as C. unfold interrupt_handler, paused in *. cbn zeta.
  set (s2 := handle_arrivals now _) in *. destruct (caught_waits s2 from C) as [Hw Hn].
  destruct (select_waiting (f := algo) now s2 0 (ct_count _ _ _ _ C) (ct_range _ _ _ _ C) Hn Hw) as (j & -> & Hj). cbn [mbind outcome_bind].
  destruct (caught_switch now s2 from j C Hj) as (st' & c' & -> & R' & Hq'). exists st', c'. split_and!; [done|done|].
  rewrite Hq'. unfold s2. simpl. by case_decide.
Qed.

(** ** Steps *)
Lemma revived_runner st c i :
  revived n ok st c → runner c = Some i →
  i = current_process st ∧ i ≠ 0%nat ∧ ∃ p, pcbs st !! i = Some p ∧ state p = RUNNING ∧ control_of i p c ∧ in_range ok p.
Proof.
  intros R Hr. destruct (rv_current _ _ _ _ R) as (p & Hp & [Hs|[_ ->]]); [|done].
  pose proof (rv_pcbs _ _ _ _ R _ _ Hp) as Hok. unfold revived_pcb in Hok. rewrite Hs in Hok. destruct Hok as [_ Hc].
  pose proof (Forall_lookup_1 _ _ _ _ (rv_range _ _ _ _ R) Hp) as Hin.
  assert (i = current_process st ∧ i ≠ 0%nat) as [-> Hi].
  { destruct c; simpl in Hr, Hc; simplify_eq; destruct Hc as (? & -> & _); done. }
  split_and!; [done|done|eauto].
Qed.

Lemma revived_own st c i f c' :
  revived n ok st c → runner c = Some i →
  (∀ p, pcbs st !! i = Some p → control_of i p c → in_range ok p → i ≠ 0%nat →
    identity (f p) = identity p ∧ in_range ok (f p) ∧
    (state (f p) = state p ∧ control_of i (f p) c' ∨ state (f p) = TERMINATED ∧ c' = AtMain)) →
  revived n ok (update_pcb i f st) c'.
Proof.
  intros R Hr Hf. destruct (revived_runner st c i R Hr) as (Hi & H0 & p & Hp & Hs & Hc & Hin).
  destruct (Hf p Hp Hc Hin H0) as (Hid & Hin' & Hst).
  assert (∀ j r, pcbs (update_pcb i f st) !! j = Some r → (j = i ∧ r = f p) ∨ (j ≠ i ∧ pcbs st !! j = Some r)) as Hl.
  { intros j r. rewrite update_lookup. case_decide as Hj; [|by right; split; [congruence|]]. subst j. rewrite Hp. intros [= <-]. by left. }
  split; [unfold num_processes; simpl; rewrite length_alter; apply (rv_count _ _ _ _ R)| | |apply R|apply R| | |].
  - apply Forall_lookup_2. intros j r [[-> ->]|[_ Hr']]%Hl; [done|]. apply (Forall_lookup_1 _ _ _ _ (rv_range _ _ _ _ R) Hr').
  - intros j r [[-> ->]|[_ Hr']]%Hl; [|by apply (rv_created _ _ _ _ R j)].
    pose proof (rv_created _ _ _ _ R _ _ Hp) as Hcr. rewrite Hs in Hcr. unfold identity in Hid. injection Hid as _ _ -> _ _.
    destruct Hst as [[-> _]|[-> _]]; rewrite ?Hs; [done|]. simpl. split; [done|]. intros Hle. by apply Hcr in Hle.
  - rewrite update_lookup. case_decide; [done|apply R].
  - exists (f p). simpl. rewrite Hi, list_lookup_alter, decide_True, <- Hi, Hp by done. split; [done|].
    destruct Hst as [[-> _]|Hst]; [by left|by right].
  - intros j r [[-> ->]|[Hne Hr']]%Hl; unfold revived_pcb; simpl.
    + destruct Hst as [[-> Hco]|[-> _]]; rewrite ?Hs; [by split|done].
    + pose proof (rv_pcbs _ _ _ _ R _ _ Hr') as Ho. unfold revived_pcb in Ho. destruct (state r); try done. destruct Ho; congruence.
Qed.

Lemma revived_step now b st c :
  revived n ok st c → current_quantum st < UINT_MAX →
  ∃ st' c', step algo now b st c = Ok (st', c') ∧ revived n ok st' c' ∧ current_quantum st ≤ current_quantum st' ≤ current_quantum st + 1.
Proof.
  intros R Hq. destruct c as [|i k|i k|]; cbn [step].
  - assert (finished st = false) as ->.
    { unfold finished. destruct (rv_zero _ _ _ _ R) as [p Hp]. pose proof (rv_pcbs _ _ _ _ R _ _ Hp) as Hok. unfold revived_pcb in Hok.
      destruct (pcbs st) as [|p' l]; [done|]. injection Hp as ->.
      cbn [forallb]. rewrite (bool_decide_false (state p = TERMINATED)) by (intros Hs; by rewrite Hs in Hok). apply andb_false_r. }
    destruct (revived_handler now st AtMain R Hq) as (st' & c' & ? & ? & ?); [by left|]. exists st', c'. split_and!; [done|done|lia|lia].
  - destruct (revived_runner st _ i R eq_refl) as (Hi & H0 & p & Hp & Hs & Hc & Hin). simpl in Hc. destruct Hc as (_ & _ & Hk & Hlt).
    unfold pcb_at. rewrite Hp. cbn [mbind outcome_bind require].
    destruct (decide (k = 0%nat ∧ executed_work p >= workload p)) as [[-> Hge]|Hd].
    + rewrite status_bar_ok, (rv_main _ _ _ _ R) by lia. cbn [mbind outcome_bind resume]. do 2 eexists. split; [done|]. split; [|simpl; lia].
      eapply revived_own; [done|done|]. intros r _ _ Hr _. split_and!; [done|exact Hr|by right].
    + assert (executed_work p < workload p) as Hl.
      { destruct k; [|apply Hlt; lia]. destruct (decide (executed_work p < workload p)); [done|]. destruct Hd. split; [done|lia]. }
      pose proof Hin as (_ & ? & ? & _). rewrite progress_next by lia. destruct b.
      * destruct (revived_handler now st (InLoop i k) R Hq) as (st' & c' & ? & ? & ?); [right; by exists i, k, p|].
        exists st', c'. split_and!; [done|done|lia|lia].
      * do 2 eexists. split; [done|]. split; [|lia]. rewrite <- (update_id i st). eapply revived_own; [done|done|].
        intros r Hr _ Hin' _. assert (r = p) as -> by congruence. split_and!; [done|done|]. left. simpl. auto.
  - case_decide as Hd; (do 2 eexists; split; [done|]; split; [|simpl; lia]); [|rewrite <- (update_id i st)];
    (eapply revived_own; [done|done|]; intros r Hr (_ & _ & Hk & Hlt) Hin Hi; pose proof Hin as (? & ? & ? & ?)).
    + assert (wrap32 (executed_work r + 1) = executed_work r + 1) as Hw by (apply wrap32_small; unfold UINT_MAX, INT_MAX in *; lia).
      split_and!; [done|unfold in_range; simpl; rewrite Hw; split_and!; done || lia|]. left. simpl. split_and!; [done|done|done|lia|lia].
    + split_and!; [done|done|]. left. simpl. split_and!; [done|done|done|lia|done].
  - destruct (rv_current _ _ _ _ R) as (p & Hp & [Hs|[_ ?]]); [|done]. pose proof (rv_pcbs _ _ _ _ R _ _ Hp) as Hok.
    unfold revived_pcb in Hok. rewrite Hs in Hok. by destruct Hok.
Qed.

Lemma revived_run inputs st c :
  revived n ok st c → current_quantum st + Z.of_nat (length inputs) ≤ UINT_MAX →
  ∃ st' c', run algo inputs st c = Ok (st', c') ∧ revived n ok st' c'.
Proof.
  revert st c. induction inputs as [|[now b] inputs IH]; intros st c R Hq; [by exists st, c|]. cbn [run].
  change (length ((now, b) :: inputs)) with (S (length inputs)) in Hq.
  destruct (revived_step now b st c R ltac:(lia)) as (st1 & c1 & -> & R1 & Hq1). cbn [mbind outcome_bind]. apply IH; [done|lia].
Qed.
End revived.

(** In a gap, the switch from process 0 to itself revives it. *)
Lemma gap_revives ok ps st now :
  settled ok ps st AtMain → gap st → current_process st = 0%nat → current_quantum st < UINT_MAX →
  ∃ st', context_switch now st AtMain 0 = Ok (st', AtMain) ∧ revived (length ps) ok st' AtMain ∧
    current_quantum st' = current_quantum st + 1.
Proof.
  intros I G H0 Hq. pose proof (i_quantum _ _ _ _ _ I) as Hpos. destruct (i_current _ _ _ _ _ I) as (p & Hp & Ht).
  simpl in Ht. rewrite H0 in Hp. unfold context_switch. rewrite Hp. cbn [mbind outcome_bind require].
  rewrite decide_True by (split; [done|lia]). eexists. split; [done|]. split; [|simpl; apply wrap32_small; lia].
  rewrite (i_main _ _ _ _ _ I), H0. apply (revive_running (length ps) ok st AtMain (pcbs st) 0 p (set_state RUNNING)); try done;
    [exact (inv_count _ _ _ _ _ I)| |by rewrite Ht].
  intros i r Hr. split; [by apply (Forall_lookup_1 _ _ _ _ (i_range _ _ _ _ _ I) Hr)|].
  destruct G as [_ G]. destruct (Forall_lookup_1 _ _ _ _ G Hr) as [Hw Hc]. split.
  - rewrite (i_created _ _ _ _ _ I i r Hr). lia.
  - intros Hi. pose proof (i_pcbs _ _ _ _ _ I i r Hr) as Hok. unfold pcb_ok, idle_ok in Hok. simpl in Hok.
    unfold waiting in Hw. destruct (state r); done.
Qed.

(** What a revived process 0 means for the rest of the run. *)
Definition never_done (o : outcome (scheduler_state * control)) : Prop :=
  ∃ st c p, o = Ok (st, c) ∧ c ≠ Halted ∧ pcbs st !! 0%nat = Some p ∧ (state p = RUNNING ∨ state p = WAITING).

Lemma revived_never_done n ok st c : revived n ok st c → never_done (Ok (st, c)).
Proof.
  intros R. destruct (rv_zero _ _ _ _ R) as [p Hp]. exists st, c, p. split_and!; [done| |done|].
  - intros ->. destruct (rv_current _ _ _ _ R) as (q & Hq & [Hs|[_ ?]]); [|done].
    pose proof (rv_pcbs _ _ _ _ R _ _ Hq) as Hok. unfold revived_pcb in Hok. rewrite Hs in Hok. by destruct Hok.
  - pose proof (rv_pcbs _ _ _ _ R _ _ Hp) as Hok. unfold revived_pcb in Hok. destruct (state p); auto; done.
Qed.

(** From an idle state on. *)
Definition after_gap (arg : cstr) (st : scheduler_state) (length : Z) (o : outcome (scheduler_state * control)) : Prop :=
  if decide (arg = lit "fifo") then o = Undef Uninitialised
  else if decide (arg = lit "insanity") then o = OutOfFuel
  else if decide (arg ∈ defaults_to_0) then
    if decide (current_process st = 0%nat ∧ current_quantum st ≠ 0)
    then current_quantum st + length ≤ UINT_MAX → never_done o
    else o = Undef Unmapped
  else o = Ok (st, AtMain).

Section gap_run.
Context (rands : Z → list Z) (arg : cstr) (ps : list process_ctl_block).
Context (Harg : arg = lit "insanity" → hits (length ps) rands).
Abbreviation ok := (λ z, arg = lit "priority" → 0 < z).
Abbreviation algo := (select_algorithm rands arg).

Lemma idle_after st later :
  idle st → later ≠ [] → (current_process st = 0%nat ∧ current_quantum st ≠ 0 → settled ok ps st AtMain ∧ gap st) →
  after_gap arg st (Z.of_nat (length later)) (run algo later st AtMain).
Proof.
  intros I Hn Hs. destruct (idle_undefined st I rands arg later Hn) as (H1 & H0 & H2).
  pose proof (idle_for_ever st I rands arg later) as H3. pose proof (λ now b, idle_handler st I rands arg now b) as H4.
  unfold after_gap. unfold idle_choice in *. case_decide; [by apply H1|]. case_decide; [by apply H0|]. case_decide; [|by apply H3].
  case_decide as Hc; [|apply H2; [done|]].
  - intros Hq. destruct (Hs Hc) as [S G]. destruct later as [|[now b] later]; [done|]. cbn [run]. rewrite H4. cbn [mbind outcome_bind].
    change (length ((now, b) :: later)) with (Datatypes.S (length later)) in Hq.
    destruct (gap_revives ok ps st now S G) as (st1 & -> & R & Hq1); [by destruct Hc|lia|]. cbn [mbind outcome_bind].
    pose proof (select_selector (length ps) rands arg Harg) as Hsel.
    destruct (revived_run (length ps) ok algo later st1 AtMain R) as (st2 & c2 & -> & R2); [lia|]. by eapply revived_never_done.
  - destruct (decide (current_process st = 0%nat)); [|by left]. right. destruct (decide (current_quantum st = 0)); [done|].
    by destruct Hc.
Qed.

(** Runs from the start. *)
Context (Hne : ps ≠ []) (Hf : Forall (fresh ok) ps) (Hb : total_steps ps + 1 < 4294967296).

Lemma run_or_gap inputs :
  total_steps ps + 1 ≤ Z.of_nat (length inputs) →
  (∃ st, run algo inputs (initial ps) AtMain = Ok (st, Halted) ∧
    Forall (λ p, state p = TERMINATED ∧ executed_work p = workload p) (pcbs st)) ∨
  ∃ before after st, inputs = before ++ after ∧ run algo before (initial ps) AtMain = Ok (st, AtMain) ∧ idle st ∧
  (current_process st = 0%nat ∧ current_quantum st ≠ 0 → settled ok ps st AtMain ∧ gap st).
Proof.
  intros Hl. pose proof (select_selector (length ps) rands arg Harg) as Hsel.
  destruct (decide (Exists (λ p, creation_quantum p = 0) ps)) as [Hfirst|Hno]; last first.
  { right. exists [], inputs, (initial ps). split_and!; [done|done|by eapply idle_initial|]. by intros [_ []]. }
  destruct inputs as [|[now b] inputs].
  { exfalso. pose proof (total_steps_nonneg _ ps Hf). simpl in Hl. lia. }
  destruct (first_step ok algo ps Hf Hfirst Hb now b) as (st1 & c1 & Hs & I1 & Hm). cbn [run]. rewrite Hs. cbn [mbind outcome_bind].
  destruct (run_to_gap ok algo ps inputs st1 c1 I1) as (before & after & st & c & -> & Hr & I & [[-> G]|[-> Hh]]).
  - right. exists ((now, b) :: before), after, st. cbn [run]. rewrite Hs. split_and!; [done|exact Hr|by eapply idle_gap|done].
  - left. rewrite app_nil_r in *. change (length ((now, b) :: before)) with (Datatypes.S (length before)) in Hl.
    assert (c = Halted) as -> by (apply Hh; lia). exists st. split; [done|].
    apply Forall_lookup_2. intros i p Hp. pose proof (Forall_lookup_1 _ _ _ _ (i_halted _ _ _ _ _ I eq_refl) Hp) as Ht.
    split; [done|]. pose proof (i_pcbs _ _ _ _ _ I i p Hp) as Hok. unfold pcb_ok, idle_ok in Hok. simpl in Hok. simpl in Ht. rewrite Ht in Hok. apply Hok.
Qed.
End gap_run.

(** C32: with arrivals of any kind, a long enough run of any algorithm (of
    insanity, when its draws hit every process) either completes every process or reaches a state in which
    processes are left and none waits, and then never completes. From such a
    state basic and rr leave main in its loop for ever, as only switches
    advance the quantum; insanity draws for ever; fifo uses an uninitialised
    process number; sjf, psjf,
    sctf and priority switch to process 0. If that is current, it is RUNNING
    again although it has ended, and waits whenever it is not: main never
    leaves its loop, whatever arrives later, at least as long as the quantum
    does not wrap around. If it is not, there is no context to switch to. *)
Theorem gap_outcome rands arg ps inputs :
  (arg = lit "insanity" → hits (length ps) rands) → ps ≠ [] → Forall (fresh (λ z, arg = lit "priority" → 0 < z)) ps →
  total_steps ps + 1 < 4294967296 → total_steps ps + 1 ≤ Z.of_nat (length inputs) →
  let algo := select_algorithm rands arg in
  (∃ st, run algo inputs (initial ps) AtMain = Ok (st, Halted) ∧
     Forall (λ p, state p = TERMINATED ∧ executed_work p = workload p) (pcbs st)) ∨
  ∃ before after st, inputs = before ++ after ∧ run algo before (initial ps) AtMain = Ok (st, AtMain) ∧ idle st ∧
    ∀ later, later ≠ [] → after_gap arg st (Z.of_nat (length later)) (run algo later st AtMain).
Proof.
  intros Ha Hne Hf Hb Hl algo. destruct (run_or_gap rands arg ps Ha Hne Hf Hb inputs Hl)
    as [|(before & after & st & Hi & Hr & I & Hs)]; [by left|right].
  exists before, after, st. split_and!; [done|done|done|]. intros later Hn. by eapply idle_after.
Qed.

(** Process_A arrives first, Process_B in quantum 5, under sjf: once Process_A
    has ended, it is RUNNING again, and Process_B never runs. *)
Definition gap_ps : list process_ctl_block :=
  [MkPcb 0 (lit "Process_A") CREATED None 0 1 0 10 0 0 0; MkPcb 1 (lit "Process_B") CREATED None 5 2 0 20 0 0 0].
Definition gap_inputs : list (Z * bool) := replicate 200 (5, true).
Lemma gap_outcome_witness :
  (∃ st, run (select_algorithm (λ _, []) (lit "sjf")) gap_inputs (initial gap_ps) AtMain = Ok (st, Halted) ∧
     Forall (λ p, state p = TERMINATED ∧ executed_work p = workload p) (pcbs st)) ∨
  ∃ before after st, gap_inputs = before ++ after ∧
    run (select_algorithm (λ _, []) (lit "sjf")) before (initial gap_ps) AtMain = Ok (st, AtMain) ∧ idle st ∧
    ∀ later, later ≠ [] →
      after_gap (lit "sjf") st (Z.of_nat (length later)) (run (select_algorithm (λ _, []) (lit "sjf")) later st AtMain).
Proof.
  apply (gap_outcome (λ _, []) (lit "sjf") gap_ps gap_inputs); [done|done| |reflexivity|vm_compute; discriminate].
  repeat constructor; done.
Defined.
Example gap_revived :
  match run sjf (replicate 400 (5, false)) (initial gap_ps) AtMain with
  | Ok (st, c) => bool_decide (c = AtMain) && bool_decide (state <$> pcbs st = [RUNNING; WAITING])
  | _ => false
  end = true.
Proof. vm_compute. reflexivity. Qed.
