(* ===== verification/SchedReport.v ===== *)
(** The summary the scheduler prints (LabWork/Lab7/scheduler.c): the times and
    their averages, close to the exact ones, and the completion order, which the
    passes over the two arrays sort, keeping the order of equal times. *)
From Stdlib Require Import ZArith Lia Ascii SpecFloat.
From stdpp Require Import prelude gmap strings numbers list sorting.
From S2P Require Import Prelude CString CFloat Clock Scheduler.
Open Scope Z_scope.

Definition earlier (x y : Z * cstr) : Prop := x.1 ≤ y.1.
Definition at_time (t : Z) (l : list (Z * cstr)) : list (Z * cstr) := filter (λ x, x.1 = t) l.

Lemma bubble_from_filter t a l : at_time t (bubble_from a l) = at_time t (a :: l).
Proof.
  unfold at_time. revert a. induction l as [|b l IH]; intros a; [done|]. cbn [bubble_from].
  case_decide as Hd; rewrite !filter_cons, IH, !filter_cons; [|done].
  destruct (decide (b.1 = t)), (decide (a.1 = t)); done || lia.
Qed.
Lemma bubble_pass_filter t l : at_time t (bubble_pass l) = at_time t l.
Proof. destruct l; [done|]. apply bubble_from_filter. Qed.

Lemma bubble_from_perm a l : bubble_from a l ≡ₚ a :: l.
Proof.
  revert a. induction l as [|b l IH]; intros a; cbn [bubble_from]; [done|]. case_decide; [|by rewrite IH].
  rewrite IH. constructor.
Qed.
Lemma bubble_iter_perm n l : Nat.iter n bubble_pass l ≡ₚ l.
Proof.
  induction n as [|n IH]; [done|]. rewrite Nat.iter_succ. rewrite <- IH at 2.
  destruct (Nat.iter n _ _) as [|a l']; [done|]. apply bubble_from_perm.
Qed.

(** A pass in front of a settled tail moves the latest element next to it. *)
Lemma bubble_from_settled l2 l1 a :
  (∀ x y, x ∈ a :: l1 → y ∈ l2 → earlier x y) → StronglySorted earlier l2 →
  ∃ l1' m, bubble_from a (l1 ++ l2) = l1' ++ m :: l2 ∧ l1' ++ [m] ≡ₚ a :: l1 ∧ ∀ x, x ∈ l1' → earlier x m.
Proof.
  unfold earlier. intros Hle Hs. revert a Hle. induction l1 as [|b l1 IH]; intros a Hle; simpl.
  - exists [], a. split_and!; [|done|by intros x ?%not_elem_of_nil].
    assert (∀ y, y ∈ l2 → a.1 ≤ y.1) as Ha by (intros; apply Hle; set_solver). clear Hle.
    revert a Ha. induction Hs as [|b l2 _ IH Hb]; intros a Ha; simpl; [done|].
    pose proof (Ha b ltac:(set_solver)). rewrite decide_False by lia. f_equal. apply IH.
    intros y Hy. rewrite Forall_forall in Hb. by apply Hb.
  - case_decide as Hd.
    + destruct (IH a) as (l1' & m & -> & Hp & Hm); [intros; apply Hle; set_solver|].
      exists (b :: l1'), m. split_and!; [done|rewrite <- app_comm_cons, Hp; constructor|].
      intros x [->|Hx]%elem_of_cons; [|by apply Hm].
      assert (a ∈ l1' ++ [m]) as [Ha|Ha]%elem_of_app by (rewrite Hp; set_solver); [apply Hm in Ha; lia|].
      apply list_elem_of_singleton in Ha as ->. lia.
    + destruct (IH b) as (l1' & m & -> & Hp & Hm); [intros; apply Hle; set_solver|].
      exists (a :: l1'), m. split_and!; [done|by rewrite <- app_comm_cons, Hp|].
      intros x [->|Hx]%elem_of_cons; [|by apply Hm].
      assert (b ∈ l1' ++ [m]) as [Hb|Hb]%elem_of_app by (rewrite Hp; set_solver); [apply Hm in Hb; lia|].
      apply list_elem_of_singleton in Hb as ->. lia.
Qed.

(** After [k] passes the last [k] elements are settled. *)
Lemma bubble_passes k l :
  (k ≤ length l)%nat →
  ∃ l1 l2, Nat.iter k bubble_pass l = l1 ++ l2 ∧ length l2 = k ∧ length (l1 ++ l2) = length l ∧
    StronglySorted earlier l2 ∧ ∀ x y, x ∈ l1 → y ∈ l2 → earlier x y.
Proof.
  induction k as [|k IH]; intros Hk.
  - exists l, []. rewrite app_nil_r. split_and!; [done|done|done|constructor|by intros x y _ ?%not_elem_of_nil].
  - destruct IH as (l1 & l2 & Hi & Hl2 & Hlen & Hs & Hle); [lia|]. rewrite Nat.iter_succ, Hi.
    destruct l1 as [|a l1]; [rewrite length_app in Hlen; simpl in *; lia|]. simpl.
    destruct (bubble_from_settled l2 l1 a Hle Hs) as (l1' & m & -> & Hp & Hm).
    exists l1', (m :: l2). rewrite length_app in *. apply Permutation_length in Hp as Hpl.
    rewrite length_app in Hpl. simpl in *. split_and!; [done|lia|lia| |].
    + constructor; [done|]. apply Forall_forall. intros y Hy. apply Hle; [|done]. rewrite <- Hp. set_solver.
    + intros x y Hx [->|Hy]%elem_of_cons; [by apply Hm|]. apply Hle; [|done]. rewrite <- Hp. set_solver.
Qed.

(** The passes sort, and keep the order of equal times. *)
Lemma bubble_sorts l :
  let r := Nat.iter (length l - 1) bubble_pass l in StronglySorted earlier r ∧ ∀ t, at_time t r = at_time t l.
Proof.
  intros r. unfold r. split.
  - destruct (bubble_passes (length l - 1) l) as (l1 & l2 & -> & Hl2 & Hlen & Hs & Hle); [lia|].
    rewrite length_app in Hlen.
    destruct l1 as [|a [|b l1]]; [done| |simpl in *; lia]. simpl. constructor; [done|].
    apply Forall_forall. intros y Hy. apply Hle; [set_solver|done].
  - intros t. generalize (length l - 1)%nat. intros n. induction n as [|n IH]; [done|].
    by rewrite Nat.iter_succ, bubble_pass_filter.
Qed.

(** * Times *)

(** The process arrived, started and ended, in this order. *)
Definition in_order (p : process_ctl_block) : Prop :=
  0 ≤ arrival_time p ≤ start_time p ∧ start_time p ≤ completion_time p < LATEST.
Definition sum_us (f : process_ctl_block → Z) (ps : list process_ctl_block) : Z := foldr (λ p n, f p + n) 0 ps.
Definition turn_us (p : process_ctl_block) : Z := completion_time p - arrival_time p.
Definition resp_us (p : process_ctl_block) : Z := start_time p - arrival_time p.
(** [h] hundredths of a second are within one of [us] microseconds. *)
Definition hundredths (us h : Z) : Prop := us - 10000 ≤ h * 10000 ≤ us + 10000.

Definition whole_seconds (ps : list process_ctl_block) : list (Z * cstr) :=
  (λ p, (completion_time p / 1000000, name p)) <$> ps.
Lemma completions_ok st : Forall in_order (pcbs st) → completions st = Ok (whole_seconds (pcbs st)).
Proof.
  unfold completions. intros Hp. induction Hp as [|p ps (? & ? & ?) _ IH]; [done|]. cbn [mapM].
  rewrite get_time_int by (unfold clock_ok; lia). cbn [mbind outcome_bind]. by rewrite IH.
Qed.

(** Every process is listed once. *)
Lemma completion_order_names st :
  Forall in_order (pcbs st) → ∃ order, completion_order st = Ok order ∧ order.*2 ≡ₚ name <$> pcbs st.
Proof.
  intros Hp. unfold completion_order. rewrite completions_ok by done. cbn [mbind outcome_bind]. eexists. split; [done|].
  rewrite bubble_iter_perm. unfold whole_seconds. by rewrite <- list_fmap_compose.
Qed.

Section times.
Context (time : process_ctl_block → float) (us : process_ctl_block → Z).

Lemma total_within ps acc k u :
  Forall (λ p, within_us SLACK (us p) (time p) ∧ 0 ≤ us p) ps →
  within_us k u acc → 1024 * (u + sum_us us ps) + k + Z.of_nat (length ps) * SLACK < 16777216 * 1000000 →
  within_us (k + Z.of_nat (length ps) * SLACK) (u + sum_us us ps) (foldl (λ t p, fadd t (time p)) acc ps).
Proof.
  intros Hp. revert acc k u. induction Hp as [|p ps [Hp Hu] Hps IH]; intros acc k u Hacc Hlt; cbn [foldl sum_us foldr length] in *.
  - by rewrite !Z.add_0_r.
  - assert (0 ≤ sum_us us ps) by (clear -Hps; induction Hps as [|q l [_ ?] _ ?]; simpl; lia).
    unfold sum_us in *. rewrite Nat2Z.inj_succ, Z.mul_succ_l in *. unfold SLACK in *.
    replace (k + (Z.of_nat (length ps) * 1001000 + 1001000)) with (k + 1001000 + Z.of_nat (length ps) * 1001000) by lia.
    rewrite Z.add_assoc. apply IH; [|lia]. apply fadd_within; [lia|done|done].
Qed.

Lemma times_printed ps :
  Forall (λ p, within_us SLACK (us p) (time p) ∧ 0 ≤ us p) ps → ps ≠ [] → (length ps ≤ NUM_PROCESSES)%nat →
  sum_us us ps < 16000 * 1000000 →
  ∃ hs avg, time_lines time ps = zip_with (λ p h, lit " - " ++ name p ++ lit " " ++ print_decimals 2 h ++ lit "s") ps hs ∧
  Forall2 (λ p h, hundredths (us p) h) ps hs ∧ print_float 2 (average time ps) = print_decimals 2 avg ∧
  let n := Z.of_nat (length ps) in sum_us us ps - n * 10000 ≤ n * avg * 10000 ≤ sum_us us ps + n * 10000.
Proof.
  intros Hp Hne Hlen Hsum. unfold NUM_PROCESSES in Hlen.
  assert (0 ≤ sum_us us ps) by (clear -Hp; induction Hp as [|q l [_ ?] _ ?]; simpl; lia).
  assert (∃ hs, time_lines time ps = zip_with (λ p h, lit " - " ++ name p ++ lit " " ++ print_decimals 2 h ++ lit "s") ps hs ∧
    Forall2 (λ p h, hundredths (us p) h) ps hs) as (hs & Hh & Hall).
  { clear -Hp. induction Hp as [|p ps [Hw Hu] _ (hs & IH & Hall)]; [by exists []|].
    destruct (elapsed_printed _ _ Hw Hu) as (h & Hf & Hr). exists (h :: hs). unfold time_lines in *.
    rewrite fmap_cons, IH, Hf. split; [done|]. by constructor. }
  assert (0 < Z.of_nat (length ps)) by (destruct ps; [done|simpl; lia]).
  assert (within_us (0 + Z.of_nat (length ps) * SLACK) (0 + sum_us us ps) (total time ps)) as Ht.
  { apply total_within; [done| |unfold SLACK; lia]. exists 0, 0. split_and!; [|lia..]. by vm_compute. }
  destruct (average_printed (Z.of_nat (length ps)) (sum_us us ps) (total time ps)) as (avg & Ha & Hr);
    [unfold TOP; lia|done|by rewrite !Z.add_0_l in Ht|unfold SLACK; lia|].
  exists hs, avg. by split_and!.
Qed.
End times.

Definition report_lines (ps : list process_ctl_block) (ts : list Z) (ta : Z) (rs : list Z) (ra : Z) (order : list cstr) : list cstr :=
  let times := zip_with (λ p h, lit " - " ++ name p ++ lit " " ++ print_decimals 2 h ++ lit "s") ps in
  [[]; []; lit "Execution complete. Summary:"; lit "-----------------------Turnaround Times:"] ++ times ts ++
  [lit "Average Turnaround Time: " ++ print_decimals 2 ta ++ lit "s"; []; lit "Response Times:"] ++ times rs ++
  [lit "Average Response time: " ++ print_decimals 2 ra ++ lit "s"; []; lit "Completion Order:"] ++
  imap (λ i s, lit " " ++ print_int (Z.of_nat i) ++ lit ".) " ++ s) order.
(** What the summary of the processes [ps] holds. *)
Definition reports (ps : list process_ctl_block) (lines : list cstr) : Prop :=
  ∃ ts ta rs ra order, lines = report_lines ps ts ta rs ra (order.*2) ∧
    Forall2 (λ p h, hundredths (turn_us p) h) ps ts ∧ Forall2 (λ p h, hundredths (resp_us p) h) ps rs ∧
    (let n := Z.of_nat (length ps) in
     sum_us turn_us ps - n * 10000 ≤ n * ta * 10000 ≤ sum_us turn_us ps + n * 10000 ∧
     sum_us resp_us ps - n * 10000 ≤ n * ra * 10000 ≤ sum_us resp_us ps + n * 10000) ∧
    StronglySorted earlier order ∧ ∀ t, at_time t order = at_time t (whole_seconds ps).

Lemma sum_us_le f g ps : Forall (λ p, f p ≤ g p) ps → sum_us f ps ≤ sum_us g ps.
Proof. induction 1; simpl; lia. Qed.
Lemma sum_us_elem f ps : Forall (λ p, 0 ≤ f p) ps → 0 ≤ sum_us f ps ∧ Forall (λ p, f p ≤ sum_us f ps) ps.
Proof.
  induction 1 as [|p ps Hp _ [IH0 IH]]; simpl; [done|]. split; [lia|]. constructor; [lia|].
  eapply Forall_impl; [exact IH|]. simpl. lia.
Qed.
Lemma summary_reports (st : scheduler_state) :
  pcbs st ≠ [] → (length (pcbs st) ≤ NUM_PROCESSES)%nat → Forall in_order (pcbs st) →
  sum_us turn_us (pcbs st) < 16000 * 1000000 →
  ∃ lines, summary st = Ok lines ∧ reports (pcbs st) lines.
Proof.
  intros Hne Hlen Hp Hsum. unfold summary, completion_order. rewrite completions_ok by done. cbn [mbind outcome_bind].
  assert (Forall (λ p, 0 ≤ resp_us p ≤ turn_us p) (pcbs st)) as Hrt.
  { eapply Forall_impl; [exact Hp|]. intros p (? & ? & ?). unfold resp_us, turn_us. lia. }
  assert (sum_us resp_us (pcbs st) ≤ sum_us turn_us (pcbs st)) as Hle.
  { apply sum_us_le. eapply Forall_impl; [exact Hrt|]. simpl. lia. }
  destruct (sum_us_elem turn_us (pcbs st)) as [H0 Helem]; [eapply Forall_impl; [exact Hrt|]; simpl; lia|].
  assert (Forall (λ p, in_order p ∧ turn_us p < 16000 * 1000000) (pcbs st)) as Hio.
  { apply Forall_and. split; [done|]. eapply Forall_impl; [exact Helem|]. simpl. lia. }
  destruct (times_printed turn turn_us (pcbs st)) as (ts & ta & Et & Ht & Ea & Ha); [|done|done|done|].
  { eapply Forall_impl; [exact Hio|]. intros p ((? & ? & ?) & Hl). unfold turn, turn_us, clock_ok in *.
    split; [apply elapsed_within; unfold clock_ok; lia|lia]. }
  destruct (times_printed resp resp_us (pcbs st)) as (rs & ra & Er & Hr & Eb & Hb); [|done|done|lia|].
  { eapply Forall_impl; [exact Hio|]. intros p ((? & ? & ?) & Hl). unfold resp, resp_us, turn_us, clock_ok in *.
    split; [apply elapsed_within; unfold clock_ok; lia|lia]. }
  eexists. split; [done|]. destruct (bubble_sorts (whole_seconds (pcbs st))) as [Hs Hst].
  assert (num_processes st = length (whole_seconds (pcbs st))) as Hn by (unfold whole_seconds, num_processes; by rewrite length_fmap).
  rewrite Hn. set (order := Nat.iter _ _ _) in *.
  exists ts, ta, rs, ra, order. split_and!; try done; [|lia..].
  unfold report_lines. rewrite Et, Ea, Er, Eb. do 4 f_equal. rewrite imap_fmap. done.
Qed.

(** C31: for processes that arrived, started and ended in this order, the
    printed turnaround and response times are within one hundredth of a second
    of the exact ones, and so are their averages; the completion order is
    sorted by completion time in whole seconds, and processes with the same
    second are in the order of their PCBs. *)
Theorem summary_correct (st : scheduler_state) :
  pcbs st ≠ [] → (length (pcbs st) ≤ NUM_PROCESSES)%nat → Forall in_order (pcbs st) →
  sum_us turn_us (pcbs st) < 16000 * 1000000 →
  ∃ lines, summary st = Ok lines ∧ reports (pcbs st) lines.
Proof. apply summary_reports. Qed.

(** Times that differ by less than a second count as equal: a process that
    ends first may be printed last. *)
Definition done_at (a s t : Z) (nm : string) : process_ctl_block :=
  MkPcb 0 (lit nm) TERMINATED None 0 1 1 10 a s t.
Definition demo_done : scheduler_state :=
  MkSched [done_at 900000 1400000 3900000 "B"; done_at 900000 900000 3100000 "A"; done_at 900123 900130 1000000 "C"] 9 0 MainCheck.
Example demo_summary :
  summary demo_done = Ok (map lit
    [""; ""; "Execution complete. Summary:"; "-----------------------Turnaround Times:";
     " - B 3.00s"; " - A 2.20s"; " - C 0.10s"; "Average Turnaround Time: 1.77s"; ""; "Response Times:";
     " - B 0.50s"; " - A 0.00s"; " - C 0.00s"; "Average Response time: 0.17s"; ""; "Completion Order:";
     " 0.) C"; " 1.) B"; " 2.) A"]).
Proof. by vm_compute. Qed.
Lemma summary_correct_witness : ∃ lines, summary demo_done = Ok lines ∧ reports (pcbs demo_done) lines.
Proof.
  apply (summary_correct demo_done); [done|simpl; unfold NUM_PROCESSES; lia| |done].
  unfold demo_done. simpl. repeat constructor; simpl; unfold LATEST; lia.
Defined.
