(* ===== verification/SchedClock.v ===== *)
(** The times of the processes in a run of the scheduler
    (LabWork/Lab7/scheduler.c): when the clock does not go back, a process
    arrives before it starts, and starts before it ends. *)
From Stdlib Require Import ZArith Lia Ascii.
From stdpp Require Import prelude gmap strings numbers list.
From S2P Require Import Prelude CString CFloat Clock Scheduler SchedSelect SchedRun SchedSpec SchedReport.
Open Scope Z_scope.
Import CInt.

(** * The invariant, at the clock reading [t] of a run that began at [t0] *)
Section begun.
Context (t0 : Z).
Definition started (t : Z) (p : process_ctl_block) : Prop := t0 ≤ arrival_time p ≤ start_time p ∧ start_time p ≤ t.
Definition timed (t : Z) (p : process_ctl_block) : Prop :=
  match state p with
  | CREATED => ctx p = None
  | WAITING => t0 ≤ arrival_time p ≤ t ∧ (ctx p = Some Fresh ∨ started t p)
  | RUNNING => started t p
  | TERMINATED => started t p ∧ start_time p ≤ completion_time p ≤ t
  end.
(** The current process has started, but in quantum 0. *)
Record timed_state (t : Z) (st : scheduler_state) : Prop := {
  ts_quantum : 0 ≤ current_quantum st;
  ts_pcbs i p : pcbs st !! i = Some p → timed t p;
  ts_current : current_quantum st ≠ 0 → ∃ p, pcbs st !! current_process st = Some p ∧ started t p ∧ state p ≠ CREATED
}.

Lemma started_le t t' p : t ≤ t' → started t p → started t' p.
Proof. unfold started. lia. Qed.
Lemma timed_le t t' p : t ≤ t' → timed t p → timed t' p.
Proof.
  intros Ht. unfold timed. pose proof (started_le t t' p Ht). destruct (state p); [done|naive_solver lia|done|].
  intros [? ?]. split; [auto|lia].
Qed.
Lemma timed_state_le t t' st : t ≤ t' → timed_state t st → timed_state t' st.
Proof.
  intros Ht [H0 Hp Hc]. split; [done|..].
  - intros i p Hi. eapply timed_le, Hp, Hi. done.
  - intros Hq. destruct (Hc Hq) as (p & ? & ? & ?). exists p. split_and!; [done|by eapply started_le|done].
Qed.
(** A process that has arrived, and has started unless its context is fresh. *)
Lemma timed_arrived t p : timed t p → ctx p ≠ None → t0 ≤ arrival_time p ≤ t ∧ (ctx p = Some Fresh ∨ started t p).
Proof. unfold timed, started. destruct (state p); intuition lia || done. Qed.

(** An update of one PCB. *)
Lemma timed_update t i f st :
  timed_state t st →
  (∀ p, pcbs st !! i = Some p → timed t p → timed t (f p)) →
  (∀ p, pcbs st !! i = Some p → started t p → state p ≠ CREATED → i = current_process st → started t (f p) ∧ state (f p) ≠ CREATED) →
  timed_state t (update_pcb i f st).
Proof.
  intros [H0 Hp Hc] Hf Hs. split; [done|..].
  - intros j p. rewrite update_lookup. case_decide as Hij; [|by apply Hp]. subst j.
    destruct (pcbs st !! i) as [q|] eqn:Hq; [|done]. intros [= <-]. apply Hf; [done|by apply (Hp i)].
  - intros Hq. destruct (Hc Hq) as (p & Hl & Hst & Hcr). cbn [current_process update_pcb].
    rewrite update_lookup. case_decide as Hi; [|by exists p]. subst i. rewrite Hl. exists (f p).
    destruct (Hs p Hl Hst Hcr eq_refl). split_and!; [done|done|done].
Qed.

(** * Steps *)
Section clock.
Context (now : Z) (Hnow : t0 ≤ now).

Lemma timed_arrivals st :
  timed_state now st → (∀ p, pcbs st !! current_process st = Some p → current_quantum st ≠ 0 → creation_quantum p ≠ current_quantum st) →
  timed_state now (handle_arrivals now st).
Proof.
  intros [H0 Hp Hc] Hn. split; [done|..].
  - intros i p. rewrite arrive_lookup. destruct (pcbs st !! i) as [q|] eqn:Hq; [|done]. simpl. intros [= <-].
    case_decide; [|by apply (Hp i)]. unfold timed. simpl. split; [lia|by left].
  - intros Hq. destruct (Hc Hq) as (p & Hl & Hst & Hcr). change (current_process (handle_arrivals now st)) with (current_process st).
    rewrite arrive_lookup, Hl. simpl. rewrite decide_False by (by apply Hn). by exists p.
Qed.

(** The PCB switched to, which has arrived, starts or goes on. *)
Lemma timed_resume q i mc l p c0 :
  (∀ j r, l !! j = Some r → timed now r) → l !! i = Some p → c0 = ctx p → 0 ≤ q →
  ∀ st' c', resume now (MkSched (alter (set_state RUNNING) i l) q i mc) c0 = Ok (st', c') → timed_state now st'.
Proof.
  intros Hl Hi -> Hq st' c' Hr. pose proof (Hl i p Hi) as Hp.
  assert (ctx p ≠ None) as Hn by (intros Hn; rewrite Hn in Hr; done).
  destruct (timed_arrived now p Hp Hn) as [Ha Hs].
  assert (∀ f, started now (f (set_state RUNNING p)) → state (f (set_state RUNNING p)) = RUNNING →
    timed_state now (update_pcb i f (MkSched (alter (set_state RUNNING) i l) q i mc))) as Hgo.
  { intros f Hst Hrun. split; simpl; [done|..].
    - intros j r. rewrite !list_lookup_alter. case_decide; [|by apply Hl]. subst j. rewrite decide_True, Hi by done. simpl. intros [= <-].
      unfold timed. by rewrite Hrun.
    - intros _. rewrite !list_lookup_alter, !decide_True, Hi by done. simpl. eexists. split_and!; [done|done|congruence]. }
  destruct (ctx p) as [[|j k|]|] eqn:Hcx; simplify_eq/=.
  - apply (Hgo (set_start now)); [unfold started; simpl; lia|done].
  - destruct Hs as [|Hs]; [done|]. rewrite <- (update_id i (MkSched _ _ _ _)). by apply (Hgo (λ p, p)).
  - destruct Hs as [|Hs]; [done|]. rewrite <- (update_id i (MkSched _ _ _ _)). by apply (Hgo (λ p, p)).
Qed.

Lemma timed_switch st from pid st' c' :
  timed_state now st → context_switch now st from pid = Ok (st', c') → timed_state now st'.
Proof.
  intros T. unfold context_switch. destruct (pcbs st !! pid) as [pcb|] eqn:Hpid; [|done]. cbn [mbind outcome_bind require].
  case_decide as Hsame.
  - destruct Hsame as [-> Hq]. intros [= <- _]. destruct (ts_current _ _ T ltac:(lia)) as (p & Hl & Hst & _).
    assert (p = pcb) as -> by congruence. split; simpl; [apply wrap32_range|..].
    + intros i r. rewrite list_lookup_alter. case_decide; [|by apply (ts_pcbs _ _ T)]. subst i. rewrite Hpid. simpl. by intros [= <-].
    + intros _. rewrite list_lookup_alter, decide_True, Hpid by done. simpl. by eexists.
  - cbn zeta. set (no_old := bool_decide _) in *. cbn [update_pcb pcbs current_process].
    destruct no_old eqn:Hno.
    + apply (timed_resume _ pid _ (pcbs st) pcb); [apply T|done|done|apply wrap32_range].
    + assert (current_quantum st ≠ 0) as Hq0.
      { intros H0. unfold no_old in Hno. apply bool_decide_eq_false in Hno. tauto. }
      destruct (ts_current _ _ T Hq0) as (p & Hl & Hst & Hcr).
      apply (timed_resume _ pid _ (pcbs (update_pcb (current_process st) (set_ctx (here from)) st)) pcb).
      * apply timed_update; [done| |].
        -- intros r Hr _. assert (r = p) as -> by congruence. unfold timed, started in *. simpl.
          pose proof (ts_pcbs _ _ T _ _ Hl) as Ht. unfold timed, started in Ht. destruct (state p); [done|split; [lia|right; lia]|lia|lia].
        -- intros r Hr _ _ _. assert (r = p) as -> by congruence. split; [exact Hst|exact Hcr].
      * rewrite update_lookup. case_decide as Hc; [|done]. exfalso. apply Hsame. pose proof (ts_quantum _ _ T). split; [done|lia].
      * done.
      * apply wrap32_range.
Qed.

Lemma timed_handler algo st from st' c' :
  timed_state now st → (∀ p, pcbs st !! current_process st = Some p → current_quantum st ≠ 0 → creation_quantum p ≠ current_quantum st) →
  interrupt_handler algo now st from = Ok (st', c') → timed_state now st'.
Proof.
  intros T Hcur. unfold interrupt_handler. set (st1 := if decide _ then _ else st).
  assert (timed_state now st1) as T1.
  { unfold st1. case_decide as Hr; [|done]. apply timed_update; [done|..].
    - intros p Hp Ht. unfold current_pcb in Hr. rewrite Hp in Hr. simpl in Hr. unfold timed, started in *. rewrite Hr in Ht. simpl.
      split; [lia|by right].
    - intros p _ Hst _ _. done. }
  assert (timed_state now (handle_arrivals now st1)) as T2.
  { apply timed_arrivals; [done|]. intros p. unfold st1. case_decide; [|by apply Hcur]. simpl. rewrite list_lookup_alter, decide_True by done.
    destruct (pcbs st !! current_process st) as [q|] eqn:Hq; [|done]. intros [= <-]. simpl. by apply Hcur. }
  intros Hk. apply bind_Ok in Hk as ([pid|] & _ & Hk); [by eapply timed_switch|]. by injection Hk as <- _.
Qed.

(** One step of a run. *)
Lemma timed_step algo b st c st' c' :
  timed_state now st → (∀ p, pcbs st !! current_process st = Some p → current_quantum st ≠ 0 → creation_quantum p ≠ current_quantum st) →
  (∀ i, runner c = Some i → i = current_process st ∧ ∀ p, pcbs st !! i = Some p → state p = RUNNING) → g_main_ctx st = MainCheck →
  step algo now b st c = Ok (st', c') → timed_state now st'.
Proof.
  intros T Hcur Hrun Hmain. destruct c as [|i k|i k|]; cbn [step].
  - case_match; [by intros [= <- _]|by apply timed_handler].
  - destruct (Hrun i eq_refl) as [-> Hr]. intros Hs. apply bind_Ok in Hs as (p & Hp & Hs).
    assert (pcbs st !! current_process st = Some p) as Hq.
    { unfold pcb_at in Hp. destruct (pcbs st !! current_process st); [|done]. by injection Hp as ->. }
    case_decide.
    + apply bind_Ok in Hs as (? & _ & Hs). cbn in Hs. rewrite Hmain in Hs. injection Hs as <- _.
      assert (started now p) as Hst by (pose proof (ts_pcbs _ _ T _ _ Hq) as Ht; unfold timed in Ht; by rewrite (Hr p Hq) in Ht).
      apply timed_update; [done|..]; intros r Hr'; assert (r = p) as -> by congruence; [|done].
      intros _. unfold timed. simpl. split; [done|]. unfold started in Hst. simpl. lia.
    + apply bind_Ok in Hs as (? & _ & Hs). destruct b; [by eapply timed_handler|]. by injection Hs as <- _.
  - case_decide; [|by intros [= <- _]]. intros [= <- _]. apply timed_update; [done|..]; done.
  - by intros [= <- _].
Qed.
End clock.

(** * Runs *)

(** The clock readings go from [t] up to at most [T]. *)
Fixpoint ticking (t T : Z) (inputs : list (Z * bool)) : Prop :=
  match inputs with [] => t ≤ T | (now, _) :: inputs' => t ≤ now ∧ ticking now T inputs' end.
Lemma ticking_le t T inputs : ticking t T inputs → t ≤ T.
Proof. revert t. induction inputs as [|[now b] inputs IH]; intros t; [done|]. intros [? ?%IH]. lia. Qed.

Section runs.
Context (ok : Z → Prop) (algo : algorithm) (ps : list process_ctl_block) `{!Selector (length ps) ok algo} (Hdense : dense ps).

(** What [timed_step] needs, in a run whose arrivals leave no gap. *)
Lemma settled_facts st c :
  settled ok ps st c →
  (∀ p, pcbs st !! current_process st = Some p → current_quantum st ≠ 0 → creation_quantum p ≠ current_quantum st) ∧
  (∀ i, runner c = Some i → i = current_process st ∧ ∀ p, pcbs st !! i = Some p → state p = RUNNING) ∧ g_main_ctx st = MainCheck.
Proof.
  intros I. split_and!; [| |apply I].
  - intros p Hp _ Hq. destruct (arriving ok ps st c _ p I Hp Hq) as (Hs & _ & _ & Hr).
    destruct (i_current _ _ _ _ _ I) as (q & Hq' & Hc). destruct (runner c); [congruence|]. congruence.
  - intros i Hr. destruct (runner_facts ok ps _ st c i I Hr) as (Hi & p & Hp & [Hs _] & _). split; [done|]. intros q Hq. congruence.
Qed.

Lemma run_timed inputs t T st c :
  t0 ≤ t → ticking t T inputs → settled ok ps st c → timed_state t st →
  ∃ st' c', run algo inputs st c = Ok (st', c') ∧ settled ok ps st' c' ∧ timed_state T st'.
Proof.
  revert t st c. induction inputs as [|[now b] inputs IH]; intros t st c Ht Htick I Tm.
  - exists st, c. split_and!; [done|done|by eapply timed_state_le].
  - cbn [run]. destruct Htick as [Hle Htick]. pose proof (timed_state_le _ _ _ Hle Tm) as Tn.
    destruct (decide (c = Halted)) as [->|Hc].
    + cbn [step mbind outcome_bind]. apply (IH now); [lia|done|done|done].
    + destruct (step_progress ok algo ps Hdense now b st c I Hc) as (st1 & c1 & Hs & I1 & _). rewrite Hs. cbn [mbind outcome_bind].
      apply (IH now); [lia|done|done|]. destruct (settled_facts st c I) as (H1 & H2 & H3).
      by apply (timed_step now ltac:(lia) algo b st c st1 c1).
Qed.
End runs.
End begun.

(** A run from the start, long enough for all processes to end, with a clock
    that goes from [t] up to [T]. *)
Lemma run_in_order (ok : Z → Prop) (algo : algorithm) (ps : list process_ctl_block) inputs t T :
  Selector (length ps) ok algo → ps ≠ [] → Forall (fresh ok) ps → dense ps → total_steps ps + 1 < 4294967296 →
  0 ≤ t → ticking t T inputs → T < LATEST → ∀ st, run algo inputs (initial ps) AtMain = Ok (st, Halted) →
  Forall (λ p, in_order p ∧ t ≤ arrival_time p ∧ completion_time p ≤ T) (pcbs st).
Proof.
  intros Hs Hne Hf Hd Hb Ht Htick HT st Hrun. destruct inputs as [|[now b] inputs]; [done|]. cbn [run] in Hrun.
  destruct Htick as [Hle Htick].
  destruct (first_step ok algo ps Hf (dense_first ok ps Hne Hf Hd) Hb now b) as (st1 & c1 & Hs1 & I1 & _). rewrite Hs1 in Hrun. cbn [mbind outcome_bind] in Hrun.
  assert (timed_state t now st1) as T1.
  { apply (timed_step t now ltac:(lia) algo b (initial ps) AtMain st1 c1); [|done|done|done|done]. split; [done| |done].
    intros i p Hp. pose proof (Forall_lookup_1 _ _ _ _ Hf Hp) as (Hs' & Hc & _). unfold timed. by rewrite Hs'. }
  destruct (run_timed t ok algo ps Hd inputs now T st1 c1) as (st2 & c2 & Hr & I2 & T2); [lia|done|done|done|].
  assert (st2 = st ∧ c2 = Halted) as [-> ->] by (rewrite Hr in Hrun; by injection Hrun as -> ->).
  pose proof (i_halted _ _ _ _ _ I2 eq_refl) as Hh. apply Forall_lookup_2. intros i p Hp.
  pose proof (Forall_lookup_1 _ _ _ _ Hh Hp) as Hte. pose proof (ts_pcbs _ _ _ T2 i p Hp) as Hti. simpl in Hte.
  unfold timed, started in Hti. rewrite Hte in Hti. unfold in_order. lia.
Qed.
