(* ===== verification/SpecFile.v ===== *)
(** Process specification files (LabWork/Lab7/file_format.c): [read_spec] and
    what it computes line by line. *)
From Stdlib Require Import ZArith Lia Ascii.
From stdpp Require Import prelude gmap strings numbers list.
From S2P Require Import Prelude CString Tokenizer Scheduler.
Open Scope nat_scope.

(** * The code *)
Definition line_sz : nat := 1024.
Definition FIELD_DELIM : cstr := lit ", " ++ ["009"%char; "010"%char].
Definition NAME_SZ : nat := 128.

(** The loop over the array [line]. *)
Fixpoint scan_line (line : cstr) (fields : Z) : cstr * Z :=
  match line with
  | [] => ([], fields)
  | c :: l =>
      let c' := if decide (c = "#"%char) then nul else c in
      if decide (c' = nul) then (nul :: l, fields)
      else
        let '(l', n) := scan_line l (if decide (c' = ","%char) then fields + 1 else fields)%Z in
        (c' :: l', n)
  end.

(** [tok = next_token(&next_tok, ", \t\n")] and a read of the string [tok]. *)
Definition next_field (buf : cstr) (sp : option nat) : outcome (cstr * option nat * cstr) :=
  '(buf', sp', tok) ← next_token buf sp FIELD_DELIM;
  p ← require NullDeref tok;
  s ← string_at buf' p;
  Ok (buf', sp', s).

Definition read_process (line : cstr) (ps : list process_ctl_block)
    : outcome (cstr * list process_ctl_block) :=
  if decide (NUM_PROCESSES ≤ length ps) then Undef OutOfBounds
  else
    '(line, next_tok, tok) ← next_field line (Some 0);
    nm ← strcpy NAME_SZ tok;
    '(line, next_tok, tok) ← next_field line next_tok;
    creation ← atoi tok;
    '(line, next_tok, tok) ← next_field line next_tok;
    work ← atoi tok;
    '(line, next_tok, tok) ← next_field line next_tok;
    prio ← atoi tok;
    Ok (line, ps ++ [MkPcb (Z.of_nat (length ps)) nm CREATED None (CInt.wrap32 creation)
                       (CInt.wrap32 work) 0 (CInt.wrap32 prio) 0 0 0]).

(** One iteration of the loop. *)
Definition read_spec_line (line : cstr) (ps : list process_ctl_block)
    : outcome (cstr * list process_ctl_block) :=
  let '(line', fields) := scan_line line 1 in
  s ← c_string line';
  if decide (s = []) then Ok (line', ps)
  else if decide (fields ≠ 4%Z) then Ok (line', ps)
  else read_process line' ps.

Fixpoint read_lines (fuel : nat) (line file : cstr) (ps : list process_ctl_block)
    : outcome (list process_ctl_block) :=
  match fuel with
  | 0 => OutOfFuel
  | S f =>
      match fgets line_sz line file with
      | None => Ok ps
      | Some (line', rest) =>
          '(line'', ps') ← read_spec_line line' ps;
          read_lines f line'' rest ps'
      end
  end.

(** [None] is a file that [fopen] cannot open. *)
Definition read_spec (file : option cstr) : outcome (list process_ctl_block) :=
  file ← require NullDeref file;
  read_lines (S (length file)) (replicate line_sz nul) file [].

(** * What it computes

    A line counts up to its comment; it defines a process when it has three
    commas. *)
Definition not_hash (c : ascii) : bool := bool_decide (c ≠ "#"%char).
Definition commas (s : cstr) : Z := Z.of_nat (length (filter (λ c, c = ","%char) s)).

Definition parse_fields (ps : list process_ctl_block) (ts : list cstr) : outcome (list process_ctl_block) :=
  if decide (NUM_PROCESSES ≤ length ps) then Undef OutOfBounds
  else
    nm ← (require NullDeref (ts !! 0) ≫= strcpy NAME_SZ);
    creation ← (require NullDeref (ts !! 1) ≫= atoi);
    work ← (require NullDeref (ts !! 2) ≫= atoi);
    prio ← (require NullDeref (ts !! 3) ≫= atoi);
    Ok (ps ++ [MkPcb (Z.of_nat (length ps)) nm CREATED None (CInt.wrap32 creation)
                 (CInt.wrap32 work) 0 (CInt.wrap32 prio) 0 0 0]).

Definition parse_line (ps : list process_ctl_block) (line : cstr) : outcome (list process_ctl_block) :=
  let s := take_while not_hash line in
  if decide (commas s = 3%Z) then parse_fields ps (split FIELD_DELIM s) else Ok ps.

Fixpoint parse_lines (ps : list process_ctl_block) (lines : list cstr) : outcome (list process_ctl_block) :=
  match lines with
  | [] => Ok ps
  | l :: ls => ps' ← parse_line ps l; parse_lines ps' ls
  end.

(** A line with its end, as it is in the file. *)
Definition is_line (l : cstr) : Prop :=
  length l < line_sz ∧ (nul ∉ l) ∧ ∃ s, l = s ++ ["010"%char] ∧ "010"%char ∉ s.

(** * The lines of a file *)
Lemma fgets_chunk_line n s rest :
  "010"%char ∉ s → length s < n →
  fgets_chunk n (s ++ "010"%char :: rest) = (s ++ ["010"%char], rest).
Proof.
  revert n. induction s as [|c s IH]; intros [|n] Hs Hn; simpl in *; try lia.
  - done.
  - rewrite decide_False by set_solver. rewrite IH; [done|set_solver|lia].
Qed.

Lemma fgets_line line l rest :
  is_line l → length line = line_sz →
  ∃ post, fgets line_sz line (l ++ rest) = Some (l ++ nul :: post, rest) ∧ length (l ++ nul :: post) = line_sz.
Proof.
  intros (Hl & _ & s & -> & Hs) Hline. exists (drop (S (length (s ++ ["010"%char]))) line). split.
  - rewrite <- app_assoc. simpl ([_] ++ rest). unfold fgets.
    rewrite fgets_chunk_line; [|done|rewrite length_app in Hl; simpl in Hl; unfold line_sz in *; lia].
    by destruct s.
  - rewrite !length_app in *. simpl. rewrite length_drop, Hline. unfold line_sz in *. simpl in *. lia.
Qed.

(** The scan cuts the line at its comment and counts commas. *)
Lemma scan_line_spec l post n :
  nul ∉ l →
  ∃ post', scan_line (l ++ nul :: post) n =
    (take_while not_hash l ++ nul :: post', n + commas (take_while not_hash l))%Z ∧
    length (take_while not_hash l ++ nul :: post') = length (l ++ nul :: post).
Proof.
  revert n. induction l as [|c l IH]; intros n Hn; simpl.
  - exists post. by rewrite Z.add_0_r.
  - destruct (decide (c = "#"%char)) as [->|Hc].
    + exists (l ++ nul :: post). simpl. by rewrite Z.add_0_r.
    + assert (not_hash c = true) as Hh by (unfold not_hash; by rewrite bool_decide_true). rewrite Hh.
      rewrite decide_False by set_solver.
      destruct (IH (if decide (c = ","%char) then n + 1 else n)%Z) as (post' & -> & Hlen); [set_solver|].
      exists post'. simpl. split; [|by rewrite Hlen]. f_equal.
      unfold commas. rewrite filter_cons. case_decide; simpl; lia.
Qed.

(** * The fields of a line *)

Lemma next_field_pending post buf sp ts :
  pending FIELD_DELIM post buf sp ts →
  match ts with
  | [] => next_field buf sp = Undef NullDeref
  | t :: ts' => ∃ buf' sp', next_field buf sp = Ok (buf', sp', t) ∧ pending FIELD_DELIM post buf' sp' ts' ∧
                            length buf' = length buf
  end.
Proof.
  intros H. apply next_token_pending in H; [|decide_now]. unfold next_field.
  destruct ts as [|t ts]; [by destruct H as [-> _]|]. destruct H as (buf' & sp' & p & -> & Hp & ? & ?).
  cbn [mbind outcome_bind require]. rewrite Hp. cbn [mbind outcome_bind]. eauto.
Qed.

(** Rewrites the next field of a line with pending tokens. *)
Ltac read_field ts H :=
  let t := fresh "t" in let ts' := fresh "ts" in
  let Hp := fresh "Hp" in let Hl := fresh "Hl" in
  pose proof (next_field_pending _ _ _ _ H) as Hp; destruct ts as [|t ts'];
  [rewrite Hp; by exists []|destruct Hp as (? & ? & -> & Hp & Hl)];
  cbn [mbind outcome_bind require lookup list_lookup].

Lemma read_process_parse post line ts ps :
  pending FIELD_DELIM post line (Some 0) ts →
  ∃ line', read_process line ps = ((λ ps', (line', ps')) <$> parse_fields ps ts) ∧
           (is_ok (parse_fields ps ts) = true → length line' = length line).
Proof.
  intros H0. unfold read_process, parse_fields. case_decide; [by exists []|].
  read_field ts H0. destruct (strcpy NAME_SZ t); [|by exists []..]. cbn [mbind outcome_bind].
  read_field ts0 Hp. destruct (atoi _); [|by exists []..]. cbn [mbind outcome_bind].
  read_field ts Hp0. destruct (atoi _); [|by exists []..]. cbn [mbind outcome_bind].
  read_field ts0 Hp1. destruct (atoi _); [|by exists []..]. cbn [mbind outcome_bind].
  eexists. split; [done|]. intros _. congruence.
Qed.

Lemma read_spec_line_parse l post ps :
  (nul ∉ l) →
  ∃ line', read_spec_line (l ++ nul :: post) ps = ((λ ps', (line', ps')) <$> parse_line ps l) ∧
           (is_ok (parse_line ps l) = true → length line' = length (l ++ nul :: post)).
Proof.
  intros Hn. unfold read_spec_line, parse_line.
  destruct (scan_line_spec l post 1 Hn) as (post' & -> & Hlen).
  set (s := take_while not_hash l) in *.
  assert (nul ∉ s) as Hs.
  { intros Hc. apply Hn. rewrite <- (take_drop_while not_hash l), elem_of_app. by left. }
  rewrite c_string_app by done. cbn [mbind outcome_bind].
  destruct (decide (s = [])) as [He|He].
  - rewrite He in *. exists ([] ++ nul :: post'). by rewrite decide_False.
  - destruct (decide (commas s = 3%Z)) as [Hc|Hc].
    + rewrite decide_False by lia. destruct (read_process_parse post' (s ++ nul :: post') (split FIELD_DELIM s) ps)
        as (line' & -> & Hl'); [by apply pending_start|].
      exists line'. split; [done|]. intros Hok. by rewrite Hl'.
    + rewrite decide_True by lia. by eexists.
Qed.

Lemma read_lines_parse fuel line ls ps :
  Forall is_line ls → length line = line_sz → length ls < fuel →
  read_lines fuel line (concat ls) ps = parse_lines ps ls.
Proof.
  intros Hls. revert fuel line ps. induction Hls as [|l ls Hl _ IH]; intros [|fuel] line ps Hlen Hf;
    cbn [read_lines length] in *; [lia|done|lia|].
  cbn [concat]. destruct (fgets_line line l (concat ls) Hl Hlen) as (post & -> & Hlen').
  destruct (read_spec_line_parse l post ps) as (line' & -> & Hl'); [apply Hl|]. cbn [parse_lines].
  destruct (parse_line ps l) as [ps'| |]; cbn [fmap outcome_fmap mbind outcome_bind]; [|done..].
  apply IH; [|lia]. rewrite Hl' by done. exact Hlen'.
Qed.

(** C7: read_spec on a file of NUL-free lines of fewer than 1024 characters
    computes what its format says, line after line: the part of the line
    before a # is kept; when it has three commas its first four tokens are the
    name, creation quantum, workload and priority of the next process;
    otherwise the line is skipped.  Undefined behaviours are the same: the
    101st process, a name of 128 characters or more, a field that is missing
    or blank, a number that is not an int. *)
Theorem read_spec_correct (ls : list cstr) :
  Forall is_line ls → read_spec (Some (concat ls)) = parse_lines [] ls.
Proof.
  intros Hls. unfold read_spec. cbn [mbind outcome_bind require].
  apply read_lines_parse; [done|by rewrite length_replicate|].
  induction Hls as [|l ls (_ & _ & s & -> & _) _ IH]; simpl; [lia|]. rewrite !length_app in *. simpl. lia.
Qed.

(** Three lines of LabWork/Lab7/processes1.txt. *)
Definition demo_spec : list cstr :=
  (λ s, lit s ++ ["010"%char]) <$>
  ["# Process Name, Creation Quantum, Workload Size, Priority"; "Process_A, 0, 10, 60"; "Process_B, 1, 3, 20"].
Lemma read_spec_correct_witness : read_spec (Some (concat demo_spec)) = parse_lines [] demo_spec.
Proof.
  apply read_spec_correct. repeat constructor; try decide_now;
    (eexists; split; [reflexivity|decide_now]).
Defined.
Example demo_spec_read :
  read_spec (Some (concat demo_spec)) =
  Ok [MkPcb 0 (lit "Process_A") CREATED None 0 10 0 60 0 0 0;
      MkPcb 1 (lit "Process_B") CREATED None 1 3 0 20 0 0 0].
Proof. reflexivity. Qed.
(** A blank field of a line with three commas is a NULL token. *)
Example blank_field : read_spec (Some (lit "A, ,3, 4")) = Undef NullDeref.
Proof. reflexivity. Qed.

(** * Round trip *)

(** A line of the format the header comment of file_format.c describes. *)
Definition print_process (p : process_ctl_block) : cstr :=
  name p ++ lit ", " ++ print_nat (creation_quantum p) ++ lit ", " ++ print_nat (workload p) ++ lit ", " ++
  print_nat (priority_of p) ++ ["010"%char].

Definition plain (c : ascii) : Prop := (c ∉ FIELD_DELIM) ∧ not_hash c = true ∧ c ≠ nul.
Definition printable (i : nat) (p : process_ctl_block) : Prop :=
  ∃ nm q w pr, p = MkPcb (Z.of_nat i) nm CREATED None q w 0 pr 0 0 0 ∧
    Forall plain nm ∧ nm ≠ [] ∧ length nm < NAME_SZ ∧
    (0 ≤ q ≤ CInt.INT_MAX ∧ 0 ≤ w ≤ CInt.INT_MAX ∧ 0 ≤ pr ≤ CInt.INT_MAX)%Z.

Lemma digits_plain n : (0 ≤ n)%Z → Forall plain (print_nat n).
Proof.
  intros Hn. eapply Forall_impl; [apply print_nat_spec, Hn|]. intros c Hc. unfold plain.
  destruct c as [[] [] [] [] [] [] [] []]; try discriminate Hc; repeat split; decide_now.
Qed.

Lemma split_token t d s :
  Forall plain t → t ≠ [] → d ∈ FIELD_DELIM → split FIELD_DELIM (t ++ d :: s) = t :: split FIELD_DELIM s.
Proof.
  intros Ht Hne Hd. unfold split. rewrite split_from_run.
  - simpl. rewrite (proj2 (in_set_true _ _)) by done. by destruct t.
  - eapply Forall_impl; [exact Ht|]. intros c (Hc & _). by apply in_set_false.
Qed.
Lemma split_delim d s : d ∈ FIELD_DELIM → split FIELD_DELIM (d :: s) = split FIELD_DELIM s.
Proof. intros Hd. unfold split. simpl. by rewrite (proj2 (in_set_true _ _)). Qed.

Lemma commas_app s t : commas (s ++ t) = (commas s + commas t)%Z.
Proof. unfold commas. rewrite filter_app, length_app. lia. Qed.
Lemma commas_plain s : Forall plain s → commas s = 0%Z.
Proof.
  intros Hs. unfold commas. induction Hs as [|c s (Hc & _) _ IH]; [done|]. rewrite filter_cons_False; [done|].
  intros ->. apply Hc. decide_now.
Qed.

Lemma take_while_id {A} (f : A → bool) l : Forall (λ a, f a = true) l → take_while f l = l.
Proof. induction 1 as [|a l Ha _ IH]; simpl; [done|]. by rewrite Ha, IH. Qed.

Section printed.
Context (nm : cstr) (q w pr : Z) (Hnm : Forall plain nm) (Hne : nm ≠ []) (Hlen : length nm < NAME_SZ).
Context (Hq : (0 ≤ q ≤ CInt.INT_MAX)%Z) (Hw : (0 ≤ w ≤ CInt.INT_MAX)%Z) (Hpr : (0 ≤ pr ≤ CInt.INT_MAX)%Z).
Let l := nm ++ lit ", " ++ print_nat q ++ lit ", " ++ print_nat w ++ lit ", " ++ print_nat pr ++ ["010"%char].

(** A property of the plain characters and of the delimiters holds of the line. *)
Lemma printed_all (P : ascii → Prop) :
  (∀ c, plain c → P c) → Forall P (lit ", ") → P "010"%char → Forall P l.
Proof.
  intros Hp Hd Hn. unfold l. rewrite !Forall_app. split_and!; try done.
  - by eapply Forall_impl.
  - eapply Forall_impl; [apply digits_plain|done]. lia.
  - eapply Forall_impl; [apply digits_plain|done]. lia.
  - eapply Forall_impl; [apply digits_plain|done]. lia.
  - by repeat constructor.
Qed.

Lemma printed_parse ps :
  length ps < NUM_PROCESSES →
  parse_line ps l = Ok (ps ++ [MkPcb (Z.of_nat (length ps)) nm CREATED None q w 0 pr 0 0 0]).
Proof.
  intros Hps. unfold parse_line. rewrite take_while_id.
  2:{ apply printed_all; [by intros c (_ & ? & _)|by repeat constructor|done]. }
  assert (commas l = 3%Z) as ->.
  { unfold l. rewrite !commas_app, (commas_plain nm), (commas_plain (print_nat q)), (commas_plain (print_nat w)),
    (commas_plain (print_nat pr)) by (done || (apply digits_plain; lia)). reflexivity. }
  rewrite decide_True by done.
  assert (split FIELD_DELIM l = [nm; print_nat q; print_nat w; print_nat pr]) as ->.
  { unfold l. change (lit ", ") with [","%char; " "%char]. cbn [app].
    repeat (rewrite split_token by
      (try done; try decide_now; try (apply digits_plain; lia); apply print_nat_spec; lia);
      rewrite ?split_delim by decide_now); done. }
  unfold parse_fields. rewrite decide_False by lia.
  cbn [mbind outcome_bind require lookup list_lookup]. unfold strcpy. rewrite decide_True by done.
  cbn [mbind outcome_bind]. rewrite !atoi_print_nat by done. cbn [mbind outcome_bind].
  rewrite !CInt.wrap32_small by (unfold CInt.INT_MAX, CInt.UINT_MAX in *; lia). done.
Qed.

Lemma printed_length n : (0 ≤ n ≤ CInt.INT_MAX)%Z → length (print_nat n) ≤ 32.
Proof.
  intros Hn. destruct (print_nat_spec n) as (_ & _ & H & _); [lia|].
  pose proof (Z.log2_le_mono n CInt.INT_MAX ltac:(lia)) as Hl. change (Z.log2 CInt.INT_MAX) with 30%Z in Hl. lia.
Qed.

Lemma printed_is_line : is_line l.
Proof.
  split_and!.
  - unfold l. rewrite !length_app. pose proof (printed_length q Hq). pose proof (printed_length w Hw).
    pose proof (printed_length pr Hpr). unfold NAME_SZ, line_sz in *. simpl. lia.
  - assert (Forall (λ c, c ≠ nul) l) as H.
    { apply printed_all; [by intros c (_ & _ & ?)|repeat constructor; done|done]. }
    intros Hin. rewrite Forall_forall in H. by apply (H nul).
  - exists (nm ++ lit ", " ++ print_nat q ++ lit ", " ++ print_nat w ++ lit ", " ++ print_nat pr).
    split; [unfold l; app_eq|]. rewrite !not_elem_of_app.
    assert (∀ s, Forall plain s → "010"%char ∉ s) as Hnn.
    { intros s Hs Hin. rewrite Forall_forall in Hs. destruct (Hs _ Hin) as [Hc _]. apply Hc. decide_now. }
    split_and!; try (by apply Hnn); try decide_now; apply Hnn, digits_plain; lia.
Qed.
End printed.

Lemma parse_printed qs ps :
  (∀ i p, qs !! i = Some p → printable (length ps + i) p) → length ps + length qs ≤ NUM_PROCESSES →
  parse_lines ps (print_process <$> qs) = Ok (ps ++ qs).
Proof.
  revert ps. induction qs as [|p qs IH]; intros ps Hp Hl; [by rewrite app_nil_r|]. rewrite fmap_cons. cbn [parse_lines].
  destruct (Hp 0 p eq_refl) as (nm & q & w & pr & -> & Hnm & Hne & Hlen & Hq & Hw & Hpr). rewrite Nat.add_0_r in *.
  assert (length ps < NUM_PROCESSES) as Hps by (simpl in Hl; lia).
  assert (parse_line ps (print_process (MkPcb (Z.of_nat (length ps)) nm CREATED None q w 0 pr 0 0 0)) = _)
    as -> by (by apply (printed_parse nm q w pr)). cbn [mbind outcome_bind].
  rewrite IH; [app_eq| |rewrite length_app; simpl in *; lia].
  intros i r Hr. rewrite length_app. simpl. rewrite <- Nat.add_assoc. by apply Hp.
Qed.

(** C30: reading back what print_process prints for up to 100 processes, with
    non-empty names of fewer than 128 characters outside the delimiters and
    numbers an int can hold, gives the same processes. *)
Theorem read_spec_print (ps : list process_ctl_block) :
  (∀ i p, ps !! i = Some p → printable i p) → length ps ≤ NUM_PROCESSES →
  read_spec (Some (concat (print_process <$> ps))) = Ok ps.
Proof.
  intros Hp Hl. unfold read_spec. cbn [mbind outcome_bind require].
  assert (Forall is_line (print_process <$> ps)) as Hls.
  { apply Forall_fmap, Forall_lookup_2. intros i p Hip.
    destruct (Hp i p Hip) as (nm & q & w & pr & -> & ? & ? & ? & ? & ? & ?). by apply printed_is_line. }
  rewrite read_lines_parse; [by apply (parse_printed ps [])|done|by rewrite length_replicate|].
  clear -Hls. induction Hls as [|l ls (_ & _ & s & -> & _) _ IH]; simpl; [lia|]. rewrite !length_app in *. simpl. lia.
Qed.

Lemma read_spec_print_witness :
  let ps := [MkPcb 0 (lit "Process_A") CREATED None 0 10 0 60 0 0 0;
             MkPcb 1 (lit "Process_B") CREATED None 1 2147483647 0 20 0 0 0] in
  read_spec (Some (concat (print_process <$> ps))) = Ok ps.
Proof.
  apply read_spec_print; [|simpl; unfold NUM_PROCESSES; lia].
  intros [|[|i]] p Hp; simplify_eq/=; do 4 eexists;
    (split; [reflexivity|split_and!; [|done|unfold NAME_SZ; simpl; lia|unfold CInt.INT_MAX; lia..]]);
    repeat constructor; decide_now.
Defined.
