(* ===== verification/SchedMain.v ===== *)
(** The main function of LabWork/Lab7/scheduler.c: the specification file, the
    choice of the algorithm and the run, composed. Any file is read to its end
    or to an undefined behaviour, and what is read is well typed. *)
From Stdlib Require Import ZArith Lia Ascii.
From stdpp Require Import prelude gmap strings numbers list sorting.
From S2P Require Import Prelude CString CFloat Clock Tokenizer Scheduler SpecFile SchedSelect SchedRun SchedSpec SchedReport SchedClock.
Open Scope Z_scope.
Import CInt.

(** [files] is the contents of the files. [None] is the usage message. The
    summary is printed when [main] has left its loop. *)
Definition scheduler_main (files : cstr → option cstr) (argv : list cstr) (rands : Z → list Z) (inputs : list (Z * bool))
    : outcome (option (scheduler_state * control * list cstr)) :=
  match argv with
  | [_; algorithm_name; file] =>
      ps ← read_spec (files file);
      '(st, c) ← run (select_algorithm rands algorithm_name) inputs (initial ps) AtMain;
      lines ← (if decide (c = Halted) then summary st else Ok []);
      Ok (Some (st, c, lines))
  | _ => Ok None
  end.

(** * What read_spec leaves *)

(** The PCB of process [i] as [read_spec] fills it in. *)
Record typed (i : nat) (p : process_ctl_block) : Prop := {
  t_pid : pid p = Z.of_nat i;
  t_name : (nul ∉ name p) ∧ (length (name p) < NAME_SZ)%nat;
  t_state : state p = CREATED ∧ ctx p = None ∧ executed_work p = 0;
  t_quantum : 0 ≤ creation_quantum p ≤ UINT_MAX;
  t_workload : 0 ≤ workload p ≤ UINT_MAX;
  t_priority : 0 ≤ priority_of p ≤ UINT_MAX;
  t_times : arrival_time p = 0 ∧ start_time p = 0 ∧ completion_time p = 0
}.
Definition typed_pcbs (ps : list process_ctl_block) : Prop :=
  (length ps ≤ NUM_PROCESSES)%nat ∧ ∀ i p, ps !! i = Some p → typed i p.

(** ** Reading ends *)
Lemma bind_ends {A B} (m : outcome A) (f : A → outcome B) :
  m ≠ OutOfFuel → (∀ a, m = Ok a → f a ≠ OutOfFuel) → (m ≫= f) ≠ OutOfFuel.
Proof. destruct m; [by intros _ H; apply H|done|done]. Qed.
Lemma require_ends {A} w (o : option A) : require w o ≠ OutOfFuel.
Proof. by destruct o. Qed.
Lemma strspn_ends m set : strspn m set ≠ OutOfFuel.
Proof. induction m; simpl; [done|]. case_decide; [|done]. by destruct (strspn m set). Qed.
Lemma strcspn_ends m set : strcspn m set ≠ OutOfFuel.
Proof. induction m; simpl; [done|]. case_decide; [done|]. by destruct (strcspn m set). Qed.
Lemma c_string_ends m : c_string m ≠ OutOfFuel.
Proof. induction m; simpl; [done|]. case_decide; [done|]. by destruct (c_string m). Qed.
Lemma int_result_ends z : int_result z ≠ OutOfFuel.
Proof. unfold int_result. by case_decide. Qed.
Lemma atoi_ends s : atoi s ≠ OutOfFuel.
Proof. unfold atoi. repeat case_match; apply int_result_ends. Qed.
Lemma strcpy_ends n s : strcpy n s ≠ OutOfFuel.
Proof. unfold strcpy. by case_decide. Qed.
Create HintDb ends_db.
#[local] Hint Resolve require_ends strspn_ends strcspn_ends c_string_ends int_result_ends atoi_ends strcpy_ends : ends_db.

Lemma next_field_ends buf sp : next_field buf sp ≠ OutOfFuel.
Proof.
  unfold next_field. apply bind_ends.
  - destruct sp as [p|]; [|done]. unfold next_token. apply bind_ends; [auto with ends_db|]. intros s _.
    apply bind_ends; [auto with ends_db|]. intros e _. case_decide; [done|].
    apply bind_ends; [apply require_ends|]. intros c _. case_decide; [done|].
    apply bind_ends; [|done]. unfold store. by case_decide.
  - intros [[b s] t] _. apply bind_ends; [apply require_ends|]. intros p _. apply bind_ends; [|done].
    apply c_string_ends.
Qed.
#[local] Hint Resolve next_field_ends : ends_db.

Lemma read_spec_line_ends line ps : read_spec_line line ps ≠ OutOfFuel.
Proof.
  unfold read_spec_line. destruct (scan_line line 1) as [l n]. apply bind_ends; [apply c_string_ends|]. intros s _.
  case_decide; [done|]. case_decide; [done|]. unfold read_process. case_decide; [done|].
  apply bind_ends; [auto with ends_db|]. intros [[? ?] ?] _. apply bind_ends; [auto with ends_db|]. intros ? _.
  do 3 (apply bind_ends; [auto with ends_db|]; intros [[? ?] ?] _; apply bind_ends; [auto with ends_db|]; intros ? _).
  done.
Qed.

(** ** What a line adds *)
Lemma c_string_nul m s : c_string m = Ok s → nul ∉ s.
Proof.
  revert s. induction m as [|c m IH]; intros s Hs; simpl in Hs; [done|]. case_decide as Hc; [by simplify_eq; apply not_elem_of_nil|].
  destruct (c_string m); simplify_eq/=. apply not_elem_of_cons. split; [done|by apply IH].
Qed.
Lemma next_field_nul buf sp buf' sp' s : next_field buf sp = Ok (buf', sp', s) → nul ∉ s.
Proof. unfold next_field. intros H. inv_ok. by eapply c_string_nul. Qed.

Lemma read_spec_line_typed line ps line' ps' :
  typed_pcbs ps → read_spec_line line ps = Ok (line', ps') → typed_pcbs ps'.
Proof.
  intros [Hl Ht]. unfold read_spec_line. destruct (scan_line line 1) as [l n]. intros H.
  apply bind_Ok in H as (s & _ & H). case_decide; [by inv_ok|]. case_decide; [by inv_ok|].
  unfold read_process in H. case_decide as Hfull; [done|].
  apply bind_Ok in H as ([[b1 s1] t1] & Hf & H). apply bind_Ok in H as (nm & Hnm & H).
  do 3 (apply bind_Ok in H as ([[? ?] ?] & _ & H); apply bind_Ok in H as (? & _ & H)). injection H as _ <-.
  unfold strcpy in Hnm. case_decide as Hlen; [|done]. injection Hnm as <-. split.
  - rewrite length_app. simpl. lia.
  - intros i p [Hp|[Hi Hp]]%lookup_app_Some; [by apply Ht|].
    apply list_lookup_singleton_Some in Hp as [Hi0 <-]. assert (i = length ps) as -> by lia.
    split; cbn; [done|split; [by eapply next_field_nul|done]|done|apply wrap32_range..|done].
Qed.

Lemma fgets_shorter line file line' rest :
  fgets line_sz line file = Some (line', rest) → (length rest < length file)%nat.
Proof.
  assert (∀ n f l r, fgets_chunk n f = (l, r) → length r ≤ length f)%nat as Hle.
  { intros n. induction n as [|n IH]; intros [|c f] l r Hr; simpl in Hr; simplify_eq/=; [done..|].
    case_decide; [by simplify_eq/=; lia|]. destruct (fgets_chunk n f) as [l' r'] eqn:Hc. simplify_eq.
    specialize (IH f l' r Hc). lia. }
  assert (∀ n c f l r, fgets_chunk (S n) (c :: f) = (l, r) → length r ≤ length f)%nat as Hlt.
  { intros n c f l r Hr. cbn [fgets_chunk] in Hr. case_decide; [by simplify_eq/=; lia|].
    destruct (fgets_chunk n f) as [l' r'] eqn:Hc. simplify_eq. by apply Hle in Hc. }
  unfold fgets. destruct file as [|c file]; [done|].
  destruct (fgets_chunk (line_sz - 1) (c :: file)) as [l r] eqn:Hc. intros [= _ <-].
  apply (Hlt 1022%nat) in Hc. simpl. lia.
Qed.

Lemma read_lines_typed fuel : ∀ line file ps,
  (length file < fuel)%nat → typed_pcbs ps →
  read_lines fuel line file ps ≠ OutOfFuel ∧ ∀ ps', read_lines fuel line file ps = Ok ps' → typed_pcbs ps'.
Proof.
  induction fuel as [|fuel IH]; intros line file ps Hf Ht; [lia|]. cbn [read_lines].
  destruct (fgets line_sz line file) as [[line' rest]|] eqn:Hg; [|split; [done|by intros ps' [= <-]]].
  apply fgets_shorter in Hg. destruct (read_spec_line line' ps) as [[line'' ps'']|w|] eqn:Hr; cbn [mbind outcome_bind].
  - apply IH; [lia|]. by eapply read_spec_line_typed.
  - done.
  - by apply read_spec_line_ends in Hr.
Qed.

(** * The run *)
Lemma total_steps_pos ps i p :
  Forall (λ p, 0 ≤ workload p) ps → ps !! i = Some p → 0 ≤ 40 * workload p ≤ total_steps ps.
Proof.
  intros Hp. revert i. induction Hp as [|q ps Hq Hps IH]; intros [|i] Hi; simplify_eq/=.
  - assert (0 ≤ total_steps ps); [|lia]. clear -Hps. induction Hps; simpl; lia.
  - specialize (IH i Hi). lia.
Qed.

Lemma due_le q ps : due q ps ≤ Z.of_nat (length ps).
Proof.
  unfold due. generalize 0%nat as n. induction ps as [|p ps IH]; intros n; cbn [isum length]; [lia|].
  specialize (IH (S n)). case_decide; lia.
Qed.
Lemma dense_bound ps i p : dense ps → ps !! i = Some p → creation_quantum p ≤ Z.of_nat (length ps).
Proof.
  intros Hd Hp. destruct (decide (creation_quantum p ≤ 0)); [lia|].
  assert (creation_quantum p - 1 < due (creation_quantum p - 1) ps) as Hlt.
  { apply Hd; [lia|]. apply Exists_exists. exists p. split; [by eapply list_elem_of_lookup_2|lia]. }
  pose proof (due_le (creation_quantum p - 1) ps). lia.
Qed.

Lemma sum_us_bound f ps B : Forall (λ p, f p ≤ B) ps → sum_us f ps ≤ Z.of_nat (length ps) * B.
Proof. induction 1; simpl; lia. Qed.

(** C8: read_spec ends on every file. If it returns, the PCBs are well typed:
    at most 100, numbered in order, with NUL-free names that fit their field,
    numbers that are 32-bit values, state CREATED and nothing executed. When
    moreover the arrivals leave no gap, the priorities are positive under the
    priority algorithm, and the work does not overflow the quantum counter,
    then main, with any algorithm (with insanity, when its draws hit every
    process), runs every process to completion whatever the alarms. If the clock does not go back and the run
    is not too long for the sum of the times to be a [float], main then prints
    a summary whose turnaround and response times and averages are within a
    hundredth of a second of the exact ones, with every process once in the
    completion order. *)
Theorem main_correct files prog arg path f rands :
  files path = Some f →
  read_spec (Some f) ≠ OutOfFuel ∧
  ∀ ps, read_spec (Some f) = Ok ps →
    typed_pcbs ps ∧
    (ps ≠ [] → dense ps → (arg = lit "insanity" → hits (length ps) rands) →
     (arg = lit "priority" → Forall (λ p, 0 < priority_of p) ps) → total_steps ps + 1 < 4294967296 →
     ∀ inputs t T, total_steps ps + 1 ≤ Z.of_nat (length inputs) →
     0 ≤ t → ticking t T inputs → T < LATEST → Z.of_nat (length ps) * (T - t) < 16000 * 1000000 →
     ∃ st lines, scheduler_main files [prog; arg; path] rands inputs = Ok (Some (st, Halted, lines)) ∧
       identity <$> pcbs st = identity <$> ps ∧
       Forall (λ p, state p = TERMINATED ∧ executed_work p = workload p ∧ in_order p) (pcbs st) ∧
       reports (pcbs st) lines).
Proof.
  intros Hfile.
  destruct (read_lines_typed (S (length f)) (replicate line_sz nul) f []) as [He Ht]; [lia|split; [simpl; lia|done]|].
  split; [exact He|]. intros ps Hps. pose proof (Ht ps Hps) as Hty. split; [done|].
  intros Hne Hq Hi Hprio Hb inputs t T Hlen H0 Htick HT Hspan. unfold scheduler_main. rewrite Hfile, Hps. cbn [mbind outcome_bind].
  assert (Forall (λ p, 0 ≤ workload p) ps) as Hw.
  { apply Forall_lookup_2. intros i p Hp. apply (t_workload i p), Hty, Hp. }
  set (ok := λ z : Z, arg = lit "priority" → 0 < z).
  assert (Forall (fresh ok) ps) as Hfr.
  { apply Forall_lookup_2. intros i p Hp. destruct (proj2 Hty i p Hp) as [_ _ (Hs & Hctx & Hx) _ Hwl _ _].
    pose proof (dense_bound ps i p Hq Hp) as Hle. pose proof (total_steps_pos ps i p Hw Hp).
    destruct Hty as [Hlen100 Hty]. pose proof (t_quantum i p (Hty i p Hp)) as [Hq0 _].
    unfold fresh, in_range, INT_MAX, NUM_PROCESSES in *. split_and!; try done; try lia.
    intros Hpr. by apply (Forall_lookup_1 _ _ _ _ (Hprio Hpr) Hp). }
  pose proof (select_selector (length ps) rands arg Hi) as Hsel.
  destruct (run_completes ok (select_algorithm rands arg) ps inputs) as (st & Hr & Hid & Hall); [done..|].
  pose proof (run_in_order ok (select_algorithm rands arg) ps inputs t T Hsel Hne Hfr Hq Hb H0 Htick HT st Hr) as Hord.
  assert (length (pcbs st) = length ps) as Hlp by (apply (f_equal length) in Hid; by rewrite !length_fmap in Hid).
  assert (Forall in_order (pcbs st)) as Hin by (eapply Forall_impl; [exact Hord|]; by intros p [? _]).
  destruct (summary_reports st) as (lines & Hsum & Hrep); [|rewrite Hlp; apply Hty|done| |].
  - intros Hnil. rewrite Hnil in Hlp. by destruct ps.
  - eapply Z.le_lt_trans; [apply (sum_us_bound _ _ (T - t))|by rewrite Hlp].
    eapply Forall_impl; [exact Hord|]. intros p (_ & ? & ?). unfold turn_us. lia.
  - exists st, lines. rewrite Hr. cbn [mbind outcome_bind]. rewrite decide_True by done. rewrite Hsum. cbn [mbind outcome_bind].
    split_and!; [done|done| |done]. apply Forall_and in Hall as [? ?]. by rewrite !Forall_and.
Qed.

(** Two processes, the second of which comes in quantum 1. *)
Definition demo_file : cstr := lit "A, 0, 1, 10" ++ ["010"%char] ++ lit "# comment" ++ ["010"%char] ++ lit "B,1,2,20".
Definition demo_files (path : cstr) : option cstr := if decide (path = lit "p.txt") then Some demo_file else None.
Definition demo_inputs : list (Z * bool) := replicate 100 (1700000000000000, false) ++ replicate 30 (1700000002500000, true).
Lemma main_correct_witness :
  ∃ st lines, scheduler_main demo_files [lit "scheduler"; lit "insanity"; lit "p.txt"] (λ _, Z.of_nat <$> seq 0 2) demo_inputs =
    Ok (Some (st, Halted, lines)) ∧
    name <$> pcbs st = [lit "A"; lit "B"] ∧ reports (pcbs st) lines.
Proof.
  destruct (main_correct demo_files (lit "scheduler") (lit "insanity") (lit "p.txt") demo_file (λ _, Z.of_nat <$> seq 0 2) eq_refl) as [_ H].
  destruct (H [MkPcb 0 (lit "A") CREATED None 0 1 0 10 0 0 0; MkPcb 1 (lit "B") CREATED None 1 2 0 20 0 0 0])
    as [_ Hrun]; [vm_compute; reflexivity|].
  destruct (Hrun ltac:(discriminate)) with (inputs := demo_inputs) (t := 1700000000000000) (T := 1700000002500000)
    as (st & lines & Hm & Hid & _ & Hrep);
    [by apply denseb_ok|intros _; apply (hits_seq 2)|discriminate|vm_compute; reflexivity|vm_compute; discriminate|done|
     |reflexivity|reflexivity|].
  - unfold demo_inputs. cbn [replicate app ticking]. repeat (split; [lia|]). lia.
  - exists st, lines. split_and!; [exact Hm| |exact Hrep].
    apply (f_equal (fmap (λ x : Z * cstr * Z * Z * Z, x.1.1.1.2))) in Hid. rewrite <- !list_fmap_compose in Hid. exact Hid.
Defined.
(** What it prints. *)
Example main_output :
  (r ← scheduler_main demo_files [lit "scheduler"; lit "rr"; lit "p.txt"] (λ _, []) demo_inputs; Ok (option_map snd r)) = Ok (Some (map lit
    [""; ""; "Execution complete. Summary:"; "-----------------------Turnaround Times:"; " - A 0.00s"; " - B 2.50s";
     "Average Turnaround Time: 1.25s"; ""; "Response Times:"; " - A 0.00s"; " - B 0.00s"; "Average Response time: 0.00s"; "";
     "Completion Order:"; " 0.) A"; " 1.) B"])).
Proof. by vm_compute. Qed.

(** The four specification files of LabWork/Lab7 leave no gap. *)
Definition lines (ls : list string) : cstr := concat ((λ l, lit l ++ ["010"%char]) <$> ls).
Definition leaves_no_gap (f : cstr) : bool := match read_spec (Some f) with Ok ps => denseb ps | _ => false end.
Example processes1_dense : leaves_no_gap (lines
    ["# Process Name, Creation Quantum, Workload Size, Priority";
     "# For this round of execution, three processes are run at quantums 1, 2, and 3.";
     "# Each of the processes has the same workload size and priority.";
     "Process_A, 0, 10, 60";
     "Process_B, 1, 3, 20";
     "Process_C, 1, 10, 40";
     "Process_D, 2, 5, 100"]) = true.
Proof. vm_compute. reflexivity. Qed.
Example processes2_dense : leaves_no_gap (lines
    ["# Process Name, Creation Quantum, Workload Size, Priority";
     "# For this round of execution, three processes are run at quantums 1, 2, and 3.";
     "# Each of the processes has the same workload size and priority.";
     "Process_A, 0, 15, 100";
     "Process_B, 0, 5, 25";
     "Process_C, 0, 5, 25"]) = true.
Proof. vm_compute. reflexivity. Qed.
Example processes3_dense : leaves_no_gap (lines
    ["# Process Name, Creation Quantum, Workload Size, Priority";
     "# For this round of execution, three processes are run at quantums 1, 2, and 3.";
     "# Each of the processes has the same workload size and priority.";
     "Process_A, 0, 1, 10";
     "Process_B, 1, 5, 20";
     "Process_C, 1, 5, 40";
     "Process_D, 0, 5, 100";
     "Process_E, 0, 1, 10";
     "Process_F, 0, 1, 10";
     "Process_G, 0, 1, 10"]) = true.
Proof. vm_compute. reflexivity. Qed.
Example processes4_dense : leaves_no_gap (lines
    ["# Process Name, Creation Quantum, Workload Size, Priority";
     "Process_A, 3, 4, 10";
     "Process_B, 2, 5, 100";
     "Process_C, 1, 7, 20";
     "Process_D, 1, 7, 40";
     "Process_E, 0, 8, 10"]) = true.
Proof. vm_compute. reflexivity. Qed.
