(* ===== verification/Timestamp.v ===== *)
(** The date the web server sends (generate_timestamp of Project4/www.c): the
    broken-down UTC time of gmtime and its text by strftime.

    The time is a number of seconds since the start of 1970, perhaps negative.
    That gmtime keeps the calendar is shown against [tick], which counts one
    second on a date. *)
From Stdlib Require Import ZArith Lia Ascii.
From stdpp Require Import prelude strings numbers list.
From S2P Require Import Prelude CString.
Open Scope Z_scope.
Import CInt.

(** [struct tm]: months and week days count from 0, years from 1900. *)
Record tm := MkTm {
  tm_sec : Z; tm_min : Z; tm_hour : Z;
  tm_mday : Z; tm_mon : Z; tm_year : Z; tm_wday : Z
}.
#[export] Instance tm_eq_dec : EqDecision tm.
Proof. solve_decision. Defined.

Definition DAY : Z := 86400.
Definition leap (y : Z) : bool := (y mod 4 =? 0) && (negb (y mod 100 =? 0) || (y mod 400 =? 0)).
Definition year_length (y : Z) : Z := if leap y then 366 else 365.
Definition month_lengths (y : Z) : list Z :=
  [31; if leap y then 29 else 28; 31; 30; 31; 30; 31; 31; 30; 31; 30; 31].
(** Days from the start of year 1. *)
Definition days_to_year (y : Z) : Z := 365 * (y - 1) + (y - 1) / 4 - (y - 1) / 100 + (y - 1) / 400.
Definition EPOCH : Z := days_to_year 1970.

(** * gmtime *)

(** The year of day [d]: its place in cycles of 400, 100, 4 years and 1 year,
    whose last days belong to the cycle before. *)
Definition year_of (d : Z) : Z :=
  let r400 := d mod 146097 in
  let n100 := Z.min 3 (r400 / 36524) in
  let r100 := r400 - 36524 * n100 in
  let r4 := r100 mod 1461 in
  400 * (d / 146097) + 100 * n100 + 4 * (r100 / 1461) + Z.min 3 (r4 / 365) + 1.
(** The month in which a day of the year lies, and its place in the month. *)
Fixpoint month_of (lengths : list Z) (day mon : Z) : Z * Z :=
  match lengths with
  | [] => (mon, day)
  | m :: lengths' => if decide (day < m) then (mon, day) else month_of lengths' (day - m) (mon + 1)
  end.
Definition broken_down (now : Z) : tm :=
  let d := now / DAY + EPOCH in
  let s := now mod DAY in
  let '(mon, day) := month_of (month_lengths (year_of d)) (d - days_to_year (year_of d)) 0 in
  MkTm (s mod 60) (s / 60 mod 60) (s / 3600) (day + 1) mon (year_of d - 1900) ((d + 1) mod 7).
(** [None] is NULL: the year does not fit an [int]. *)
Definition gmtime (now : Z) : option tm :=
  let t := broken_down now in
  if decide (INT_MIN ≤ tm_year t ≤ INT_MAX) then Some t else None.

(** * strftime *)
Definition two_digits (n : Z) : cstr := [digit_char (n / 10); digit_char (n mod 10)].
Definition day_names : list cstr := lit <$> ["Sun"; "Mon"; "Tue"; "Wed"; "Thu"; "Fri"; "Sat"].
Definition month_names : list cstr :=
  lit <$> ["Jan"; "Feb"; "Mar"; "Apr"; "May"; "Jun"; "Jul"; "Aug"; "Sep"; "Oct"; "Nov"; "Dec"].
Definition name_at (names : list cstr) (i : Z) : cstr := default (lit "?") (names !! Z.to_nat i).

(** ["%a, %d %b %Y %H:%M:%S %Z"] in the C locale. *)
Definition date_text (t : tm) : cstr :=
  name_at day_names (tm_wday t) ++ lit ", " ++ two_digits (tm_mday t) ++ lit " " ++
  name_at month_names (tm_mon t) ++ lit " " ++ print_int (tm_year t + 1900) ++ lit " " ++
  two_digits (tm_hour t) ++ lit ":" ++ two_digits (tm_min t) ++ lit ":" ++ two_digits (tm_sec t) ++ lit " GMT".
(** A text that does not fit with its NUL leaves the array indeterminate. *)
Definition strftime (max : nat) (text : cstr) : outcome cstr :=
  if decide (length text < max)%nat then Ok text else Undef Uninitialised.

Definition generate_timestamp (length : nat) (now : Z) : outcome cstr :=
  time ← require NullDeref (gmtime now);
  strftime length (date_text time).

(** * The calendar *)
Definition year (t : tm) : Z := tm_year t + 1900.
Definition month_length (t : tm) : Z := default 0 (month_lengths (year t) !! Z.to_nat (tm_mon t)).

(** Midnight of the next day, and the date one second later. *)
Definition next_day (t : tm) : tm :=
  let 'MkTm _ _ _ d mo y w := t in
  let w' := (w + 1) mod 7 in
  if decide (d < month_length t) then MkTm 0 0 0 (d + 1) mo y w'
  else if decide (mo < 11) then MkTm 0 0 0 1 (mo + 1) y w'
  else MkTm 0 0 0 1 0 (y + 1) w'.
Definition tick (t : tm) : tm :=
  let 'MkTm s m h d mo y w := t in
  if decide (s < 59) then MkTm (s + 1) m h d mo y w
  else if decide (m < 59) then MkTm 0 (m + 1) h d mo y w
  else if decide (h < 23) then MkTm 0 0 (h + 1) d mo y w
  else next_day t.

(** * Reading a date

    The fields of a text by their places in it. *)
Definition field (s : cstr) (from n : nat) : cstr := take n (drop from s).
Definition name_index (names : list cstr) (s : cstr) : option Z :=
  Z.of_nat ∘ fst <$> list_find (λ n, n = s) names.
Definition read_date (s : cstr) : option tm :=
  wday ← name_index day_names (field s 0 3);
  mon ← name_index month_names (field s 8 3);
  Some (MkTm (digits_value (field s 23 2)) (digits_value (field s 20 2)) (digits_value (field s 17 2))
    (digits_value (field s 5 2)) mon (digits_value (field s 12 4) - 1900) wday).

(** ** Years *)
Lemma div_pred y k : 0 < k → y / k = (y - 1) / k + if y mod k =? 0 then 1 else 0.
Proof.
  intros Hk. pose proof (Z.div_mod y k ltac:(lia)). pose proof (Z.mod_pos_bound y k Hk).
  destruct (Z.eqb_spec (y mod k) 0).
  - rewrite <- (Z.div_unique (y - 1) k (y / k - 1) (k - 1)); lia.
  - rewrite <- (Z.div_unique (y - 1) k (y / k) (y mod k - 1)); lia.
Qed.

Lemma mod_0_trans y j k : 0 < j → 0 < k → y mod (j * k) = 0 → y mod j = 0.
Proof.
  intros Hj Hk H. pose proof (Z.div_mod y (j * k) ltac:(lia)). apply Z.mod_divide; [lia|].
  exists (k * (y / (j * k))). lia.
Qed.

Lemma days_next_year y : days_to_year (y + 1) = days_to_year y + year_length y.
Proof.
  unfold days_to_year, year_length, leap. replace (y + 1 - 1) with y by lia.
  rewrite (div_pred y 4), (div_pred y 100), (div_pred y 400) by lia.
  pose proof (mod_0_trans y 4 25) as H4. pose proof (mod_0_trans y 100 4) as H100.
  change (4 * 25) with 100 in H4. change (100 * 4) with 400 in H100.
  destruct (Z.eqb_spec (y mod 4) 0), (Z.eqb_spec (y mod 100) 0), (Z.eqb_spec (y mod 400) 0); simpl; lia.
Qed.

Lemma year_length_pos y : 365 ≤ year_length y ≤ 366.
Proof. unfold year_length. destruct (leap y); lia. Qed.

(** The place in [n] cycles of [k] days, of which the last is one day longer. *)
Lemma cycle n k r : 0 ≤ n → 0 < k → 0 ≤ r ≤ k * (n + 1) →
  let b := Z.min n (r / k) in 0 ≤ b ≤ n ∧ 0 ≤ r - k * b ≤ k ∧ (b < n → r - k * b < k).
Proof.
  intros Hn Hk Hr b. pose proof (Z.div_mod r k ltac:(lia)). pose proof (Z.mod_pos_bound r k Hk).
  assert (0 ≤ r / k) by (apply Z.div_pos; lia). unfold b. destruct (Z.min_spec n (r / k)) as [[? ->]|[? ->]]; nia.
Qed.

Lemma year_of_spec d : days_to_year (year_of d) ≤ d < days_to_year (year_of d + 1).
Proof.
  unfold year_of, days_to_year. cbn zeta.
  pose proof (Z.div_mod d 146097 ltac:(lia)) as Hd. pose proof (Z.mod_pos_bound d 146097 ltac:(lia)) as Hr.
  set (a := d / 146097) in *. set (r := d mod 146097) in *. clearbody a r.
  destruct (cycle 3 36524 r) as (Hb & Hq & Hq'); [lia..|]. set (b := Z.min 3 _) in *. clearbody b.
  set (q := r - 36524 * b) in *. assert (r = 36524 * b + q) as Hrq by lia. clearbody q.
  pose proof (Z.div_mod q 1461 ltac:(lia)) as Hqc. pose proof (Z.mod_pos_bound q 1461 ltac:(lia)) as Hs.
  set (c := q / 1461) in *. set (s := q mod 1461) in *. clearbody c s.
  destruct (cycle 3 365 s) as (He & Hs1 & Hs2); [lia..|]. set (e := Z.min 3 _) in *. clearbody e.
  set (Y := 400 * a + 100 * b + 4 * c + e).
  replace (Y + 1 + 1 - 1) with (Y + 1) by lia. replace (Y + 1 - 1) with Y by lia.
  assert (0 ≤ c ≤ 24) by lia.
  assert (Y / 4 = 100 * a + 25 * b + c) as -> by (symmetry; apply (Z.div_unique _ _ _ e); lia).
  assert (Y / 100 = 4 * a + b) as -> by (symmetry; apply (Z.div_unique _ _ _ (4 * c + e)); lia).
  assert (Y / 400 = a) as -> by (symmetry; apply (Z.div_unique _ _ _ (100 * b + 4 * c + e)); lia).
  unfold Y. Z.to_euclidean_division_equations. lia.
Qed.

Lemma days_to_year_mono y z : y ≤ z → days_to_year y ≤ days_to_year z.
Proof. intros. unfold days_to_year. Z.to_euclidean_division_equations. lia. Qed.

Lemma year_of_unique d y : days_to_year y ≤ d < days_to_year (y + 1) → year_of d = y.
Proof.
  intros H. pose proof (year_of_spec d) as H'.
  destruct (Z.lt_trichotomy (year_of d) y) as [Hl|[?|Hg]]; [|done|].
  - pose proof (days_to_year_mono (year_of d + 1) y). lia.
  - pose proof (days_to_year_mono (y + 1) (year_of d)). lia.
Qed.

(** ** Months *)
Definition sum_days (l : list Z) : Z := foldr Z.add 0 l.
Lemma sum_days_app l k : sum_days (l ++ k) = sum_days l + sum_days k.
Proof. induction l as [|x l IH]; simpl; lia. Qed.
Lemma sum_days_step l i m : l !! i = Some m → sum_days (take (S i) l) = sum_days (take i l) + m.
Proof. intros Hi. rewrite (take_S_r _ _ _ Hi), sum_days_app. simpl. lia. Qed.

Lemma month_of_spec lengths : ∀ day mon, 0 ≤ day < sum_days lengths →
  ∃ i m r, month_of lengths day mon = (mon + Z.of_nat i, r) ∧ lengths !! i = Some m ∧
    0 ≤ r < m ∧ day = sum_days (take i lengths) + r.
Proof.
  induction lengths as [|m ms IH]; intros day mon Hd; simpl in Hd; [lia|]. simpl. case_decide.
  - exists 0%nat, m, day. split_and!; [f_equal; lia|done|lia|lia|done].
  - destruct (IH (day - m) (mon + 1)) as (i & m' & r & -> & Hi & Hr & Hday); [lia|].
    exists (S i), m', r. split_and!; [f_equal; lia|done|lia|lia|]. simpl. lia.
Qed.

Lemma month_of_unique lengths : ∀ i m r mon, Forall (λ m, 0 < m) lengths →
  lengths !! i = Some m → 0 ≤ r < m → month_of lengths (sum_days (take i lengths) + r) mon = (mon + Z.of_nat i, r).
Proof.
  induction lengths as [|x ms IH]; intros i m r mon Hp Hi Hr; [done|]. apply Forall_cons in Hp as [Hx Hp].
  destruct i as [|i]; simpl in *.
  - simplify_eq. rewrite decide_True by lia. f_equal. lia.
  - assert (0 ≤ sum_days (take i ms)) as H0.
    { clear -Hp. revert i. induction Hp as [|y l Hy _ IH]; intros [|i]; simpl; [lia..|]. specialize (IH i). lia. }
    rewrite decide_False by lia. replace (x + sum_days (take i ms) + r - x) with (sum_days (take i ms) + r) by lia.
    rewrite (IH i m r) by done. f_equal. lia.
Qed.

Lemma month_lengths_pos y : Forall (λ m, 0 < m ≤ 31) (month_lengths y).
Proof. unfold month_lengths. by destruct (leap y); repeat constructor. Qed.
Lemma month_lengths_sum y : sum_days (month_lengths y) = year_length y.
Proof. unfold year_length, month_lengths. by destruct (leap y). Qed.

(** ** Dates *)

(** Days from the start of year 1, and seconds from that of 1970. *)
Definition days_of (t : tm) : Z :=
  days_to_year (year t) + sum_days (take (Z.to_nat (tm_mon t)) (month_lengths (year t))) + tm_mday t - 1.
Definition seconds_of (t : tm) : Z :=
  (days_of t - EPOCH) * DAY + tm_hour t * 3600 + tm_min t * 60 + tm_sec t.

Record valid (t : tm) : Prop := {
  vd_sec : 0 ≤ tm_sec t < 60;
  vd_min : 0 ≤ tm_min t < 60;
  vd_hour : 0 ≤ tm_hour t < 24;
  vd_mon : 0 ≤ tm_mon t < 12;
  vd_mday : 1 ≤ tm_mday t ≤ month_length t;
  vd_wday : tm_wday t = (days_of t + 1) mod 7
}.

Lemma month_length_lookup t : 0 ≤ tm_mon t < 12 →
  month_lengths (year t) !! Z.to_nat (tm_mon t) = Some (month_length t) ∧ month_length t ≤ 31.
Proof.
  intros Hm. unfold month_length. destruct (lookup_lt_is_Some_2 (month_lengths (year t)) (Z.to_nat (tm_mon t))) as [m Hl].
  { simpl. lia. }
  rewrite Hl. split; [done|]. by apply (Forall_lookup_1 _ _ _ _ (month_lengths_pos _) Hl).
Qed.

Lemma time_of_day s : 0 ≤ s < DAY → 0 ≤ s mod 60 < 60 ∧ 0 ≤ s / 60 mod 60 < 60 ∧ 0 ≤ s / 3600 < 24 ∧
  s = s / 3600 * 3600 + s / 60 mod 60 * 60 + s mod 60.
Proof. unfold DAY. intros Hs. Z.to_euclidean_division_equations. lia. Qed.

Lemma broken_down_valid now : valid (broken_down now) ∧ seconds_of (broken_down now) = now.
Proof.
  unfold broken_down. set (d := now / DAY + EPOCH). set (s := now mod DAY).
  assert (0 ≤ s < DAY) as Hs by (apply Z.mod_pos_bound; done).
  assert (now = (d - EPOCH) * DAY + s) as Hnow by (pose proof (Z.div_mod now DAY ltac:(done)); unfold d, s; lia).
  clearbody d s. pose proof (year_of_spec d) as Hy. rewrite days_next_year, <- month_lengths_sum in Hy.
  set (y := year_of d) in *.
  destruct (month_of_spec (month_lengths y) (d - days_to_year y) 0) as (i & m & r & -> & Hi & Hr & Hd); [lia|].
  rewrite Z.add_0_l. pose proof (lookup_lt_Some _ _ _ Hi) as Hlt. simpl in Hlt.
  destruct (time_of_day s Hs) as (H1 & H2 & H3 & H4).
  set (t := MkTm _ _ _ _ _ _ _). assert (year t = y) as Hyt by (unfold year, t; simpl; lia).
  assert (days_of t = d) as Hdt. { unfold days_of. rewrite Hyt. unfold t. cbn [tm_mon tm_mday]. rewrite Nat2Z.id. lia. }
  split.
  - split; [done|done|done|simpl; lia| |by rewrite Hdt].
    unfold month_length. rewrite Hyt. unfold t. cbn [tm_mon tm_mday]. rewrite Nat2Z.id, Hi. simpl. lia.
  - unfold seconds_of. rewrite Hdt. unfold t. cbn [tm_hour tm_min tm_sec]. lia.
Qed.

Lemma broken_down_unique t : valid t → broken_down (seconds_of t) = t.
Proof.
  intros [Hs Hm Hh Hmo Hd Hw]. destruct (month_length_lookup t Hmo) as [Hl _].
  set (s := tm_hour t * 3600 + tm_min t * 60 + tm_sec t).
  assert (seconds_of t = (days_of t - EPOCH) * DAY + s) as -> by (unfold seconds_of, s; lia).
  assert (0 ≤ s < DAY) as Hsd by (unfold s, DAY; lia). unfold broken_down.
  rewrite Z.div_add_l, (Z.add_comm _ s), Z.mod_add, (Z.div_small s), (Z.mod_small s) by done.
  replace (days_of t - EPOCH + 0 + EPOCH) with (days_of t) by lia.
  pose proof (month_lengths_pos (year t)) as Hpos.
  set (before := sum_days (take (Z.to_nat (tm_mon t)) (month_lengths (year t)))).
  assert (year_of (days_of t) = year t) as ->.
  { apply year_of_unique. rewrite days_next_year, <- month_lengths_sum. unfold days_of. fold before.
    assert (0 ≤ before ∧ before + month_length t ≤ sum_days (month_lengths (year t))) as [? ?]; [|lia].
    unfold before. set (n := Z.to_nat (tm_mon t)) in *. rewrite <- (sum_days_step _ _ _ Hl).
    rewrite <- (take_drop n (month_lengths (year t))) in Hpos.
    rewrite <- (take_drop (S n) (month_lengths (year t))) at 3. rewrite sum_days_app.
    assert (∀ l, Forall (λ m, 0 < m ≤ 31) l → 0 ≤ sum_days l) as Hge.
    { induction 1; simpl; lia. }
    pose proof (Hge _ (proj1 (proj1 (Forall_app _ _ _) Hpos))).
    pose proof (Hge _ (Forall_drop _ (S n) _ (month_lengths_pos (year t)))). lia. }
  replace (days_of t - days_to_year (year t)) with (before + (tm_mday t - 1)) by (unfold days_of, before; lia).
  unfold before. rewrite (month_of_unique _ _ (month_length t)); [|by eapply Forall_impl; [exact Hpos|simpl; lia]|done|lia].
  rewrite Z.add_0_l, Z2Nat.id, <- Hw by lia. destruct t as [sec mi h d mo y w]. unfold year, s in *. simpl in *.
  unfold DAY in *. f_equal; try lia; Z.to_euclidean_division_equations; lia.
Qed.

(** ** Counting *)
Lemma next_week_day t : valid t → (tm_wday t + 1) mod 7 = (days_of t + 1 + 1) mod 7.
Proof. intros V. rewrite (vd_wday _ V). apply Z.add_mod_idemp_l. done. Qed.

Lemma next_day_valid t : valid t → valid (next_day t) ∧ seconds_of (next_day t) = (days_of t + 1 - EPOCH) * DAY.
Proof.
  intros V. pose proof (next_week_day t V) as Hw. destruct V as [_ _ _ Hmo Hd _].
  destruct (month_length_lookup t Hmo) as [Hl _].
  enough (0 ≤ tm_mon (next_day t) < 12 ∧ 1 ≤ tm_mday (next_day t) ≤ month_length (next_day t) ∧
    days_of (next_day t) = days_of t + 1) as (H1 & H2 & H3).
  { assert (tm_sec (next_day t) = 0 ∧ tm_min (next_day t) = 0 ∧ tm_hour (next_day t) = 0 ∧
      tm_wday (next_day t) = (tm_wday t + 1) mod 7) as (E1 & E2 & E3 & E4).
    { destruct t. unfold next_day. repeat case_decide; done. }
    split; [split; [rewrite E1|rewrite E2|rewrite E3|done|done|by rewrite E4, H3]; lia|]. unfold seconds_of. rewrite H3, E1, E2, E3. lia. }
  assert (∀ m, 0 ≤ m < 12 → ∀ t', tm_mon t' = m → 1 ≤ month_length t') as Hpos.
  { intros m Hm t' <-. destruct (month_length_lookup t' Hm) as [Hx _].
    apply (Forall_lookup_1 _ _ _ _ (month_lengths_pos _)) in Hx. lia. }
  destruct t as [s mi h d mo y w]. unfold next_day. cbn [tm_mon tm_mday] in *. case_decide as Hlast.
  - cbn [tm_mon tm_mday]. change (month_length (MkTm 0 0 0 _ mo y _)) with (month_length (MkTm s mi h d mo y w)).
    split_and!; [lia..|]. unfold days_of, year. cbn [tm_mon tm_mday tm_year]. lia.
  - assert (d = month_length (MkTm s mi h d mo y w)) as Hde by lia. case_decide as Hdec.
    + split_and!; [simpl; lia|simpl; lia|simpl; lia|apply (Hpos (mo + 1)); [lia|done]|].
      unfold days_of, year in *. cbn [tm_mon tm_mday tm_year] in *.
      replace (Z.to_nat (mo + 1)) with (S (Z.to_nat mo)) by lia. rewrite (sum_days_step _ _ _ Hl). lia.
    + split_and!; [simpl; lia|simpl; lia|simpl; lia|apply (Hpos 0); [lia|done]|].
      assert (mo = 11) as -> by lia. unfold days_of, year in *. cbn [tm_mon tm_mday tm_year] in *.
      replace (y + 1 + 1900) with (y + 1900 + 1) by lia. rewrite days_next_year, <- month_lengths_sum.
      apply sum_days_step in Hl. change (S (Z.to_nat 11)) with (length (month_lengths (y + 1900))) in Hl.
      rewrite firstn_all in Hl. simpl (sum_days (take (Z.to_nat 0) _)). lia.
Qed.

Lemma tick_valid t : valid t → valid (tick t) ∧ seconds_of (tick t) = seconds_of t + 1.
Proof.
  intros V. destruct (next_day_valid t V) as [Vn Sn]. destruct V as [Hs Hm Hh Hmo Hd Hw].
  assert (∀ s m h, let t' := MkTm s m h (tm_mday t) (tm_mon t) (tm_year t) (tm_wday t) in
    0 ≤ s < 60 → 0 ≤ m < 60 → 0 ≤ h < 24 → valid t' ∧ seconds_of t' = (days_of t - EPOCH) * DAY + h * 3600 + m * 60 + s) as Hgo.
  { intros s m h t' ???. by split. }
  unfold seconds_of at 2. destruct t as [s m h d mo y w]. unfold tick.
  cbn [tm_sec tm_min tm_hour tm_mday tm_mon tm_year tm_wday] in *.
  repeat case_decide; [edestruct Hgo as [? ->]; [..|split; [done|]]; lia..|].
  split; [done|]. rewrite Sn. unfold DAY. lia.
Qed.

Lemma broken_down_next now : broken_down (now + 1) = tick (broken_down now).
Proof.
  destruct (broken_down_valid now) as [V Hs]. destruct (tick_valid _ V) as [Vt Ht].
  rewrite <- (broken_down_unique _ Vt), Ht, Hs. done.
Qed.

(** ** The text *)
Lemma print_four n : 1000 ≤ n ≤ 9999 → length (print_int n) = 4%nat ∧ digits_value (print_int n) = n.
Proof.
  intros Hn. unfold print_int. rewrite decide_False by lia.
  destruct (print_nat_spec n) as (_ & _ & _ & Hv); [lia|]. split; [|done]. unfold print_nat.
  assert (9 ≤ Z.log2 n) as Hlog by (etrans; [|apply (Z.log2_le_mono 1000); lia]; done).
  destruct (Z.to_nat (Z.log2 n)) as [|[|[|k]]] eqn:Hk; [lia..|]. cbn [print_nat_go].
  assert (100 ≤ n / 10 < 1000) as H1 by (split; [apply Z.div_le_lower_bound|apply Z.div_lt_upper_bound]; lia).
  assert (10 ≤ n / 10 / 10 < 100) as H2 by (split; [apply Z.div_le_lower_bound|apply Z.div_lt_upper_bound]; lia).
  assert (n / 10 / 10 / 10 < 10) as H3 by (apply Z.div_lt_upper_bound; lia).
  by rewrite !decide_False, decide_True by lia.
Qed.

Lemma two_digits_value n : 0 ≤ n < 100 → digits_value (two_digits n) = n.
Proof.
  intros Hn. assert (0 ≤ n / 10 < 10) as Hq by (split; [apply Z.div_pos|apply Z.div_lt_upper_bound]; lia).
  pose proof (Z.mod_pos_bound n 10 ltac:(lia)) as Hr. pose proof (Z.div_mod n 10 ltac:(lia)).
  destruct (digit_char_spec _ Hq) as [Hd1 Hv1], (digit_char_spec _ Hr) as [Hd2 Hv2].
  unfold digits_value, two_digits. cbn [take_while]. rewrite Hd1, Hd2. cbn [foldl]. rewrite Hv1, Hv2. lia.
Qed.

Lemma name_found names i :
  forallb (λ n, bool_decide (length n = 3%nat)) names = true → NoDup names → 0 ≤ i < Z.of_nat (length names) →
  length (name_at names i) = 3%nat ∧ name_index names (name_at names i) = Some i.
Proof.
  intros Hl Hn Hi. unfold name_at, name_index. destruct (lookup_lt_is_Some_2 names (Z.to_nat i)) as [n Hni]; [lia|].
  rewrite Hni. simpl. split.
  - rewrite forallb_forall in Hl. apply (bool_decide_eq_true_1 _), Hl, list_elem_of_In. by eapply list_elem_of_lookup_2.
  - destruct (list_find _ names) as [[j m]|] eqn:Hf.
    + apply list_find_Some in Hf as (Hj & -> & _). simpl. f_equal.
      rewrite (NoDup_lookup _ _ _ _ Hn Hj Hni). lia.
    + apply list_find_None in Hf. rewrite Forall_forall in Hf. destruct (Hf n); [|done]. by eapply list_elem_of_lookup_2.
Qed.

Lemma read_date_text t :
  valid t → 1000 ≤ year t ≤ 9999 → length (date_text t) = 29%nat ∧ read_date (date_text t) = Some t.
Proof.
  intros [Hs Hm Hh Hmo Hd Hw] Hy.
  assert (0 ≤ tm_wday t < 7) as Hwr by (rewrite Hw; apply Z.mod_pos_bound; lia).
  destruct (month_length_lookup t Hmo) as [_ Hml].
  destruct (name_found day_names (tm_wday t)) as [Wl Wi]; [done|decide_now|done|].
  destruct (name_found month_names (tm_mon t)) as [Ml Mi]; [done|decide_now|done|].
  destruct (print_four _ Hy) as [Yl Yv]. unfold date_text. fold (year t).
  destruct (name_at day_names _) as [|w1 [|w2 [|w3 [|]]]]; try done.
  destruct (name_at month_names _) as [|m1 [|m2 [|m3 [|]]]]; try done.
  destruct (print_int (year t)) as [|y1 [|y2 [|y3 [|y4 [|]]]]]; try done.
  pose proof (two_digits_value (tm_mday t) ltac:(lia)) as Dv. pose proof (two_digits_value (tm_hour t) ltac:(lia)) as Hv.
  pose proof (two_digits_value (tm_min t) ltac:(lia)) as Mv. pose proof (two_digits_value (tm_sec t) ltac:(lia)) as Sv.
  unfold two_digits in *. split; [done|]. unfold read_date.
  match goal with |- context [field ?s 0 3] => set (text := s) end.
  change (field text 0 3) with [w1; w2; w3]. change (field text 8 3) with [m1; m2; m3].
  rewrite Wi, Mi. cbn [mbind option_bind].
  change (field text 12 4) with [y1; y2; y3; y4]. rewrite Yv.
  change (field text 23 2) with (two_digits (tm_sec t)). change (field text 20 2) with (two_digits (tm_min t)).
  change (field text 17 2) with (two_digits (tm_hour t)). change (field text 5 2) with (two_digits (tm_mday t)).
  rewrite !two_digits_value by lia. unfold year. destruct t. simpl. do 2 f_equal. lia.
Qed.

(** The years from 1970 to 9999. *)
Definition Y10K : Z := (days_to_year 10000 - EPOCH) * DAY.
Lemma year_range now : 0 ≤ now < Y10K → 1970 ≤ year (broken_down now) ≤ 9999.
Proof.
  intros Hn. assert (year (broken_down now) = year_of (now / DAY + EPOCH)) as ->.
  { unfold broken_down, year. destruct (month_of _ _ _). simpl. lia. }
  set (d := now / DAY + EPOCH). assert (EPOCH ≤ d < days_to_year 10000) as Hd.
  { unfold d. assert (0 ≤ now / DAY < days_to_year 10000 - EPOCH); [|lia].
    split; [apply Z.div_pos; [lia|done]|apply Z.div_lt_upper_bound; [done|]]. unfold Y10K in Hn. lia. }
  pose proof (year_of_spec d) as Hy. split.
  - destruct (Z.le_gt_cases 1970 (year_of d)); [done|].
    pose proof (days_to_year_mono (year_of d + 1) 1970). unfold EPOCH in Hd. lia.
  - destruct (Z.le_gt_cases (year_of d) 9999); [done|]. pose proof (days_to_year_mono 10000 (year_of d)). lia.
Qed.

Lemma gmtime_ok now : 0 ≤ now < Y10K → gmtime now = Some (broken_down now).
Proof.
  intros Hn. pose proof (year_range now Hn) as Hy. unfold year in Hy. unfold gmtime.
  rewrite decide_True; [done|]. unfold INT_MIN, INT_MAX. lia.
Qed.

Lemma timestamp_text now : 0 ≤ now < Y10K → generate_timestamp 128 now = Ok (date_text (broken_down now)).
Proof.
  intros Hn. unfold generate_timestamp. rewrite gmtime_ok by done. cbn [mbind outcome_bind require].
  destruct (read_date_text (broken_down now)) as [Hl _]; [apply broken_down_valid|pose proof (year_range now Hn); lia|].
  unfold strftime. by rewrite decide_True by lia.
Qed.

(** C12: the calendar starts on Thursday the first of January 1970 at midnight,
    and each second moves the date on by one second, through the ends of
    minutes, hours, days, months (February by the leap years) and years; up to
    the year 9999 the timestamp fits its array, has 29 characters, and reading
    its fields gives back the date. *)
Theorem timestamp_correct now : 0 ≤ now < Y10K →
  gmtime 0 = Some (MkTm 0 0 0 1 0 70 4) ∧
  ∃ t ts, gmtime now = Some t ∧ (now + 1 < Y10K → gmtime (now + 1) = Some (tick t)) ∧
    generate_timestamp 128 now = Ok ts ∧ length ts = 29%nat ∧ read_date ts = Some t.
Proof.
  intros Hn. split; [by vm_compute|]. exists (broken_down now), (date_text (broken_down now)).
  destruct (read_date_text (broken_down now)) as [Hl Hr]; [apply broken_down_valid|pose proof (year_range now Hn); lia|].
  split_and!; [by apply gmtime_ok| |by apply timestamp_text|done|done].
  intros H1. rewrite gmtime_ok by lia. by rewrite broken_down_next.
Qed.

(** The last second of the 29th of February 2020. *)
Lemma timestamp_correct_witness :
  ∃ t ts, gmtime 1583020799 = Some t ∧ (1583020799 + 1 < Y10K → gmtime (1583020799 + 1) = Some (tick t)) ∧
    generate_timestamp 128 1583020799 = Ok ts ∧ length ts = 29%nat ∧ read_date ts = Some t.
Proof. apply (timestamp_correct 1583020799). vm_compute. by split. Defined.

Example timestamps :
  map (generate_timestamp 128) [0; 1583020799; 1583020800; 4107542399; -1] =
  Ok ∘ lit <$> ["Thu, 01 Jan 1970 00:00:00 GMT"; "Sat, 29 Feb 2020 23:59:59 GMT"; "Sun, 01 Mar 2020 00:00:00 GMT";
    "Sun, 28 Feb 2100 23:59:59 GMT"; "Wed, 31 Dec 1969 23:59:59 GMT"].
Proof. by vm_compute. Qed.
(** The text of a year beyond [int] does not exist, and [gmtime] is NULL. *)
Example year_beyond_int : generate_timestamp 128 (Z.shiftl 1 62) = Undef NullDeref.
Proof. by vm_compute. Qed.
