(* ===== verification/WebServer.v ===== *)
(** The web server of Project4/www.c: reading a request line by line, the
    file it names, and the response.

    A client's socket is the characters that will arrive and how the stream
    ends; what is written to it is the list of characters sent.  The file
    system and the time are parameters. *)
From Stdlib Require Import ZArith Lia Ascii.
From stdpp Require Import prelude gmap strings numbers list.
From S2P Require Import Prelude CString Tokenizer Timestamp.
Open Scope nat_scope.

(** * Input *)
Inductive stream_end := Eof | ReadError.
Record stream := MkStream { incoming : cstr; ending : stream_end }.
Definition LF : ascii := "010"%char.
Definition CR : ascii := "013"%char.
Definition LINE_SZ : nat := Z.to_nat 8192.
Definition REQ_DELIM : cstr := [" "; "009"; "013"; "010"]%char.

(** [read(fd, buf + p, 1)]. *)
Definition read1 (s : stream) (buf : cstr) (p : nat) : Z * cstr * stream :=
  match incoming s with
  | c :: r => (1%Z, <[p := c]> buf, MkStream r (ending s))
  | [] => (match ending s with Eof => 0 | ReadError => -1 end, buf, s)%Z
  end.

(** [read_line]: [n] characters of the buffer are left, from [total] on.  The
    character at [total] is tested before the result of [read]. *)
Fixpoint read_line (n total : nat) (buf : cstr) (s : stream) : Z * cstr * stream :=
  match n with
  | 0 => (Z.of_nat total, buf, s)
  | S n' =>
      let '(read_sz, buf', s') := read1 s buf total in
      if decide (buf' !! total = Some LF) then (Z.of_nat total, buf', s')
      else if decide (read_sz = -1)%Z then ((-1)%Z, buf', s')
      else if decide (read_sz = 0)%Z then (0%Z, buf', s')
      else read_line n' (S total) buf' s'
  end.

(** The loop over the header lines: the value [handle_request] returns at
    once, or [path] when a line has no token. *)
Fixpoint request_lines (fuel : nat) (s : stream) (path : cstr) : outcome (stream * (Z + cstr)) :=
  match fuel with
  | 0 => OutOfFuel
  | S f =>
      let '(read_sz, header, s') := read_line LINE_SZ 0 (replicate LINE_SZ nul) s in
      if decide (read_sz = -1 ∨ read_sz = 0)%Z then Ok (s', inl read_sz)
      else
        '(header', next_tok, curr_tok) ← next_token header (Some 0) REQ_DELIM;
        match curr_tok with
        | None => Ok (s', inr path)
        | Some p =>
            tok ← string_at header' p;
            if strcmp_eq tok (lit "GET") then
              '(header'', _, curr_tok) ← next_token header' next_tok REQ_DELIM;
              q ← require NullDeref curr_tok;
              uri ← string_at header'' q;
              uri' ← strcpy (LINE_SZ - 1) uri;
              request_lines f s' ("."%char :: uri')
            else request_lines f s' path
        end
  end.

(** * Output *)
Inductive node :=
  | Dir (size : Z)
  | Reg (size : Z) (content : option cstr). (* [None]: it cannot be opened *)
Definition CRLF : cstr := [CR; LF].

Definition st_size (nd : node) : Z := match nd with Dir n | Reg n _ => n end.
(** What [sendfile] sends of it. *)
Definition file_bytes (nd : node) : cstr :=
  match nd with Reg n (Some content) => take (Z.to_nat n) content | _ => [] end.

(** The texts of the two responses at the time [ts]. *)
Definition not_found_text (ts : cstr) : cstr :=
  lit "HTTP/1.1 404 Not Found" ++ CRLF ++ lit "Date: " ++ ts ++ CRLF ++
  lit "Content-Length: " ++ print_nat (Z.of_nat (length (lit "404 Not Found"))) ++ CRLF ++ CRLF ++
  lit "404 Not Found".
Definition found_text (ts : cstr) (size : Z) : cstr :=
  lit "HTTP/1.1 200 OK" ++ CRLF ++ lit "Date: " ++ ts ++ CRLF ++
  lit "Content-Length: " ++ print_nat size ++ CRLF ++ CRLF.

(** [stat] of a path; [now] is the clock. *)
Section server.
Context (fs : cstr → option node).

Definition DATE_SZ : nat := 128.
(** [not_found], and the response for a file: [sprintf] into an array of 8192
    characters. *)
Definition not_found (now : Z) : outcome cstr :=
  ts ← generate_timestamp DATE_SZ now;
  strcpy LINE_SZ (not_found_text ts).
Definition found (now : Z) (nd : node) : outcome cstr :=
  date ← generate_timestamp DATE_SZ now;
  msg ← strcpy LINE_SZ (found_text date (st_size nd));
  Ok (msg ++ file_bytes nd).

(** From [stat(path, &sb)] on: what write and sendfile are given to send. Their
    results are not used, and that they take less, or fail, is left out. *)
Definition respond (now : Z) (path : cstr) : outcome cstr :=
  match fs path with
  | None => not_found now
  | Some (Dir _) =>
      path' ← strcpy LINE_SZ (path ++ lit "/index.html");
      match fs path' with
      | None => not_found now
      | Some nd => found now nd
      end
  | Some nd => found now nd
  end.

(** The stream after the request, the value returned, and what is sent. *)
Definition handle_request (now : Z) (s : stream) : outcome (stream * Z * cstr) :=
  '(s', r) ← request_lines (S (length (incoming s))) s [];
  match r with
  | inl ret => Ok (s', ret, [])
  | inr path => out ← respond now path; Ok (s', 0%Z, out)
  end.

(** The loop of the child process in [main]. *)
Fixpoint connection (fuel : nat) (now : Z) (s : stream) : outcome (stream * cstr) :=
  match fuel with
  | 0 => OutOfFuel
  | S f =>
      '(s', ret, out) ← handle_request now s;
      if decide (ret = -1 ∨ ret = 0)%Z then Ok (s', out)
      else '(s'', out') ← connection f now s'; Ok (s'', out ++ out')
  end.

(** What [accept] and then [fork] give the parent; a client comes with the time
    of its response. *)
Inductive accepted := AcceptFails | ForkFails | Accepted (client : Z * stream).
(** A child leaves the loop over its connection for the next turn of the loop
    over [accept], which fails on the socket it has closed: it returns 1. *)
Definition child (fuel : nat) (client : Z * stream) : outcome (stream * cstr * Z) :=
  '(s, out) ← connection fuel client.1 client.2; Ok (s, out, 1%Z).
(** What the children do, and the status of the parent; [None] when it waits
    in [accept]. *)
Fixpoint accept_loop (fuel : nat) (calls : list accepted) : list (outcome (stream * cstr * Z)) * option Z :=
  match calls with
  | [] => ([], None)
  | AcceptFails :: _ => ([], Some 1%Z)
  | ForkFails :: _ => ([], Some 1%Z)
  | Accepted client :: calls' =>
      let '(children, status) := accept_loop fuel calls' in (child fuel client :: children, status)
  end.

(** Every client accepted before a failure is served by a child of its own,
    and the parent goes on. *)
Lemma clients_served fuel clients calls :
  accept_loop fuel ((Accepted <$> clients) ++ calls) =
  ((child fuel <$> clients) ++ (accept_loop fuel calls).1, (accept_loop fuel calls).2).
Proof.
  induction clients as [|c clients IH]; [by destruct (accept_loop fuel _)|].
  cbn [app fmap list_fmap accept_loop]. by rewrite IH.
Qed.
End server.

(** The calls of [main] before it accepts: which succeed, and what paths mean
    once [chdir] has succeeded. *)
Record www_os := MkOs {
  socket_ok : bool;
  bind_ok : Z → bool;
  listen_ok : bool;
  chdir : cstr → option (cstr → option node)
}.
(** The usage line when there is one, the children and the status. *)
Definition www_main (fuel : nat) (os : www_os) (argv : list cstr) (calls : list accepted)
  : outcome (cstr * list (outcome (stream * cstr * Z)) * option Z) :=
  match argv with
  | [_; port; dir] =>
      port ← atoi port;
      if socket_ok os && bind_ok os (port_number port) && listen_ok os then
        match chdir os dir with
        | None => Ok ([], [], Some 1%Z)
        | Some fs => let '(children, status) := accept_loop fs fuel calls in Ok ([], children, status)
        end
      else Ok ([], [], Some 1%Z)
  | [] => Undef NullDeref
  | prog :: _ => Ok (lit "Usage: " ++ prog ++ lit " port dir" ++ [LF], [], Some 1%Z)
  end.

(** Given a port and a directory, and when the calls that set it up succeed,
    every client is served from that directory, by a child of its own, and the
    parent waits for the next one. *)
Lemma www_main_serves fuel os prog port dir p fs clients :
  atoi port = Ok p → socket_ok os = true → bind_ok os (port_number p) = true → listen_ok os = true →
  chdir os dir = Some fs →
  www_main fuel os [prog; port; dir] (Accepted <$> clients) = Ok ([], child fs fuel <$> clients, None).
Proof.
  intros Hp Hs Hb Hl Hd. unfold www_main. rewrite Hp. cbn [mbind outcome_bind]. rewrite Hs, Hb, Hl, Hd. cbn [andb].
  rewrite <- (app_nil_r (Accepted <$> clients)), clients_served. cbn. by rewrite app_nil_r.
Qed.

(** * Reading lines *)
Lemma LINE_SZ_large : 20 < LINE_SZ.
Proof. apply Nat.ltb_lt. vm_compute. reflexivity. Qed.
#[local] Opaque LINE_SZ.

Lemma read_line_lf l rest e pre tl n :
  LF ∉ l → length l < n → n ≤ length tl →
  read_line n (length pre) (pre ++ tl) (MkStream (l ++ LF :: rest) e) =
  (Z.of_nat (length pre + length l), pre ++ l ++ LF :: drop (S (length l)) tl, MkStream rest e).
Proof.
  revert pre tl n. induction l as [|c l IH]; intros pre [|d tl] [|n] Hl Hn Ht; simpl in Hn, Ht; try lia.
  - cbn [read_line read1 incoming app]. rewrite insert_middle by done. rewrite lookup_middle_eq by done.
    rewrite decide_True by done. by rewrite Nat.add_0_r.
  - cbn [read_line read1 incoming app]. rewrite insert_middle by done. rewrite lookup_middle_eq by done.
    rewrite decide_False by set_solver. cbn [ending]. rewrite !decide_False by lia.
    replace (S (length pre)) with (length (pre ++ [c])) by len.
    replace (pre ++ c :: tl) with ((pre ++ [c]) ++ tl) by app_eq.
    rewrite IH by (set_solver || lia). f_equal; [f_equal; [len|app_eq]].
Qed.

(** The stream ends before a newline. *)
Lemma read_line_end l e pre tl n :
  LF ∉ l → length l < n → n ≤ length tl → Forall (λ c, c = nul) tl →
  ∃ buf, read_line n (length pre) (pre ++ tl) (MkStream l e) =
         (match e with Eof => 0 | ReadError => -1 end, buf, MkStream [] e)%Z.
Proof.
  revert pre tl n. induction l as [|c l IH]; intros pre [|d tl] [|n] Hl Hn Ht Hz; simpl in Hn, Ht; try lia.
  - cbn [read_line read1 incoming ending]. rewrite lookup_middle_eq by done.
    apply Forall_inv in Hz. subst d. rewrite decide_False by done. destruct e; by eexists.
  - cbn [read_line read1 incoming]. rewrite insert_middle by done. rewrite lookup_middle_eq by done.
    rewrite decide_False by set_solver. cbn [ending]. rewrite !decide_False by lia.
    replace (S (length pre)) with (length (pre ++ [c])) by len.
    replace (pre ++ c :: tl) with ((pre ++ [c]) ++ tl) by app_eq.
    apply Forall_inv_tail in Hz. apply IH; [set_solver|lia|lia|done].
Qed.

Lemma header_line l rest e :
  LF ∉ l → length l < LINE_SZ - 1 →
  ∃ post, read_line LINE_SZ 0 (replicate LINE_SZ nul) (MkStream (l ++ LF :: rest) e) =
          (Z.of_nat (length l), (l ++ [LF]) ++ nul :: post, MkStream rest e).
Proof.
  intros Hl Hlen. exists (replicate (LINE_SZ - S (S (length l))) nul).
  pose proof (read_line_lf l rest e [] (replicate LINE_SZ nul) LINE_SZ Hl) as H.
  rewrite length_replicate in H. cbn [length app Nat.add] in H. rewrite H by lia. f_equal. f_equal.
  rewrite <- app_assoc. simpl. do 2 f_equal. rewrite drop_replicate.
  replace (LINE_SZ - S (length l)) with (S (LINE_SZ - S (S (length l)))) by lia. done.
Qed.

(** * Requests *)

(** A header line, without its newline. *)
Definition header_ok (l : cstr) : Prop := (LF ∉ l) ∧ (nul ∉ l) ∧ length l < LINE_SZ - 1.

(** The path after a line: that of its URI when it is a GET line. *)
Definition line_path (path l : cstr) : outcome cstr :=
  match split REQ_DELIM l with
  | t :: ts =>
      if decide (t = lit "GET") then
        match ts with u :: _ => Ok ("."%char :: u) | [] => Undef NullDeref end
      else Ok path
  | [] => Ok path
  end.
Fixpoint last_path (path : cstr) (ls : list cstr) : outcome cstr :=
  match ls with [] => Ok path | l :: ls' => path' ← line_path path l; last_path path' ls' end.

(** The lines as they are sent. *)
Definition on_wire (ls : list cstr) : cstr := concat ((λ l, l ++ [LF]) <$> ls).

Section requests.
Context (e : stream_end).

Lemma request_line_step f l rest path :
  header_ok l → split REQ_DELIM l ≠ [] →
  request_lines (S f) (MkStream (l ++ LF :: rest) e) path =
  (path' ← line_path path l; request_lines f (MkStream rest e) path').
Proof.
  intros (Hl & Hn & Hlen) Hs. cbn [request_lines].
  destruct (header_line l rest e Hl Hlen) as (post & ->).
  rewrite decide_False by (destruct l; [done|simpl; lia]).
  assert (nul ∉ REQ_DELIM) as Hd by decide_now.
  assert (nul ∉ l ++ [LF]) as Hn' by (rewrite not_elem_of_app; split; [done|decide_now]).
  pose proof (next_token_pending REQ_DELIM post ((l ++ [LF]) ++ nul :: post) (Some 0) (split REQ_DELIM l) Hd) as Ht.
  pose proof (split_length REQ_DELIM l) as Hlens. unfold line_path.
  destruct (split REQ_DELIM l) as [|t ts] eqn:Hsp; [done|].
  destruct Ht as (buf & sp & p & -> & Hp & Hpend & _).
  { rewrite <- Hsp, <- (split_snoc REQ_DELIM l LF) by decide_now. by apply pending_start. }
  cbn [mbind outcome_bind]. rewrite Hp. cbn [mbind outcome_bind]. unfold strcmp_eq.
  destruct (decide (t = lit "GET")) as [->|Hg].
  - rewrite bool_decide_true by done. apply next_token_pending in Hpend; [|done].
    destruct ts as [|u ts]; [by destruct Hpend as [-> _]|]. destruct Hpend as (buf' & sp' & q & -> & Hq & _).
    cbn [mbind outcome_bind require]. rewrite Hq. cbn [mbind outcome_bind]. unfold strcpy.
    assert (length u ≤ length l) by (apply Hlens; set_solver). by rewrite decide_True by lia.
  - by rewrite bool_decide_false.
Qed.

Lemma request_lines_steps ls f tail path :
  Forall (λ l, header_ok l ∧ split REQ_DELIM l ≠ []) ls →
  request_lines (length ls + f) (MkStream (on_wire ls ++ tail) e) path =
  (path' ← last_path path ls; request_lines f (MkStream tail e) path').
Proof.
  intros Hls. revert path. induction Hls as [|l ls [Hl Hs] _ IH]; intros path; [done|].
  cbn [length Nat.add]. unfold on_wire. cbn [fmap list_fmap concat]. rewrite <- !app_assoc.
  change ([LF] ++ ?x) with (LF :: x). rewrite request_line_step by done. cbn [last_path].
  destruct (line_path path l) as [path'| |]; [|done..]. cbn [mbind outcome_bind]. apply IH.
Qed.

Lemma blank_line b f rest path :
  header_ok b → b ≠ [] → split REQ_DELIM b = [] →
  request_lines (S f) (MkStream (b ++ LF :: rest) e) path = Ok (MkStream rest e, inr path).
Proof.
  intros (Hl & Hn & Hlen) Hb Hs. cbn [request_lines].
  destruct (header_line b rest e Hl Hlen) as (post & ->).
  rewrite decide_False by (destruct b; [done|simpl; lia]).
  assert (pending REQ_DELIM post ((b ++ [LF]) ++ nul :: post) (Some 0) []) as Hp.
  { rewrite <- Hs, <- (split_snoc REQ_DELIM b LF) by decide_now. apply pending_start.
    rewrite not_elem_of_app. split; [done|decide_now]. }
  apply next_token_pending in Hp as [-> _]; [done|decide_now].
Qed.

Lemma bare_newline f rest path :
  request_lines (S f) (MkStream (LF :: rest) e) path = Ok (MkStream rest e, inl 0%Z).
Proof.
  cbn [request_lines]. destruct (header_line [] rest e) as (post & Hr);
    [by apply not_elem_of_nil|pose proof LINE_SZ_large; cbn [length]; lia|].
  rewrite app_nil_l in Hr. rewrite Hr. cbn [length Z.of_nat]. by rewrite decide_True by lia.
Qed.

Lemma stream_ends f l path :
  LF ∉ l → length l < LINE_SZ →
  request_lines (S f) (MkStream l e) path =
  Ok (MkStream [] e, inl (match e with Eof => 0 | ReadError => -1 end)%Z).
Proof.
  intros Hl Hlen. cbn [request_lines].
  destruct (read_line_end l e [] (replicate LINE_SZ nul) LINE_SZ) as (buf & Hr); [done|done| |..].
  - by rewrite length_replicate.
  - apply Forall_forall. by intros c [-> _]%elem_of_replicate.
  - cbn [app length] in Hr. rewrite Hr. rewrite decide_True; [done|]. destruct e; lia.
Qed.

Lemma on_wire_length ls : length ls ≤ length (on_wire ls).
Proof.
  induction ls as [|l ls IH]; [simpl; lia|]. change (on_wire (l :: ls)) with ((l ++ [LF]) ++ on_wire ls).
  rewrite !length_app. cbn [length]. lia.
Qed.
End requests.

(** The path the first lines give, or an early end of the loop. *)
Lemma request_ends fuel s path s' ret :
  request_lines fuel s path = Ok (s', inl ret) → (ret = -1 ∨ ret = 0)%Z.
Proof.
  revert s path. induction fuel as [|f IH]; intros s path; [done|]. cbn [request_lines].
  destruct (read_line _ _ _ _) as [[read_sz header] s1]. case_decide as Hr.
  - intros [= <- <-]. done.
  - destruct (next_token _ _ _) as [[[header' sp] [p|]]| |]; try done. cbn [mbind outcome_bind].
    destruct (string_at header' p) as [tok| |]; try done. cbn [mbind outcome_bind].
    destruct (strcmp_eq tok (lit "GET")); [|apply IH].
    destruct (next_token _ _ _) as [[[header'' sp'] [q|]]| |]; try done. cbn [mbind outcome_bind require].
    destruct (string_at header'' q) as [uri| |]; try done. cbn [mbind outcome_bind].
    destruct (strcpy _ uri) as [uri'| |]; [apply IH|done..].
Qed.

Lemma handle_once fs now f s : connection fs (S f) now s =
  ('(s', _, out) ← handle_request fs now s; Ok (s', out)).
Proof.
  cbn [connection]. destruct (handle_request fs now s) as [[[s' ret] out]| |] eqn:H; [|done..].
  cbn [mbind outcome_bind]. rewrite decide_True; [done|]. unfold handle_request in H.
  destruct (request_lines _ _ _) as [[s1 [r|path]]| |] eqn:Hr; try done; cbn [mbind outcome_bind] in H.
  - injection H as <- <- <-. by eapply request_ends.
  - destruct (respond fs now path); [|done..]. cbn [mbind outcome_bind] in H. injection H as _ <- _. by right.
Qed.

(** A line of a request that has at least one token. *)
Definition request_line (l : cstr) : Prop := header_ok l ∧ split REQ_DELIM l ≠ [].

(** A request is lines with tokens, of fewer than 8191 characters, then a
    line of white space that is not empty (such as a carriage return). The
    server sends one response, for . followed by the URI of the last GET line,
    whatever that URI is (the empty path without one), and leaves the rest of
    the stream unread; a GET line without a URI dereferences NULL. The
    connection is then closed: it serves exactly one request. *)
Lemma request_answered fs now ls b rest e fuel :
  Forall request_line ls → header_ok b → b ≠ [] → split REQ_DELIM b = [] → 0 < fuel →
  connection fs fuel now (MkStream (on_wire ls ++ b ++ LF :: rest) e) =
  (path ← last_path [] ls; out ← respond fs now path; Ok (MkStream rest e, out)).
Proof.
  intros Hls Hb Hne Hs Hf. destruct fuel as [|fuel]; [lia|]. rewrite handle_once. unfold handle_request.
  cbn [incoming]. pose proof (on_wire_length ls) as Hlen.
  assert (S (length (on_wire ls ++ b ++ LF :: rest)) =
          length ls + S (length (on_wire ls ++ b ++ LF :: rest) - length ls)) as -> by (rewrite length_app; lia).
  rewrite request_lines_steps by done.
  destruct (last_path [] ls) as [path| |]; [|done..]. cbn [mbind outcome_bind].
  rewrite blank_line by done. cbn [mbind outcome_bind].
  by destruct (respond fs now path).
Qed.

(** A request whose header ends in an empty line (a bare newline), or whose
    stream ends before its blank line, gets no response at all, although a
    path was read. *)
Lemma request_unanswered fs now ls tail e fuel :
  Forall request_line ls → is_ok (last_path [] ls) = true →
  (∃ rest, tail = LF :: rest) ∨ ((LF ∉ tail) ∧ length tail < LINE_SZ) → 0 < fuel →
  ∃ s', connection fs fuel now (MkStream (on_wire ls ++ tail) e) = Ok (s', []).
Proof.
  intros Hls Hok Htail Hf. destruct fuel as [|fuel]; [lia|]. rewrite handle_once. unfold handle_request.
  cbn [incoming]. pose proof (on_wire_length ls) as Hlen.
  assert (S (length (on_wire ls ++ tail)) = length ls + S (length (on_wire ls ++ tail) - length ls)) as ->
    by (rewrite length_app; lia).
  rewrite request_lines_steps by done.
  destruct (last_path [] ls) as [path| |]; [|done..]. cbn [mbind outcome_bind].
  destruct Htail as [(rest & ->)|[Hl Ht]].
  - rewrite bare_newline. by eexists.
  - rewrite stream_ends by done. by eexists.
Qed.

(** ** Responses *)

(** The node a path leads to: for a directory that of its index.html. *)
Definition resolve (fs : cstr → option node) (path : cstr) : option node :=
  match fs path with Some (Dir _) => fs (path ++ lit "/index.html") | r => r end.
Definition response (ts : cstr) (r : option node) : cstr :=
  match r with None => not_found_text ts | Some nd => found_text ts (st_size nd) ++ file_bytes nd end.
Definition off_t_max : Z := 9223372036854775807.
Definition sizes_ok (fs : cstr → option node) : Prop := ∀ p nd, fs p = Some nd → (0 ≤ st_size nd ≤ off_t_max)%Z.

Lemma text_fits ts size :
  length ts = 29 → (0 ≤ size ≤ off_t_max)%Z → length (found_text ts size) < LINE_SZ ∧ length (not_found_text ts) < LINE_SZ.
Proof.
  intros Hts Hn. destruct (print_nat_spec size) as (_ & _ & Hl & _); [lia|].
  assert (Z.log2 size ≤ 62)%Z as Hlog by (apply (Z.log2_le_mono _ off_t_max); lia).
  assert (200 < LINE_SZ) as HL by (apply Nat.ltb_lt; vm_compute; reflexivity).
  unfold found_text, not_found_text. rewrite !length_app, Hts.
  change (length (print_nat (Z.of_nat (length (lit "404 Not Found"))))) with 2. simpl. lia.
Qed.

Lemma found_ok now nd ts :
  generate_timestamp DATE_SZ now = Ok ts → length ts = 29 → (0 ≤ st_size nd ≤ off_t_max)%Z →
  found now nd = Ok (response ts (Some nd)).
Proof.
  intros Hts Hl Hs. unfold found. rewrite Hts. cbn [mbind outcome_bind].
  by rewrite strcpy_ok by (by apply text_fits).
Qed.

Lemma respond_ok fs now path :
  (0 ≤ now < Y10K)%Z → sizes_ok fs → length path + 11 < LINE_SZ →
  respond fs now path = Ok (response (date_text (broken_down now)) (resolve fs path)).
Proof.
  intros Hnow Hs Hp. pose proof (timestamp_text now Hnow) as Hts. fold DATE_SZ in Hts.
  set (ts := date_text (broken_down now)) in *. assert (length ts = 29) as Hl.
  { apply read_date_text; [apply broken_down_valid|pose proof (year_range now Hnow); lia]. }
  assert (∀ p nd, fs p = Some nd → found now nd = Ok (response ts (Some nd))) as Hf.
  { intros p nd Hnd. apply found_ok; [done|done|by eapply Hs]. }
  assert (not_found now = Ok (response ts None)) as Hnf.
  { unfold not_found. rewrite Hts. cbn [mbind outcome_bind response]. apply strcpy_ok. by apply (text_fits _ 0 Hl). }
  unfold respond, resolve. destruct (fs path) as [[n|n c]|] eqn:Hnode; [|by apply (Hf path)|done].
  rewrite strcpy_ok by (rewrite length_app; simpl; lia). cbn [mbind outcome_bind].
  destruct (fs (path ++ lit "/index.html")) eqn:Hx; [by eapply Hf|done].
Qed.

(** C11: the life of a connection whose client sends lines with tokens, [ls].
    Ended by a line of white space that is not empty (such as a carriage
    return), they get exactly one response, for . followed by the URI of the
    last GET line as it is (the empty path without one; a GET line without a
    URI dereferences NULL), the rest of the stream stays unread and the
    connection ends.  Ended by a bare newline, or cut off by the end of the
    stream, they get no response at all.  The response holds the date of the
    time it is made and the file of the path, or of index.html in a directory,
    with its size, or says that there is none; until the year 9999 it fits its
    arrays. *)
Theorem connection_correct fs now ls e fuel :
  Forall request_line ls → 0 < fuel →
  (∀ b rest, header_ok b → b ≠ [] → split REQ_DELIM b = [] →
     connection fs fuel now (MkStream (on_wire ls ++ b ++ LF :: rest) e) =
     (path ← last_path [] ls; out ← respond fs now path; Ok (MkStream rest e, out))) ∧
  (∀ tail, is_ok (last_path [] ls) = true →
     (∃ rest, tail = LF :: rest) ∨ ((LF ∉ tail) ∧ length tail < LINE_SZ) →
     ∃ s', connection fs fuel now (MkStream (on_wire ls ++ tail) e) = Ok (s', [])) ∧
  ((0 ≤ now < Y10K)%Z → sizes_ok fs → ∃ t ts, gmtime now = Some t ∧ read_date ts = Some t ∧
     ∀ path, length path + 11 < LINE_SZ → respond fs now path = Ok (response ts (resolve fs path))).
Proof.
  intros Hls Hf. split_and!; [intros; by apply request_answered|intros; by apply request_unanswered|intros Hn Hs].
  exists (broken_down now), (date_text (broken_down now)). split_and!; [by apply gmtime_ok| |by intros; apply respond_ok].
  apply read_date_text; [apply broken_down_valid|pose proof (year_range now); lia].
Qed.

(** A server with two files. *)
Definition demo_fs (path : cstr) : option node :=
  if decide (path = lit "./") then Some (Dir 4096)
  else if decide (path = lit ".//index.html") then Some (Reg 5 (Some (lit "hello")))
  else if decide (path = lit "./../secret") then Some (Reg 3 (Some (lit "key"))) else None.
Definition demo_lines : list cstr := [lit "GET / HTTP/1.1" ++ [CR]; lit "Host: localhost" ++ [CR]].
Lemma short_header l : LF ∉ l → nul ∉ l → length l < 18 → header_ok l.
Proof. intros. pose proof LINE_SZ_large. split_and!; [done|done|lia]. Qed.
Lemma demo_lines_ok : Forall request_line demo_lines.
Proof.
  apply Forall_cons. split; [|apply Forall_cons; split; [|done]];
    (split; [apply short_header; decide_now|vm_compute; discriminate]).
Qed.

Lemma demo_files_sizes : sizes_ok demo_fs.
Proof. intros p nd. unfold demo_fs, off_t_max. repeat case_decide; intros [= <-]; simpl; lia. Qed.

(** The response to GET / at the start of 2020. *)
Definition demo_now : Z := 1577836800.
Definition demo_response : cstr :=
  lit "HTTP/1.1 200 OK" ++ CRLF ++ lit "Date: Wed, 01 Jan 2020 00:00:00 GMT" ++ CRLF ++
  lit "Content-Length: 5" ++ CRLF ++ CRLF ++ lit "hello".
Lemma connection_correct_witness :
  connection demo_fs 1 demo_now (MkStream (on_wire demo_lines ++ [CR] ++ LF :: lit "x") Eof) =
    Ok (MkStream (lit "x") Eof, demo_response) ∧
  (∃ s', connection demo_fs 1 demo_now (MkStream (on_wire demo_lines ++ LF :: lit "x") Eof) = Ok (s', [])) ∧
  ∃ t ts, gmtime demo_now = Some t ∧ read_date ts = Some t ∧
    respond demo_fs demo_now (lit "./secret") = Ok (not_found_text ts).
Proof.
  destruct (connection_correct demo_fs demo_now demo_lines Eof 1) as (Ha & Hu & Hr); [apply demo_lines_ok|lia|].
  split_and!.
  - rewrite (Ha [CR] (lit "x"));
      [vm_compute; reflexivity|apply short_header; decide_now|discriminate|reflexivity].
  - apply (Hu (LF :: lit "x")); [reflexivity|left; by eexists].
  - destruct Hr as (t & ts & Ht & Hd & Hp); [vm_compute; by split|apply demo_files_sizes|].
    exists t, ts. split_and!; [exact Ht|exact Hd|]. rewrite Hp; [reflexivity|]. apply Nat.ltb_lt. vm_compute. reflexivity.
Defined.

(** Nothing keeps a URI inside the directory of the server. *)
Example parent_directory :
  connection demo_fs 1 demo_now (MkStream (on_wire [lit "GET /../secret"] ++ [CR; LF]) Eof) =
  (out ← found demo_now (Reg 3 (Some (lit "key"))); Ok (MkStream [] Eof, out)).
Proof. vm_compute. reflexivity. Qed.
Example get_without_uri :
  connection demo_fs 1 demo_now (MkStream (on_wire [lit "GET"] ++ [CR; LF]) Eof) = Undef NullDeref.
Proof. vm_compute. reflexivity. Qed.
(** A line that fills the buffer has no terminator. *)
Example long_line :
  connection demo_fs 1 demo_now (MkStream (replicate LINE_SZ "a"%char) Eof) = Undef OutOfBounds.
Proof. vm_compute. reflexivity. Qed.
