(* ===== verification/Inspector.v ===== *)
(** The system inspector (Project1/inspector.c): options, the search for a
    word in a file of /proc, and the sections it prints.

    The files of /proc are a parameter, as are the user names of the password
    database and the working directory. *)
From Stdlib Require Import ZArith Lia Ascii SpecFloat.
From stdpp Require Import prelude gmap strings numbers list.
From S2P Require Import Prelude CString CFloat Tokenizer.
Open Scope nat_scope.
Import CInt.

(** * Options *)
Record view_opts := MkOpts { hardware : bool; system : bool; task_list : bool; task_summary : bool }.
Definition all_on : view_opts := MkOpts true true true true.
Definition all_off : view_opts := MkOpts false false false false.

(** What a call of [getopt(argc, argv, "ahlp:rst")] returns; [Unknown] is the
    character it returns [?] for. *)
Inductive opt := Flag (c : ascii) | OptP (dir : cstr) | Unknown (c : ascii).
Inductive parsed :=
  | Usage (status : Z)
  | Aborted
  | Run (procfs_loc : cstr) (alt_proc : bool) (options : view_opts).

Definition set_flag (c : ascii) (o : view_opts) : option view_opts :=
  if decide (c = "a"%char) then Some all_on
  else if decide (c = "l"%char) then Some (MkOpts (hardware o) (system o) true (task_summary o))
  else if decide (c = "r"%char) then Some (MkOpts true (system o) (task_list o) (task_summary o))
  else if decide (c = "s"%char) then Some (MkOpts (hardware o) true (task_list o) (task_summary o))
  else if decide (c = "t"%char) then Some (MkOpts (hardware o) (system o) (task_list o) true)
  else None.

Fixpoint option_loop (opts : list opt) (loc : cstr) (alt : bool) (o : view_opts) : parsed :=
  match opts with
  | [] => Run loc alt o
  | Flag c :: opts' =>
      if decide (c = "h"%char) then Usage 0
      else match set_flag c o with
           | Some o' => option_loop opts' loc alt o'
           | None => Aborted
           end
  | OptP dir :: opts' => option_loop opts' dir true o
  | Unknown _ :: _ => Usage 1
  end.

(** The options of a run with [argc] arguments. *)
Definition parse_options (argc : Z) (opts : list opt) : parsed :=
  match option_loop opts (lit "/proc") false all_off with
  | Run loc alt o =>
      let argc := if alt then (argc - 2)%Z else argc in
      Run loc alt (if decide (argc ≤ 1)%Z then all_on else o)
  | r => r
  end.

(** * Words of a file *)

(** [read(file, buf, n)] at the start of the file. *)
Definition read_file (n : nat) (content buf : cstr) : cstr :=
  let k := take n content in k ++ drop (length k) buf.

Fixpoint find_tok (n : nat) (buf : cstr) (sp : option nat) (sep str : cstr) : outcome (cstr * option nat) :=
  match n with
  | 0 => Ok (buf, sp)
  | S n' =>
      '(buf', sp', tok) ← next_token buf sp sep;
      p ← require NullDeref tok;
      curr_tok ← string_at buf' p;
      if strcmp_eq curr_tok str then Ok (buf', sp') else find_tok n' buf' sp' sep str
  end.
Fixpoint skip_toks (n : nat) (buf : cstr) (sp : option nat) (sep : cstr) : outcome (cstr * option nat) :=
  match n with
  | 0 => Ok (buf, sp)
  | S n' => '(buf', sp', _) ← next_token buf sp sep; skip_toks n' buf' sp' sep
  end.

(** [while (i <= 10000)]. *)
Definition TRIES : nat := Z.to_nat 10001.
(** [nextTok] is not negative in any call. *)
Definition getNextTok (buff sep str : cstr) (nextTok : nat) : outcome (cstr * option nat) :=
  if strcmp_eq str (lit "NONE") then
    '(buf', _, curr_tok) ← next_token buff (Some 0) sep; Ok (buf', curr_tok)
  else
    '(buf1, sp1) ← find_tok TRIES buff (Some 0) sep str;
    '(buf2, sp2) ← skip_toks nextTok buf1 sp1 sep;
    '(buf3, _, curr_tok) ← next_token buf2 sp2 sep;
    Ok (buf3, curr_tok).

(** [read(file, buf, n); tok = getNextTok(buf, sep, str, k); strcpy(dst, tok)]
    where [dst] has [cap] characters: the array and the copy. *)
Definition file_word (cap n : nat) (content buf sep str : cstr) (k : nat) : outcome (cstr * cstr) :=
  '(buf', tok) ← getNextTok (read_file n content buf) sep str k;
  p ← require NullDeref tok;
  t ← string_at buf' p;
  t' ← strcpy cap t;
  Ok (buf', t').

(** * Formats *)
Inductive time_unit := Years | Days | Hours | Minutes | Seconds.
Definition unit_name (u : time_unit) : cstr :=
  lit match u with
      | Years => " years" | Days => " days" | Hours => " hours" | Minutes => " minutes" | Seconds => " seconds"
      end.

(** The numbers [printUptime] prints, with their units. *)
Definition uptime_fields (t : Z) : list (Z * time_unit) :=
  let day_part t := [(Z.quot (Z.rem t (86400 * 30)) 86400, Days)]%Z in
  let hour_part t := [(Z.quot (Z.rem t 86400) 3600, Hours)]%Z in
  let rest t := [(Z.quot (Z.rem t 3600) 60, Minutes); (Z.rem t 60, Seconds)]%Z in
  if decide (t > 86400 * 365)%Z then
    let years := Z.quot t (60 * 60 * 24 * 365) in
    let t := (t - years * (60 * 60 * 24 * 365))%Z in
    let days := Z.quot (Z.rem t (86400 * 30)) 86400 in
    let hours := Z.quot (Z.rem t 86400) 3600 in
    if decide (days = 0 ∧ hours = 0)%Z then (years, Years) :: rest t
    else (years, Years) :: day_part t ++ hour_part t ++ rest t
  else if decide (t > 3600 * 24)%Z then day_part t ++ hour_part t ++ rest t
  else if decide (t > 3600)%Z then hour_part t ++ rest t
  else if decide (t > 60)%Z then rest t
  else [(Z.rem t 60, Seconds)].

Definition comma_list (l : list cstr) : cstr :=
  match l with [] => [] | s :: l' => s ++ concat ((λ s', lit ", " ++ s') <$> l') end.
Definition printUptime (t : Z) : cstr :=
  lit "Uptime: " ++ comma_list ((λ '(n, u), print_int n ++ unit_name u) <$> uptime_fields t) ++ ["010"%char].

Fixpoint progress_loop (n i : nat) (count : Z) : cstr :=
  match n with
  | 0 => []
  | S n' => (if decide (Z.of_nat i < count)%Z then "#"%char else "-"%char) :: progress_loop n' (S i) count
  end.
Definition printProgress (count : Z) (progressRange : nat) : cstr :=
  lit "[" ++ progress_loop progressRange 0 count ++ lit "] ".

(** * The sections

    [BIG] is the length of the large arrays. A file that cannot be opened is
    [None]. *)
Definition BIG : nat := Z.to_nat 100000.
Definition KB : nat := Z.to_nat 1000.
Definition WS : cstr := [" "; "010"]%char.
Definition NL : cstr := ["010"%char].
Definition unlines (ls : list cstr) : cstr := concat ((λ l, l ++ NL) <$> ls).

(** An entry of the directory: whether it is a directory, and its name. *)
Abbreviation dir_entry := (bool * cstr)%type.

Section sections.
Context (file : cstr → option cstr).

(** System information: [None] is [EXIT_FAILURE]. *)
Definition system_section (buf : cstr) : outcome (option (cstr * cstr)) :=
  match file (lit "sys/kernel/hostname") with
  | None => Ok None
  | Some f =>
      '(buf, host) ← file_word BIG KB f buf WS (lit "NONE") 0;
      match file (lit "version") with
      | None => Ok None
      | Some f =>
          '(buf, kernel) ← file_word BIG KB f buf WS (lit "version") 0;
          match file (lit "uptime") with
          | None => Ok None
          | Some f =>
              '(buf, uptime) ← file_word BIG KB f buf WS (lit "NONE") 0;
              t ← atoi uptime;
              Ok (Some (buf, unlines [lit "System Information"; lit "------------------";
                lit "Hostname: " ++ host; lit "Kernel Version: " ++ kernel] ++ printUptime t))
          end
      end
  end.

(** [while ( *curr == 'c')] over the lines of stat: the array and the final
    [i]. *)
Fixpoint count_cpus (fuel : nat) (buf : cstr) (sp : option nat) (curr : option nat) (i : Z)
  : outcome (cstr * Z) :=
  match fuel with
  | 0 => OutOfFuel
  | S f =>
      p ← require NullDeref curr;
      c ← load buf p;
      if decide (c = "c"%char)
      then '(buf', sp', curr') ← next_token buf sp NL; count_cpus f buf' sp' curr' (i + 1)
      else Ok (buf, i)
  end.
Definition processing_units (stat buf : cstr) : outcome (cstr * cstr) :=
  let buf := read_file BIG stat buf in
  '(buf', i) ← count_cpus (length buf + 2) buf (Some 0) (Some 0) (-1);
  Ok (buf', if decide (i = 0)%Z then lit "1" else print_int (i - 1)).

(** *** Hardware information

    The readings the percentages are computed from. *)
(** The characters from the third one of the token on. *)
Definition cpu_model (f buf : cstr) : outcome (cstr * cstr) :=
  '(buf', tok) ← getNextTok (read_file KB f buf) ["009"; "010"]%char (lit "model name") 0;
  p ← require NullDeref tok;
  t ← string_at buf' (p + 2);
  t' ← strcpy BIG t;
  Ok (buf', t').

(** [if (file != -1) { ... } else return EXIT_FAILURE], and [return
    EXIT_FAILURE] further down. *)
Definition or_fail {A B} (r : outcome (option A)) (next : A → outcome (option B)) : outcome (option B) :=
  x ← r; match x with None => Ok None | Some a => next a end.
Definition opened {B} (f : option cstr) (next : cstr → outcome (option B)) : outcome (option B) := or_fail (Ok f) next.

(** [total += atoi(...)] for the numbers [i] to 7 of the line cpu of stat, which
    is opened for each of them: [stat i] is what it holds then. *)
Fixpoint cpu_times (n i : nat) (stat : nat → option cstr) (buf : cstr) (total : Z) : outcome (option (cstr * Z)) :=
  match n with
  | 0 => Ok (Some (buf, total))
  | S n' =>
      opened (stat i) (λ f,
        '(buf', cpuinfo) ← file_word KB KB f buf [" "]%char (lit "cpu") i;
        x ← atoi cpuinfo;
        total' ← int_result (total + x);
        cpu_times n' (S i) stat buf' total')
  end.
(** The total and the idle time, in nine openings of stat. *)
Definition cpu_reading (stat : nat → option cstr) (buf : cstr) : outcome (option (cstr * Z * Z)) :=
  or_fail (cpu_times 8 0 stat buf 0) (λ '(buf, total),
    opened (stat 8) (λ f,
      '(buf, cpuinfo) ← file_word KB KB f buf [" "]%char (lit "cpu") 3;
      idle ← atoi cpuinfo;
      Ok (Some (buf, total, idle)))).

(** The numbers of meminfo, in the order they are read, one for each opening. *)
Definition MEM_WORDS : list cstr :=
  [lit "MemTotal:"; lit "MemFree:"; lit "Buffers:"; lit "Cached:"; lit "SwapCached:"].
Fixpoint mem_numbers (words : list cstr) (i : nat) (meminfo : nat → option cstr) (buf : cstr)
  : outcome (option (cstr * list Z)) :=
  match words with
  | [] => Ok (Some (buf, []))
  | w :: words' =>
      opened (meminfo i) (λ f,
        '(buf', meminfo_word) ← file_word BIG BIG f buf ["010"; " "]%char w 0;
        n ← atoi meminfo_word;
        or_fail (mem_numbers words' (S i) meminfo buf') (λ '(buf'', ns), Ok (Some (buf'', n :: ns))))
  end.

Record hardware_info := MkHardware {
  cpuname : cstr; cores : cstr; loadavg : cstr;
  diffTotal : Z; diffIdle : Z; mem : list Z
}.
(** [files k] is the files at the section's [k]-th opening of one: cpuinfo,
    stat and loadavg, nine times stat, and after the second of sleep nine
    times stat and five times meminfo. *)
Definition hardware_section (files : nat → cstr → option cstr) (buf : cstr) : outcome (option (cstr * hardware_info)) :=
  '(buf, name) ← (match files 0 (lit "cpuinfo") with Some f => cpu_model f buf | None => Ok (buf, []) end);
  opened (files 1 (lit "stat")) (λ f,
    '(buf, units) ← processing_units f buf;
    opened (files 2 (lit "loadavg")) (λ f,
      '(buf, avg) ← file_word BIG BIG f buf NL (lit "NONE") 0;
      or_fail (cpu_reading (λ i, files (3 + i) (lit "stat")) buf) (λ '(buf, prevTotal, prevIdle),
        or_fail (cpu_reading (λ i, files (12 + i) (lit "stat")) buf) (λ '(buf, currTotal, currIdle),
          dIdle ← int_result (currIdle - prevIdle);
          dTotal ← int_result (currTotal - prevTotal);
          or_fail (mem_numbers MEM_WORDS 0 (λ i, files (21 + i) (lit "meminfo")) buf) (λ '(buf, ns),
            Ok (Some (buf, MkHardware name units (take 15 avg) dTotal dIdle ns))))))).

(** The percentages, and what is printed. *)
Definition progressRange : nat := 20.

(** [100 * (diffTotal / (diffIdle + 5)) / 10]. *)
Definition cpuUsage (dTotal dIdle : Z) : float :=
  let diffIdle := of_int dIdle in
  let diffTotal := of_int dTotal in
  fdiv (fmul (of_int 100) (fdiv diffTotal (fadd diffIdle (of_int 5)))) (of_int 10).

(** The sum of four [int]s, and the difference of two [float]s. *)
Definition usedMemory (memTotal memFree buffers cached sCached : Z) : outcome float :=
  a ← int_result (memFree + buffers);
  b ← int_result (a + cached);
  c ← int_result (b + sCached);
  Ok (fsub (of_int memTotal) (of_int c)).
Definition memoryPer (used : float) (memTotal : Z) : float := fmul (of_int 100) (fdiv used (of_int memTotal)).

(** [printProgress(p / 5, progressRange)]. *)
Definition bar (p : float) : outcome cstr :=
  count ← float_to_int (fdiv p (of_int 5)); Ok (printProgress count progressRange).

Definition hardware_lines (h : hardware_info) : outcome (list cstr) :=
  match mem h with
  | [memTotal; memFree; buffers; cached; sCached] =>
      let cpu := cpuUsage (diffTotal h) (diffIdle h) in
      used ← usedMemory memTotal memFree buffers cached sCached;
      let per := memoryPer used memTotal in
      cpu_bar ← bar cpu;
      mem_bar ← bar per;
      Ok [[]; lit "Hardware Information"; lit "--------------------";
        lit "CPU Model: " ++ cpuname h;
        lit "Processing Units: " ++ cores h;
        lit "Load Average (1/5/15 min):  " ++ loadavg h;
        lit "CPU Usage:    " ++ cpu_bar ++ print_float 1 cpu ++ lit "%";
        lit "Memory Usage: " ++ mem_bar ++ print_float 1 per ++ lit "% (" ++
        print_float 1 (fdiv used (of_int 1000000)) ++ lit " GB / 1.0 GB)"]
  | _ => Undef Uninitialised
  end.

(** Task summary: a stat that cannot be opened leaves the array [dst] as it is,
    and [forks] is not initialised. *)
Definition word_of_stat (stat : option cstr) (dst : outcome cstr) (cap : nat) (buf str : cstr) : outcome (cstr * outcome cstr) :=
  match stat with
  | Some f => '(buf', w) ← file_word cap BIG f buf ["010"; " "]%char str 0; Ok (buf', Ok w)
  | None => Ok (buf, dst)
  end.

Definition is_task (e : dir_entry) : bool :=
  e.1 && match e.2 with c :: _ => isdigit c | [] => false end.
Definition count_tasks (entries : list dir_entry) : nat := length (filter is_task entries).

(** [stat k] is what stat holds at its [k]-th opening. *)
Definition task_section (stat : nat → option cstr) (buf : cstr) (proc : option (list dir_entry)) : outcome (option cstr) :=
  '(buf, interrupts) ← word_of_stat (stat 0) (Ok []) BIG buf (lit "intr");
  '(buf, contexts) ← word_of_stat (stat 1) (Ok []) BIG buf (lit "ctxt");
  '(buf, forks) ← word_of_stat (stat 2) (Undef Uninitialised) KB buf (lit "processes");
  match proc with
  | None => Ok None
  | Some entries =>
      interrupts ← interrupts; contexts ← contexts; forks ← forks;
      Ok (Some (unlines [[]; lit "Task Information "; lit "-------------------";
        lit "Tasks Running: " ++ print_nat (Z.of_nat (count_tasks entries));
        lit "Since boot: ";
        lit "    Interrupts: " ++ interrupts; lit "    Context Switches: " ++ contexts;
        lit "    Forks: " ++ forks]))
  end.

(** ** The task list *)

(** The local variables of the loop. *)
Record task_vars := MkTask { t_buffer : cstr; t_tasks : cstr; t_name : cstr; t_state : cstr; t_user : cstr }.

Definition state_word (s : cstr) : cstr :=
  if strcmp_eq s (lit "S") then lit "sleeping"
  else if strcmp_eq s (lit "R") then lit "running"
  else if strcmp_eq s (lit "I") then lit "idle"
  else if strcmp_eq s (lit "Z") then lit "zombie"
  else if strcmp_eq s (lit "D") then lit "disk sleep"
  else if strcmp_eq s (lit "T") then lit "tracing stop"
  else lit "unknown".

Definition STATUS_DELIM : cstr := [" "; "010"; "009"]%char.
(** One of the four reads of a status file, from what it holds when it is
    opened. *)
Definition status_word (status : option cstr) (str : cstr) (cap : nat) (buffer old : cstr) : outcome (cstr * cstr) :=
  match status with
  | Some f => file_word cap BIG f buffer STATUS_DELIM str 0
  | None => Ok (buffer, old)
  end.

(** [getpwuid], with the user names as an argument. *)
Definition getUser (passwd : Z → option cstr) (uid : Z) : outcome cstr := require NullDeref (passwd uid).

(** [files k] is the files at the [k]-th of the four openings for the row. *)
Definition task_row (files : nat → cstr → option cstr) (passwd : Z → option cstr) (d_name : cstr) (v : task_vars) : outcome (task_vars * cstr) :=
  let fullDir := d_name ++ lit "/status" in
  '(buffer, tasks) ← status_word (files 0 fullDir) (lit "Threads:") 5 (t_buffer v) (t_tasks v);
  '(buffer, name) ← status_word (files 1 fullDir) (lit "Name:") 200 buffer (t_name v);
  '(buffer, state) ← status_word (files 2 fullDir) (lit "State:") 13 buffer (t_state v);
  pid ← atoi d_name;
  '(buffer, user) ←
  match files 3 fullDir with
  | Some f =>
      '(buffer, uid) ← file_word BIG BIG f buffer STATUS_DELIM (lit "Uid:") 0;
      n ← atoi uid;
      u ← getUser passwd n;
      u ← strcpy 16 u;
      Ok (buffer, u)
  | None => Ok (buffer, t_user v)
  end;
  let state := state_word state in
  Ok (MkTask buffer tasks name state user,
    pad_left 5 (print_int pid) ++ lit " | " ++ pad_left 12 state ++ lit " | " ++ pad_left 25 (take 25 name) ++
    lit " | " ++ pad_left 15 (take 15 user) ++ lit " | " ++ tasks ++ lit " ").

Fixpoint task_rows (files : nat → cstr → option cstr) (passwd : Z → option cstr) (entries : list dir_entry) (v : task_vars) : outcome (list cstr) :=
  match entries with
  | [] => Ok []
  | e :: es =>
      if is_task e then
      '(v', row) ← task_row files passwd e.2 v;
      rows ← task_rows files passwd es v';
      Ok (row :: rows)
      else task_rows files passwd es v
  end.

(** The heading of the list, and its two lines. *)
Definition LIST_HEAD : list cstr :=
  [lit "  PID |        State |                 Task Name |            User | Tasks ";
    lit "------+--------------+---------------------------+-----------------+-------"].
Definition list_section (files : nat → cstr → option cstr) (passwd : Z → option cstr) (proc : option (list dir_entry)) : outcome (cstr * bool) :=
  match proc with
  | None => Ok (unlines LIST_HEAD, false)
  | Some entries =>
      rows ← task_rows files passwd entries (MkTask (replicate BIG nul) [] [] [] []);
      Ok (unlines (LIST_HEAD ++ rows), true)
  end.
End sections.

(** ** The sections in order

The files of /proc may change from one section to the next, within a section
that opens a file again from one opening to the next, and from one reading
of a directory to the next. *)
Record directory := MkDir {
  cwd : option cstr;
  for_system : cstr → option cstr;
  for_hardware : nat → cstr → option cstr;
  for_tasks : nat → cstr → option cstr;
  for_list : nat → cstr → option cstr;
  entries_tasks : option (list dir_entry);
  entries_list : option (list dir_entry)
}.

(** The output of a run and its exit status. *)
Inductive ending := Exit (stdout : cstr) (status : Z) | Abort.

(** [if (options.x) { ... }]: what the section prints, after what was printed
    before it; a failing section ends the run. *)
Definition when_on {A} (b : bool) (run : outcome (option (A * cstr))) (old : A) (out : cstr)
    (next : A → cstr → outcome ending) : outcome ending :=
  if b then
    r ← run;
    match r with
    | None => Ok (Exit out 1)
    | Some (a, text) => next a (out ++ text)
    end
  else next old out.

Definition hardware_part (d : directory) (buf : cstr) : outcome (option (cstr * cstr)) :=
  r ← hardware_section (for_hardware d) buf;
  match r with
  | None => Ok None
  | Some (buf, h) => lines ← hardware_lines h; Ok (Some (buf, unlines lines))
  end.
(** The last section has an array of its own. *)
Definition task_part (d : directory) (buf : cstr) : outcome (option (unit * cstr)) :=
  r ← task_section (λ k, for_tasks d k (lit "stat")) buf (entries_tasks d); Ok (option_map (pair tt) r).

Definition run_sections (d : directory) (passwd : Z → option cstr) (o : view_opts) (buf out : cstr) : outcome ending :=
  when_on (system o) (system_section (for_system d) buf) buf out (λ buf out,
  when_on (hardware o) (hardware_part d buf) buf out (λ buf out,
  when_on (task_summary o) (task_part d buf) tt out (λ _ out,
  if task_list o then
    '(text, ok) ← list_section (for_list d) passwd (entries_list d);
    Ok (Exit (out ++ text) (if ok : bool then 0 else 1))
  else Ok (Exit out 0)))).

(** ** main *)
Definition usage (prog : cstr) : cstr :=
  unlines [lit "Usage: " ++ prog ++ lit " [-ahlrst] [-p procfs_dir]"; []; lit "Options:";
    lit "    * -a              Display all (equivalent to -lrst, default)";
    lit "    * -h              Help/usage information";
    lit "    * -l              Task List";
    lit "    * -p procfs_dir   Change the expected procfs mount point (default: /proc)";
    lit "    * -r              Hardware Information";
    lit "    * -s              System Information";
    lit "    * -t              Task Information"; []].

(** [chdir loc] is the directory the process is in after [chdir(loc)], whose
    result is not looked at; [buf] is what the array holds at the start. *)
Definition inspector_main (chdir : cstr → directory) (passwd : Z → option cstr) (prog : cstr) (argc : Z) (opts : list opt)
    (buf : cstr) : outcome ending :=
  match parse_options argc opts with
  | Usage status => Ok (Exit (usage prog) status)
  | Aborted => Ok Abort
  | Run procfs_loc _ o =>
      let d := chdir procfs_loc in
      match cwd d with
      | Some dir => run_sections d passwd o buf (unlines [lit "Current working dir: " ++ dir])
      | None => Ok (Exit [] 1)
      end
  end.
