(* ===== verification/InspectorSpec.v ===== *)
(** What the system inspector (Project1/inspector.c) prints: the word searched
    for in a file, the uptime, the number of processing units, the task list
    and the options. *)
From Stdlib Require Import ZArith Lia Ascii.
From stdpp Require Import prelude gmap strings numbers list.
From S2P Require Import Prelude CString Tokenizer Inspector.
Open Scope nat_scope.
Import CInt.

(** * Words of a file *)

(** The word [getNextTok(buf, sep, str, k)] looks for among the words [ts]. *)
Fixpoint next_word (str : cstr) (k : nat) (ts : list cstr) : option cstr :=
  match ts with
  | [] => None
  | t :: ts' => if decide (t = str) then head (drop k ts') else next_word str k ts'
  end.
Definition word_after (str : cstr) (k : nat) (ts : list cstr) : option cstr :=
  if decide (str = lit "NONE") then head ts else next_word str k ts.

(** The large arrays always end with a NUL. *)
Definition closed (buf : cstr) : Prop := last buf = Some nul.
(** The text of a file of /proc: it ends with a separator. *)
Definition text (sep f : cstr) : Prop := (nul ∉ f) ∧ ∃ s d, f = s ++ [d] ∧ d ∈ sep.

Lemma find_tok_found sep post str l1 l2 : str ∉ l1 → nul ∉ sep → ∀ n buf sp,
  pending sep post buf sp (l1 ++ str :: l2) → length l1 < n →
  ∃ buf' sp', find_tok n buf sp sep str = Ok (buf', sp') ∧ pending sep post buf' sp' l2 ∧
              length buf' = length buf.
Proof.
  intros Hn Hs. induction l1 as [|t l1 IH]; intros [|n] buf sp Hp Hl; simpl in Hl; try lia;
    apply next_token_pending in Hp; try done; destruct Hp as (b & s & p & Hnt & Hst & Hpd & Hlen);
    cbn [find_tok]; rewrite Hnt; cbn [mbind outcome_bind require]; rewrite Hst; cbn [mbind outcome_bind];
    unfold strcmp_eq.
  - rewrite bool_decide_true by done. eauto.
  - rewrite bool_decide_false by set_solver. rewrite <- Hlen. apply IH; [set_solver|done|lia].
Qed.

Lemma find_tok_missing sep post str ts : str ∉ ts → nul ∉ sep → ∀ n buf sp,
  pending sep post buf sp ts → length ts < n → find_tok n buf sp sep str = Undef NullDeref.
Proof.
  intros Hn Hs. induction ts as [|t ts IH]; intros [|n] buf sp Hp Hl; simpl in Hl; try lia;
    apply next_token_pending in Hp; try done; cbn [find_tok].
  - by destruct Hp as [-> _].
  - destruct Hp as (b & s & p & -> & Hst & Hpd & _). cbn [mbind outcome_bind require]. rewrite Hst.
    cbn [mbind outcome_bind]. unfold strcmp_eq. rewrite bool_decide_false by set_solver.
    apply IH; [set_solver|done|lia].
Qed.

Lemma skip_toks_pending sep post : nul ∉ sep → ∀ n buf sp ts,
  pending sep post buf sp ts →
  ∃ buf' sp', skip_toks n buf sp sep = Ok (buf', sp') ∧ pending sep post buf' sp' (drop n ts) ∧
              length buf' = length buf.
Proof.
  intros Hs. induction n as [|n IH]; intros buf sp ts Hp; cbn [skip_toks]; [rewrite drop_0; eauto|].
  apply next_token_pending in Hp; [|done]. destruct ts as [|t ts].
  - destruct Hp as [-> Hp]. cbn [mbind outcome_bind].
    destruct (IH _ _ _ Hp) as (b & s & Hr & Hp' & Hl). rewrite drop_nil in *. eauto.
  - destruct Hp as (b & s & p & -> & _ & Hp & Hl). cbn [mbind outcome_bind].
    destruct (IH _ _ _ Hp) as (b' & s' & Hr & Hp' & Hl'). exists b', s'. split_and!; [done|done|congruence].
Qed.

Lemma pending_end sep post buf sp ts : pending sep post buf sp ts → ∃ l, buf = l ++ nul :: post.
Proof. intros [(_ & _ & ?)|(pre & s & -> & _)]; [done|]. exists (pre ++ s). app_eq. Qed.

(** The last call of getNextTok. *)
Lemma take_tok sep post buf sp ts :
  nul ∉ sep → pending sep post buf sp ts →
  ∃ buf' r, ('(b, _, tok) ← next_token buf sp sep; Ok (b, tok)) = Ok (buf', r) ∧ length buf' = length buf ∧
    (∃ l, buf' = l ++ nul :: post) ∧
    match head ts with Some t => ∃ p, r = Some p ∧ string_at buf' p = Ok t | None => r = None end.
Proof.
  intros Hs Hp. apply next_token_pending in Hp; [|done].
  destruct ts as [|t ts].
  - destruct Hp as [-> Hp]. cbn [mbind outcome_bind]. do 2 eexists. split_and!; [done|done|by eapply pending_end|done].
  - destruct Hp as (b & s & p & -> & Hst & Hp & Hl). cbn [mbind outcome_bind].
    do 2 eexists. split_and!; [done|done|by eapply pending_end|by exists p].
Qed.

(** C36: getNextTok on a string of a character array. For NONE it returns the
    first token. For a word among the first 10001 tokens it returns the token
    [k] places after the one that follows the word's first occurrence, or NULL
    when the string has no such token; when the word does not occur among
    fewer tokens than that it compares NULL. No call leaves the array or
    changes what follows the string. *)
Theorem getNextTok_correct sep s post str k :
  nul ∉ s → nul ∉ sep → length (split sep s) < TRIES →
  match (if decide (str = lit "NONE") then Some (split sep s)
         else match list_find (λ t, t = str) (split sep s) with
              | Some (i, _) => Some (drop (S i + k) (split sep s))
              | None => None
              end) with
  | None => getNextTok (s ++ nul :: post) sep str k = Undef NullDeref
  | Some ts =>
      ∃ buf r, getNextTok (s ++ nul :: post) sep str k = Ok (buf, r) ∧
        length buf = length (s ++ nul :: post) ∧ (∃ l, buf = l ++ nul :: post) ∧
        match head ts with Some t => ∃ p, r = Some p ∧ string_at buf p = Ok t | None => r = None end
  end.
Proof.
  intros Hs Hd Hc. pose proof (pending_start sep s post Hs) as Hp. unfold getNextTok, strcmp_eq.
  case_decide as Hn; [rewrite bool_decide_true by done; by apply take_tok|].
  rewrite bool_decide_false by done.
  destruct (list_find (λ t, t = str) (split sep s)) as [[i t]|] eqn:Hf.
  - apply list_find_Some in Hf as (Hi & -> & Hlt).
    pose proof (take_drop_middle _ _ _ Hi) as Hsp. rewrite <- Hsp in Hp.
    assert (str ∉ take i (split sep s)) as Hni.
    { intros [j Hj]%list_elem_of_lookup. apply lookup_take_Some in Hj as [Hj Hji]. by apply (Hlt j str). }
    pose proof (lookup_lt_Some _ _ _ Hi) as Hil.
    destruct (find_tok_found _ _ _ _ _ Hni Hd TRIES _ _ Hp) as (b1 & s1 & -> & Hp1 & Hl1);
      [rewrite length_take; lia|]. cbn [mbind outcome_bind].
    destruct (skip_toks_pending sep post Hd k _ _ _ Hp1) as (b2 & s2 & -> & Hp2 & Hl2). cbn [mbind outcome_bind].
    rewrite drop_drop in Hp2.
    destruct (take_tok _ _ _ _ _ Hd Hp2) as (b3 & r & Hr & Hl3 & He & Hh). exists b3, r.
    split_and!; [done|congruence|done|done].
  - apply list_find_None in Hf. rewrite Forall_forall in Hf.
    rewrite (find_tok_missing sep post str (split sep s)); [done| |done|done|lia].
    intros Hin. by apply (Hf str).
Qed.

(** The first lines of /proc/meminfo. *)
Definition demo_meminfo : cstr :=
  lit "MemTotal:        1011628 kB" ++ ["010"%char] ++ lit "MemFree:          141176 kB" ++ ["010"%char].
Lemma getNextTok_correct_witness :
  ∃ buf r, getNextTok (demo_meminfo ++ nul :: lit "x") WS (lit "MemFree:") 0 = Ok (buf, r) ∧
    length buf = length (demo_meminfo ++ nul :: lit "x") ∧ (∃ l, buf = l ++ nul :: lit "x") ∧
    ∃ p, r = Some p ∧ string_at buf p = Ok (lit "141176").
Proof.
  apply (getNextTok_correct WS demo_meminfo (lit "x") (lit "MemFree:") 0);
    [decide_now|decide_now|apply Nat.ltb_lt; vm_compute; reflexivity].
Defined.

(** * Reading files one after the other *)

(** The array after a read: the file, what is left of earlier ones up to a
    NUL, and the rest. *)
Lemma read_file_closed n f buf :
  closed buf → nul ∉ f → length (take n f) < length buf →
  ∃ g post, read_file n f buf = (take n f ++ g) ++ nul :: post ∧ (nul ∉ take n f ++ g) ∧ closed (nul :: post) ∧
            length (read_file n f buf) = length buf.
Proof.
  intros Hc Hn Hl. unfold read_file. set (k := take n f) in *.
  assert (nul ∉ k) as Hk by (intros Hin; apply Hn; rewrite <- (take_drop n f), elem_of_app; by left).
  assert (last (drop (length k) buf) = Some nul) as Hlast.
  { rewrite <- (take_drop (length k) buf) in Hc. unfold closed in Hc. rewrite last_app in Hc.
    destruct (last (drop (length k) buf)) eqn:E; [done|]. apply last_None in E.
    apply (f_equal length) in E. rewrite length_drop in E. simpl in E. lia. }
  assert (∀ m, last m = Some nul → ∃ g post, m = g ++ nul :: post ∧ (nul ∉ g) ∧ last (nul :: post) = Some nul) as Hsp.
  { induction m as [|c m IH]; [done|]. intros H. destruct (decide (c = nul)) as [->|Hcn].
    - exists [], m. split_and!; [done|by apply not_elem_of_nil|done].
    - destruct m as [|d m]; [simpl in H; congruence|]. destruct (IH H) as (g & post & -> & Hg & Hp).
      exists (c :: g), post. split_and!; [done|set_solver|done]. }
  destruct (Hsp _ Hlast) as (g & post & Hd & Hg & Hp). exists g, post. rewrite Hd.
  split_and!; [app_eq|rewrite not_elem_of_app; done|done|].
  rewrite <- Hd, length_app, length_drop. lia.
Qed.

Lemma next_word_split str k ts w :
  next_word str k ts = Some w → ∃ l1 l2, ts = l1 ++ str :: l2 ∧ (str ∉ l1) ∧ head (drop k l2) = Some w.
Proof.
  induction ts as [|t ts IH]; [done|]. simpl. case_decide as Ht.
  - subst t. intros H. exists [], ts. split_and!; [done|apply not_elem_of_nil|done].
  - intros H. destruct (IH H) as (l1 & l2 & -> & Hn & Hw). exists (t :: l1), l2. split_and!; [done|set_solver|done].
Qed.

Lemma head_drop_app {A} k (l l' : list A) w : head (drop k l) = Some w → head (drop k (l ++ l')) = Some w.
Proof. revert l. induction k as [|k IH]; intros [|x l] H; simpl in *; try done. by apply IH. Qed.

(** A word of the last file read, whatever an earlier one has left: it only
    depends on the first part of what is read. *)
Lemma get_next_prefix n p r buf sep str k w :
  nul ∉ sep → closed buf → text sep p → nul ∉ r → length p ≤ n → length (take n (p ++ r)) < length buf →
  (length (split sep p) ≤ TRIES ∨ str = lit "NONE") → word_after str k (split sep p) = Some w →
  ∃ buf' q, getNextTok (read_file n (p ++ r) buf) sep str k = Ok (buf', Some q) ∧ string_at buf' q = Ok w ∧
            closed buf' ∧ length buf' = length buf.
Proof.
  intros Hs Hc [Hnp (s & d & -> & Hd)] Hnr Hn Hl Htr Hw.
  destruct (read_file_closed n ((s ++ [d]) ++ r) buf Hc) as (g0 & post & -> & Hg & Hcl & Hlen);
    [rewrite not_elem_of_app; done|done|].
  rewrite take_app_ge, <- (app_assoc (s ++ [d])) in Hg, Hlen |- * by done. set (g := take _ r ++ g0) in *.
  assert (∃ buf' r, getNextTok (((s ++ [d]) ++ g) ++ nul :: post) sep str k = Ok (buf', r) ∧
    length buf' = length (((s ++ [d]) ++ g) ++ nul :: post) ∧ (∃ l, buf' = l ++ nul :: post) ∧
    ∃ q, r = Some q ∧ string_at buf' q = Ok w) as (buf' & r' & Hr & Hl' & (l & ->) & q & -> & Hq).
  { pose proof (pending_start sep _ post Hg) as Hp. rewrite split_app in Hp by done.
    unfold getNextTok, strcmp_eq. unfold word_after in Hw. case_decide as Hnone.
    - rewrite bool_decide_true by done. destruct (take_tok _ _ _ _ _ Hs Hp) as (b & x & Hr & Hb & He & Hh).
      exists b, x. split_and!; [done..|]. destruct (split sep (s ++ [d])) as [|t ts]; [done|].
      simpl in Hh, Hw. by injection Hw as <-.
    - rewrite bool_decide_false by done. apply next_word_split in Hw as (l1 & l2 & Hsp & Hn1 & Hw).
      rewrite Hsp, <- (app_assoc l1) in Hp. cbn [app] in Hp.
      destruct (find_tok_found _ _ _ _ _ Hn1 Hs TRIES _ _ Hp) as (b & s1 & -> & Hp1 & Hb).
      { destruct Htr as [Htr|]; [|done]. rewrite Hsp in Htr. rewrite length_app in Htr. simpl in Htr. lia. }
      cbn [mbind outcome_bind]. destruct (skip_toks_pending sep post Hs k _ _ _ Hp1) as (b2 & s2 & -> & Hp2 & Hb2).
      cbn [mbind outcome_bind]. destruct (take_tok _ _ _ _ _ Hs Hp2) as (b' & x & Hr & Hb' & He & Hh).
      rewrite (head_drop_app k l2 _ w Hw) in Hh. exists b', x. split_and!; [done|congruence|done|done]. }
  exists (l ++ nul :: post), q. split_and!; [done|done| |congruence].
  unfold closed in *. rewrite last_app. by rewrite Hcl.
Qed.

Lemma file_word_prefix cap n p r buf sep str k w :
  nul ∉ sep → closed buf → text sep p → nul ∉ r → length p ≤ n → length (take n (p ++ r)) < length buf →
  length (split sep p) ≤ TRIES → word_after str k (split sep p) = Some w →
  ∃ buf', file_word cap n (p ++ r) buf sep str k = (w' ← strcpy cap w; Ok (buf', w')) ∧ closed buf' ∧
          length buf' = length buf.
Proof.
  intros. destruct (get_next_prefix n p r buf sep str k w) as (buf' & q & Hr & Hq & ? & ?); try done; [by left|].
  exists buf'. unfold file_word. rewrite Hr. cbn [mbind outcome_bind require]. by rewrite Hq.
Qed.

(** The first word of a file. *)
Lemma get_first n f buf sep w :
  nul ∉ sep → closed buf → text sep f → length f ≤ n → length f < length buf → head (split sep f) = Some w →
  ∃ buf' q, getNextTok (read_file n f buf) sep (lit "NONE") 0 = Ok (buf', Some q) ∧ string_at buf' q = Ok w ∧
            closed buf' ∧ length buf' = length buf.
Proof.
  intros Hs Hc Ht Hn Hl Hw.
  destruct (get_next_prefix n f [] buf sep (lit "NONE") 0 w) as (buf' & q & Hr); rewrite ?app_nil_r in *; try done.
  - apply not_elem_of_nil.
  - by rewrite take_ge.
  - by right.
  - by exists buf', q.
Qed.

Lemma file_word_ok cap n f buf sep str k w :
  nul ∉ sep → closed buf → text sep f → length f < length buf → length f ≤ n → length (split sep f) ≤ TRIES →
  word_after str k (split sep f) = Some w →
  ∃ buf', file_word cap n f buf sep str k = (w' ← strcpy cap w; Ok (buf', w')) ∧ closed buf' ∧
          length buf' = length buf.
Proof.
  intros Hs Hc Ht Hl Hn Htr Hw.
  destruct (file_word_prefix cap n f [] buf sep str k w) as (buf' & Hr & ?); rewrite ?app_nil_r in *; try done.
  - apply not_elem_of_nil.
  - by rewrite take_ge.
  - by exists buf'.
Qed.

(** * The uptime *)
Definition seconds_of (u : time_unit) : Z :=
  match u with Years => 31536000 | Days => 86400 | Hours => 3600 | Minutes => 60 | Seconds => 1 end.
Definition uptime_value (fs : list (Z * time_unit)) : Z := foldr (λ '(n, u) acc, n * seconds_of u + acc)%Z 0%Z fs.
(** The numbers an uptime is split into are below the next unit. *)
Definition in_unit (f : Z * time_unit) : Prop :=
  (0 ≤ f.1)%Z ∧ match f.2 with
                | Years => True
                | Days => (f.1 < 30)%Z
                | Hours => (f.1 < 24)%Z
                | Minutes | Seconds => (f.1 < 60)%Z
                end.

(** A number of seconds split at a unit of [b] seconds, [b * c] being the next. *)
Lemma unit_split t b c :
  (0 ≤ t → 0 < b → 0 < c →
   Z.quot (Z.rem t (b * c)) b * b + t `mod` b = t `mod` (b * c) ∧ 0 ≤ Z.quot (Z.rem t (b * c)) b < c)%Z.
Proof.
  intros Ht Hb Hc. assert (0 < b * c)%Z as Hbc by lia.
  rewrite Z.rem_mod_nonneg by lia. pose proof (Z.mod_pos_bound t (b * c) Hbc) as Hm.
  rewrite Z.quot_div_nonneg by lia.
  rewrite <- (Z.mod_mod_divide t (b * c) b) by (exists c; lia).
  pose proof (Z.div_mod (t `mod` (b * c)) b ltac:(lia)).
  split; [lia|]. split; [apply Z.div_pos; lia|apply Z.div_lt_upper_bound; lia].
Qed.

(** The numbers from hours down, and from days down. *)
Lemma uptime_parts t :
  (0 ≤ t)%Z →
  Forall in_unit [(Z.quot (Z.rem t 3600) 60, Minutes); (Z.rem t 60, Seconds)]%Z ∧
  in_unit (Z.quot (Z.rem t 86400) 3600, Hours)%Z ∧ in_unit (Z.quot (Z.rem t 2592000) 86400, Days)%Z ∧
  (Z.quot (Z.rem t 3600) 60 * 60 + Z.rem t 60 = t `mod` 3600 ∧
   Z.quot (Z.rem t 86400) 3600 * 3600 + t `mod` 3600 = t `mod` 86400 ∧
   Z.quot (Z.rem t 2592000) 86400 * 86400 + t `mod` 86400 = t `mod` 2592000)%Z.
Proof.
  intros Ht. destruct (unit_split t 60 60) as [H1 R1]; [lia..|]. destruct (unit_split t 3600 24) as [H2 R2]; [lia..|].
  destruct (unit_split t 86400 30) as [H3 R3]; [lia..|].
  change (60 * 60)%Z with 3600%Z in *. change (3600 * 24)%Z with 86400%Z in *.
  change (86400 * 30)%Z with 2592000%Z in *.
  pose proof (Z.mod_pos_bound t 60 ltac:(lia)). rewrite (Z.rem_mod_nonneg t 60) by lia.
  split_and!; [|split; simpl; lia|split; simpl; lia|lia..].
  apply Forall_cons_2; [split; simpl; lia|]. apply Forall_cons_2; [split; simpl; lia|done].
Qed.

(** C37: the numbers printUptime prints add up to the uptime when it is below
    thirty days, except that 60 seconds, an hour and a day are printed as
    nothing; from then on days wrap around at thirty, within each year of 365
    days. Each number is below the next unit (thirty days for a month). *)
Theorem uptime_correct t :
  (0 ≤ t)%Z →
  Forall in_unit (uptime_fields t) ∧
  uptime_value (uptime_fields t) =
    (if decide (t = 60 ∨ t = 3600 ∨ t = 86400) then 0
     else if decide (t ≤ 31536000) then t `mod` 2592000
     else t / 31536000 * 31536000 + (t `mod` 31536000) `mod` 2592000)%Z.
Proof.
  intros Ht. unfold uptime_fields. change (60 * 60 * 24 * 365)%Z with 31536000%Z.
  change (86400 * 365)%Z with 31536000%Z. change (86400 * 30)%Z with 2592000%Z.
  change (3600 * 24)%Z with 86400%Z.
  assert (t - Z.quot t 31536000 * 31536000 = t `mod` 31536000)%Z as Hy.
  { rewrite Z.quot_div_nonneg by lia. rewrite Z.mod_eq by lia. lia. }
  rewrite Hy, (Z.quot_div_nonneg t 31536000) by lia.
  pose proof (Z.mod_pos_bound t 31536000 ltac:(lia)).
  destruct (uptime_parts t Ht) as (F1 & F2 & F3 & E1 & E2 & E3).
  destruct (uptime_parts (t `mod` 31536000)) as (G1 & G2 & G3 & D1 & D2 & D3); [lia|].
  pose proof (Z.div_pos t 31536000 Ht ltac:(lia)) as Hyears.
  destruct (decide (t > 31536000)%Z).
  { rewrite (decide_False (P := (t = 60 ∨ _)%Z)), (decide_False (P := (t ≤ _)%Z)) by lia.
    case_decide as Hz; simpl; (split; [|lia]).
    - apply Forall_cons_2; [by split|done].
    - apply Forall_cons_2; [by split|]. by repeat (apply Forall_cons_2; [done|]). }
  rewrite (decide_True (P := (t ≤ _)%Z)) by lia.
  destruct (decide (t > 86400)%Z); [|destruct (decide (t > 3600)%Z); [|destruct (decide (t > 60)%Z)]].
  - rewrite decide_False by lia. simpl. split; [by repeat (apply Forall_cons_2; [done|])|lia].
  - simpl. split; [by apply Forall_cons_2|]. case_decide.
    + assert (t = 86400)%Z as -> by lia. reflexivity.
    + rewrite (Z.mod_small t 86400) in E2 by lia. rewrite (Z.mod_small t 2592000) by lia. lia.
  - simpl. split; [done|]. case_decide.
    + assert (t = 3600)%Z as -> by lia. reflexivity.
    + rewrite (Z.mod_small t 3600) in E1 by lia. rewrite (Z.mod_small t 2592000) by lia. lia.
  - simpl. split; [by apply Forall_cons_1 in F1 as [_ F1]|]. rewrite Z.rem_mod_nonneg by lia. case_decide.
    + assert (t = 60)%Z as -> by lia. reflexivity.
    + rewrite !Z.mod_small by lia. lia.
Qed.

Lemma uptime_correct_witness :
  uptime_value (uptime_fields 93784) = 93784%Z ∧
  printUptime 93784 = lit "Uptime: 1 days, 2 hours, 3 minutes, 4 seconds" ++ ["010"%char].
Proof.
  split; [|by vm_compute]. destruct (uptime_correct 93784) as [_ ->]; [lia|].
  vm_compute. reflexivity.
Defined.
(** A month and a day, and a day. *)
Example uptime_month : printUptime 2678400 = lit "Uptime: 1 days, 0 hours, 0 minutes, 0 seconds" ++ ["010"%char].
Proof. vm_compute. reflexivity. Qed.
Example uptime_day : printUptime 86400 = lit "Uptime: 0 hours, 0 minutes, 0 seconds" ++ ["010"%char].
Proof. vm_compute. reflexivity. Qed.

(** * Processing units *)
Definition starts_with_c (l : cstr) : Prop := head l = Some "c"%char.

Lemma count_cpus_ok post o rest : head o ≠ Some "c"%char → o ≠ [] → ∀ cs fuel buf sp p i,
  Forall starts_with_c cs → pending NL post buf sp (cs ++ o :: rest) →
  load buf p = Ok "c"%char → S (length cs) < fuel →
  ∃ buf', count_cpus fuel buf sp (Some p) i = Ok (buf', i + 1 + Z.of_nat (length cs))%Z ∧
          length buf' = length buf ∧ ∃ l, buf' = l ++ nul :: post.
Proof.
  intros Ho Hne. induction cs as [|t cs IH]; intros [|fuel] buf sp p i Hcs Hp Hl Hf; simpl in Hf; try lia;
    cbn [count_cpus require mbind outcome_bind]; rewrite Hl; cbn [mbind outcome_bind];
    rewrite decide_True by done; (apply next_token_pending in Hp; [|decide_now]);
    destruct Hp as (b & s & q & -> & Hq & Hp & Hb); cbn [mbind outcome_bind].
  - destruct fuel as [|fuel]; [lia|]. cbn [count_cpus require mbind outcome_bind].
    destruct o as [|c o]; [done|]. rewrite (load_string b q c o Hq). cbn [mbind outcome_bind].
    rewrite decide_False by (intros ->; done). exists b. rewrite Z.add_0_r.
    split_and!; [done|done|by eapply pending_end].
  - apply Forall_cons in Hcs as [Ht Hcs].
    destruct (IH fuel b s q (i + 1)%Z Hcs Hp) as (b' & -> & Hb' & He); [destruct t; [done|]; injection Ht as ->; by eapply load_string|lia|].
    exists b'. split_and!; [|congruence|done]. do 2 f_equal. simpl. lia.
Qed.

(** The lines of stat begin with those of the processor (cpu, cpu0, cpu1 and
    so on), [n] besides the first, and another line follows. *)
Definition stat_units (f : cstr) (n : Z) : Prop :=
  text NL f ∧ length f < BIG ∧ head f = Some "c"%char ∧
  ∃ cs o rest, split NL f = cs ++ o :: rest ∧ cs ≠ [] ∧ Forall starts_with_c cs ∧ ¬ starts_with_c o ∧ o ≠ [] ∧
               n = (Z.of_nat (length cs) - 1)%Z.

Lemma processing_units_ok f buf n :
  closed buf → length buf = BIG → stat_units f n →
  ∃ buf', processing_units f buf = Ok (buf', print_int n) ∧ closed buf' ∧ length buf' = BIG.
Proof.
  intros Hc Hbuf (Ht & Hl & Hh & cs & o & rest & Hsp & Hne & Hcs & Ho & Hone & ->). unfold processing_units.
  rewrite <- Hbuf in Hl. assert (length f ≤ BIG) as Hn by lia.
  destruct (read_file_closed BIG f buf Hc (proj1 Ht)) as (g & post & Hr & Hg & Hcl & Hlen);
    [by rewrite take_ge|].
  rewrite take_ge in Hr, Hg by done.
  rewrite Hr in Hlen |- *. rewrite Hlen. destruct Ht as [_ (s & d & -> & Hd)].
  pose proof (pending_start NL _ post Hg) as Hp. rewrite split_app, Hsp, <- (app_assoc cs) in Hp by done.
  assert (length cs ≤ length buf) as Hcc.
  { pose proof (split_count NL (s ++ [d])) as Hcnt. rewrite Hsp, length_app in Hcnt. simpl in Hcnt. lia. }
  destruct (count_cpus_ok post o (rest ++ split NL g) Ho Hone cs (length buf + 2) _ (Some 0) 0 (-1)%Z Hcs Hp)
    as (buf' & Hrun & Hb & l & ->); [| |].
  - clear -Hh. unfold load. destruct s; simpl in Hh; by injection Hh as ->.
  - lia.
  - rewrite Hrun. cbn [mbind outcome_bind]. change (-1 + 1)%Z with 0%Z. rewrite Z.add_0_l.
    destruct cs as [|c1 cs]; [done|]. rewrite decide_False by (simpl; lia).
    eexists. split_and!; [done|unfold closed in *; by rewrite last_app, Hcl|].
    rewrite Hb. congruence.
Qed.

(** * Options *)
Definition valid_opt (o : opt) : Prop :=
  match o with
  | Flag c => c ∈ ["a"; "l"; "r"; "s"; "t"]%char
  | OptP _ => True
  | Unknown _ => False
  end.
(** Whether the options ask for the section of flag [c]. *)
Definition asks (c : ascii) (opts : list opt) : bool :=
  existsb (λ o, match o with Flag d => bool_decide (d = "a"%char ∨ d = c) | _ => false end) opts.
Definition last_dir (loc : cstr) (opts : list opt) : cstr :=
  foldl (λ loc o, match o with OptP d => d | _ => loc end) loc opts.
Definition has_p (opts : list opt) : bool := existsb (λ o, match o with OptP _ => true | _ => false end) opts.
Definition selected (o : view_opts) (opts : list opt) : view_opts :=
  MkOpts (hardware o || asks "r" opts) (system o || asks "s" opts) (task_list o || asks "l" opts)
         (task_summary o || asks "t" opts).

Lemma option_loop_ok opts loc alt o :
  Forall valid_opt opts →
  option_loop opts loc alt o = Run (last_dir loc opts) (alt || has_p opts) (selected o opts).
Proof.
  intros Hv. revert loc alt o. induction Hv as [|x opts Hx _ IH]; intros loc alt [h s l t]; simpl.
  - unfold selected. simpl. by rewrite !orb_false_r.
  - destruct x as [c|dir|c]; simpl in Hx; [| |done].
    + repeat (apply elem_of_cons in Hx as [->|Hx]); [..|by apply not_elem_of_nil in Hx];
        simpl; rewrite IH; unfold selected; simpl; f_equal; f_equal; by rewrite ?orb_true_r, ?orb_assoc.
    + rewrite IH. unfold selected. simpl. by rewrite orb_true_r.
Qed.

(** With options that getopt accepts the sections shown are those asked
    for, -a standing for all of them, in whatever order; all of them when
    no argument is left besides one -p and its directory. The directory
    is that of the last -p. *)
Lemma options_correct argc opts :
  Forall valid_opt opts →
  parse_options argc opts =
  Run (last_dir (lit "/proc") opts) (has_p opts)
      (if decide (argc - (if has_p opts then 2 else 0) ≤ 1)%Z then all_on else selected all_off opts).
Proof.
  intros Hv. unfold parse_options. rewrite option_loop_ok by done. simpl.
  destruct (has_p opts); [done|]. by rewrite Z.sub_0_r.
Qed.

Lemma options_correct_witness :
  parse_options 5 [Flag "r"%char; OptP (lit "/p"); Flag "s"%char] =
  Run (lit "/p") true (MkOpts true true false false).
Proof. rewrite options_correct; [reflexivity|]. repeat constructor; simpl; decide_now. Defined.
(** [inspector -r -p/p]: the directory is not an argument of its own, and all
    sections are shown; [inspector -p /a -p /b]: none is. *)
Example attached_directory : parse_options 3 [Flag "r"%char; OptP (lit "/p")] = Run (lit "/p") true all_on.
Proof. reflexivity. Qed.
Example two_directories : parse_options 5 [OptP (lit "/a"); OptP (lit "/b")] = Run (lit "/b") true all_off.
Proof. reflexivity. Qed.

(** * The task list *)

(** The four words of a row. *)
Record task_info := MkRow { r_threads : cstr; r_name : cstr; r_state : cstr; r_user : cstr }.
Definition show_row (pid : Z) (r : task_info) : cstr :=
  pad_left 5 (print_int pid) ++ lit " | " ++ pad_left 12 (r_state r) ++ lit " | " ++
  pad_left 25 (take 25 (r_name r)) ++ lit " | " ++ pad_left 15 (take 15 (r_user r)) ++ lit " | " ++
  r_threads r ++ lit " ".
(** The variables hold the words of [r]. *)
Definition holds (v : task_vars) (r : task_info) : Prop :=
  v = MkTask (t_buffer v) (r_threads r) (r_name r) (r_state r) (r_user r) ∧
  closed (t_buffer v) ∧ length (t_buffer v) = BIG.

Section tasks.
Context (files : nat → cstr → option cstr) (passwd : Z → option cstr).

(** A status file with the word [w] after [str], for an array of [cap]
    characters. *)
Definition status_has (f : cstr) (str : cstr) (cap : nat) (w : cstr) : Prop :=
  text STATUS_DELIM f ∧ length f < BIG ∧ length (split STATUS_DELIM f) ≤ TRIES ∧
  next_word str 0 (split STATUS_DELIM f) = Some w ∧ length w < cap.
(** The word after an opening: of a file that cannot be opened, the one before. *)
Definition word_at (status : option cstr) (str : cstr) (cap : nat) (old w : cstr) : Prop :=
  match status with Some f => status_has f str cap w | None => w = old end.
Definition user_at (status : option cstr) (old u : cstr) : Prop :=
  match status with
  | Some f => ∃ uid n, status_has f (lit "Uid:") BIG uid ∧ atoi uid = Ok n ∧ passwd n = Some u ∧ length u < 16
  | None => u = old
  end.
(** The row [r'] after the row [r], for the four openings of a status file. *)
Definition status_row (status : nat → option cstr) (r r' : task_info) : Prop :=
  word_at (status 0) (lit "Threads:") 5 (r_threads r) (r_threads r') ∧
  word_at (status 1) (lit "Name:") 200 (r_name r) (r_name r') ∧
  (∃ st, word_at (status 2) (lit "State:") 13 (r_state r) st ∧ r_state r' = state_word st) ∧
  user_at (status 3) (r_user r) (r_user r').

(** The rows of the tasks of a directory. *)
Inductive rows_of : task_info → list (bool * cstr) → list cstr → Prop :=
  | rows_nil r : rows_of r [] []
  | rows_other r e es out : is_task e = false → rows_of r es out → rows_of r (e :: es) out
  | rows_task r b d es out r' pid :
  is_task (b, d) = true → status_row (λ k, files k (d ++ lit "/status")) r r' → atoi d = Ok pid →
  rows_of r' es out → rows_of r ((b, d) :: es) (show_row pid r' :: out).

Lemma status_has_ok f str cap buf w :
  status_has f str cap w → str ≠ lit "NONE" → closed buf → length buf = BIG →
  ∃ buf', file_word cap BIG f buf STATUS_DELIM str 0 = Ok (buf', w) ∧ closed buf' ∧ length buf' = BIG.
Proof.
  intros (Ht & Hl & Hc & Hw & Hcap) Hs Hcl Hb.
  destruct (file_word_ok cap BIG f buf STATUS_DELIM str 0 w) as (buf' & -> & Hc' & Hb'); try done; try lia.
  - decide_now.
  - unfold word_after. by rewrite decide_False.
  - unfold strcpy. rewrite decide_True by done. cbn [mbind outcome_bind]. exists buf'. split_and!; congruence.
Qed.
Lemma status_word_ok status str cap buf old w :
  word_at status str cap old w → str ≠ lit "NONE" → closed buf → length buf = BIG →
  ∃ buf', status_word status str cap buf old = Ok (buf', w) ∧ closed buf' ∧ length buf' = BIG.
Proof. destruct status as [f|]; [apply status_has_ok|]. intros -> _ ? ?. by exists buf. Qed.

Lemma state_word_twice s : state_word (state_word s) = lit "unknown".
Proof. unfold state_word. by repeat destruct (strcmp_eq s _). Qed.

(** One row, whose status file may go away before any of its openings. *)
Lemma task_row_ok d r v r' pid :
  status_row (λ k, files k (d ++ lit "/status")) r r' → atoi d = Ok pid → holds v r →
  ∃ v', task_row files passwd d v = Ok (v', show_row pid r') ∧ holds v' r'.
Proof.
  intros (H1 & H2 & (st & H3 & Hst) & H4) Hp (Hv & Hb & Hlen). rewrite Hv. unfold task_row. cbn [t_buffer t_tasks t_name t_state t_user].
  destruct (status_word_ok _ _ _ (t_buffer v) _ _ H1 ltac:(done) Hb Hlen) as (b1 & -> & C1 & B1). cbn [mbind outcome_bind].
  destruct (status_word_ok _ _ _ b1 _ _ H2 ltac:(done) C1 B1) as (b2 & -> & C2 & B2). cbn [mbind outcome_bind].
  destruct (status_word_ok _ _ _ b2 _ _ H3 ltac:(done) C2 B2) as (b3 & -> & C3 & B3). cbn [mbind outcome_bind].
  rewrite Hp. cbn [mbind outcome_bind]. unfold user_at in H4. destruct (files 3 _) as [f|].
  - destruct H4 as (uid & n & Hu & Hn & Hw & Hl). destruct (status_has_ok _ _ _ b3 _ Hu ltac:(done) C3 B3) as (b4 & -> & C4 & B4).
    cbn [mbind outcome_bind]. rewrite Hn. cbn [mbind outcome_bind]. unfold getUser. rewrite Hw. cbn [mbind outcome_bind require].
    unfold strcpy. rewrite decide_True by done. cbn [mbind outcome_bind].
    exists (MkTask b4 (r_threads r') (r_name r') (state_word st) (r_user r')). unfold show_row. rewrite Hst. split; [done|].
    split_and!; [by rewrite Hst|done|done].
  - cbn [mbind outcome_bind]. rewrite <- H4. exists (MkTask b3 (r_threads r') (r_name r') (state_word st) (r_user r')).
    unfold show_row. rewrite Hst. split; [done|]. split_and!; [by rewrite Hst|done|done].
Qed.

(** The task list has one row for each directory whose name starts with a
    digit, in the order of the directory, with the process number, the name of
    the state, the first word of the name, the user and the number of threads
    that its status file holds, whatever longer file the buffer held before.
    The row of a process that ended meanwhile repeats the one before it, with
    the name of its state looked up as if it were a letter (unknown). *)
Lemma task_rows_ok entries r v out :
  rows_of r entries out → holds v r → task_rows files passwd entries v = Ok out.
Proof.
  intros Hr. revert v. induction Hr as [r|r e es out He _ IH|r b d es out r' pid He Hs Hp _ IH];
    intros v Hv; cbn [task_rows]; [done|rewrite He; by apply IH|rewrite He]; cbn [snd].
  destruct (task_row_ok d r v r' pid Hs Hp Hv) as (v' & -> & Hv'). cbn [mbind outcome_bind].
  by rewrite (IH v' Hv').
Qed.
End tasks.

Definition demo_status : cstr :=
  lit "Name:" ++ ["009"%char] ++ lit "bash" ++ ["010"%char] ++ lit "State:" ++ ["009"%char] ++ lit "S (sleeping)" ++
  ["010"%char] ++ lit "Uid:" ++ ["009"%char] ++ lit "1000" ++ ["010"%char] ++ lit "Threads:" ++ ["009"%char] ++
  lit "1" ++ ["010"%char].
Definition demo_status2 : cstr :=
  lit "Name:" ++ ["009"%char] ++ lit "grep" ++ ["010"%char] ++ lit "State:" ++ ["009"%char] ++ lit "R (sleeping)" ++
  ["010"%char] ++ lit "Uid:" ++ ["009"%char] ++ lit "1000" ++ ["010"%char] ++ lit "Threads:" ++ ["009"%char] ++
  lit "9" ++ ["010"%char].
(** Process 42 is there, 77 ends after its name has been read. *)
Definition demo_proc (k : nat) (path : cstr) : option cstr :=
  if decide (path = lit "42/status") then Some demo_status
  else if decide (path = lit "77/status" ∧ k < 2) then Some demo_status2 else None.
Definition demo_passwd (uid : Z) : option cstr := if decide (uid = 1000)%Z then Some (lit "kevin") else None.
Lemma BIG_large : 200 < BIG ∧ 200 < TRIES.
Proof. split; apply Nat.ltb_lt; vm_compute; reflexivity. Qed.
Lemma demo_status_has f str cap w :
  f = demo_status ∨ f = demo_status2 → next_word str 0 (split STATUS_DELIM f) = Some w → length w < cap → status_has f str cap w.
Proof.
  pose proof BIG_large as [? ?]. intros Hf Hw Hcap.
  assert (length f = 52 ∧ length (split STATUS_DELIM f) = 9 ∧ f = take 51 f ++ ["010"%char]) as (Hl & Hc & Hlast)
    by (destruct Hf as [-> | ->]; split_and!; vm_compute; reflexivity).
  split_and!; [|lia|lia|done|done].
  split; [destruct Hf as [-> | ->]; decide_now|]. exists (take 51 f), "010"%char. split; [exact Hlast|decide_now].
Qed.
Ltac solve_status := apply demo_status_has; [auto|vm_compute; reflexivity|apply Nat.ltb_lt; vm_compute; reflexivity].
Lemma demo_status_row r :
  status_row demo_passwd (λ k, demo_proc k (lit "42/status")) r (MkRow (lit "1") (lit "bash") (lit "sleeping") (lit "kevin")).
Proof.
  split_and!; [solve_status|solve_status|exists (lit "S"); split; [solve_status|reflexivity]|].
  exists (lit "1000"), 1000%Z. split_and!; [solve_status|by vm_compute..|apply Nat.ltb_lt; by vm_compute].
Qed.
Example demo_task_rows :
  task_rows demo_proc demo_passwd [(true, lit "42"); (false, lit "43"); (true, lit "77"); (true, lit "sys")]
    (MkTask (replicate BIG nul) [] [] [] []) =
  Ok [show_row 42 (MkRow (lit "1") (lit "bash") (lit "sleeping") (lit "kevin"));
      show_row 77 (MkRow (lit "9") (lit "grep") (lit "unknown") (lit "kevin"))].
Proof.
  apply (task_rows_ok demo_proc demo_passwd _ (MkRow [] [] [] [])).
  - eapply rows_task; [reflexivity|apply demo_status_row|reflexivity|].
    apply rows_other; [reflexivity|]. eapply rows_task; [reflexivity| |reflexivity|].
    + split_and!; [solve_status|solve_status|exists (lit "sleeping"); split; reflexivity|reflexivity].
    + apply rows_other; [reflexivity|]. apply rows_nil.
  - split_and!; [done| |apply length_replicate]. vm_compute. reflexivity.
Qed.
(** Ten thousand threads do not fit the array of five characters. *)
Example many_threads :
  file_word 5 BIG (lit "Threads: 10000" ++ ["010"%char]) (replicate 30 nul) STATUS_DELIM (lit "Threads:") 0 =
  Undef OutOfBounds.
Proof. vm_compute. reflexivity. Qed.

(** * Readings of stat and meminfo *)
Definition sum (xs : list Z) : Z := foldr Z.add 0%Z xs.

Section readings.
Context (p r : cstr) (nums : list cstr).
Context (Ht : text [" "]%char p) (Hr : nul ∉ r) (Hp : length p < KB).
Context (Hsp : split [" "]%char p = lit "cpu" :: nums).

(** The word [k] places after cpu, for a buffer of the length of [buf]. *)
Lemma cpu_word k w buf :
  nums !! k = Some w → closed buf → length buf = BIG →
  ∃ buf', file_word KB KB (p ++ r) buf [" "]%char (lit "cpu") k = Ok (buf', w) ∧ closed buf' ∧ length buf' = BIG.
Proof.
  intros Hw Hc Hb. pose proof (split_count [" "]%char p) as Hcnt.
  assert (KB < TRIES ∧ KB < BIG) as [? ?] by (split; apply Nat.ltb_lt; vm_compute; reflexivity).
  destruct (file_word_prefix KB KB p r buf [" "]%char (lit "cpu") k w) as (buf' & -> & Hc' & Hb'); try done; try lia.
  - decide_now.
  - rewrite length_take. lia.
  - rewrite Hsp. unfold word_after. rewrite decide_False by done. cbn [next_word].
    rewrite decide_True by done. by rewrite head_lookup, lookup_drop, Nat.add_0_r.
  - unfold strcpy. rewrite decide_True; [cbn [mbind outcome_bind]; exists buf'; split_and!; [done|done|congruence]|].
    assert (length w ≤ length p); [|lia]. apply (split_length [" "]%char). rewrite Hsp.
    apply elem_of_cons. right. by apply list_elem_of_lookup_2 with k.
Qed.

End readings.

(** The number [i] places after cpu in the first blank-separated words of
    stat. *)
Definition stat_number (i : nat) (f : cstr) (x : Z) : Prop :=
  ∃ p r nums w, f = p ++ r ∧ text [" "]%char p ∧ (nul ∉ r) ∧ length p < KB ∧
    split [" "]%char p = lit "cpu" :: nums ∧ nums !! i = Some w ∧ atoi w = Ok x.

Lemma stat_number_ok i f x buf :
  stat_number i f x → closed buf → length buf = BIG →
  ∃ buf' w, file_word KB KB f buf [" "]%char (lit "cpu") i = Ok (buf', w) ∧ atoi w = Ok x ∧ closed buf' ∧ length buf' = BIG.
Proof.
  intros (p & r & nums & w & -> & Ht & Hr & Hp & Hsp & Hw & Ha) Hc Hb.
  destruct (cpu_word p r nums Ht Hr Hp Hsp i w buf Hw Hc Hb) as (b & ? & ? & ?). by exists b, w.
Qed.

(** Openings of stat, [stat i] for its number [i], that give the first numbers
    [xs]; none is below 0, and their sum is an [int]. *)
Definition numbers (stat : nat → option cstr) (xs : list Z) : Prop :=
  (∀ i x, xs !! i = Some x → ∃ f, stat i = Some f ∧ stat_number i f x ∧ (0 ≤ x)%Z) ∧ (sum xs ≤ INT_MAX)%Z.
(** One reading of stat: the sum of the first eight numbers, and the fourth,
    which is read once more. *)
Definition stat_reads (stat : nat → option cstr) (total idle : Z) : Prop :=
  ∃ xs, length xs = 8 ∧ numbers stat xs ∧ total = sum xs ∧
    ∃ f, stat 8 = Some f ∧ stat_number 3 f idle ∧ (0 ≤ idle ≤ INT_MAX)%Z.
(** A reading that comes to an opening that fails. *)
Definition stat_stops (stat : nat → option cstr) : Prop :=
  ∃ xs, length xs ≤ 8 ∧ numbers stat xs ∧ stat (length xs) = None.

Lemma sum_nonneg xs : Forall (λ x, 0 ≤ x)%Z xs → (0 ≤ sum xs)%Z.
Proof. induction 1; simpl; lia. Qed.
Lemma numbers_nonneg stat xs : numbers stat xs → (0 ≤ sum xs)%Z.
Proof. intros [Hx _]. apply sum_nonneg, Forall_lookup_2. intros i x Hi. by destruct (Hx i x Hi) as (f & _ & _ & ?). Qed.

Lemma cpu_times_app stat xs : ∀ m i buf total,
  closed buf → length buf = BIG →
  (∀ j x, xs !! j = Some x → ∃ f, stat (i + j) = Some f ∧ stat_number (i + j) f x ∧ (0 ≤ x)%Z) →
  (0 ≤ total)%Z → (total + sum xs ≤ INT_MAX)%Z →
  ∃ buf', cpu_times (length xs + m) i stat buf total = cpu_times m (i + length xs) stat buf' (total + sum xs)%Z ∧
          closed buf' ∧ length buf' = BIG.
Proof.
  induction xs as [|x xs IH]; intros m i buf total Hc Hb Hx H0 Hmax.
  - exists buf. simpl. by rewrite Nat.add_0_r, Z.add_0_r.
  - assert (∀ j y, xs !! j = Some y → ∃ f, stat (S i + j) = Some f ∧ stat_number (S i + j) f y ∧ (0 ≤ y)%Z) as Hxs.
    { intros j y Hj. rewrite Nat.add_succ_l, <- Nat.add_succ_r. by apply Hx. }
    assert (0 ≤ sum xs)%Z.
    { apply sum_nonneg, Forall_lookup_2. intros j y Hj. by destruct (Hxs j y Hj) as (f & _ & _ & ?). }
    destruct (Hx 0 x eq_refl) as (f & Hf & Hn & Hpos). rewrite Nat.add_0_r in Hf, Hn. simpl in Hmax.
    destruct (stat_number_ok i f x buf Hn Hc Hb) as (b & w & Hw & Ha & Hcb & Hbb).
    cbn [length Nat.add cpu_times]. unfold opened, or_fail. rewrite Hf. cbn [mbind outcome_bind]. rewrite Hw. cbn [mbind outcome_bind].
    rewrite Ha. cbn [mbind outcome_bind]. rewrite int_result_ok by (unfold INT_MIN in *; lia). cbn [mbind outcome_bind].
    destruct (IH m (S i) b (total + x)%Z Hcb Hbb Hxs) as (b' & -> & ? & ?); [lia|lia|].
    exists b'. split; [|done]. simpl. f_equal; lia.
Qed.

Lemma cpu_reading_ok stat total idle buf :
  closed buf → length buf = BIG → stat_reads stat total idle →
  ∃ buf', cpu_reading stat buf = Ok (Some (buf', total, idle)) ∧ closed buf' ∧ length buf' = BIG ∧
          (0 ≤ total ≤ INT_MAX ∧ 0 ≤ idle ≤ INT_MAX)%Z.
Proof.
  intros Hc Hb (xs & H8 & Hnum & -> & f & Hf & Hi & Hidle). pose proof (numbers_nonneg _ _ Hnum). destruct Hnum as [Hx Hmax].
  destruct (cpu_times_app stat xs 0 0 buf 0 Hc Hb Hx) as (b & Ht & Hcb & Hbb); [lia|lia|]. rewrite H8 in Ht. change (8 + 0) with 8 in Ht.
  unfold cpu_reading. rewrite Ht. cbn [cpu_times or_fail mbind outcome_bind].
  unfold opened. rewrite Hf. cbn [or_fail mbind outcome_bind].
  destruct (stat_number_ok 3 f idle b Hi Hcb Hbb) as (b' & w & -> & Ha & ? & ?). cbn [mbind outcome_bind].
  rewrite Ha. cbn [mbind outcome_bind]. exists b'. split_and!; try done; lia.
Qed.
Lemma cpu_reading_stops stat buf :
  closed buf → length buf = BIG → stat_stops stat → cpu_reading stat buf = Ok None.
Proof.
  intros Hc Hb (xs & H8 & [Hx Hmax] & Hnone).
  destruct (cpu_times_app stat xs (8 - length xs) 0 buf 0 Hc Hb Hx) as (b & Ht & Hcb & Hbb); [lia|lia|].
  replace (length xs + (8 - length xs)) with 8 in Ht by lia. unfold cpu_reading. rewrite Ht. simpl (0 + length xs).
  destruct (8 - length xs) as [|m] eqn:Hm; cbn [cpu_times or_fail mbind outcome_bind]; unfold opened.
  - assert (length xs = 8) as Hl by lia. rewrite Hl in Hnone. by rewrite Hnone.
  - by rewrite Hnone.
Qed.

(** The number after the label [w] in meminfo. *)
Definition mem_number (w f : cstr) (n : Z) : Prop :=
  text ["010"; " "]%char f ∧ length f < BIG ∧ length (split ["010"; " "]%char f) ≤ TRIES ∧
  ∃ t, next_word w 0 (split ["010"; " "]%char f) = Some t ∧ atoi t = Ok n.
(** Openings of meminfo that give the numbers after the first labels. *)
Definition mem_numbers_at (mem : nat → option cstr) (ns : list Z) : Prop :=
  ∀ i w n, MEM_WORDS !! i = Some w → ns !! i = Some n → ∃ f, mem i = Some f ∧ mem_number w f n.
Definition mem_reads (mem : nat → option cstr) (ns : list Z) : Prop :=
  length ns = length MEM_WORDS ∧ mem_numbers_at mem ns.
Definition mem_stops (mem : nat → option cstr) : Prop :=
  ∃ ns, length ns < length MEM_WORDS ∧ mem_numbers_at mem ns ∧ mem (length ns) = None.

Lemma mem_word_ok w f n buf :
  w ≠ lit "NONE" → mem_number w f n → closed buf → length buf = BIG →
  ∃ buf' t, file_word BIG BIG f buf ["010"; " "]%char w 0 = Ok (buf', t) ∧ atoi t = Ok n ∧ closed buf' ∧ length buf' = BIG.
Proof.
  intros Hnone (Ht & Hl & Htr & t & Hw & Ha) Hc Hb.
  destruct (file_word_ok BIG BIG f buf ["010"; " "]%char w 0 t) as (b & -> & Hcb & Hbb); try done; try lia.
  - decide_now.
  - unfold word_after. by rewrite decide_False.
  - exists b, t. unfold strcpy. rewrite decide_True; [split_and!; [done|done|done|congruence]|].
    assert (length t ≤ length f); [|lia]. apply (split_length ["010"; " "]%char).
    apply next_word_split in Hw as (l1 & l2 & -> & _ & Hh). apply elem_of_app. right.
    apply elem_of_cons. right. destruct l2; simplify_eq/=. apply elem_of_cons. by left.
Qed.

Lemma mem_numbers_app mem ns : ∀ words i buf,
  closed buf → length buf = BIG → Forall (λ w, w ≠ lit "NONE") words → length ns ≤ length words →
  (∀ j w n, words !! j = Some w → ns !! j = Some n → ∃ f, mem (i + j) = Some f ∧ mem_number w f n) →
  ∃ buf', mem_numbers words i mem buf =
      or_fail (mem_numbers (drop (length ns) words) (i + length ns) mem buf') (λ '(b, rest), Ok (Some (b, ns ++ rest))) ∧
    closed buf' ∧ length buf' = BIG.
Proof.
  induction ns as [|n ns IH]; intros words i buf Hc Hb Hnone Hlen Hw.
  - exists buf. split; [|done]. rewrite Nat.add_0_r, drop_0. by destruct (mem_numbers words i mem buf) as [[[b l]|]| |].
  - destruct words as [|w words]; [simpl in Hlen; lia|]. apply Forall_cons in Hnone as [Hn0 Hnone].
    destruct (Hw 0 w n eq_refl eq_refl) as (f & Hf & Hn). rewrite Nat.add_0_r in Hf.
    destruct (mem_word_ok w f n buf Hn0 Hn Hc Hb) as (b & t & Hr & Ha & Hcb & Hbb).
    destruct (IH words (S i) b Hcb Hbb Hnone) as (b' & Hm & ? & ?); [simpl in Hlen; lia| |].
    { intros j w' n' Hj Hj'. rewrite Nat.add_succ_l, <- Nat.add_succ_r. by apply Hw. }
    exists b'. split; [|done]. cbn [mem_numbers]. unfold opened. rewrite Hf. cbn [or_fail mbind outcome_bind]. rewrite Hr.
    cbn [mbind outcome_bind]. rewrite Ha. cbn [mbind outcome_bind length drop]. rewrite Hm, Nat.add_succ_r.
    by destruct (mem_numbers (drop (length ns) words) _ mem b') as [[[c l]|]| |].
Qed.

Lemma mem_words_named : Forall (λ w, w ≠ lit "NONE") MEM_WORDS.
Proof. repeat constructor; done. Qed.
Lemma mem_numbers_ok mem ns buf :
  closed buf → length buf = BIG → mem_reads mem ns →
  ∃ buf', mem_numbers MEM_WORDS 0 mem buf = Ok (Some (buf', ns)) ∧ closed buf' ∧ length buf' = BIG.
Proof.
  intros Hc Hb [Hl Hns]. destruct (mem_numbers_app mem ns MEM_WORDS 0 buf Hc Hb mem_words_named) as (b & -> & ? & ?); [lia|exact Hns|].
  rewrite Hl, drop_all. exists b. cbn [mem_numbers or_fail mbind outcome_bind]. by rewrite app_nil_r.
Qed.
Lemma mem_numbers_stops mem buf :
  closed buf → length buf = BIG → mem_stops mem → mem_numbers MEM_WORDS 0 mem buf = Ok None.
Proof.
  intros Hc Hb (ns & Hl & Hns & Hnone).
  destruct (mem_numbers_app mem ns MEM_WORDS 0 buf Hc Hb mem_words_named) as (b & -> & _); [lia|exact Hns|].
  destruct (drop (length ns) MEM_WORDS) as [|w ws] eqn:Hd.
  - apply (f_equal length) in Hd. rewrite length_drop in Hd. simpl in Hd, Hl. lia.
  - cbn [mem_numbers Nat.add]. by rewrite Hnone.
Qed.

(** The model name in cpuinfo, after a colon and a blank. *)
Definition model_reads (f name : cstr) : Prop :=
  ∃ p r t, f = p ++ r ∧ text ["009"; "010"]%char p ∧ (nul ∉ r) ∧ length p < KB ∧
    next_word (lit "model name") 0 (split ["009"; "010"]%char p) = Some t ∧ 2 ≤ length t ∧ name = drop 2 t.
Definition avg_reads (f avg : cstr) : Prop :=
  text NL f ∧ length f < BIG ∧ head (split NL f) = Some avg.

Lemma string_at_drop k buf p t : string_at buf p = Ok t → k ≤ length t → string_at buf (p + k) = Ok (drop k t).
Proof.
  revert p t. induction k as [|k IH]; intros p t Hs Hk; [by rewrite Nat.add_0_r|].
  rewrite Nat.add_succ_r, <- Nat.add_succ_l. destruct t as [|c t]; simpl in Hk; [lia|]. cbn [drop].
  apply IH; [|lia]. unfold string_at in *. rewrite <- Nat.add_1_r, <- drop_drop.
  destruct (drop p buf) as [|d m]; [done|]. simpl in Hs. case_decide; [done|].
  destruct (c_string m) eqn:Hm; [|done..]. by injection Hs as _ ->.
Qed.

Lemma first_word_ok f w buf :
  closed buf → length buf = BIG → text NL f → length f < BIG → head (split NL f) = Some w →
  ∃ buf', file_word BIG BIG f buf NL (lit "NONE") 0 = Ok (buf', w) ∧ closed buf' ∧ length buf' = BIG.
Proof.
  intros Hc Hb Ht Hl Hw.
  destruct (get_first BIG f buf NL w) as (buf' & q & Hr & Hq & Hc' & Hb'); try done; try lia; [decide_now|].
  exists buf'. unfold file_word. rewrite Hr. cbn [mbind outcome_bind require]. rewrite Hq. cbn [mbind outcome_bind].
  unfold strcpy. rewrite decide_True; [split_and!; [done|done|congruence]|].
  assert (length w ≤ length f); [|lia]. apply (split_length NL). destruct (split NL f); simplify_eq/=.
  apply elem_of_cons. by left.
Qed.

Lemma cpu_model_ok f name buf :
  closed buf → length buf = BIG → model_reads f name →
  ∃ buf', cpu_model f buf = Ok (buf', name) ∧ closed buf' ∧ length buf' = BIG.
Proof.
  intros Hc Hb (p & r & t & -> & Ht & Hr & Hp & Hw & H2 & ->). unfold cpu_model.
  assert (KB < TRIES ∧ KB < BIG) as [? ?] by (split; apply Nat.ltb_lt; vm_compute; reflexivity).
  pose proof (split_count ["009"; "010"]%char p) as Hcnt.
  assert (length t ≤ length p) as Hlt.
  { apply (split_length ["009"; "010"]%char). apply next_word_split in Hw as (l1 & l2 & -> & _ & Hh).
    apply elem_of_app. right. apply elem_of_cons. right. destruct l2; simplify_eq/=. apply elem_of_cons. by left. }
  destruct (get_next_prefix KB p r buf ["009"; "010"]%char (lit "model name") 0 t)
    as (buf' & q & -> & Hq & Hcl & Hl); try done; try lia; [decide_now|rewrite length_take; lia|].
  cbn [mbind outcome_bind require]. rewrite (string_at_drop 2 _ _ _ Hq) by done. cbn [mbind outcome_bind].
  unfold strcpy. rewrite decide_True by (rewrite length_drop; lia). cbn [mbind outcome_bind].
  exists buf'. split_and!; [done|done|congruence].
Qed.

(** The name of the model, empty when there is no cpuinfo. *)
Definition cpu_named (f : option cstr) (name : cstr) : Prop :=
  match f with Some ci => model_reads ci name | None => name = [] end.

Section hardware.
Context (files : nat → cstr → option cstr) (buf : cstr) (Hc : closed buf) (Hb : length buf = BIG).

(** The first three files: the model name without the colon and blank before
    it, the number of processor lines of stat but the first, and the first
    line of loadavg. *)
Definition first_files (name : cstr) (n : Z) (avg : cstr) : Prop :=
  cpu_named (files 0 (lit "cpuinfo")) name ∧
  (∃ f, files 1 (lit "stat") = Some f ∧ stat_units f n) ∧ ∃ f, files 2 (lit "loadavg") = Some f ∧ avg_reads f avg.
Definition stat_before (i : nat) : option cstr := files (3 + i) (lit "stat").
Definition stat_after (i : nat) : option cstr := files (12 + i) (lit "stat").
Definition meminfo (i : nat) : option cstr := files (21 + i) (lit "meminfo").

Lemma cpu_named_ok f name :
  cpu_named f name →
  ∃ buf', (match f with Some f => cpu_model f buf | None => Ok (buf, []) end) = Ok (buf', name) ∧
  closed buf' ∧ length buf' = BIG.
Proof. destruct f as [f|]; simpl; [by apply cpu_model_ok|intros ->; by exists buf]. Qed.

Lemma hardware_start name n avg :
  first_files name n avg →
  ∃ buf', closed buf' ∧ length buf' = BIG ∧
  hardware_section files buf =
  or_fail (cpu_reading stat_before buf') (λ '(buf, prevTotal, prevIdle),
    or_fail (cpu_reading stat_after buf) (λ '(buf, currTotal, currIdle),
      dIdle ← int_result (currIdle - prevIdle);
      dTotal ← int_result (currTotal - prevTotal);
      or_fail (mem_numbers MEM_WORDS 0 meminfo buf) (λ '(buf, ns),
        Ok (Some (buf, MkHardware name (print_int n) (take 15 avg) dTotal dIdle ns))))).
Proof.
  intros (Hci & (f & Hf & Hu) & la & Hla & Hat & Hal & Ha). unfold hardware_section.
  destruct (cpu_named_ok _ _ Hci) as (b1 & -> & C1 & B1). cbn [mbind outcome_bind]. unfold opened.
  rewrite Hf. cbn [or_fail mbind outcome_bind]. destruct (processing_units_ok f b1 n C1 B1 Hu) as (b2 & -> & C2 & B2). cbn [mbind outcome_bind].
  rewrite Hla. cbn [or_fail mbind outcome_bind]. destruct (first_word_ok la avg b2 C2 B2 Hat Hal Ha) as (b3 & -> & C3 & B3).
  by exists b3.
Qed.

(** The whole section: with the first 15 characters of loadavg's line, the
    differences of the total and idle times between the two readings of stat,
    and the five numbers of meminfo. *)
Lemma hardware_section_reads name n avg t1 i1 t2 i2 ns :
  first_files name n avg → stat_reads stat_before t1 i1 → stat_reads stat_after t2 i2 → mem_reads meminfo ns →
  ∃ buf', hardware_section files buf =
  Ok (Some (buf', MkHardware name (print_int n) (take 15 avg) (t2 - t1) (i2 - i1) ns)) ∧
  closed buf' ∧ length buf' = BIG.
Proof.
  intros Hfst Hr1 Hr2 Hm. destruct (hardware_start _ _ _ Hfst) as (b3 & C3 & B3 & ->).
  destruct (cpu_reading_ok stat_before t1 i1 b3 C3 B3 Hr1) as (b4 & -> & C4 & B4 & T1 & I1). cbn [or_fail mbind outcome_bind].
  destruct (cpu_reading_ok stat_after t2 i2 b4 C4 B4 Hr2) as (b5 & -> & C5 & B5 & T2 & I2). cbn [or_fail mbind outcome_bind].
  rewrite !int_result_ok by (unfold INT_MIN, INT_MAX in *; lia). cbn [mbind outcome_bind].
  destruct (mem_numbers_ok meminfo ns b5 C5 B5 Hm) as (b6 & -> & ? & ?). by exists b6.
Qed.

(** The section gives up where a file it needs cannot be opened; it does
    without cpuinfo. *)
Inductive hardware_stops : Prop :=
  | no_stat name : cpu_named (files 0 (lit "cpuinfo")) name → files 1 (lit "stat") = None → hardware_stops
  | no_loadavg name f n :
  cpu_named (files 0 (lit "cpuinfo")) name → files 1 (lit "stat") = Some f → stat_units f n →
  files 2 (lit "loadavg") = None → hardware_stops
  | no_stat_before name n avg : first_files name n avg → stat_stops stat_before → hardware_stops
  | no_stat_after name n avg t i :
  first_files name n avg → stat_reads stat_before t i → stat_stops stat_after → hardware_stops
  | no_meminfo name n avg t1 i1 t2 i2 :
  first_files name n avg → stat_reads stat_before t1 i1 → stat_reads stat_after t2 i2 → mem_stops meminfo →
  hardware_stops.

Lemma hardware_section_stops : hardware_stops → hardware_section files buf = Ok None.
Proof.
  intros [name Hci Hst|name f n Hci Hf Hu Hla|name n avg H1 Hs|name n avg t i H1 Hr Hs|name n avg t1 i1 t2 i2 H1 Hr1 Hr2 Hs].
  - unfold hardware_section. destruct (cpu_named_ok _ _ Hci) as (b1 & -> & _). cbn [mbind outcome_bind]. by rewrite Hst.
  - unfold hardware_section. destruct (cpu_named_ok _ _ Hci) as (b1 & -> & C1 & B1). cbn [mbind outcome_bind]. unfold opened.
    rewrite Hf. cbn [or_fail mbind outcome_bind]. destruct (processing_units_ok f b1 n C1 B1 Hu) as (b2 & -> & _). cbn [mbind outcome_bind]. by rewrite Hla.
  - destruct (hardware_start _ _ _ H1) as (b3 & C3 & B3 & ->). by rewrite cpu_reading_stops.
  - destruct (hardware_start _ _ _ H1) as (b3 & C3 & B3 & ->).
    destruct (cpu_reading_ok _ _ _ b3 C3 B3 Hr) as (b4 & -> & C4 & B4 & _). cbn [or_fail mbind outcome_bind]. by rewrite cpu_reading_stops.
  - destruct (hardware_start _ _ _ H1) as (b3 & C3 & B3 & ->).
    destruct (cpu_reading_ok _ _ _ b3 C3 B3 Hr1) as (b4 & -> & C4 & B4 & T1 & I1). cbn [or_fail mbind outcome_bind].
    destruct (cpu_reading_ok _ _ _ b4 C4 B4 Hr2) as (b5 & -> & C5 & B5 & T2 & I2). cbn [or_fail mbind outcome_bind].
    rewrite !int_result_ok by (unfold INT_MIN, INT_MAX in *; lia). cbn [mbind outcome_bind]. by rewrite mem_numbers_stops.
Qed.
End hardware.

Definition demo_cpuinfo : cstr := lit "model name" ++ ["009"%char] ++ lit ": Xeon" ++ NL.
Definition demo_stat1 : cstr :=
  lit "cpu  1 2 3 4 5 6 7 8 0" ++ NL ++ lit "cpu0 1 2 3 4 5 6 7 8" ++ NL ++ lit "intr 5" ++ NL.
Definition demo_stat2 : cstr :=
  lit "cpu  1 2 3 9 5 6 7 8 0" ++ NL ++ lit "cpu0 1 2 3 9 5 6 7 8" ++ NL ++ lit "intr 5" ++ NL.
Definition demo_mem : cstr :=
  lit "MemTotal: 50" ++ NL ++ lit "MemFree: 20" ++ NL ++ lit "Buffers: 3" ++ NL ++ lit "Cached: 4" ++ NL ++
  lit "SwapCached: 5" ++ NL.
(** The files up to the second of sleep, the section's first 12 openings, and
    after it. *)
Definition demo_files (k : nat) (path : cstr) : option cstr :=
  if decide (path = lit "cpuinfo") then Some demo_cpuinfo
  else if decide (path = lit "stat") then Some (if decide (k < 12) then demo_stat1 else demo_stat2)
  else if decide (path = lit "loadavg") then Some (lit "0.10 0.20 0.30 1/200" ++ NL)
  else if decide (path = lit "meminfo") then Some demo_mem else None.

Lemma text_take sep f n d : forallb (λ c, bool_decide (c ≠ nul)) f = true → f = take n f ++ [d] → d ∈ sep → text sep f.
Proof.
  intros Hn Hf Hd. split; [|by exists (take n f), d]. intros Hin. rewrite forallb_forall in Hn.
  apply list_elem_of_In, Hn, bool_decide_eq_true in Hin. done.
Qed.
Lemma demo_sizes : 200 < BIG ∧ 200 < KB ∧ 200 < TRIES.
Proof. split_and!; apply Nat.ltb_lt; vm_compute; reflexivity. Qed.

(** A stat line with the fourth number [w], when each opening gives [f]. *)
Lemma demo_stat_reads stat idle w f :
  (∀ i, i < 9 → stat i = Some f) →
  f = lit "cpu  1 2 3 " ++ w ++ lit " 5 6 7 8 " ++ drop 21 f → length w < 5 →
  forallb (λ c, bool_decide (c ≠ nul)) f = true →
  split [" "]%char (lit "cpu  1 2 3 " ++ w ++ lit " 5 6 7 8 ") = lit "cpu" :: [lit "1"; lit "2"; lit "3"; w; lit "5"; lit "6"; lit "7"; lit "8"] →
  atoi w = Ok idle → (0 ≤ idle < 1000)%Z → stat_reads stat (32 + idle) idle.
Proof.
  pose proof demo_sizes as (_ & HK & _). intros Hstat Hf Hw Hn Hs Ha Hi.
  set (p := lit "cpu  1 2 3 " ++ w ++ lit " 5 6 7 8 ") in *. rewrite !app_assoc in Hf. rewrite <- !app_assoc in Hf.
  assert (f = p ++ drop 21 f) as Hf' by (unfold p; by rewrite <- !app_assoc).
  rewrite Hf', forallb_app in Hn. apply andb_true_iff in Hn as [Hn1 Hn2].
  assert (length p < 200) as Hl by (unfold p; rewrite !length_app; simpl; lia).
  assert (∀ i v x, [lit "1"; lit "2"; lit "3"; w; lit "5"; lit "6"; lit "7"; lit "8"] !! i = Some v → atoi v = Ok x → stat_number i f x) as Hnum.
  { intros i v x Hv Hx. exists p, (drop 21 f), [lit "1"; lit "2"; lit "3"; w; lit "5"; lit "6"; lit "7"; lit "8"], v.
    split_and!; try done.
    - split.
      + intros Hin. rewrite forallb_forall in Hn1. apply list_elem_of_In, Hn1, bool_decide_eq_true in Hin. done.
      + exists (lit "cpu  1 2 3 " ++ w ++ lit " 5 6 7 8"), " "%char. split; [|decide_now].
        unfold p. by rewrite <- !app_assoc.
    - intros Hin. rewrite forallb_forall in Hn2. apply list_elem_of_In, Hn2, bool_decide_eq_true in Hin. done.
    - clear -Hl HK. lia. }
  exists [1; 2; 3; idle; 5; 6; 7; 8]%Z. split_and!; [done| |simpl; lia|].
  - split; [|unfold INT_MAX; simpl; lia]. intros i x Hx. exists f. split; [apply Hstat; apply lookup_lt_Some in Hx; simpl in Hx; lia|].
    destruct i as [|[|[|[|[|[|[|[|i]]]]]]]]; [..|done]; injection Hx as <-;
      (split; [eapply Hnum; [reflexivity|first [exact Ha|vm_compute; reflexivity]]|lia]).
  - exists f. split_and!; [apply Hstat; lia|by apply (Hnum 3 w)|lia|unfold INT_MAX; lia].
Qed.

Lemma demo_stat_units : stat_units demo_stat1 1.
Proof.
  pose proof demo_sizes as (HB & _ & _). unfold stat_units. split_and!.
  - apply (text_take _ _ 50 "010"%char); [vm_compute; reflexivity|vm_compute; reflexivity|decide_now].
  - transitivity 200; [apply Nat.ltb_lt; vm_compute; reflexivity|exact HB].
  - reflexivity.
  - exists [lit "cpu  1 2 3 4 5 6 7 8 0"; lit "cpu0 1 2 3 4 5 6 7 8"], (lit "intr 5"), [].
    split_and!; try done; try (vm_compute; reflexivity). repeat constructor.
Qed.

Lemma demo_mem_reads mem : (∀ i, mem i = Some demo_mem) → mem_reads mem [50; 20; 3; 4; 5]%Z.
Proof.
  pose proof demo_sizes as (HB & _ & HT). intros Hm. split; [done|]. intros i w n Hw Hn. exists demo_mem. split; [done|].
  unfold mem_number. split_and!.
  - apply (text_take _ _ 59 "010"%char); [vm_compute; reflexivity|vm_compute; reflexivity|decide_now].
  - transitivity 200; [apply Nat.ltb_lt; vm_compute; reflexivity|exact HB].
  - transitivity 200; [apply Nat.leb_le; vm_compute; reflexivity|apply Nat.lt_le_incl, HT].
  - unfold MEM_WORDS in Hw.
    destruct i as [|[|[|[|[|i]]]]]; [..|done]; injection Hw as <-; injection Hn as <-;
      [exists (lit "50")|exists (lit "20")|exists (lit "3")|exists (lit "4")|exists (lit "5")];
      (split; vm_compute; reflexivity).
Qed.
