(* ===== verification/InspectorFloat.v ===== *)
(** What the hardware section of the inspector prints (Project1/inspector.c):
    the percentages it computes in floating point from the numbers of
    [Inspector.hardware_section], and their progress bars. *)
From Stdlib Require Import ZArith Lia Ascii SpecFloat.
From stdpp Require Import prelude strings numbers list.
From S2P Require Import Prelude CString CFloat Tokenizer Inspector InspectorSpec.
Open Scope Z_scope.
Import CInt.

(** * Values *)
Lemma top_eq : TOP = 16777216.
Proof. done. Qed.

Lemma cpu_near dT dI : 0 ≤ dT → 100 * dT < TOP → 0 ≤ dI → dI + 5 < TOP → near 0 (100 * dT) (cpuUsage dT dI).
Proof.
  intros. pose proof top_eq. unfold cpuUsage.
  assert (near 0 dT (fdiv (of_int dT) (fadd (of_int dI) (of_int 5)))) as Hq.
  { apply (fdiv_near dT (dI + 5)); [lia|lia|lia|nia| |].
    - apply (near_weaken dT dT); [lia|lia|apply of_int_near; lia].
    - apply fadd_near; [lia|lia|lia|apply of_int_near; lia|apply of_int_near; lia]. }
  apply (fdiv_near (100 * dT) 10); [lia|lia|lia|lia| |apply of_int_near; lia].
  apply fmul_near; [lia|lia|lia|apply of_int_near; lia|done].
Qed.

Lemma used_near t f b c s :
  0 ≤ f → 0 ≤ b → 0 ≤ c → 0 ≤ s → f + b + c + s ≤ t → t < TOP →
  ∃ u, usedMemory t f b c s = Ok u ∧ near (t - (f + b + c + s)) (t - (f + b + c + s)) u.
Proof.
  intros. pose proof top_eq. unfold usedMemory.
  repeat (rewrite int_result_ok by (unfold INT_MIN, INT_MAX; lia); cbn [mbind outcome_bind]).
  eexists. split; [done|]. apply fsub_near; [lia|lia|apply of_int_near; lia..].
Qed.
Lemma per_near u t used : 0 ≤ u ≤ t → 0 < t < TOP → near u u used → near 0 100 (memoryPer used t).
Proof.
  intros Hu Ht Hn. pose proof top_eq. unfold memoryPer. change 100 with (100 * 1) at 1.
  apply fmul_near; [lia|lia|lia|apply of_int_near; lia|].
  apply (fdiv_near t t); [lia|lia|lia|lia|apply (near_weaken u u); (lia || done)|apply of_int_near; lia].
Qed.

(** Division by zero ends in the conversion of an infinity or a NaN. *)
Lemma bar_of_zero used : bar (memoryPer used 0) = Undef IntOverflow.
Proof. destruct used as [s|s| |s m e]; try destruct s; by vm_compute. Qed.

(** * The section *)
Definition hardware_reads (files : nat → cstr → option cstr) (name : cstr) (n : Z) (avg : cstr) (dT dI : Z) (ns : list Z) : Prop :=
  ∃ avg1 t1 i1 t2 i2, first_files files name n avg1 ∧ avg = take 15 avg1 ∧
    stat_reads (stat_before files) t1 i1 ∧ stat_reads (stat_after files) t2 i2 ∧ dT = t2 - t1 ∧ dI = i2 - i1 ∧
    mem_reads (meminfo files) ns.

(** What is printed of the numbers. *)
Definition marks (p : float) : Z := match float_to_int (fdiv p (of_int 5)) with Ok n => n | _ => 0 end.
Definition hardware_shown (name : cstr) (n : Z) (avg : cstr) (dT dI t others : Z) : list cstr :=
  let cpu := cpuUsage dT dI in
  let used := fsub (of_int t) (of_int others) in
  let per := memoryPer used t in
  [[]; lit "Hardware Information"; lit "--------------------";
   lit "CPU Model: " ++ name; lit "Processing Units: " ++ print_int n;
   lit "Load Average (1/5/15 min):  " ++ avg;
   lit "CPU Usage:    " ++ printProgress (marks cpu) progressRange ++ print_float 1 cpu ++ lit "%";
   lit "Memory Usage: " ++ printProgress (marks per) progressRange ++ print_float 1 per ++ lit "% (" ++
     print_float 1 (fdiv used (of_int 1000000)) ++ lit " GB / 1.0 GB)"].

(** Counters that did not go back, and numbers that a [float] holds. *)
Record in_float (dT dI t f b c s : Z) : Prop := {
  if_total : 0 ≤ dT ∧ 100 * dT < TOP;
  if_idle : 0 ≤ dI ∧ dI + 5 < TOP;
  if_free : 0 ≤ f; if_buffers : 0 ≤ b; if_cached : 0 ≤ c; if_swap : 0 ≤ s;
  if_mem : f + b + c + s ≤ t < TOP
}.

Lemma bar_marks p B :
  0 ≤ B → 5 * B < TOP → near 0 (5 * B) p → bar p = Ok (printProgress (marks p) progressRange) ∧ 0 ≤ marks p ≤ B.
Proof.
  intros HB HT Hp. pose proof top_eq. unfold bar, marks. destruct (float_to_int_near 0 B (fdiv p (of_int 5))) as (n & -> & ?); [lia|lia| |done].
  apply (fdiv_near (5 * B) 5); [lia|lia|lia|lia|done|apply of_int_near; lia].
Qed.

Lemma hardware_lines_ok name n avg dT dI t f b c s :
  in_float dT dI t f b c s →
  let cpu := cpuUsage dT dI in
  let used := fsub (of_int t) (of_int (f + b + c + s)) in
  (hardware_lines (MkHardware name (print_int n) avg dT dI [t; f; b; c; s]) =
    if decide (t = 0) then Undef IntOverflow else Ok (hardware_shown name n avg dT dI t (f + b + c + s))) ∧
  near 0 (100 * dT) cpu ∧ 0 ≤ marks cpu ≤ 20 * dT ∧
  near (t - (f + b + c + s)) (t - (f + b + c + s)) used ∧
  (t ≠ 0 → near 0 100 (memoryPer used t) ∧ 0 ≤ marks (memoryPer used t) ≤ 20).
Proof.
  intros [[HT HT'] [HI HI'] Hf Hb Hc Hs [Hle Ht]] cpu used. pose proof top_eq.
  destruct (used_near t f b c s) as (u & Hu & Hn); [done..|].
  assert (u = used) as ->.
  { unfold usedMemory in Hu. repeat (rewrite int_result_ok in Hu by (unfold INT_MIN, INT_MAX; lia); cbn [mbind outcome_bind] in Hu).
    by injection Hu as <-. }
  pose proof (cpu_near dT dI HT HT' HI HI') as Hcpu. fold cpu in Hcpu.
  destruct (bar_marks cpu (20 * dT)) as [Hbar Hm]; [lia|lia|by replace (5 * (20 * dT)) with (100 * dT) by lia|].
  assert (t ≠ 0 → near 0 100 (memoryPer used t)) as Hper by (intros; eapply per_near; [|lia|exact Hn]; lia).
  assert (t ≠ 0 → 0 ≤ marks (memoryPer used t) ≤ 20) as Hpm by (intros Hz; by destruct (bar_marks _ 20 ltac:(lia) ltac:(lia) (Hper Hz))).
  split; [|split_and!; [done|lia|lia|done|auto]].
  unfold hardware_lines. cbn [mem diffTotal diffIdle cpuname cores loadavg]. rewrite Hu. cbn [mbind outcome_bind].
  fold cpu. rewrite Hbar. cbn [mbind outcome_bind]. case_decide as Hz; [subst t; by rewrite bar_of_zero|].
  destruct (bar_marks (memoryPer used t) 20 ltac:(lia) ltac:(lia) (Hper Hz)) as [-> _]. done.
Qed.

Lemma hardware_read files buf name n avg dT dI ns :
  closed buf → length buf = BIG → hardware_reads files name n avg dT dI ns →
  ∃ buf', hardware_section files buf = Ok (Some (buf', MkHardware name (print_int n) avg dT dI ns)) ∧
    closed buf' ∧ length buf' = BIG.
Proof.
  intros Hc Hb (avg1 & t1 & i1 & t2 & i2 & ? & -> & ? & ? & -> & -> & ?).
  by apply (hardware_section_reads files buf Hc Hb name n avg1 t1 i1 t2 i2 ns).
Qed.

(** C22: the hardware section on files of the form those of /proc have, which
    may change from each opening to the next (without cpuinfo the name of the
    model is empty), for counters that did not go back and numbers that a [float] holds: it prints
    the model name, the processors, the load and two percentages; the used
    memory is exactly the total less the free, buffered and cached memory, its
    percentage is between 0 and 100 and its bar has at most 20 marks; the
    processor's is not bounded by 100. Without memory it divides by zero and
    converts what it gets to an [int], which is undefined. *)
Theorem hardware_report_correct files buf name n avg dT dI t f b c s :
  closed buf → length buf = BIG → hardware_reads files name n avg dT dI [t; f; b; c; s] →
  in_float dT dI t f b c s →
  ∃ buf' h, hardware_section files buf = Ok (Some (buf', h)) ∧
    if decide (t = 0) then hardware_lines h = Undef IntOverflow
    else
      let cpu := cpuUsage dT dI in
      let used := fsub (of_int t) (of_int (f + b + c + s)) in
      let per := memoryPer used t in
      hardware_lines h = Ok (hardware_shown name n avg dT dI t (f + b + c + s)) ∧
      near (t - (f + b + c + s)) (t - (f + b + c + s)) used ∧ near 0 100 per ∧ 0 ≤ marks per ≤ 20 ∧
      near 0 (100 * dT) cpu ∧ 0 ≤ marks cpu ≤ 20 * dT.
Proof.
  intros Hc Hb Hr Hin. destruct (hardware_read files buf name n avg dT dI _ Hc Hb Hr) as (buf' & -> & _).
  eexists buf', _. split; [done|]. destruct (hardware_lines_ok name n avg dT dI t f b c s Hin) as (-> & ? & ? & ? & Hm).
  case_decide as Hz; [done|]. destruct (Hm Hz). done.
Qed.

(** * At concrete files *)
Lemma demo_hardware_reads :
  hardware_reads demo_files (lit "Xeon") 1 (lit "0.10 0.20 0.30 ") 5 5 [50; 20; 3; 4; 5].
Proof.
  pose proof demo_sizes as (HB & HK & _).
  exists (lit "0.10 0.20 0.30 1/200"), 36, 4, 41, 9.
  split_and!; try reflexivity.
  - split_and!.
    + exists demo_cpuinfo, [], (lit ": Xeon"). split_and!; try (vm_compute; reflexivity).
      * apply (text_take _ _ 17 "010"%char); [vm_compute; reflexivity|vm_compute; reflexivity|decide_now].
      * apply not_elem_of_nil.
      * transitivity 200%nat; [apply Nat.ltb_lt; vm_compute; reflexivity|exact HK].
      * apply Nat.leb_le; vm_compute; reflexivity.
    + exists demo_stat1. split; [reflexivity|apply demo_stat_units].
    + exists (lit "0.10 0.20 0.30 1/200" ++ NL). split; [reflexivity|]. unfold avg_reads. split_and!.
      * apply (text_take _ _ 20 "010"%char); [vm_compute; reflexivity|vm_compute; reflexivity|decide_now].
      * transitivity 200%nat; [apply Nat.ltb_lt; vm_compute; reflexivity|exact HB].
      * vm_compute; reflexivity.
  - apply (demo_stat_reads _ 4 (lit "4") demo_stat1); [|vm_compute; reflexivity|simpl; lia|vm_compute; reflexivity..|lia].
    intros i Hi. unfold stat_before, demo_files. rewrite !decide_False by done. rewrite decide_True by done.
    by rewrite decide_True by lia.
  - apply (demo_stat_reads _ 9 (lit "9") demo_stat2); [|vm_compute; reflexivity|simpl; lia|vm_compute; reflexivity..|lia].
    intros i Hi. unfold stat_after, demo_files. rewrite !decide_False by done. rewrite decide_True by done.
    by rewrite decide_False by lia.
  - apply demo_mem_reads. reflexivity.
Qed.

Lemma hardware_report_correct_witness :
  ∃ buf' h, hardware_section demo_files (replicate BIG nul) = Ok (Some (buf', h)) ∧
    let cpu := cpuUsage 5 5 in
    let used := fsub (of_int 50) (of_int 32) in
    let per := memoryPer used 50 in
    hardware_lines h = Ok (hardware_shown (lit "Xeon") 1 (lit "0.10 0.20 0.30 ") 5 5 50 32) ∧
    near 18 18 used ∧ near 0 100 per ∧ 0 ≤ marks per ≤ 20 ∧ near 0 500 cpu ∧ 0 ≤ marks cpu ≤ 100.
Proof.
  apply (hardware_report_correct demo_files (replicate BIG nul) (lit "Xeon") 1 (lit "0.10 0.20 0.30 ") 5 5 50 20 3 4 5);
    [done|done|exact demo_hardware_reads|split; done].
Defined.
Example demo_shown :
  hardware_shown (lit "Xeon") 1 (lit "0.10 0.20 0.30 ") 5 5 50 32 = map lit
    [""; "Hardware Information"; "--------------------"; "CPU Model: Xeon"; "Processing Units: 1";
     "Load Average (1/5/15 min):  0.10 0.20 0.30 ";
     "CPU Usage:    [#-------------------] 5.0%";
     "Memory Usage: [#######-------------] 36.0% (0.0 GB / 1.0 GB)"].
Proof. by vm_compute. Qed.

(** One idle processor, and four busy ones. *)
Example idle_processor : print_float 1 (cpuUsage 100 100) = lit "9.5".
Proof. by vm_compute. Qed.
Example busy_processors : print_float 1 (cpuUsage 400 0) = lit "800.0".
Proof. by vm_compute. Qed.
(** The size is printed in units of 10^6 kB. *)
Example sizes : (u ← usedMemory 8000000 1000000 0 500000 0; Ok (print_float 1 (memoryPer u 8000000), print_float 1 (fdiv u (of_int 1000000)))) =
  Ok (lit "81.2", lit "6.5").
Proof. by vm_compute. Qed.
