(* ===== verification/InspectorMain.v ===== *)
(** The main function of Project1/inspector.c: the sections the options ask
    for, in order, on files of the form those of /proc have, up to the first one
    that cannot open what it needs or whose behaviour is undefined. *)
From Stdlib Require Import ZArith Lia Ascii.
From stdpp Require Import prelude gmap strings numbers list.
From S2P Require Import Prelude CString CFloat Tokenizer Inspector InspectorSpec InspectorFloat.
Open Scope nat_scope.
Import CInt.

(** * One file *)

(** The file at [path] is short and its word after [str] is [w]. *)
Definition file_reads (file : cstr → option cstr) (n : nat) (path : cstr) (sep str w : cstr) : Prop :=
  ∃ f, file path = Some f ∧ text sep f ∧ length f ≤ n ∧ length f < BIG ∧ length (split sep f) ≤ TRIES ∧
       word_after str 0 (split sep f) = Some w.

Lemma word_after_length sep str f w : word_after str 0 (split sep f) = Some w → length w ≤ length f.
Proof.
  intros Hw. apply (split_length sep). unfold word_after in Hw. case_decide.
  - destruct (split sep f); simplify_eq/=. apply elem_of_cons. by left.
  - apply next_word_split in Hw as (l1 & l2 & -> & _ & Hh). apply elem_of_app. right. apply elem_of_cons. right.
    rewrite drop_0 in Hh. destruct l2; simplify_eq/=. apply elem_of_cons. by left.
Qed.

(** The array [buf] of main. *)
Definition large (buf : cstr) : Prop := closed buf ∧ length buf = BIG.

Lemma file_reads_word file cap n path sep str w buf :
  nul ∉ sep → large buf → file_reads file n path sep str w → length w < cap →
  ∃ f buf', file path = Some f ∧ file_word cap n f buf sep str 0 = Ok (buf', w) ∧ large buf'.
Proof.
  intros Hs [Hc Hb] (f & Hf & Ht & Hn & Hl & Htr & Hw) Hcap.
  destruct (file_word_ok cap n f buf sep str 0 w) as (b & Hr & Hcb & Hbb); try done; [lia|].
  exists f, b. split; [done|]. rewrite Hr. unfold strcpy. rewrite decide_True by done. cbn [mbind outcome_bind].
  split_and!; [done|split; congruence].
Qed.
Lemma reads_short file n path sep str w : file_reads file n path sep str w → length w < BIG.
Proof. intros (f & _ & _ & _ & Hl & _ & Hw). apply word_after_length in Hw. lia. Qed.

(** The next read of a file in the goal, by [H], with the array [Hb] is about. *)
Ltac read_word H Hb b Hb' :=
  let f := fresh "f" in let Hf := fresh "Hf" in let Hw := fresh "Hw" in
  destruct (file_reads_word _ BIG _ _ WS _ _ _ ltac:(decide_now) Hb H (reads_short _ _ _ _ _ _ H)) as (f & b & Hf & Hw & Hb');
  rewrite Hf, Hw; clear Hf Hw; cbn [mbind outcome_bind].

(** * What each section prints *)

(** A section prints its text, or gives up after part of it, or is
    undefined. *)
Inductive result := Shows (s : cstr) | Fails (s : cstr) | Breaks (u : ub).

Definition system_shown (host kernel : cstr) (t : Z) : cstr :=
  unlines [lit "System Information"; lit "------------------"; lit "Hostname: " ++ host; lit "Kernel Version: " ++ kernel] ++
  printUptime t.
Inductive system_runs (file : cstr → option cstr) : result → Prop :=
  | system_shows host kernel up t :
      file_reads file KB (lit "sys/kernel/hostname") WS (lit "NONE") host →
      file_reads file KB (lit "version") WS (lit "version") kernel →
      file_reads file KB (lit "uptime") WS (lit "NONE") up → atoi up = Ok t →
      system_runs file (Shows (system_shown host kernel t))
  | no_hostname : file (lit "sys/kernel/hostname") = None → system_runs file (Fails [])
  | no_version host :
      file_reads file KB (lit "sys/kernel/hostname") WS (lit "NONE") host → file (lit "version") = None →
      system_runs file (Fails [])
  | no_uptime host kernel :
      file_reads file KB (lit "sys/kernel/hostname") WS (lit "NONE") host →
      file_reads file KB (lit "version") WS (lit "version") kernel → file (lit "uptime") = None →
      system_runs file (Fails []).

(** The memory below 2^24 kB, or none: then the division is by zero. *)
Inductive hardware_runs (files : nat → cstr → option cstr) : result → Prop :=
  | hardware_shows name n avg dT dI t f b c s :
      hardware_reads files name n avg dT dI [t; f; b; c; s] → in_float dT dI t f b c s → t ≠ 0%Z →
      hardware_runs files (Shows (unlines (hardware_shown name n avg dT dI t (f + b + c + s))))
  | no_memory name n avg dT dI f b c s :
      hardware_reads files name n avg dT dI [0%Z; f; b; c; s] → in_float dT dI 0 f b c s →
      hardware_runs files (Breaks IntOverflow)
  | hardware_fails : hardware_stops files → hardware_runs files (Fails []).

Definition STAT_SEP : cstr := ["010"; " "]%char.
Definition tasks_shown (n : nat) (interrupts contexts forks : cstr) : list cstr :=
  [[]; lit "Task Information "; lit "-------------------"; lit "Tasks Running: " ++ print_nat (Z.of_nat n); lit "Since boot: ";
   lit "    Interrupts: " ++ interrupts; lit "    Context Switches: " ++ contexts; lit "    Forks: " ++ forks].
(** The word after [str] in one opening of stat, for an array of [cap]
    characters. *)
Definition word_of (stat : option cstr) (cap : nat) (str w : cstr) : Prop :=
  ∃ f, stat = Some f ∧ text STAT_SEP f ∧ length f < BIG ∧ length (split STAT_SEP f) ≤ TRIES ∧
       word_after str 0 (split STAT_SEP f) = Some w ∧ length w < cap.
(** Nothing, when stat cannot be opened. *)
Definition word_or_empty (stat : option cstr) (str w : cstr) : Prop :=
  (stat = None ∧ w = []) ∨ word_of stat BIG str w.
Inductive tasks_run (stat : nat → option cstr) : option (list dir_entry) → result → Prop :=
  | tasks_shows entries i c f :
      word_or_empty (stat 0) (lit "intr") i → word_or_empty (stat 1) (lit "ctxt") c → word_of (stat 2) KB (lit "processes") f →
      tasks_run stat (Some entries) (Shows (unlines (tasks_shown (length (filter is_task entries)) i c f)))
  | no_forks entries i c :
      word_or_empty (stat 0) (lit "intr") i → word_or_empty (stat 1) (lit "ctxt") c → stat 2 = None →
      tasks_run stat (Some entries) (Breaks Uninitialised)
  | no_directory i c :
      word_or_empty (stat 0) (lit "intr") i → word_or_empty (stat 1) (lit "ctxt") c →
      stat 2 = None ∨ (∃ f, word_of (stat 2) KB (lit "processes") f) →
      tasks_run stat None (Fails []).

Inductive list_runs (files : nat → cstr → option cstr) (passwd : Z → option cstr) : option (list dir_entry) → result → Prop :=
  | list_shows entries rows :
      rows_of files passwd (MkRow [] [] [] []) entries rows →
      list_runs files passwd (Some entries) (Shows (unlines (LIST_HEAD ++ rows)))
  | no_list : list_runs files passwd None (Fails (unlines LIST_HEAD)).

(** The sections asked for, one after the other: the output and the exit
    status. *)
Fixpoint sequence (rs : list (bool * result)) : outcome (cstr * Z) :=
  match rs with
  | [] => Ok ([], 0%Z)
  | (false, _) :: rs' => sequence rs'
  | (true, Fails s) :: _ => Ok (s, 1%Z)
  | (true, Breaks u) :: _ => Undef u
  | (true, Shows s) :: rs' => '(out, st) ← sequence rs'; Ok (s ++ out, st)
  end.
(** The same after [out]. *)
Definition after (out : cstr) (r : outcome (cstr * Z)) : outcome ending := '(text, st) ← r; Ok (Exit (out ++ text) st).

(** * The code of each section *)

(** A section that ends in [r], with an array that satisfies [P]. *)
Definition runs_as {A} (P : A → Prop) (r : result) (run : outcome (option (A * cstr))) : Prop :=
  match r with
  | Shows s => ∃ a, run = Ok (Some (a, s)) ∧ P a
  | Fails s => run = Ok None ∧ s = []
  | Breaks u => run = Undef u
  end.

Lemma when_on_ok {A} (P : A → Prop) b run old out next r rest :
  (b = true → runs_as P r run) → P old → (∀ a out, P a → next a out = after out (sequence rest)) →
  when_on b run old out next = after out (sequence ((b, r) :: rest)).
Proof.
  intros Hr Ho Hn. unfold when_on. cbn [sequence]. destruct b; [|by apply Hn]. specialize (Hr eq_refl).
  destruct r as [s|s|u]; [destruct Hr as (a & -> & Ha)|destruct Hr as [-> ->]|by rewrite Hr]; cbn [mbind outcome_bind].
  - rewrite Hn by done. unfold after. destruct (sequence rest) as [[text st]| |]; cbn [mbind outcome_bind]; [|done..].
    by rewrite app_assoc.
  - unfold after. cbn [mbind outcome_bind]. by rewrite app_nil_r.
Qed.

Lemma system_section_ok file r buf : large buf → system_runs file r → runs_as large r (system_section file buf).
Proof.
  intros Hb Hr. unfold system_section.
  destruct Hr as [host kernel up t Hh Hk Hu Ht|Hn|host Hh Hn|host kernel Hh Hk Hn]; [|by rewrite Hn|..].
  - read_word Hh Hb b1 H1. read_word Hk H1 b2 H2. read_word Hu H2 b3 H3. rewrite Ht. cbn [mbind outcome_bind runs_as]. eauto.
  - read_word Hh Hb b1 H1. by rewrite Hn.
  - read_word Hh Hb b1 H1. read_word Hk H1 b2 H2. by rewrite Hn.
Qed.

Lemma hardware_part_ok d r buf :
  large buf → hardware_runs (for_hardware d) r → runs_as large r (hardware_part d buf).
Proof.
  intros [Hc Hb] Hr. unfold hardware_part.
  destruct Hr as [name n avg dT dI t f b c s Hrd Hin Ht|name n avg dT dI f b c s Hrd Hin|Hs].
  - destruct (hardware_read _ buf name n avg dT dI _ Hc Hb Hrd) as (buf' & -> & C & B). cbn [mbind outcome_bind].
    destruct (hardware_lines_ok name n avg dT dI t f b c s Hin) as [-> _]. rewrite decide_False by done.
    cbn [mbind outcome_bind]. by exists buf'.
  - destruct (hardware_read _ buf name n avg dT dI _ Hc Hb Hrd) as (buf' & -> & _). cbn [mbind outcome_bind].
    by destruct (hardware_lines_ok name n avg dT dI 0 f b c s Hin) as [-> _].
  - by rewrite (hardware_section_stops _ _ Hc Hb Hs).
Qed.

Lemma word_of_stat_ok stat cap str w old buf :
  large buf → word_of stat cap str w →
  ∃ buf', word_of_stat stat old cap buf str = Ok (buf', Ok w) ∧ large buf'.
Proof.
  intros Hb (f & -> & Ht & Hl & Htr & Hw & Hcap).
  destruct (file_reads_word (λ _, Some f) cap BIG [] STAT_SEP str w buf) as (f' & b & [= <-] & Hfw & ?); try done; [decide_now| |].
  { exists f. split_and!; [done|done|lia|done|done|done]. }
  unfold word_of_stat. unfold STAT_SEP in *. rewrite Hfw. cbn [mbind outcome_bind]. eauto.
Qed.
Lemma word_or_empty_ok stat str w buf :
  large buf → word_or_empty stat str w →
  ∃ buf', word_of_stat stat (Ok []) BIG buf str = Ok (buf', Ok w) ∧ large buf'.
Proof. intros Hb [[-> ->]|Hw]; [by exists buf|by apply word_of_stat_ok]. Qed.

Lemma task_part_ok d r buf :
  large buf → tasks_run (λ k, for_tasks d k (lit "stat")) (entries_tasks d) r → runs_as (λ _, True) r (task_part d buf).
Proof.
  intros Hb Hr. unfold task_part, task_section.
  assert (∃ i c, word_or_empty (for_tasks d 0 (lit "stat")) (lit "intr") i ∧ word_or_empty (for_tasks d 1 (lit "stat")) (lit "ctxt") c ∧
    match r with
    | Shows s => ∃ es f, entries_tasks d = Some es ∧ word_of (for_tasks d 2 (lit "stat")) KB (lit "processes") f ∧
        s = unlines (tasks_shown (length (filter is_task es)) i c f)
    | Breaks u => u = Uninitialised ∧ for_tasks d 2 (lit "stat") = None ∧ ∃ es, entries_tasks d = Some es
    | Fails s => s = [] ∧ entries_tasks d = None ∧
        (for_tasks d 2 (lit "stat") = None ∨ ∃ f, word_of (for_tasks d 2 (lit "stat")) KB (lit "processes") f)
    end) as (i & c & Hi & Hc & Hcase).
  { inversion Hr; subst; do 2 eexists; split_and!; eauto. }
  destruct (word_or_empty_ok _ _ _ buf Hb Hi) as (b1 & -> & H1). cbn [mbind outcome_bind].
  destruct (word_or_empty_ok _ _ _ b1 H1 Hc) as (b2 & -> & H2). cbn [mbind outcome_bind].
  destruct r as [s|s|u]; cbn [runs_as].
  - destruct Hcase as (es & f & -> & Hf & ->).
    destruct (word_of_stat_ok _ KB _ f (Undef Uninitialised) b2 H2 Hf) as (b3 & -> & _). by exists tt.
  - destruct Hcase as (-> & -> & [-> | (f & Hf)]); [done|].
    by destruct (word_of_stat_ok _ KB _ f (Undef Uninitialised) b2 H2 Hf) as (b3 & -> & _).
  - by destruct Hcase as (-> & -> & es & ->).
Qed.

Lemma list_section_ok files passwd proc r :
  list_runs files passwd proc r →
  ∃ s ok, list_section files passwd proc = Ok (s, ok) ∧ sequence [(true, r)] = Ok (s, if ok : bool then 0%Z else 1%Z).
Proof.
  intros [es rows Hr|]; [|by eexists _, false]. unfold list_section.
  rewrite (task_rows_ok files passwd es (MkRow [] [] [] []) _ rows); [|done|].
  - eexists _, true. split; [done|]. cbn [sequence mbind outcome_bind]. by rewrite app_nil_r.
  - split_and!; [done| |apply length_replicate]. vm_compute. reflexivity.
Qed.

(** * main *)

(** C23: on a command line of options getopt accepts, main prints the working
    directory and then the sections asked for, in the order system, hardware,
    task summary, task list, each with what the files hold when it is reached,
    and exits with 0. At the first section that cannot open a file or a
    directory it cannot do without it stops, without the output of that section
    (but with the heading of the list), and exits with 1. Two sections have
    undefined behaviour: the task summary, when stat cannot be opened but the
    directory can, as forks is then printed uninitialised; and the hardware
    section, when MemTotal is 0. The files of the sections asked for have the
    form those of /proc have, with less than 2^24 kB of memory and counters
    that did not go back; nothing is asked of the others. *)
Theorem inspector_correct chdir passwd prog argc opts buf dir r1 r2 r3 r4 :
  Forall valid_opt opts → large buf →
  let d := chdir (last_dir (lit "/proc") opts) in
  let o := if decide (argc - (if has_p opts then 2 else 0) ≤ 1)%Z then all_on else selected all_off opts in
  cwd d = Some dir →
  (system o = true → system_runs (for_system d) r1) →
  (hardware o = true → hardware_runs (for_hardware d) r2) →
  (task_summary o = true → tasks_run (λ k, for_tasks d k (lit "stat")) (entries_tasks d) r3) →
  (task_list o = true → list_runs (for_list d) passwd (entries_list d) r4) →
  inspector_main chdir passwd prog argc opts buf =
  '(text, status) ← sequence [(system o, r1); (hardware o, r2); (task_summary o, r3); (task_list o, r4)];
  Ok (Exit (unlines [lit "Current working dir: " ++ dir] ++ text) status).
Proof.
  intros Hv Hb d o Hcwd H1 H2 H3 H4. unfold inspector_main. rewrite options_correct by done. fold o. fold d. rewrite Hcwd.
  unfold run_sections. apply (when_on_ok large); [intros; apply system_section_ok; auto|done|]. intros b1 out1 Hb1.
  apply (when_on_ok large); [intros; apply hardware_part_ok; auto|done|]. intros b2 out2 Hb2.
  apply (when_on_ok (λ _, True)); [intros; apply task_part_ok; auto|done|]. intros _ out3 _.
  destruct (task_list o); [|unfold after; cbn [sequence mbind outcome_bind]; by rewrite app_nil_r].
  destruct (list_section_ok _ _ _ r4 (H4 eq_refl)) as (s & ok & -> & ->). by destruct ok.
Qed.

(** * A small directory *)
Definition demo_system (path : cstr) : option cstr :=
  if decide (path = lit "sys/kernel/hostname") then Some (lit "box" ++ NL)
  else if decide (path = lit "version") then Some (lit "Linux version 5.4 (x)" ++ NL)
  else if decide (path = lit "uptime") then Some (lit "93784.05 10.2" ++ NL) else None.
Definition demo_counts (k : nat) (path : cstr) : option cstr :=
  if decide (path = lit "stat") then Some (lit "intr 7 1 0" ++ NL ++ lit "ctxt 9" ++ NL ++ lit "processes 3" ++ NL) else None.
Definition demo_entries : list dir_entry := [(true, lit "42"); (false, lit "43"); (true, lit "sys")].
(** In /empty there is nothing to read but directories. *)
Definition demo_dir (loc : cstr) : directory :=
  if decide (loc = lit "/empty") then
    MkDir (Some loc) (λ _, None) (λ _ _, None) (λ _ _, None) (λ _ _, None) (Some demo_entries) None
  else MkDir (Some loc) demo_system demo_files demo_counts demo_proc (Some demo_entries) (Some demo_entries).

Ltac solve_reads k d :=
  eexists; split_and!; [reflexivity|apply (text_take _ _ k d); [vm_compute; reflexivity|vm_compute; reflexivity|decide_now]|
    apply Nat.leb_le; vm_compute; reflexivity|apply Nat.ltb_lt; vm_compute; reflexivity|
    apply Nat.leb_le; vm_compute; reflexivity|vm_compute; reflexivity].
Lemma demo_system_runs : system_runs demo_system (Shows (system_shown (lit "box") (lit "5.4") 93784)).
Proof.
  apply (system_shows _ _ _ (lit "93784.05")); [solve_reads 3 "010"%char|solve_reads 21 "010"%char|solve_reads 13 "010"%char|].
  vm_compute. reflexivity.
Qed.
Lemma demo_hardware_runs :
  hardware_runs demo_files (Shows (unlines (hardware_shown (lit "Xeon") 1 (lit "0.10 0.20 0.30 ") 5 5 50 32))).
Proof. apply (hardware_shows _ _ _ _ _ _ _ 20 3 4 5); [exact demo_hardware_reads|split; done|done]. Qed.
Ltac solve_word :=
  eexists; split_and!; [reflexivity|apply (text_take _ _ 29 "010"%char); [vm_compute; reflexivity|vm_compute; reflexivity|decide_now]|
    apply Nat.ltb_lt; vm_compute; reflexivity|apply Nat.leb_le; vm_compute; reflexivity|vm_compute; reflexivity|
    apply Nat.ltb_lt; vm_compute; reflexivity].
Lemma demo_tasks_run :
  tasks_run (λ k, demo_counts k (lit "stat")) (Some demo_entries) (Shows (unlines (tasks_shown 1 (lit "7") (lit "9") (lit "3")))).
Proof. apply (tasks_shows _ demo_entries); [right; solve_word|right; solve_word|solve_word]. Qed.
Lemma demo_list_runs :
  list_runs demo_proc demo_passwd (Some demo_entries)
    (Shows (unlines (LIST_HEAD ++ [show_row 42 (MkRow (lit "1") (lit "bash") (lit "sleeping") (lit "kevin"))]))).
Proof.
  apply list_shows. eapply rows_task; [reflexivity|apply demo_status_row|reflexivity|].
  apply rows_other; [reflexivity|]. apply rows_other; [reflexivity|]. apply rows_nil.
Qed.

(** Without options everything is shown; in /empty, -l only gives the heading,
    -r nothing, and -t is undefined. *)
Definition demo_output : cstr :=
  unlines [lit "Current working dir: /proc"] ++ system_shown (lit "box") (lit "5.4") 93784 ++
  unlines (hardware_shown (lit "Xeon") 1 (lit "0.10 0.20 0.30 ") 5 5 50 32) ++
  unlines (tasks_shown 1 (lit "7") (lit "9") (lit "3")) ++
  unlines (LIST_HEAD ++ [show_row 42 (MkRow (lit "1") (lit "bash") (lit "sleeping") (lit "kevin"))]) ++ [].
Definition run_demo (argc : Z) (opts : list opt) : outcome ending :=
  inspector_main demo_dir demo_passwd (lit "inspector") argc opts (replicate BIG nul).
Lemma inspector_correct_witness :
  run_demo 1 [] = Ok (Exit demo_output 0) ∧
  run_demo 4 [Flag "l"%char; OptP (lit "/empty")] = Ok (Exit (unlines [lit "Current working dir: /empty"] ++ unlines LIST_HEAD) 1) ∧
  run_demo 4 [Flag "r"%char; OptP (lit "/empty")] = Ok (Exit (unlines [lit "Current working dir: /empty"]) 1) ∧
  run_demo 4 [Flag "t"%char; OptP (lit "/empty")] = Undef Uninitialised.
Proof.
  assert (large (replicate BIG nul)) as Hl by (split; [vm_compute; reflexivity|apply length_replicate]).
  unfold run_demo. split_and!.
  - apply (inspector_correct demo_dir demo_passwd (lit "inspector") 1 [] (replicate BIG nul) (lit "/proc") _ _ _ _
             (Forall_nil_2 _) Hl eq_refl (λ _, demo_system_runs) (λ _, demo_hardware_runs) (λ _, demo_tasks_run)
             (λ _, demo_list_runs)).
  - apply (inspector_correct demo_dir demo_passwd (lit "inspector") 4 [Flag "l"%char; OptP (lit "/empty")] (replicate BIG nul)
             (lit "/empty") (Shows []) (Shows []) (Shows []) (Fails (unlines LIST_HEAD)));
      [by repeat constructor|exact Hl|reflexivity|done|done|done|intros _; apply no_list].
  - rewrite (inspector_correct demo_dir demo_passwd (lit "inspector") 4 [Flag "r"%char; OptP (lit "/empty")] (replicate BIG nul)
             (lit "/empty") (Shows []) (Fails []) (Shows []) (Shows []));
      [done|by repeat constructor|exact Hl|reflexivity|done| |done|done].
    intros _. by apply hardware_fails, (no_stat _ []).
  - rewrite (inspector_correct demo_dir demo_passwd (lit "inspector") 4 [Flag "t"%char; OptP (lit "/empty")] (replicate BIG nul)
             (lit "/empty") (Shows []) (Shows []) (Breaks Uninitialised) (Shows []));
      [done|by repeat constructor|exact Hl|reflexivity|done|done| |done].
    intros _. by apply (no_forks _ demo_entries [] []); [left|left|].
Defined.
Example demo_rows : show_row 42 (MkRow (lit "1") (lit "bash") (lit "sleeping") (lit "kevin")) =
  lit "   42 |     sleeping |                      bash |           kevin | 1 ".
Proof. by vm_compute. Qed.
