(* ===== verification/Labs.v ===== *)
(** The small programs of LabWork: the sum and the counts of Lab3, the
    redirected [open] of Lab6 and the permission check of Lab10. *)
From Stdlib Require Import ZArith Lia Ascii.
From stdpp Require Import prelude gmap strings numbers list.
From S2P Require Import Prelude CString Tokenizer.
Open Scope nat_scope.
Import CInt.

(** * Lab3/Exercise2.c: the sum of the arguments *)
Module Exercise2.
Fixpoint sum_loop (args : list cstr) (sum : Z) : outcome Z :=
  match args with
  | [] => Ok sum
  | arg :: args' => temp_num ← atoi arg; s ← int_result (sum + temp_num); sum_loop args' s
  end.
Definition sum_main (args : list cstr) : outcome Z := sum_loop args 0.

Definition sum_of (ns : list Z) : Z := foldr Z.add 0%Z ns.
Lemma main_sums ns :
  Forall (λ n, 0 ≤ n)%Z ns → (sum_of ns ≤ INT_MAX)%Z → sum_main (print_nat <$> ns) = Ok (sum_of ns).
Proof.
  intros Hns. unfold sum_main.
  enough (∀ a, (0 ≤ a)%Z → (a + sum_of ns ≤ INT_MAX)%Z → sum_loop (print_nat <$> ns) a = Ok (a + sum_of ns)%Z) as H.
  { intros Hs. rewrite H by lia. done. }
  induction Hns as [|n ns Hn Hns IH]; intros a Ha Hmax; cbn [fmap list_fmap sum_loop]; simpl in *.
  - by rewrite Z.add_0_r.
  - assert (0 ≤ sum_of ns)%Z by (clear -Hns; induction Hns; simpl; lia).
    rewrite atoi_print_nat by lia. cbn [mbind outcome_bind].
    rewrite int_result_ok by (unfold INT_MIN in *; lia). cbn [mbind outcome_bind].
    rewrite IH by lia. f_equal. lia.
Qed.
Example sum_overflows : sum_main [lit "2147483647"; lit "1"] = Undef IntOverflow.
Proof. reflexivity. Qed.
End Exercise2.

(** * Lab3/Exercise3.c: characters, words and lines *)
Module Exercise3.
Record counts := MkCounts { char_count : Z; word_count : Z; line_count : Z; prevline : option ascii }.
Definition SEP : cstr := [" "; "010"; "009"]%char.

(** The character 255 is [EOF] once it is stored in a [char]. The table behind
    [isspace] also covers negative characters. *)
Fixpoint read_loop (f : cstr) (s : counts) : outcome counts :=
  match f with
  | [] => Ok s
  | line :: f' =>
      if decide (line = "255"%char) then Ok s else
      c ← int_result (char_count s + 1);
      w ← (if in_set SEP line then
        p ← require Uninitialised (prevline s);
        if isspace p then Ok (word_count s) else int_result (word_count s + 1)
        else Ok (word_count s));
      l ← (if decide (line = "010"%char) then int_result (line_count s + 1) else Ok (line_count s));
      read_loop f' (MkCounts c w l (Some line))
  end.

(** The three numbers printed; [None] when the file cannot be opened. *)
Definition count_main (file : option cstr) : outcome (option (Z * Z * Z)) :=
  match file with
  | None => Ok None
  | Some f =>
      s ← read_loop f (MkCounts 0 0 0 None);
      c ← int_result (char_count s + 1);
      l ← int_result (line_count s + 1);
      p ← require Uninitialised (prevline s);
      w ← (if isspace p then Ok (word_count s) else int_result (word_count s + 1));
      Ok (Some (c, w, l))
  end.

(** ** What it computes *)
(** A word is counted if it does not end in another white space character. *)
Definition ends_word (w : cstr) : bool := match last w with Some c => negb (isspace c) | None => false end.
Definition words (t : cstr) : nat := length (filter (λ w, ends_word w = true) (split SEP t)).
Definition newlines (t : cstr) : nat := length (filter (λ c, c = "010"%char) t).

(** The number of words that end after the character [p], when [t] follows. *)
Fixpoint ends (p : ascii) (t : cstr) : nat :=
  match t with
  | [] => if isspace p then 0 else 1
  | c :: t' => (if in_set SEP c then if isspace p then 0 else 1 else 0) + ends c t'
  end.

Lemma sep_space c : in_set SEP c = true → isspace c = true.
Proof.
  intros Hc%in_set_true. unfold SEP in Hc.
  repeat (apply elem_of_cons in Hc as [->|Hc]; [reflexivity|]). by apply elem_of_nil in Hc.
Qed.
Lemma ends_word_snoc w c : ends_word (w ++ [c]) = negb (isspace c).
Proof. unfold ends_word. by rewrite last_snoc. Qed.
Lemma count_cons w ws :
  length (filter (λ w, ends_word w = true) (w :: ws)) =
  (if ends_word w then 1 else 0) + length (filter (λ w, ends_word w = true) ws).
Proof. destruct (ends_word w) eqn:Hw; [by rewrite filter_cons_True|rewrite filter_cons_False; [done|by rewrite Hw]]. Qed.

Lemma ends_split t : ∀ p cur,
  ends p t =
  if in_set SEP p then length (filter (λ w, ends_word w = true) (split_from SEP [] t))
  else length (filter (λ w, ends_word w = true) (split_from SEP (cur ++ [p]) t)).
Proof.
  induction t as [|c t IH]; intros p cur; cbn [ends split_from].
  - destruct (in_set SEP p) eqn:Hp; [by rewrite (sep_space p)|].
    destruct (cur ++ [p]) as [|d l] eqn:Hl; [by destruct cur|]. rewrite <- Hl, count_cons, ends_word_snoc.
    by destruct (isspace p).
  - rewrite (IH c (if in_set SEP p then [] else cur ++ [p])).
    destruct (in_set SEP p) eqn:Hp, (in_set SEP c); [by rewrite (sep_space p)|done| |done].
    destruct (cur ++ [p]) as [|d l] eqn:Hl; [by destruct cur|]. rewrite <- Hl, count_cons, ends_word_snoc.
    by destruct (isspace p).
Qed.

(** The whole text. *)
Definition started (t : cstr) : bool := match t with c :: _ => negb (in_set SEP c) | [] => false end.
Lemma words_ends c t : started (c :: t) = true → words (c :: t) = ends c t.
Proof.
  intros Hc%negb_true_iff. unfold words, split. cbn [split_from]. rewrite Hc. by rewrite (ends_split t c []), Hc.
Qed.

Lemma ends_bound p t : ends p t ≤ S (length t).
Proof. revert p. induction t as [|c t IH]; intros p; simpl; [|specialize (IH c)]; repeat case_match; lia. Qed.
Lemma newlines_cons c t : newlines (c :: t) = (if decide (c = "010"%char) then 1 else 0) + newlines t.
Proof. unfold newlines. rewrite filter_cons. by destruct (decide (c = _)). Qed.
Lemma newlines_bound t : newlines t ≤ length t.
Proof. apply length_filter. Qed.

(** The characters before the first one that is read as the end. *)
Definition before_eof (f : cstr) : cstr := take_while (λ c, negb (bool_decide (c = "255"%char))) f.

Lemma read_loop_counts f : ∀ p c w l,
  let t := before_eof f in
  (0 ≤ c)%Z → (0 ≤ w)%Z → (0 ≤ l)%Z →
  (c + Z.of_nat (length t) ≤ INT_MAX)%Z → (w + Z.of_nat (length t) < INT_MAX)%Z →
  (l + Z.of_nat (length t) ≤ INT_MAX)%Z →
  ∃ q w', read_loop f (MkCounts c w l (Some p)) =
  Ok (MkCounts (c + Z.of_nat (length t)) w' (l + Z.of_nat (newlines t)) (Some q)) ∧
  (w' + (if isspace q then 0 else 1) = w + Z.of_nat (ends p t))%Z.
Proof.
  induction f as [|d f IH]; intros p c w l t Hc Hw Hl Bc Bw Bl; subst t.
  { exists p, w. cbn. rewrite !Z.add_0_r. split; [done|]. by destruct (isspace p). }
  unfold before_eof in *. cbn [read_loop take_while] in *. case_bool_decide as Hd; cbn [negb] in *.
  { rewrite decide_True by done. exists p, w. cbn. rewrite !Z.add_0_r. split; [done|]. by destruct (isspace p). }
  rewrite decide_False by done. set (t := take_while _ f) in *. simpl length in *.
  rewrite newlines_cons. cbn [ends prevline char_count word_count line_count].
  rewrite (int_result_ok (c + 1)) by (unfold INT_MIN in *; lia). cbn [mbind outcome_bind].
  set (w1 := (w + (if in_set SEP d then if isspace p then 0 else 1 else 0))%Z).
  assert ((if in_set SEP d then p0 ← require Uninitialised (Some p);
    if isspace p0 then Ok w else int_result (w + 1) else Ok w) = Ok w1) as ->.
  { unfold w1. cbn [require mbind outcome_bind].
    destruct (in_set SEP d), (isspace p); rewrite ?Z.add_0_r; try done.
    apply int_result_ok. unfold INT_MIN in *. lia. }
  cbn [mbind outcome_bind]. set (l1 := (l + (if decide (d = "010"%char) then 1 else 0))%Z).
  assert ((if decide (d = "010"%char) then int_result (l + 1) else Ok l) = Ok l1) as ->.
  { unfold l1. case_decide; [apply int_result_ok; unfold INT_MIN in *; lia|by rewrite Z.add_0_r]. }
  cbn [mbind outcome_bind].
  destruct (IH d (c + 1)%Z w1 l1) as (q & w' & -> & He); [lia|unfold w1; repeat case_match; lia|
    unfold l1; case_decide; lia|lia|unfold w1; repeat case_match; lia|unfold l1; case_decide; lia|].
  exists q, w'. split.
  - do 2 f_equal; [lia|unfold l1; case_decide; lia].
  - rewrite He. unfold w1. repeat case_match; lia.
Qed.

(** C28: for a file of fewer characters than [INT_MAX], Exercise3 prints one more
    than the number of its characters, the number of its words (maximal runs
    without blank, tab or newline) that do not end in another white space
    character, and one more than the number of its newlines; the file is read
    up to the first character 255. A file that is empty or begins with a
    separator makes it test an uninitialised character. *)
Theorem counts_correct f :
  (Z.of_nat (length (before_eof f)) < INT_MAX)%Z →
  count_main (Some f) =
  if started (before_eof f)
  then Ok (Some (Z.of_nat (length (before_eof f)) + 1, Z.of_nat (words (before_eof f)),
    Z.of_nat (newlines (before_eof f)) + 1))%Z
  else Undef Uninitialised.
Proof.
  intros Hlen. unfold count_main. destruct f as [|d f]; [done|].
  destruct (decide (d = "255"%char)) as [->|Hd]; [done|].
  assert (before_eof (d :: f) = d :: before_eof f) as He
    by (unfold before_eof; cbn [take_while]; by rewrite bool_decide_false).
  rewrite He in *. simpl length in *. cbn [read_loop prevline char_count word_count line_count].
  rewrite decide_False by done. rewrite int_result_ok by (unfold INT_MIN; lia). cbn [mbind outcome_bind].
  destruct (in_set SEP d) eqn:Hs; cbn [started require mbind outcome_bind negb]; [by rewrite Hs|]. rewrite Hs.
  cbn [negb]. rewrite decide_False by (intros ->; done). cbn [mbind outcome_bind].
  destruct (read_loop_counts f d 1 0 0) as (q & w' & Hr & Hw); [lia..|].
  change (0 + 1)%Z with 1%Z. rewrite Hr. cbn [mbind outcome_bind char_count word_count line_count prevline].
  pose proof (newlines_bound (before_eof f)). pose proof (ends_bound d (before_eof f)).
  rewrite (int_result_ok (1 + _ + 1)), (int_result_ok (0 + _ + 1)) by (unfold INT_MIN in *; lia).
  cbn [mbind outcome_bind require].
  rewrite (words_ends d) by (cbn; by rewrite Hs). rewrite newlines_cons, decide_False by (intros ->; done).
  rewrite <- (Z.add_0_l (Z.of_nat (ends _ _))), <- Hw.
  assert ((if isspace q then Ok w' else int_result (w' + 1)) = Ok (w' + (if isspace q then 0 else 1))%Z) as ->.
  { destruct (isspace q); [by rewrite Z.add_0_r|]. apply int_result_ok. unfold INT_MIN, INT_MAX in *. lia. }
  cbn [mbind outcome_bind]. do 3 f_equal. f_equal; lia.
Qed.

Lemma counts_correct_witness :
  count_main (Some (lit "one two" ++ ["010"%char] ++ lit "three")) = Ok (Some (14, 3, 2))%Z.
Proof. rewrite counts_correct by (apply Z.ltb_lt; vm_compute; reflexivity). vm_compute. reflexivity. Defined.

(** Words before a carriage return are not counted. *)
Example crlf_line : count_main (Some (lit "two words" ++ ["013"; "010"]%char)) = Ok (Some (12, 1, 2))%Z.
Proof. vm_compute. reflexivity. Qed.
(** A character 255 ends the text. *)
Example byte_255 : count_main (Some (lit "one" ++ ["255"%char] ++ lit " two")) = Ok (Some (4, 1, 1))%Z.
Proof. vm_compute. reflexivity. Qed.
End Exercise3.

(** * Lab6: an [open] found before that of the C library *)
Module Preload.
(** What a call of [open] does: fail with ENOENT, or call the original one. *)
Inductive open_call := NotFound | OrigOpen (pathname : cstr).

(** [pathname + len - n]. *)
Definition suffix (pathname : cstr) (n : nat) : outcome cstr :=
  if decide (n ≤ length pathname) then Ok (drop (length pathname - n) pathname) else Undef OutOfBounds.
(** rick-ropen.c *)
Definition open (pathname : cstr) : outcome open_call :=
  java ← (if 3 <? length pathname then s ← suffix pathname 5; Ok (strcmp_eq s (lit ".java")) else Ok false);
  if java : bool then Ok NotFound else
  roll ← (if 3 <? length pathname then s ← suffix pathname 4; Ok (negb (strcmp_eq s (lit ".txt"))) else Ok false);
  Ok (if roll : bool then OrigOpen (lit "roll.txt") else OrigOpen pathname).
(** open-log.c: what is logged, and the call. *)
Definition logged_open (pathname : cstr) : cstr * open_call :=
  (lit "Opening file: " ++ pathname ++ ["010"%char], OrigOpen pathname).

(** Names of up to three characters pass, one of four is read before its
    start, and of the longer ones those in .java are hidden, those in .txt pass
    and all others open roll.txt. *)
Lemma open_correct pathname :
  open pathname =
  match length pathname with
  | 0 | 1 | 2 | 3 => Ok (OrigOpen pathname)
  | 4 => Undef OutOfBounds
  | n => if decide (drop (n - 5) pathname = lit ".java") then Ok NotFound
      else if decide (drop (n - 4) pathname = lit ".txt") then Ok (OrigOpen pathname)
      else Ok (OrigOpen (lit "roll.txt"))
  end.
Proof.
  unfold open, suffix. destruct (length pathname) as [|[|[|[|[|n]]]]]; [done..|].
  rewrite (proj2 (Nat.ltb_lt 3 _)) by lia. rewrite !decide_True by lia. cbn [mbind outcome_bind].
  unfold strcmp_eq. repeat case_bool_decide; repeat case_decide; done.
Qed.
Example java_hidden : open (lit "Main.java") = Ok NotFound.
Proof. reflexivity. Qed.
Example text_passes : open (lit "notes.txt") = Ok (OrigOpen (lit "notes.txt")).
Proof. reflexivity. Qed.
Example other_rolls : open (lit "notes.md") = Ok (OrigOpen (lit "roll.txt")).
Proof. reflexivity. Qed.
End Preload.

(** * Lab10/inode_reader.c: who may read a file *)
Module InodeReader.
Definition S_IROTH : Z := 4.
Definition S_IRWXO : Z := 7.
Inductive perm_message := InvalidArgument | StatError | Owned | Readable | NotReadable.

(** [statbuf] is [st_uid] and [st_mode]; [None] when stat fails. *)
Definition perm_checker (statbuf : option (Z * Z)) (uid : Z) : perm_message :=
  match statbuf with
  | None => StatError
  | Some (st_uid, st_mode) =>
      if decide (uid = st_uid) then Owned
      else if decide (Z.land st_mode S_IROTH ≠ 0 ∨ Z.land st_mode S_IRWXO ≠ 0)%Z then Readable else NotReadable
  end.
Definition inode_main (argc : Z) (stat : option (Z * Z)) (uid : Z) : perm_message :=
  if decide (argc ≠ 2)%Z then InvalidArgument else perm_checker stat uid.

(** A file of another user is reported readable when others have any
    permission on it at all. *)
Lemma perm_checker_correct st_uid st_mode uid :
  uid ≠ st_uid → perm_checker (Some (st_uid, st_mode)) uid = if decide (st_mode `mod` 8 = 0)%Z then NotReadable else Readable.
Proof.
  intros Hu. unfold perm_checker, S_IRWXO, S_IROTH. rewrite decide_False by done.
  change 7%Z with (Z.ones 3). rewrite Z.land_ones by lia. change (2 ^ 3)%Z with 8%Z.
  destruct (decide (st_mode `mod` 8 = 0)%Z) as [H0|H0]; [|by rewrite decide_True by auto].
  rewrite decide_False; [done|]. intros [H|H]; [|done]. apply H.
  change 4%Z with (Z.land (Z.ones 3) 4). rewrite Z.land_assoc, Z.land_ones by lia.
  change (2 ^ 3)%Z with 8%Z. by rewrite H0.
Qed.
(** Execute permission alone is reported as readable, and read permission of
    the group is not. *)
Example executable_only : perm_checker (Some (1, 1))%Z 2 = Readable.
Proof. reflexivity. Qed.
Example group_readable : perm_checker (Some (1, 32))%Z 2 = NotReadable.
Proof. reflexivity. Qed.
End InodeReader.
