(* ===== verification/LabTiming.v ===== *)
(** Programs of LabWork that count against the clock: the calibration of the
    scheduler's workload (Lab7/workload.c) and the counter with signal handlers
    (Lab8/signal.c). *)
From Stdlib Require Import ZArith Lia SpecFloat.
From stdpp Require Import prelude gmap strings numbers list.
From S2P Require Import Prelude CString CFloat Clock.
Open Scope nat_scope.
Import CInt.

(** * Lab7/workload.c *)
Module Calibrate.
(** [RUN_WORKLOAD(count)]: the final [i] and [j], of 64 bits. *)
Fixpoint workload_loop (fuel : nat) (count i j : Z) : outcome (Z * Z) :=
  match fuel with
  | 0 => OutOfFuel
  | S f => if decide (i < count)%Z then workload_loop f count (wrap64 (i + 1)) (wrap64 (j - 1)) else Ok (i, j)
  end.
Definition RUN_WORKLOAD (fuel : nat) (count : Z) : outcome (Z * Z) := workload_loop fuel count 0 UINT_MAX.

(** [clock k w] is the readings of the clock, in microseconds, before and after
    the workload [w] in iteration [k] of the loop. *)
Section calibrate.
Context (clock : nat → Z → Z * Z).

Definition measured (k : nat) (w : Z) : double := run_time (clock k w).2 (clock k w).1.
Definition slow (k : nat) (w : Z) : bool := over_quarter (measured k w).

(** The workload with which the loop is left, and its time. *)
Fixpoint calibrate_loop (fuel : nat) (k : nat) (workload : Z) : outcome (Z * double) :=
  match fuel with
  | 0 => OutOfFuel
  | S f => if slow k workload then Ok (workload, measured k workload)
      else calibrate_loop f (S k) (wrap32 (workload * 2))
  end.
(** The conversion to [uint32_t]. *)
Definition double_to_uint (d : double) : outcome Z :=
  match trunc d with
  | Some n => if decide (0 ≤ n ≤ UINT_MAX)%Z then Ok n else Undef IntOverflow
  | None => Undef IntOverflow
  end.
Definition calibrate_workload (fuel : nat) : outcome Z :=
  '(workload, run_time) ← calibrate_loop fuel 0 (UINT_MAX / 100);
  double_to_uint (dmul (ddiv (double_of workload) run_time) QUARTER).

(** The workload of iteration [k]. *)
Definition workload_at (k : nat) : Z := wrap32 (UINT_MAX / 100 * 2 ^ Z.of_nat k).

Lemma workload_next k : wrap32 (workload_at k * 2) = workload_at (S k).
Proof.
  unfold workload_at, wrap32. rewrite Z.mul_mod_idemp_l by lia. f_equal.
  rewrite Nat2Z.inj_succ, Z.pow_succ_r by lia. lia.
Qed.
Lemma workload_zero k : 29 ≤ k → workload_at k = 0%Z.
Proof.
  intros Hk. unfold workload_at. replace (Z.of_nat k) with (29 + (Z.of_nat k - 29))%Z by lia.
  rewrite Z.pow_add_r by lia. rewrite Z.mul_assoc. unfold wrap32.
  change (UINT_MAX / 100 * 2 ^ 29)%Z with (5368709 * 4294967296)%Z.
  rewrite <- Z.mul_assoc, (Z.mul_comm 4294967296), Z.mul_assoc. apply Z.mod_mul. lia.
Qed.
Lemma workload_doubles k : k ≤ 6 → workload_at k = (42949672 * 2 ^ Z.of_nat k)%Z.
Proof. intros. do 7 (destruct k as [|k]; [reflexivity|]). lia. Qed.

Lemma calibrate_slow k n : ∀ j fuel,
  n = k + j → slow n (workload_at n) = true → (∀ i, k ≤ i → i < n → slow i (workload_at i) = false) → j < fuel →
  calibrate_loop fuel k (workload_at k) = Ok (workload_at n, measured n (workload_at n)).
Proof.
  intros j. revert k. induction j as [|j IH]; intros k fuel -> Hs Hf Hj; (destruct fuel as [|fuel]; [lia|]);
    cbn [calibrate_loop].
  - rewrite Nat.add_0_r in *. by rewrite Hs.
  - rewrite (Hf k) by lia. rewrite workload_next. apply IH; [lia|done| |lia]. intros i ? ?. apply Hf; lia.
Qed.
Lemma calibrate_spins k : ∀ fuel,
  (∀ i, k ≤ i → slow i (workload_at i) = false) → calibrate_loop fuel k (workload_at k) = OutOfFuel.
Proof.
  intros fuel. revert k. induction fuel as [|fuel IH]; intros k Hs; [done|]. cbn [calibrate_loop].
  rewrite Hs by lia. rewrite workload_next. apply IH. intros i Hi. apply Hs. lia.
Qed.

(** The first iteration below [n] that takes long enough. *)
Lemma first_slow n :
  (∃ k, k < n ∧ slow k (workload_at k) = true) →
  ∃ k, k < n ∧ slow k (workload_at k) = true ∧ ∀ i, i < k → slow i (workload_at i) = false.
Proof.
  intros (k & Hk & Hs). induction (lt_wf k) as [k _ IH].
  destruct (decide (Exists (λ i, slow i (workload_at i) = true) (seq 0 k))) as [Hex|Hno].
  - apply Exists_exists in Hex as (i & Hi%elem_of_seq & Hsi). apply (IH i); [lia|lia|done].
  - exists k. split_and!; [done|done|]. intros i Hi. apply not_true_iff_false. intros Hsi. apply Hno, Exists_exists.
    exists i. split; [apply elem_of_seq; lia|done].
Qed.

(** The workload scaled to a quarter of a second. *)
Lemma scaled w d B :
  (0 ≤ w ≤ UINT_MAX)%Z → between (-2) 1 B d → ∃ r, double_to_uint (dmul (ddiv (double_of w) d) QUARTER) = Ok r ∧ (0 ≤ r ≤ w)%Z.
Proof.
  unfold UINT_MAX. intros Hw Hd.
  assert (between 0 0 (4 * w) (ddiv (double_of w) d)) as Hq.
  { apply (SFdiv_between 53 1024) with 0%Z w w (-2)%Z 1%Z B; try lia; try (apply unit_64; lia); try (apply double_of_between; lia); try done;
    rewrite (le2_at (-2)) by lia; simpl; lia. }
  assert (between 0 0 w (dmul (ddiv (double_of w) d) QUARTER)) as Hm.
  { apply (SFmul_between 53 1024) with 0%Z 0%Z (4 * w)%Z (-2)%Z 1%Z 1%Z; try lia; try (apply unit_64; lia); try done;
    try (rewrite (le2_at (-2)) by lia; simpl; lia). }
  destruct (trunc_between 0 0 w _ ltac:(lia) ltac:(lia) Hm) as (n & Hn & Hr). change (2 ^ (- 0))%Z with 1%Z in Hr.
  rewrite !Z.div_1_r in Hr. exists n. unfold double_to_uint. rewrite Hn, decide_True by (unfold UINT_MAX; lia). done.
Qed.

(** The clock does not go back while a workload runs, and shows a second of 1970
    at least. *)
Definition clocks (k : nat) : Prop :=
  let '(s, e) := clock k (workload_at k) in clock_ok s ∧ clock_ok e ∧ (1000000 ≤ s ≤ e)%Z.
(** The time of iteration [k]. *)
Definition took (k : nat) : Z := ((clock k (workload_at k)).2 - (clock k (workload_at k)).1)%Z.

Lemma slow_took k :
  clocks k → ((250000 < took k)%Z → slow k (workload_at k) = true) ∧ ((took k < 250000)%Z → slow k (workload_at k) = false) ∧
  (slow k (workload_at k) = true →
    ∃ r, double_to_uint (dmul (ddiv (double_of (workload_at k)) (measured k (workload_at k))) QUARTER) = Ok r ∧
    (0 ≤ r ≤ workload_at k)%Z).
Proof.
  unfold clocks, took, slow, measured. destruct (clock k (workload_at k)) as [s e]. cbn [fst snd]. intros (Hs & He & Hlt).
  destruct (run_time_between s e Hs He Hlt) as (Hc & A & B & Hb & HA & Hl & Hh).
  destruct (over_quarter_between _ _ _ Hc Hb) as [H1 H2]. split_and!; [intros; apply H1; lia|intros; apply H2; lia|].
  intros Ho. apply (scaled _ _ B); [apply wrap32_range|]. by eapply over_quarter_true.
Qed.

(** C29: when the clock does not go back, and shows less than a quarter of a
    second for the empty workload, the calibration ends exactly when one of the first 29 workloads is seen to take
    more than a quarter of a second, as one that takes 250001 microseconds is and
    one that takes 249999 is not. It then ends within 29 iterations, and returns
    the first such workload scaled down, so that its conversion to [uint32_t] is
    defined. On any other host the workload, which doubles modulo 2^32 from
    42949672, becomes 0 and it never ends. *)
Theorem calibrate_terminates :
  (∀ k, clocks k) → (∀ k, 29 ≤ k → (took k < 250000)%Z) →
  (∀ k, ((250000 < took k)%Z → slow k (workload_at k) = true) ∧ ((took k < 250000)%Z → slow k (workload_at k) = false)) ∧
  ((∃ k, k < 29 ∧ slow k (workload_at k) = true) →
    ∃ k r, k < 29 ∧ slow k (workload_at k) = true ∧ (∀ i, i < k → slow i (workload_at i) = false) ∧ (0 ≤ r ≤ workload_at k)%Z ∧
    ∀ fuel, 29 ≤ fuel → calibrate_workload fuel = Ok r) ∧
  ((∀ k, k < 29 → slow k (workload_at k) = false) →
    ∀ fuel, calibrate_workload fuel = OutOfFuel).
Proof.
  intros Hck Hz. change (UINT_MAX / 100)%Z with (workload_at 0) in *. unfold calibrate_workload.
  change (UINT_MAX / 100)%Z with (workload_at 0). split_and!.
  - intros k. destruct (slow_took k (Hck k)) as (H1 & H2 & _). done.
  - intros (k & Hk & Hs & Hf)%first_slow. destruct (slow_took k (Hck k)) as (_ & _ & H3). destruct (H3 Hs) as (r & Hr & Hle).
    exists k, r. split_and!; [done..|lia|lia|]. intros fuel Hfuel.
    rewrite (calibrate_slow 0 k k) by (done || lia || auto). cbn [mbind outcome_bind]. exact Hr.
  - intros Hs fuel. rewrite calibrate_spins; [done|]. intros i _.
    destruct (decide (i < 29)); [auto|]. destruct (slow_took i (Hck i)) as (_ & H2 & _). apply H2, Hz. lia.
Qed.
End calibrate.

(** A host that counts to 4 * 10^9 in a second, and one whose clock shows no
    time, as when the empty loop is optimised away. *)
Definition demo_clock (k : nat) (w : Z) : Z * Z := (1700000000000000, 1700000000000000 + w / 4000 + 1)%Z.
Definition fast_clock (k : nat) (w : Z) : Z * Z := (1700000000000000, 1700000000000000)%Z.
Lemma demo_clocks k : clocks demo_clock k ∧ clocks fast_clock k ∧ ((29 ≤ k) → took demo_clock k = 1%Z ∧ took fast_clock k = 0%Z).
Proof.
  pose proof (wrap32_range (UINT_MAX / 100 * 2 ^ Z.of_nat k)) as Hr. fold (workload_at k) in Hr. unfold UINT_MAX in Hr.
  assert (0 ≤ workload_at k / 4000 < 2000000)%Z by (split; [apply Z.div_pos; lia|apply Z.div_lt_upper_bound; lia]).
  unfold clocks, demo_clock, fast_clock, took, clock_ok, LATEST. split_and!; try lia. intros Hk. rewrite workload_zero by done. done.
Qed.
Lemma calibrate_terminates_witness :
  (∃ r, calibrate_workload demo_clock 29 = Ok r ∧ (0 ≤ r ≤ 1374389504)%Z) ∧ ∀ fuel, calibrate_workload fast_clock fuel = OutOfFuel.
Proof.
  split.
  - destruct (calibrate_terminates demo_clock) as (_ & H & _); [apply demo_clocks|intros k Hk; by rewrite (proj1 (proj2 (proj2 (demo_clocks k)) Hk))|].
    destruct H as (k & r & _ & Hs & Hf & Hle & Hr); [exists 5; split; [lia|by vm_compute]|].
    exists r. split; [by apply Hr|]. split; [lia|].
    destruct (decide (k < 5)) as [Hk|Hk]; [do 5 (destruct k as [|k]; [vm_compute in Hs; discriminate Hs|]); lia|].
    destruct (decide (k = 5)) as [->|?]; [exact (proj2 Hle)|]. specialize (Hf 5 ltac:(lia)). vm_compute in Hf. discriminate Hf.
  - apply (calibrate_terminates fast_clock); [apply demo_clocks|intros k Hk; by rewrite (proj2 (proj2 (proj2 (demo_clocks k)) Hk))|].
    intros k _. destruct (demo_clocks k) as (_ & Hc & _). apply (proj1 (proj2 (slow_took _ _ Hc))). unfold took, fast_clock. simpl. lia.
Defined.
Example demo_calibrates : calibrate_workload demo_clock 29 = Ok 999998507%Z.
Proof. by vm_compute. Qed.

Lemma workload_loop_ends count : (0 ≤ count < 18446744073709551616)%Z → ∀ n fuel i j,
  (0 ≤ i)%Z → (count - i = Z.of_nat n)%Z → n < fuel → (0 ≤ j < 18446744073709551616)%Z →
  workload_loop fuel count i j = Ok (count, wrap64 (j - Z.of_nat n)).
Proof.
  intros Hc. induction n as [|n IH]; intros fuel i j Hi Hn Hf Hj; (destruct fuel as [|fuel]; [lia|]);
    cbn [workload_loop].
  - rewrite decide_False by lia. rewrite wrap64_small by lia. do 2 f_equal; lia.
  - rewrite decide_True by lia. rewrite (wrap64_small (i + 1)) by lia.
    rewrite IH; [|lia..|apply wrap64_range]. do 2 f_equal. unfold wrap64.
    rewrite Zminus_mod_idemp_l. f_equal. lia.
Qed.
(** The workload itself ends after [count] steps. *)
Lemma RUN_WORKLOAD_ends fuel count :
  (0 ≤ count ≤ UINT_MAX)%Z → Z.to_nat count < fuel → RUN_WORKLOAD fuel count = Ok (count, wrap64 (UINT_MAX - count)).
Proof.
  intros Hc Hf. unfold RUN_WORKLOAD, UINT_MAX in *.
  rewrite (workload_loop_ends count ltac:(lia) (Z.to_nat count)) by lia. by rewrite Z2Nat.id by lia.
Qed.
End Calibrate.

(** * Lab8/signal.c

    The main loop increments the counter with a load and a store, between
    which handlers can run. *)
Module Signals.
Inductive signal := SIGINT | SIGALRM | SIGQUIT | SIGUSR1.
(** Where main stands, with the value it has loaded. *)
Inductive point := AtLoad | AtStore (loaded : Z) | AtPrint | AtSleep.
Record sig_state := MkState { count : Z; alarm : bool; pc : point; running : bool; out : list Z }.
(** [alarm] tells whether an alarm is set. *)
Definition sig_init : sig_state := MkState 0 true AtLoad true [].

(** [%ld] of an unsigned long. *)
Definition to_long (z : Z) : Z := if decide (z < 9223372036854775808)%Z then z else (z - 18446744073709551616)%Z.

Definition count_step (s : sig_state) : sig_state :=
  match pc s with
  | AtLoad => MkState (count s) (alarm s) (AtStore (count s)) (running s) (out s)
  | AtStore loaded => MkState (wrap64 (loaded + 1)) (alarm s) AtPrint (running s) (out s)
  | AtPrint => MkState (count s) (alarm s) AtSleep (running s) (out s ++ [to_long (count s)])
  | AtSleep => MkState (count s) (alarm s) AtLoad (running s) (out s)
  end.
Definition handle (signo : signal) (s : sig_state) : sig_state :=
  match signo with
  | SIGINT => MkState (count s) (alarm s) (pc s) false (out s ++ [to_long (count s)])
  | SIGALRM => MkState 0 true (pc s) (running s) (out s)
  | SIGQUIT => MkState (wrap64 (count s + 5)) (alarm s) (pc s) (running s) (out s)
  | SIGUSR1 => MkState (wrap64 (count s + 10)) (alarm s) (pc s) (running s) (out s)
  end.
Inductive sig_event := Step | Deliver (signo : signal).
Definition sig_step (s : sig_state) (e : sig_event) : sig_state :=
  if running s then match e with Step => count_step s | Deliver signo => handle signo s end else s.
Definition sig_run (s : sig_state) (es : list sig_event) : sig_state := foldl sig_step s es.

(** What the signals that come during the sleep add. *)
Definition amount (sig : signal) : Z := match sig with SIGQUIT => 5 | SIGUSR1 => 10 | _ => 0 end.
Definition counting (sig : signal) : bool := match sig with SIGQUIT | SIGUSR1 => true | _ => false end.
Definition round (sigs : list signal) : list sig_event := [Step; Step; Step] ++ (Deliver <$> sigs) ++ [Step].

Lemma run_app s es es' : sig_run s (es ++ es') = sig_run (sig_run s es) es'.
Proof. apply foldl_app. Qed.
Lemma run_signals sigs : Forall (λ sg, counting sg = true) sigs → ∀ s,
  running s = true → (0 ≤ count s < 18446744073709551616)%Z →
  sig_run s (Deliver <$> sigs) =
  MkState (wrap64 (count s + foldr Z.add 0 (amount <$> sigs))%Z) (alarm s) (pc s) true (out s).
Proof.
  induction 1 as [|sg sigs Hsg _ IH]; intros [c a p r o] Hr Hc; cbn [count alarm pc running out] in *; subst r.
  - cbn. rewrite Z.add_0_r, wrap64_small by done. done.
  - change (sig_run (MkState c a p true o) (Deliver <$> (sg :: sigs)))
    with (sig_run (sig_step (MkState c a p true o) (Deliver sg)) (Deliver <$> sigs)).
    assert (sig_step (MkState c a p true o) (Deliver sg) = MkState (wrap64 (c + amount sg)) a p true o) as -> by (by destruct sg).
    rewrite IH; [|done|apply wrap64_range]. cbn. f_equal. unfold wrap64. rewrite Zplus_mod_idemp_l. f_equal. lia.
Qed.
(** Signals that come while main sleeps are all counted: a round prints the
    next number and adds what they ask for. *)
Lemma round_counts c a o sigs :
  (0 ≤ c < 18446744073709551616)%Z → Forall (λ sg, counting sg = true) sigs →
  sig_run (MkState c a AtLoad true o) (round sigs) =
  MkState (wrap64 (c + 1 + foldr Z.add 0 (amount <$> sigs))%Z) a AtLoad true (o ++ [to_long (wrap64 (c + 1))]).
Proof.
  intros Hc Hs. unfold round. rewrite !run_app. cbn [sig_run foldl sig_step running count_step pc count alarm out].
  rewrite run_signals; [|done|done|apply wrap64_range]. cbn. f_equal. unfold wrap64.
  rewrite Zplus_mod_idemp_l. done.
Qed.
(** One that comes between the load and the store is lost. *)
Example lost_signal : count (sig_run sig_init [Step; Deliver SIGUSR1; Step]) = 1%Z.
Proof. reflexivity. Qed.
Example lost_reset : count (sig_run sig_init ([Step; Step; Step; Step] ++ [Step; Deliver SIGALRM; Step])) = 2%Z.
Proof. reflexivity. Qed.
End Signals.
