(* ===== verification/LabNet.v ===== *)
(** The two programs of Lab11: the server, with [read_len], and the client.

    A connection is the list of segments the peer's bytes arrive in; a call of
    read returns bytes of the first segment only, and 0 at the end of the
    stream.  Whether a call that sets up a socket succeeds is an argument. *)
From Stdlib Require Import ZArith Lia Ascii.
From stdpp Require Import prelude gmap strings numbers list.
From S2P Require Import Prelude CString.
Open Scope nat_scope.
Import CInt.

(** * The server *)

(** [fails] tells what read does after the last segment: return -1, or 0 as at
    the end of the stream. *)
Section server.
Context (fails : bool).

(** [read(fd, buf, length)]: its result, the bytes and what is left. *)
Definition read (segs : list cstr) (length : Z) : Z * cstr * list cstr :=
  match segs with
  | [] => ((if fails then -1 else 0)%Z, [], [])
  | c :: segs' =>
      let k := Z.to_nat (length `min` Z.of_nat (List.length c)) in
      (Z.of_nat k, take k c, if decide (k = List.length c) then segs' else drop k c :: segs')
  end.

(** The bytes [c] written at the start of [buf]. *)
Definition write_at_start (buf c : cstr) : outcome cstr :=
  if decide (List.length c ≤ List.length buf) then Ok (c ++ drop (List.length c) buf) else Undef OutOfBounds.

(** [length] is a [size_t], to which [result] is converted. *)
Fixpoint read_len_loop (fuel : nat) (segs : list cstr) (buf : cstr) (length : Z) (result : Z)
  : outcome (Z * cstr * list cstr) :=
  match fuel with
  | 0 => OutOfFuel
  | S f =>
      if decide (wrap64 result < length)%Z then
      let '(n, c, segs') := read segs length in
      buf' ← write_at_start buf c;
      result' ← int_result (result + n);
      read_len_loop f segs' buf' length result'
      else Ok (result, buf, segs)
  end.
Definition read_len (fuel : nat) (segs : list cstr) (buf : cstr) (length : Z) : outcome (Z * cstr * list cstr) :=
  read_len_loop fuel segs buf (wrap64 length) 0.

(** The inner loop of main: what it printed, and how it went on. A negative
    size is converted to a [size_t]. *)
Definition SIZE_FIELD : nat := 8.
Definition BUF : nat := 128.
Definition receive (fuel : nat) (segs : list cstr) : outcome (cstr + unit) * list cstr :=
  match
        '(_, size, segs) ← read_len fuel segs (replicate BUF nul) (Z.of_nat SIZE_FIELD);
      s ← string_at size 0;
      sz ← atoi s;
      '(bytes, buf, segs) ← read_len fuel segs (replicate BUF nul) sz;
      if decide (bytes = -1 ∨ bytes = 0)%Z then Ok (inr tt, segs)
      else m ← string_at buf 0; Ok (inl m, segs)
  with
  | Ok (m, segs') => (Ok m, segs')
  | Undef w => (Undef w, [])
  | OutOfFuel => (OutOfFuel, [])
  end.
End server.

(** * The client *)

(** [sprintf(size_str, "%d", sz)] and the eight characters that are then written
    from there; [size_str] is the array it points to, [None] while it is not
    initialised. *)
Definition send_size (size_str : option cstr) (sz : Z) : outcome cstr :=
  s ← require Uninitialised size_str;
  t ← strcpy (List.length s) (print_int sz);
  Ok (take SIZE_FIELD (t ++ nul :: drop (S (List.length t)) s)).

(** [do { ... } while (bytes_left > 0)]: [accepted] is what each write takes;
    [None] is a failing one, which ends the client. The bytes sent, and whether
    no write failed. *)
Fixpoint write_loop (accepted : list (option Z)) (buf : cstr) (write_ptr : nat) (sz bytes_left : Z) : outcome (cstr * bool) :=
  match accepted with
  | [] => OutOfFuel
  | None :: _ => Ok ([], false)
  | Some w :: accepted' =>
      if decide (List.length buf < write_ptr + Z.to_nat sz) then Undef OutOfBounds else
      let sent := take (Z.to_nat w) (drop write_ptr buf) in
      let left := wrap64 (bytes_left - w) in
      if decide (left > 0)%Z then
        '(rest, ok) ← write_loop accepted' buf (write_ptr + Z.to_nat w) sz left;
        Ok (sent ++ rest, ok)
      else Ok (sent, true)
  end.


(** The results of the writes of one message: of the size, [None] when it fails,
    which is reported only, and of the string. *)
Abbreviation writes := (option Z * list (option Z))%type.

(** [client.c] declares [size_str] in its loop and never sets it. The loop is
    also given for an array it would point to. *)
Section client.
Context (size_str : option cstr).


End client.



Section facts.
Context (fails : bool) (L : nat) (HL : 0 < L ≤ BUF).



End facts.









(** A size that is larger than the buffer is accepted. *)
Example large_message :
  receive false 3 [lit "500" ++ replicate 5 nul; replicate 200 "a"%char] = (Undef OutOfBounds, []).
Proof. vm_compute. reflexivity. Qed.
(** A message that arrives in two pieces is not put together. *)
Example split_message :
  receive false 5 [lit "6" ++ replicate 7 nul; lit "hel"; lit "lo" ++ [nul]; lit "7" ++ replicate 7 nul] =
  (Ok (inl (lit "lo")), [lit "7" ++ replicate 7 nul]).
Proof. vm_compute. reflexivity. Qed.

Example short_write : write_loop [Some 2; Some 3; None]%Z (lit "abc" ++ replicate 5 nul) 0 3 3 = Ok (lit "abc" ++ [nul; nul], false).
Proof. reflexivity. Qed.
Example first_size : send_size None 6 = Undef Uninitialised.
Proof. reflexivity. Qed.












